(* ===== verification/_CoqProject ===== *)
-Q . S2P
Prelude.v
GoStd.v
Json.v
JsonDecode.v
JsonCodec.v
Hash.v
Ids.v
EngineIO.v
SocketIO.v
NativeWS.v
Replay.v
Client.v
Session.v
SessionStore.v
SessionInv.v
Registry.v
Recovery.v
Hub.v
Transport.v
Polling.v
PollManager.v
Pumps.v
Upgraders.v
Config.v
Server.v
Frame.v
ServerTables.v
ServerInv.v
ServerSpec.v
Links.v
Served.v
Dispatch.v
Stats.v
Anomalies.v
