(* ===== verification/Prelude.v ===== *)
(** * go-socket: a verification library

    go-socket is a WebSocket server library: a public package (src/) with
    connections, rooms, middleware and session recovery, and internal packages
    for the session registry, the hub, the transports (native and gorilla
    WebSocket, Engine.IO over WebSocket, HTTP long-polling) and the packet
    codecs. This library translates its Go code into functions on explicit
    state and proves what makes it correct.

    ** The parts and the files that model them

    Foundations, in this order: [Prelude.v] (bytes, machine integers, results,
    automation), [GoStd.v] (strconv, bytes.Split, channels), [Json.v],
    [JsonDecode.v], [JsonCodec.v] (what encoding/json writes and reads, and that
    they are inverse), [Hash.v] (SHA-1, SHA-256, base64, hex), [Ids.v] (random
    names).

    Codecs. [EngineIO.v]: internal/engineio (packets, batches, the open packet).
    [SocketIO.v]: internal/socketio/packet.go. [NativeWS.v]:
    internal/nativews/conn.go, the RFC 6455 frames, messages and handshake, and
    the echo loop of tools/autobahn.

    Recovery. [Replay.v]: [replayBuffer] and [keyWindow] of internal/session.go.
    [Client.v]: the [Client] object of internal/client.go. [Session.v]: the
    [Session] type and [TrySendPolicy]. [SessionStore.v]: [Open], [Leave],
    [Sweep]. [SessionInv.v] and [Registry.v]: their invariant, and the registry
    as a transition system of its operations. [Recovery.v]: the registry with
    one peer that follows the protocol of docs/RECOVERY.md.

    Delivery. [Hub.v]: internal/hub.go. [Transport.v]: the [Transport]
    interface as a class with two contracts (what a close promises, where a
    panic may come from), the native transport and
    internal/eio_ws_transport.go. [Polling.v]: internal/polling_transport.go.
    [PollManager.v]: poll_manager.go, session_transport.go and
    engineio_handler.go. [Pumps.v]: [ReadPump] and [WritePump] over any
    transport. [Upgraders.v]: the gorilla transport of internal/transport.go
    and the choice of a backend in internal/upgrader.go.

    The server. [Config.v]: types.go, the settings and wire messages of
    recovery.go, the contexts of context.go. [Server.v]: server.go, context.go,
    middleware.go, recover.go, recovery.go. [Frame.v]: what application code can
    do to the server. [ServerTables.v] (counters and panics), [ServerInv.v] (the
    server calls the registry as it should), [ServerSpec.v] (refinement,
    idempotency), [Links.v] (who the hub still knows), [Served.v] (what a
    recovering peer of the server observes), [Dispatch.v] (messages): its
    theorems. [Stats.v]: the statistics. [Anomalies.v]: runs that contradict the
    documentation.

    ** State and steps

    Go objects reached through pointers live in finite maps from numbers:
    clients and sessions in the [world] of [Client.v] and [Session.v], polling
    and session transports in the heaps of [PollManager.v]. A method that runs
    under a mutex, or in the goroutine that owns its data, is one function on
    that state; where the code can be interleaved otherwise, the pieces are
    separate steps: the turns of the two pumps, the frames of the network and
    the wake-ups of a blocked read, the turns of the hub, the goroutines that
    shut slow consumers down, the sweeps, the tests a new connection has to pass
    ([EvAdmit]) and its attachment ([EvConnect], or [EvAbandon] when the
    handshake fails). A map is visited in an arbitrary order that the caller
    gives. A run-time panic is [None] or an explicit value ([RuntimePanic],
    [SigPanic]) that the callers pass on, and theorems say when there is none: a
    panic of a transport ends the run of its pumps, one of application code is
    recovered where the code recovers it and else recorded in [st_crashed]. Time
    is an argument. Integers are [Z] with the wrap-around of their width written
    out ([i64], [u64], [i32], [Z_byte]).

    Application code (middleware, handlers, callbacks) is any finite program
    over the methods of a context: [prog] of [Server.v]; it may panic, and so may
    [OwnerFunc]. Natively, [Close] does not empty the connection's
    [bufio.Reader]: a closed transport still serves what was read ahead,
    [nt_ahead] bytes, which may be any number. Code outside the repository is a
    parameter: gorilla/websocket is the class [GorillaConn] with the laws
    [GorillaLaws] of its documentation, and [tape] is a connection that keeps
    them; the HTTP server and random names are arguments.

    ** What the theorems show

    - Recovery: a peer receives a prefix of the events numbered for its session,
      each once and in order, across disconnects and resumes, and all of them
      once both sides go on; a resume is granted exactly when its contract says
      so; every registry operation keeps the registry's invariant and never
      panics; the caps of the buffer, of the key window and of the parked list.
    - Refinement: the replay buffer and the key window act on their lists, the
      delivery of an event follows its specification for each policy, the hub
      follows its specification on sets, the server makes only registry calls
      within the registry's contract.
    - The composition: the server with any application and one recovering peer
      is simulated by the recovery protocol, so the peer gets the events of its
      session each once and in order, and catches up when it is connected; the
      hub knows nobody but the connections and the members of parked sessions.
    - The server: connections are counted, and exceed their maximum by less than
      the number [M] of handshakes in progress at one time; panics are contained
      but for those of [OnConnect] callbacks and of [OwnerFunc]; a message is
      handled once per idempotency key, panicking handlers included, and as it
      was sent, with recovery on or off; an acknowledgement trims the log and
      does nothing else; an answer is given once, whatever method gives it; the
      statistics are those of the state.
    - Connections: frames go out in order and the pumps die of a panicking read
      only, a peer that is silent is given up by the heartbeat rule, a shutdown
      stops both pumps once what was read ahead is served.
    - Codecs: JSON, Engine.IO, Socket.IO and WebSocket round trips, the frames of
      RFC 6455, the bound on a message, and that a call reads no further than
      the frames that decide it.
    - Behaviour that contradicts the documentation is stated as theorems too
      ([encode_not_inverse], [negative_length_kills],
      [frame_header_length], [eio_read_drops_batch], [close_race_panics],
      [poll_stale_wake], [upgrade_hands_over], [broadcast_twice_while_resuming],
      [gorilla_timeout_is_final], [onConnect_panic_escapes],
      [owner_panic_escapes], [admission_not_atomic] and [Anomalies.v]).

    ** Bounds and fuel

    The scanner of [JsonDecode.v] gets the length of its text as fuel, which
    [fuel_enough] shows to be enough; [ReadMessage] gets the length of the
    bytes that arrive, which is enough since every frame takes some
    ([ReadMessage_no_fuel]), and more bytes change nothing in what it returns
    before their end ([ReadMessage_local]); the loops of the registry get the
    length of the list they consume. A blocked read is given a
    finite schedule of wake-ups and uses at least one per turn. Theorems on the
    server assume fewer than 2^64 - 2 frames sent, since a session numbers
    frames with a 64-bit integer, and that each program of the application makes
    at most [N] calls, for any [N].

    ** Not modelled

    Logging and preset event names (output and constants); write deadlines;
    [ParseHandshake] and [Context.Bind] (not called by the library); the
    registration of callbacks, which is the record [app]; the snapshots in
    [connStats]; the interior of gorilla/websocket and of net/http; panics of
    [CheckOrigin], which runs in a goroutine of net/http that recovers them.
    Apart from the admission of connections, handlers of the public package run
    one after the other in [Server.v]; one interleaving that matters is stated
    apart ([broadcast_twice_while_resuming]). *)
From Stdlib Require Export Init.Byte Strings.Byte ZArith Lia.
From stdpp Require Export base list gmap strings fin_maps.

#[global] Open Scope Z_scope.

(** ** Go byte slices and strings *)

Abbreviation bytes := (list byte).

(** [bs s] is the Go conversion [[]byte(s)]; [str b] is [string(b)]. *)
Definition bs (s : string) : bytes := String.list_byte_of_string s.
Definition str (b : bytes) : string := String.string_of_list_byte b.

(** [len l] is Go's [len], as a (64-bit) integer. *)
Definition len {A} (l : list A) : Z := Z.of_nat (length l).

#[export] Instance byte_eq_dec : EqDecision byte := Byte.byte_eq_dec.

Definition byte_Z (b : byte) : Z := Z.of_N (Byte.to_N b).

(** Go's [byte(n)] conversion: truncation to the low eight bits. *)
Definition Z_byte (z : Z) : byte :=
  default x00 (Byte.of_N (Z.to_N (z mod 256))).

(** ** Machine integers *)

Definition u64 (z : Z) : Z := z mod 2 ^ 64.
Definition i64 (z : Z) : Z := (z + 2 ^ 63) mod 2 ^ 64 - 2 ^ 63.
Definition max_int : Z := 2 ^ 63 - 1.
Definition max_uint64 : Z := 2 ^ 64 - 1.

(** ** Results of fallible operations *)

Inductive result (E A : Type) : Type :=
  | Ok (a : A)
  | Err (e : E).
Arguments Ok {E A} a.
Arguments Err {E A} e.

#[export] Instance result_ret E : MRet (result E) := fun A a => Ok a.
#[export] Instance result_bind E : MBind (result E) := fun A B f m =>
  match m with Ok a => f a | Err e => Err e end.
#[export] Instance result_fmap E : FMap (result E) := fun A B f m =>
  match m with Ok a => Ok (f a) | Err e => Err e end.

Definition is_ok {E A} (r : result E A) : bool :=
  match r with Ok _ => true | Err _ => false end.
Definition map_err {E E' A} (f : E -> E') (r : result E A) : result E' A :=
  match r with Ok a => Ok a | Err e => Err (f e) end.

(** Mapping a fallible function over a list, stopping at the first error. *)
Fixpoint mapE {E A B} (f : A -> result E B) (l : list A) : result E (list B) :=
  match l with
  | [] => Ok []
  | a :: l' => b ← f a; bs' ← mapE f l'; Ok (b :: bs')
  end.

(** ** Tactics *)

(** Case analysis on the first [match] of the goal or of a hypothesis. *)
Ltac destr_match :=
  match goal with
  | |- context [match ?x with _ => _ end] => let E := fresh "E" in destruct x eqn:E
  | H : context [match ?x with _ => _ end] |- _ => let E := fresh "E" in destruct x eqn:E
  end.

(** Case analysis on the test of a goal [(if c then _ else _) = _ -> _]. *)
Ltac if_case E :=
  match goal with |- (if ?c then _ else _) = _ -> _ => destruct c eqn:E end.

(** Turn boolean tests on integers into propositions. *)
Ltac zify_bool :=
  repeat match goal with
  | H : _ && _ = true |- _ => apply andb_prop in H; destruct H
  | H : _ && _ = false |- _ => apply andb_false_iff in H
  | H : _ || _ = true |- _ => apply orb_prop in H
  | H : _ || _ = false |- _ => apply orb_false_elim in H; destruct H
  | H : negb _ = true |- _ => apply negb_true_iff in H
  | H : negb _ = false |- _ => apply negb_false_iff in H
  | H : (_ =? _) = true |- _ => apply Z.eqb_eq in H
  | H : (_ =? _) = false |- _ => apply Z.eqb_neq in H
  | H : (_ <? _) = true |- _ => apply Z.ltb_lt in H
  | H : (_ <? _) = false |- _ => apply Z.ltb_ge in H
  | H : (_ <=? _) = true |- _ => apply Z.leb_le in H
  | H : (_ <=? _) = false |- _ => apply Z.leb_gt in H
  | H : (_ >? _) = true |- _ => rewrite Z.gtb_ltb in H
  | H : (_ >? _) = false |- _ => rewrite Z.gtb_ltb in H
  | H : (_ >=? _) = true |- _ => rewrite Z.geb_leb in H
  | H : (_ >=? _) = false |- _ => rewrite Z.geb_leb in H
  end.

(** ** Lemmas on bytes *)

Lemma byte_Z_range b : 0 <= byte_Z b < 256.
Proof. unfold byte_Z. pose proof (Byte.to_N_bounded b). lia. Qed.

Lemma Z_byte_Z b : Z_byte (byte_Z b) = b.
Proof.
  unfold Z_byte. pose proof (byte_Z_range b).
  rewrite Z.mod_small by lia. unfold byte_Z. rewrite N2Z.id, Byte.of_to_N. done.
Qed.

Lemma byte_Z_byte z : byte_Z (Z_byte z) = z mod 256.
Proof.
  unfold Z_byte, byte_Z. pose proof (Z.mod_pos_bound z 256 ltac:(lia)) as Hb.
  destruct (Byte.of_N (Z.to_N (z mod 256))) as [b|] eqn:Hn; simpl.
  - apply Byte.to_of_N in Hn. rewrite Hn. lia.
  - apply Byte.of_N_None_iff in Hn. lia.
Qed.

Lemma byte_Z_inj b1 b2 : byte_Z b1 = byte_Z b2 -> b1 = b2.
Proof. intros H. rewrite <- (Z_byte_Z b1), <- (Z_byte_Z b2), H. done. Qed.

Lemma bs_str b : bs (str b) = b.
Proof. apply String.list_byte_of_string_of_list_byte. Qed.
Lemma str_bs s : str (bs s) = s.
Proof. apply String.string_of_list_byte_of_string. Qed.
Lemma bs_inj s1 s2 : bs s1 = bs s2 -> s1 = s2.
Proof. intros H. rewrite <- (str_bs s1), <- (str_bs s2), H. done. Qed.
Lemma str_inj b1 b2 : str b1 = str b2 -> b1 = b2.
Proof. intros H. rewrite <- (bs_str b1), <- (bs_str b2), H. done. Qed.

(** ** Lemmas on lengths and machine integers *)

Lemma len_nonneg {A} (l : list A) : 0 <= len l.
Proof. unfold len. lia. Qed.
Lemma len_nil {A} : len (@nil A) = 0.
Proof. done. Qed.
Lemma len_cons {A} (a : A) l : len (a :: l) = 1 + len l.
Proof. unfold len. simpl. lia. Qed.
Lemma len_app {A} (l1 l2 : list A) : len (l1 ++ l2) = len l1 + len l2.
Proof. unfold len. rewrite length_app. lia. Qed.
Lemma len_map {A B} (f : A -> B) (l : list A) : len (map f l) = len l.
Proof. unfold len. by rewrite length_map. Qed.
Lemma len_zero_nil {A} (l : list A) : len l = 0 -> l = [].
Proof. unfold len. destruct l; simpl; [done|lia]. Qed.

Lemma u64_small z : 0 <= z < 2 ^ 64 -> u64 z = z.
Proof. apply Z.mod_small. Qed.
Lemma i64_small z : - 2 ^ 63 <= z < 2 ^ 63 -> i64 z = z.
Proof. intros H. unfold i64. rewrite Z.mod_small; lia. Qed.
Lemma i64_range z : - 2 ^ 63 <= i64 z < 2 ^ 63.
Proof. unfold i64. pose proof (Z.mod_pos_bound (z + 2 ^ 63) (2 ^ 64)). lia. Qed.

Create HintDb gosocket.
Create Rewrite HintDb gosocket.
#[export] Hint Resolve byte_Z_range len_nonneg i64_range : gosocket.
#[export] Hint Rewrite @len_nil @len_cons @len_app Z_byte_Z byte_Z_byte bs_str str_bs : gosocket.

(** ** Lemmas on [mapE] *)

Lemma mapE_Ok {E A B} (f : A -> result E B) l l' :
  mapE f l = Ok l' <-> Forall2 (fun a b => f a = Ok b) l l'.
Proof.
  revert l'. induction l as [|a l IH]; intros l'; simpl.
  - split; intros H; [inv H; constructor|by inv H].
  - unfold mbind, result_bind. split.
    + destruct (f a) eqn:Ha; [|done]. destruct (mapE f l) eqn:Hl; [|done].
      intros H. inv H. constructor; [done|]. by apply IH.
    + intros H. inv H. rewrite H2. apply IH in H4. by rewrite H4.
Qed.
