(* ===== verification/GoStd.v ===== *)
(** * The parts of Go's language and standard library the server relies on

    Decimal conversions of [strconv], [bytes.Split] on a one-byte separator
    and buffered channels with their non-blocking operations. *)
From S2P Require Import Prelude.

(** ** strconv *)

Inductive NumError := ErrSyntax | ErrRange.

Definition is_digit (b : byte) : bool := (48 <=? byte_Z b) && (byte_Z b <=? 57).
Definition digit_byte (d : Z) : byte := Z_byte (48 + d).
Definition digit_val (b : byte) : option Z :=
  if is_digit b then Some (byte_Z b - 48) else None.

(** [formatBits] for base 10: digits are produced from the low end. A 64-bit
    value has at most twenty of them. *)
Fixpoint fmt_digits (fuel : nat) (u : Z) (acc : bytes) : bytes :=
  match fuel with
  | O => acc
  | S fuel' =>
      let acc' := digit_byte (u mod 10) :: acc in
      if u <? 10 then acc' else fmt_digits fuel' (u / 10) acc'
  end.
Definition FormatUint (u : Z) : bytes := fmt_digits 20 u [].
Definition Itoa (n : Z) : bytes :=
  if n <? 0 then x2d :: FormatUint (- n) else FormatUint n.

(** [ParseUint(s, 10, 64)]: [cutoff] is [maxUint64/10 + 1]. *)
Definition parse_cutoff : Z := max_uint64 / 10 + 1.
Fixpoint parse_uint_loop (s : bytes) (n : Z) : result NumError Z :=
  match s with
  | [] => Ok n
  | c :: s' =>
      match digit_val c with
      | None => Err ErrSyntax
      | Some d =>
          if parse_cutoff <=? n then Err ErrRange
          else let n10 := u64 (n * 10) in
               let n1 := u64 (n10 + d) in
               if n1 <? n10 then Err ErrRange else parse_uint_loop s' n1
      end
  end.
Definition ParseUint (s : bytes) : result NumError Z :=
  match s with [] => Err ErrSyntax | _ => parse_uint_loop s 0 end.

(** [Atoi] (that is, [ParseInt(s, 10, 64)]): an optional sign, then digits
    whose value has to fit an [int]. *)
Definition Atoi (s : bytes) : result NumError Z :=
  let '(neg, ds) := match s with
                    | x2d :: s' => (true, s')
                    | x2b :: s' => (false, s')
                    | _ => (false, s)
                    end in
  un ← ParseUint ds;
  if negb neg && (2 ^ 63 <=? un) then Err ErrRange
  else if neg && (2 ^ 63 <? un) then Err ErrRange
  else Ok (if neg : bool then - un else un).

(** ** bytes.Split and joining, for a separator of one byte *)

Fixpoint split_sep (sep : byte) (l : bytes) : list bytes :=
  match l with
  | [] => [[]]
  | c :: l' =>
      if decide (c = sep) then [] :: split_sep sep l'
      else match split_sep sep l' with
           | [] => [[c]]
           | h :: t => (c :: h) :: t
           end
  end.

Fixpoint join_sep (sep : byte) (ls : list bytes) : bytes :=
  match ls with
  | [] => []
  | [l] => l
  | l :: ls' => l ++ sep :: join_sep sep ls'
  end.

(** ** Buffered channels *)

Record chan (A : Type) := Chan {
  ch_cap : nat;
  ch_buf : list A;
  ch_closed : bool
}.
Arguments Chan {A}.
Arguments ch_cap {A}.
Arguments ch_buf {A}.
Arguments ch_closed {A}.

Definition make_chan {A} (cap : nat) : chan A := Chan cap [] false.

(** [select { case ch <- a: ... default: ... }]: sending on a closed channel
    panics, sending on a full one takes the default branch. *)
Inductive send_res (A : Type) :=
  | Sent (ch : chan A)
  | WouldBlock
  | SendPanic.
Arguments Sent {A}.
Arguments WouldBlock {A}.
Arguments SendPanic {A}.

Definition try_send {A} (ch : chan A) (a : A) : send_res A :=
  if ch_closed ch then SendPanic
  else if (length (ch_buf ch) <? ch_cap ch)%nat
       then Sent (Chan (ch_cap ch) (ch_buf ch ++ [a]) false)
       else WouldBlock.

(** [v, ok := <-ch]: buffered values are received even after [close]. *)
Inductive recv_res (A : Type) :=
  | Received (a : A) (ch : chan A)
  | RecvClosed
  | RecvBlocks.
Arguments Received {A}.
Arguments RecvClosed {A}.
Arguments RecvBlocks {A}.

Definition recv {A} (ch : chan A) : recv_res A :=
  match ch_buf ch with
  | a :: l => Received a (Chan (ch_cap ch) l (ch_closed ch))
  | [] => if ch_closed ch then RecvClosed else RecvBlocks
  end.

(** [close(ch)]; closing a closed channel panics ([None]). *)
Definition close_chan {A} (ch : chan A) : option (chan A) :=
  if ch_closed ch then None else Some (Chan (ch_cap ch) (ch_buf ch) true).

Definition chan_wf {A} (ch : chan A) : Prop := (length (ch_buf ch) <= ch_cap ch)%nat.

(** ** Lemmas on decimal conversion *)

Lemma is_digit_digit_byte d : 0 <= d < 10 -> is_digit (digit_byte d) = true.
Proof.
  intros H. unfold is_digit, digit_byte. rewrite byte_Z_byte, Z.mod_small by lia. lia.
Qed.

Lemma digit_val_digit_byte d : 0 <= d < 10 -> digit_val (digit_byte d) = Some d.
Proof.
  intros H. unfold digit_val. rewrite is_digit_digit_byte by lia.
  unfold digit_byte. rewrite byte_Z_byte, Z.mod_small by lia. f_equal; lia.
Qed.

Lemma digit_val_range b d : digit_val b = Some d -> 0 <= d < 10.
Proof.
  unfold digit_val, is_digit. destruct (_ && _) eqn:E; [|done]. intros [= <-].
  zify_bool. lia.
Qed.

Lemma fmt_digits_app fuel u acc : fmt_digits fuel u acc = fmt_digits fuel u [] ++ acc.
Proof.
  revert u acc. induction fuel as [|fuel IH]; intros u acc; simpl; [done|].
  destruct (u <? 10); [done|]. rewrite IH, (IH _ [_]), <- app_assoc. done.
Qed.

Lemma fmt_digits_digits fuel u : 0 <= u -> Forall (fun b => is_digit b) (fmt_digits fuel u []).
Proof.
  revert u. induction fuel as [|fuel IH]; intros u Hu; simpl; [constructor|].
  assert (is_digit (digit_byte (u mod 10))).
  { rewrite is_digit_digit_byte; [done|]. apply Z.mod_pos_bound. lia. }
  destruct (u <? 10); [by repeat constructor|].
  rewrite fmt_digits_app. apply Forall_app. split; [|by repeat constructor].
  apply IH. apply Z.div_pos; lia.
Qed.

Lemma FormatUint_digits u : 0 <= u -> Forall (fun b => is_digit b) (FormatUint u).
Proof. apply fmt_digits_digits. Qed.

Lemma fmt_digits_nonempty fuel u acc : fmt_digits (S fuel) u acc <> [].
Proof.
  revert u acc. induction fuel as [|fuel IH]; intros u acc; simpl.
  - by destruct (u <? 10).
  - destruct (u <? 10); [done|]. apply IH.
Qed.

Lemma FormatUint_nonempty u : FormatUint u <> [].
Proof. apply fmt_digits_nonempty. Qed.

(** The value of a digit string, most significant digit first. *)
Fixpoint dec_val (s : bytes) (n : Z) : Z :=
  match s with
  | [] => n
  | c :: s' => dec_val s' (n * 10 + (byte_Z c - 48))
  end.

Lemma dec_val_app s1 s2 n : dec_val (s1 ++ s2) n = dec_val s2 (dec_val s1 n).
Proof. revert n. induction s1; intros n; simpl; [done|]. apply IHs1. Qed.

Lemma dec_val_digit_byte d s n : 0 <= d < 10 ->
  dec_val (digit_byte d :: s) n = dec_val s (n * 10 + d).
Proof.
  intros H. simpl. unfold digit_byte. rewrite byte_Z_byte, Z.mod_small by lia.
  f_equal. lia.
Qed.

Lemma fmt_digits_val fuel u : 0 <= u < 10 ^ Z.of_nat fuel ->
  dec_val (fmt_digits fuel u []) 0 = u.
Proof.
  revert u. induction fuel as [|fuel IH]; intros u Hu.
  - simpl in Hu. simpl. lia.
  - simpl fmt_digits. pose proof (Z.mod_pos_bound u 10 ltac:(lia)).
    pose proof (Z.div_mod u 10 ltac:(lia)).
    destruct (Z.ltb_spec u 10).
    + rewrite dec_val_digit_byte by lia. simpl. rewrite Z.mod_small; lia.
    + rewrite fmt_digits_app, dec_val_app, dec_val_digit_byte by lia.
      rewrite IH; [simpl; lia|]. split; [apply Z.div_pos; lia|].
      apply Z.div_lt_upper_bound; [lia|].
      rewrite Nat2Z.inj_succ, Z.pow_succ_r in Hu by lia. lia.
Qed.

Lemma FormatUint_val u : 0 <= u < 2 ^ 64 -> dec_val (FormatUint u) 0 = u.
Proof. intros H. apply fmt_digits_val. simpl. lia. Qed.

Lemma is_digit_val b : is_digit b = true -> digit_val b = Some (byte_Z b - 48).
Proof. unfold digit_val. by intros ->. Qed.

Lemma is_digit_range b : is_digit b = true -> 0 <= byte_Z b - 48 < 10.
Proof. intros H. unfold is_digit in H. zify_bool. lia. Qed.

Lemma dec_val_mono s n : 0 <= n -> Forall (fun b => is_digit b) s -> n <= dec_val s n.
Proof.
  revert n. induction s as [|c s IH]; intros n Hn Hs; simpl; [lia|].
  inv Hs. pose proof (is_digit_range c ltac:(by apply Is_true_true)).
  specialize (IH (n * 10 + (byte_Z c - 48)) ltac:(lia) H2). lia.
Qed.

(** On digits the parser computes the value, and fails exactly on overflow. *)
Lemma parse_uint_loop_digits s n :
  0 <= n < 2 ^ 64 -> Forall (fun b => is_digit b) s ->
  parse_uint_loop s n =
    if dec_val s n <? 2 ^ 64 then Ok (dec_val s n) else Err ErrRange.
Proof.
  revert n. induction s as [|c s IH]; intros n Hn Hs; simpl.
  - rewrite (proj2 (Z.ltb_lt _ _)) by lia. done.
  - inv Hs. apply Is_true_true in H1. pose proof (is_digit_range c H1).
    rewrite (is_digit_val c H1). unfold parse_cutoff.
    pose proof (dec_val_mono s (n * 10 + (byte_Z c - 48)) ltac:(lia) H2).
    change (max_uint64 / 10 + 1) with 1844674407370955162.
    destruct (Z.leb_spec 1844674407370955162 n).
    { destruct (Z.ltb_spec (dec_val s (n * 10 + (byte_Z c - 48))) (2 ^ 64)); [lia|done]. }
    rewrite (u64_small (n * 10)) by lia.
    destruct (Z.ltb_spec (n * 10 + (byte_Z c - 48)) (2 ^ 64)).
    + rewrite u64_small by lia.
      destruct (Z.ltb_spec (n * 10 + (byte_Z c - 48)) (n * 10)); [lia|].
      apply IH; [lia|done].
    + assert (u64 (n * 10 + (byte_Z c - 48)) = n * 10 + (byte_Z c - 48) - 2 ^ 64) as ->.
      { unfold u64. symmetry. apply Z.mod_unique with 1; lia. }
      destruct (Z.ltb_spec (n * 10 + (byte_Z c - 48) - 2 ^ 64) (n * 10)); [|lia].
      destruct (Z.ltb_spec (dec_val s (n * 10 + (byte_Z c - 48))) (2 ^ 64)); [lia|done].
Qed.

Lemma ParseUint_FormatUint u : 0 <= u < 2 ^ 64 -> ParseUint (FormatUint u) = Ok u.
Proof.
  intros H. unfold ParseUint. pose proof (FormatUint_nonempty u).
  destruct (FormatUint u) as [|c s] eqn:E; [done|]. rewrite <- E.
  rewrite parse_uint_loop_digits; [|lia|apply FormatUint_digits; lia].
  rewrite FormatUint_val by lia. by rewrite (proj2 (Z.ltb_lt _ _)) by lia.
Qed.

Lemma ParseUint_range s n : ParseUint s = Ok n -> 0 <= n < 2 ^ 64.
Proof.
  unfold ParseUint. destruct s as [|c s]; [done|].
  assert (forall s m, 0 <= m < 2 ^ 64 -> parse_uint_loop s m = Ok n -> 0 <= n < 2 ^ 64) as Hl.
  { clear. intros s. induction s as [|c s IH]; intros m Hm; simpl; [by intros [= <-]|].
    destruct (digit_val c); [|done]. destruct (_ <=? _); [done|].
    destruct (_ <? _); [done|]. apply IH. apply Z.mod_pos_bound. lia. }
  apply Hl. lia.
Qed.

Lemma digits_no_sign s : Forall (fun b => is_digit b) s ->
  match s with x2d :: s' => (true, s') | x2b :: s' => (false, s') | _ => (false, s) end
  = (false, s).
Proof. intros H. destruct s as [|c s]; [done|]. inv H. by destruct c. Qed.

(** On digit strings [Atoi] is [ParseUint] with the signed range check. *)
Lemma Atoi_digits s : Forall (fun b => is_digit b) s ->
  Atoi s = (un ← ParseUint s; if 2 ^ 63 <=? un then Err ErrRange else Ok un).
Proof. intros H. unfold Atoi. rewrite digits_no_sign by done. done. Qed.

Lemma Atoi_Itoa n : 0 <= n < 2 ^ 63 -> Atoi (Itoa n) = Ok n.
Proof.
  intros H. unfold Itoa. rewrite (proj2 (Z.ltb_ge _ _)) by lia.
  rewrite Atoi_digits by (apply FormatUint_digits; lia).
  rewrite ParseUint_FormatUint by lia. cbn.
  by rewrite (proj2 (Z.leb_gt _ _)) by lia.
Qed.

Lemma Atoi_digits_range s n : Forall (fun b => is_digit b) s -> Atoi s = Ok n -> 0 <= n < 2 ^ 63.
Proof.
  intros Hs. rewrite Atoi_digits by done. destruct (ParseUint s) as [u|] eqn:E; cbn; [|done].
  apply ParseUint_range in E. destruct (Z.leb_spec (2 ^ 63) u); [done|]. intros [= <-]. lia.
Qed.

(** ** Lemmas on splitting *)

Lemma split_sep_nonempty sep l : split_sep sep l <> [].
Proof. destruct l; simpl; [done|]. destruct (decide _); [done|]. by destruct (split_sep _ _). Qed.

Lemma split_sep_app sep p l : sep ∉ p ->
  split_sep sep (p ++ sep :: l) = p :: split_sep sep l.
Proof.
  induction p as [|c p IH]; intros Hp; simpl.
  - by rewrite decide_True.
  - apply not_elem_of_cons in Hp as [? ?].
    rewrite decide_False by done. by rewrite IH.
Qed.

Lemma split_sep_none sep p : sep ∉ p -> split_sep sep p = [p].
Proof.
  induction p as [|c p IH]; intros Hp; simpl; [done|].
  apply not_elem_of_cons in Hp as [? ?].
  rewrite decide_False by done. by rewrite IH.
Qed.

Lemma split_join sep ls : ls <> [] -> Forall (fun l => sep ∉ l) ls ->
  split_sep sep (join_sep sep ls) = ls.
Proof.
  induction ls as [|l ls IH]; intros Hne Hs; [done|]. inv Hs.
  destruct ls as [|l2 ls]; simpl.
  - by apply split_sep_none.
  - rewrite split_sep_app by done. f_equal. by apply IH.
Qed.

Lemma join_split sep l : join_sep sep (split_sep sep l) = l.
Proof.
  induction l as [|c l IH]; simpl; [done|]. destruct (decide (c = sep)) as [->|Hne].
  - pose proof (split_sep_nonempty sep l). destruct (split_sep sep l); [done|].
    simpl in *. by rewrite IH.
  - destruct (split_sep sep l) as [|h t] eqn:E; [by destruct (split_sep_nonempty sep l)|].
    destruct t; simpl in *; by rewrite <- IH.
Qed.

(** ** Lemmas on channels *)

Lemma try_send_wf {A} (ch ch' : chan A) a :
  try_send ch a = Sent ch' -> chan_wf ch' /\ ch_buf ch' = ch_buf ch ++ [a] /\
    ch_cap ch' = ch_cap ch /\ ch_closed ch' = false /\ ch_closed ch = false.
Proof.
  unfold try_send. destruct (ch_closed ch); [done|].
  destruct (Nat.ltb_spec (length (ch_buf ch)) (ch_cap ch)); [|done].
  intros [= <-]. unfold chan_wf. simpl. rewrite length_app. simpl. repeat split. lia.
Qed.

Lemma try_send_panic {A} (ch : chan A) a : try_send ch a = SendPanic <-> ch_closed ch = true.
Proof. unfold try_send. destruct (ch_closed ch); [done|]. by destruct (_ <? _)%nat. Qed.

Lemma try_send_blocks {A} (ch : chan A) a :
  try_send ch a = WouldBlock <-> ch_closed ch = false /\ (ch_cap ch <= length (ch_buf ch))%nat.
Proof.
  unfold try_send. destruct (ch_closed ch); [naive_solver|].
  destruct (Nat.ltb_spec (length (ch_buf ch)) (ch_cap ch)); naive_solver lia.
Qed.

#[export] Hint Resolve FormatUint_digits FormatUint_nonempty split_sep_nonempty : gosocket.
