(* ===== verification/Json.v ===== *)
(** * JSON text as [encoding/json] produces it

    The server builds every control frame and every outbound event with
    [json.Marshal]. This file holds the encoder it relies on: the string
    quoting of [encoding/json] (HTML-safe escapes, UTF-8 validation with the
    replacement character) and a printer for the values the server marshals. *)
From S2P Require Import Prelude.
From S2P Require Import GoStd.

(** ** UTF-8 *)

Definition in_range (lo hi : Z) (b : byte) : bool := (lo <=? byte_Z b) && (byte_Z b <=? hi).
Definition cont : byte -> bool := in_range 128 191.

(** [utf8.DecodeRune] on a sequence whose first byte is at least 0x80: the
    size of a well-formed sequence, or [None] for [RuneError] of width 1. *)
Definition rune_size (l : bytes) : option nat :=
  match l with
  | b0 :: b1 :: l' =>
      if in_range 194 223 b0 && cont b1 then Some 2%nat
      else match l' with
      | b2 :: l'' =>
          if ((in_range 224 224 b0 && in_range 160 191 b1)
              || (in_range 225 236 b0 && cont b1)
              || (in_range 237 237 b0 && in_range 128 159 b1)
              || (in_range 238 239 b0 && cont b1)) && cont b2
          then Some 3%nat
          else match l'' with
          | b3 :: _ =>
              if ((in_range 240 240 b0 && in_range 144 191 b1)
                  || (in_range 241 243 b0 && cont b1)
                  || (in_range 244 244 b0 && in_range 128 143 b1)) && cont b2 && cont b3
              then Some 4%nat else None
          | [] => None
          end
      | [] => None
      end
  | _ => None
  end.

(** ** String quoting *)

Definition hex_digit (n : Z) : byte := Z_byte (if n <? 10 then 48 + n else 87 + n).

(** [htmlSafeSet]: the ASCII bytes copied verbatim. *)
Definition html_safe (b : byte) : bool :=
  in_range 32 127 b && negb (bool_decide (b ∈ [x22; x26; x3c; x3e; x5c])).

(** The escape of an ASCII byte outside [htmlSafeSet]. *)
Definition escape_ascii (b : byte) : bytes :=
  match b with
  | x5c | x22 => [x5c; b]
  | x08 => bs "\b"
  | x0c => bs "\f"
  | x0a => bs "\n"
  | x0d => bs "\r"
  | x09 => bs "\t"
  | _ => bs "\u00" ++ [hex_digit (byte_Z b / 16); hex_digit (byte_Z b mod 16)]
  end.

(** One step of [appendString]: the bytes consumed and the text produced. *)
Definition quote_step (l : bytes) : nat * bytes :=
  match l with
  | [] => (0%nat, [])
  | b :: _ =>
      if byte_Z b <? 128 then (1%nat, if html_safe b then [b] else escape_ascii b)
      else match rune_size l with
           | None => (1%nat, bs "\ufffd")
           | Some n =>
               let r := take n l in
               if decide (r = [xe2; x80; xa8]) then (n, bs "\u2028")
               else if decide (r = [xe2; x80; xa9]) then (n, bs "\u2029")
               else (n, r)
           end
  end.

Fixpoint quote_loop (fuel : nat) (l : bytes) : bytes :=
  match fuel, l with
  | S fuel', _ :: _ =>
      let '(n, out) := quote_step l in out ++ quote_loop fuel' (drop n l)
  | _, _ => []
  end.

(** [appendString]: every step consumes a byte, so the length is enough fuel. *)
Definition quote (s : string) : bytes :=
  x22 :: quote_loop (length (bs s)) (bs s) ++ [x22].

(** ** Values *)

Inductive jval :=
  | JNull
  | JBool (b : bool)
  | JInt (n : Z)
  | JStr (s : string)
  | JArr (l : list jval)
  | JObj (l : list (string * jval))
  | JRaw (text : bytes).  (** the text of an application value *)

Definition comma_sep (ls : list bytes) : bytes := join_sep x2c ls.

Fixpoint print (v : jval) : bytes :=
  match v with
  | JNull => bs "null"
  | JBool true => bs "true"
  | JBool false => bs "false"
  | JInt n => Itoa n
  | JStr s => quote s
  | JArr l => x5b :: comma_sep (map print l) ++ [x5d]
  | JObj l =>
      x7b :: comma_sep (map (fun '(k, v) => quote k ++ x3a :: print v) l) ++ [x7d]
  | JRaw t => t
  end.

(** A field tagged [omitempty]. *)
Definition omit_if (c : bool) (k : string) (v : jval) : list (string * jval) :=
  if c then [] else [(k, v)].

Arguments rune_size : simpl never.

(** ** No control character in the output *)

Definition no_ctl (l : bytes) : Prop := Forall (fun b => 32 <= byte_Z b) l.

Lemma no_ctl_app l1 l2 : no_ctl (l1 ++ l2) <-> no_ctl l1 /\ no_ctl l2.
Proof. apply Forall_app. Qed.

Lemma hex_digit_no_ctl n : 0 <= n < 16 -> 32 <= byte_Z (hex_digit n).
Proof.
  intros H. unfold hex_digit. rewrite byte_Z_byte. destruct (Z.ltb_spec n 10).
  - rewrite Z.mod_small; lia.
  - rewrite Z.mod_small; lia.
Qed.

Lemma rune_size_bound l n : rune_size l = Some n -> (2 <= n <= length l)%nat.
Proof.
  unfold rune_size. destruct l as [|b0 [|b1 l]]; [done|done|].
  if_case E0; [intros [= <-]; simpl; lia|].
  destruct l as [|b2 l]; [done|].
  if_case E1; [intros [= <-]; simpl; lia|].
  destruct l as [|b3 l]; [done|].
  if_case E2; [intros [= <-]; simpl; lia|done].
Qed.

Lemma in_range_spec lo hi b : in_range lo hi b = true <-> lo <= byte_Z b <= hi.
Proof. unfold in_range. rewrite andb_true_iff, !Z.leb_le. done. Qed.

(** The continuation bytes of a well-formed sequence are at least 0x80. *)
Lemma rune_size_high l n : 128 <= byte_Z (default x00 (head l)) ->
  rune_size l = Some n -> Forall (fun b => 128 <= byte_Z b) (take n l).
Proof.
  unfold rune_size, cont. destruct l as [|b0 [|b1 l]]; [done|done|]. simpl. intros H0.
  if_case E2.
  { intros [= <-]. apply andb_prop in E2 as [_ E2]. apply in_range_spec in E2.
    repeat constructor; simpl; lia. }
  destruct l as [|b2 l]; [done|].
  if_case E3.
  { intros [= <-]. apply andb_prop in E3 as [E3 H2]. apply in_range_spec in H2.
    rewrite !orb_true_iff, !andb_true_iff, !in_range_spec in E3.
    repeat constructor; simpl; lia. }
  destruct l as [|b3 l]; [done|].
  if_case E4; [|done].
  intros [= <-]. apply andb_prop in E4 as [E4 H3]. apply andb_prop in E4 as [E4 H2].
  apply in_range_spec in H2, H3.
  rewrite !orb_true_iff, !andb_true_iff, !in_range_spec in E4.
  repeat constructor; simpl; lia.
Qed.

Lemma quote_step_no_ctl l : no_ctl (quote_step l).2.
Proof.
  unfold no_ctl, quote_step. destruct l as [|b l]; [constructor|].
  destruct (Z.ltb_spec (byte_Z b) 128); simpl.
  - destruct (html_safe b) eqn:Hs.
    + unfold html_safe in Hs. apply andb_prop in Hs as [Hs _]. apply in_range_spec in Hs.
      repeat constructor. lia.
    + unfold escape_ascii.
      assert (Forall (fun b => 32 <= byte_Z b)
        (bs "\u00" ++ [hex_digit (byte_Z b / 16); hex_digit (byte_Z b mod 16)])) as Hd.
      { apply Forall_app. split; [repeat constructor; vm_compute; done|].
        pose proof (byte_Z_range b).
        assert (0 <= byte_Z b / 16 < 16) by (split; [apply Z.div_pos|apply Z.div_lt_upper_bound]; lia).
        pose proof (Z.mod_pos_bound (byte_Z b) 16).
        repeat constructor; apply hex_digit_no_ctl; lia. }
      destruct b; try exact Hd; repeat constructor; vm_compute; done.
  - destruct (rune_size (b :: l)) as [n|] eqn:Hn; simpl.
    + repeat (destruct (decide _); simpl; [repeat constructor; vm_compute; done|]).
      eapply Forall_impl; [eapply rune_size_high, Hn; simpl; lia|]. simpl. lia.
    + repeat constructor; vm_compute; done.
Qed.

Lemma quote_loop_no_ctl fuel l : no_ctl (quote_loop fuel l).
Proof.
  revert l. induction fuel as [|fuel IH]; intros l; simpl; [constructor|].
  destruct l as [|b l]; [constructor|].
  pose proof (quote_step_no_ctl (b :: l)) as Hs.
  destruct (quote_step (b :: l)) as [n out]. apply no_ctl_app. split; [done|apply IH].
Qed.

Lemma quote_no_ctl s : no_ctl (quote s).
Proof.
  unfold quote. constructor; [vm_compute; done|]. apply no_ctl_app.
  split; [apply quote_loop_no_ctl|]. repeat constructor; vm_compute; done.
Qed.

Lemma digits_no_ctl s : Forall (fun b => is_digit b) s -> no_ctl s.
Proof.
  intros H. eapply Forall_impl; [exact H|]. intros b Hb. apply Is_true_true in Hb.
  apply is_digit_range in Hb. simpl. lia.
Qed.

Lemma Itoa_no_ctl n : no_ctl (Itoa n).
Proof.
  unfold Itoa. destruct (Z.ltb_spec n 0).
  - constructor; [vm_compute; done|]. apply digits_no_ctl, FormatUint_digits. lia.
  - apply digits_no_ctl, FormatUint_digits. lia.
Qed.

Lemma join_sep_no_ctl c ls : 32 <= byte_Z c -> Forall no_ctl ls -> no_ctl (join_sep c ls).
Proof.
  intros Hc. induction 1 as [|l ls Hl Hls IH]; simpl; [constructor|].
  destruct ls; [done|]. apply no_ctl_app. split; [done|]. constructor; [done|exact IH].
Qed.

(** The application texts inside a value are free of control characters. *)
Fixpoint raw_ok (v : jval) : Prop :=
  match v with
  | JArr l => (fix go l := match l with [] => True | v :: l' => raw_ok v /\ go l' end) l
  | JObj l => (fix go l := match l with [] => True | (_, v) :: l' => raw_ok v /\ go l' end) l
  | JRaw t => no_ctl t
  | _ => True
  end.

Lemma print_no_ctl : forall v, raw_ok v -> no_ctl (print v).
Proof.
  fix IH 1. intros [| [|] | n | s | l | l | t]; cbn [print raw_ok]; intros Hr.
  - repeat constructor; vm_compute; done.
  - repeat constructor; vm_compute; done.
  - repeat constructor; vm_compute; done.
  - apply Itoa_no_ctl.
  - apply quote_no_ctl.
  - constructor; [vm_compute; done|]. apply no_ctl_app. split.
    + apply join_sep_no_ctl; [vm_compute; done|].
      induction l as [|v l IHl]; [constructor|]. destruct Hr as [Hv Hl].
      constructor; [by apply IH|by apply IHl].
    + repeat constructor; vm_compute; done.
  - constructor; [vm_compute; done|]. apply no_ctl_app. split.
    + apply join_sep_no_ctl; [vm_compute; done|].
      induction l as [|[k v] l IHl]; [constructor|]. destruct Hr as [Hv Hl].
      constructor; [|by apply IHl].
      apply no_ctl_app. split; [apply quote_no_ctl|].
      constructor; [vm_compute; done|]. by apply IH.
    + repeat constructor; vm_compute; done.
  - done.
Qed.

Lemma no_ctl_not_elem c l : byte_Z c < 32 -> no_ctl l -> c ∉ l.
Proof.
  intros Hc Hl Hin. unfold no_ctl in Hl. rewrite Forall_forall in Hl.
  specialize (Hl c Hin). simpl in Hl. lia.
Qed.

#[export] Hint Resolve quote_no_ctl Itoa_no_ctl print_no_ctl : gosocket.
