(* ===== verification/JsonDecode.v ===== *)
(** * JSON text as [encoding/json] reads it

    [json.Unmarshal] checks the whole text first and then decodes it into a
    struct. This file holds both: the grammar of the scanner, with its limit on
    nesting, the decoding of string literals, and the decoding of an object
    into a struct of named fields, whose names match case-insensitively and
    whose type errors are remembered. *)
From S2P Require Import Prelude.
From S2P Require Import GoStd.
From S2P Require Import Json.

Module json.

(** ** The scanner *)

Definition is_ws (b : byte) : bool := bool_decide (b ∈ [x20; x09; x0d; x0a]).
Fixpoint skip_ws (l : bytes) : bytes :=
  match l with b :: l' => if is_ws b then skip_ws l' else l | [] => [] end.

Definition hex_val (b : byte) : option Z :=
  if in_range 48 57 b then Some (byte_Z b - 48)
  else if in_range 97 102 b then Some (byte_Z b - 87)
  else if in_range 65 70 b then Some (byte_Z b - 55)
  else None.
Definition is_hex (b : byte) : bool := bool_decide (is_Some (hex_val b)).

(** After the opening quote: what follows the closing one. *)
Definition simple_escape (c : byte) : bool :=
  bool_decide (c ∈ [x62; x66; x6e; x72; x74; x5c; x2f; x22]).
Fixpoint skip_string (l : bytes) : option bytes :=
  match l with
  | [] => None
  | b :: r =>
      if decide (b = x22) then Some r
      else if decide (b = x5c) then
        match r with
        | [] => None
        | c :: r1 =>
            if decide (c = x75) then
              match r1 with
              | h1 :: h2 :: h3 :: h4 :: r2 =>
                  if is_hex h1 && is_hex h2 && is_hex h3 && is_hex h4 then skip_string r2 else None
              | _ => None
              end
            else if simple_escape c then skip_string r1 else None
        end
      else if byte_Z b <? 32 then None else skip_string r
  end.

Definition starts (p : byte -> bool) (l : bytes) : bool :=
  match l with b :: _ => p b | [] => false end.
Definition is_byte (c b : byte) : bool := bool_decide (b = c).

Fixpoint skip_digits (l : bytes) : bytes :=
  match l with b :: l' => if is_digit b then skip_digits l' else l | [] => [] end.
Definition skip_digits1 (l : bytes) : option bytes :=
  if starts is_digit l then Some (skip_digits l) else None.

Definition is_exp (b : byte) : bool := is_byte x65 b || is_byte x45 b.
Definition is_sign (b : byte) : bool := is_byte x2b b || is_byte x2d b.
Definition skip_exp (l : bytes) : option bytes :=
  if starts is_exp l then
    let l' := tail l in skip_digits1 (if starts is_sign l' then tail l' else l')
  else Some l.
Definition skip_frac (l : bytes) : option bytes :=
  if starts (is_byte x2e) l then r ← skip_digits1 (tail l); skip_exp r else skip_exp l.
Definition skip_number (l : bytes) : option bytes :=
  let l := if starts (is_byte x2d) l then tail l else l in
  if starts (is_byte x30) l then skip_frac (tail l)
  else r ← skip_digits1 l; skip_frac r.

Definition strip (p l : bytes) : option bytes :=
  if decide (take (length p) l = p) then Some (drop (length p) l) else None.
Definition expect (b : byte) (l : bytes) : option bytes :=
  match l with c :: r => if decide (c = b) then Some r else None | [] => None end.

(** The text between a point and a later one. *)
Definition between (l r : bytes) : bytes := take (length l - length r) l.

Section loops.
Variable value : bytes -> option bytes.  (* what follows a value *)

(** The values of a non-empty array, up to and including its bracket. *)
Fixpoint elements (fuel : nat) (l : bytes) : option bytes :=
  match fuel with
  | O => None
  | S fuel' =>
      r ← value (skip_ws l);
      match skip_ws r with
      | b :: r' =>
          if decide (b = x2c) then elements fuel' r'
          else if decide (b = x5d) then Some r' else None
      | [] => None
      end
  end.

(** A quoted key, a colon and a value; both as they are written. *)
Definition member (l : bytes) : option ((bytes * bytes) * bytes) :=
  let k := skip_ws l in
  r ← (r ← expect x22 k; skip_string r);
  v ← expect x3a (skip_ws r);
  let v := skip_ws v in
  r' ← value v;
  Some ((between k r, between v r'), r').

(** The members of a non-empty object. *)
Fixpoint members (fuel : nat) (l : bytes) : option (list (bytes * bytes) * bytes) :=
  match fuel with
  | O => None
  | S fuel' =>
      '(m, r') ← member l;
      match skip_ws r' with
      | b :: r'' =>
          if decide (b = x2c) then '(ms, e) ← members fuel' r''; Some (m :: ms, e)
          else if decide (b = x7d) then Some ([m], r'') else None
      | [] => None
      end
  end.
Definition object_members (fuel : nat) (l : bytes) : option (list (bytes * bytes) * bytes) :=
  if starts (is_byte x7d) (skip_ws l) then Some ([], tail (skip_ws l)) else members fuel l.
Definition array_elements (fuel : nat) (l : bytes) : option bytes :=
  if starts (is_byte x5d) (skip_ws l) then Some (tail (skip_ws l)) else elements fuel l.
End loops.

Definition maxNestingDepth : nat := 10000.

(** What follows the value at the start of [l]; [depth] arrays and objects are
    open. Each nesting and each element consumes a byte, so the length of the
    text is enough fuel. *)
Fixpoint skip_value (fuel depth : nat) (l : bytes) : option bytes :=
  match fuel with
  | O => None
  | S fuel' =>
      match l with
      | [] => None
      | b :: r =>
          if decide (b = x22) then skip_string r
          else if decide (b = x7b) then
            if (depth <? maxNestingDepth)%nat
            then snd <$> object_members (skip_value fuel' (S depth)) fuel' r else None
          else if decide (b = x5b) then
            if (depth <? maxNestingDepth)%nat
            then array_elements (skip_value fuel' (S depth)) fuel' r else None
          else if decide (b = x74) then strip (bs "rue") r
          else if decide (b = x66) then strip (bs "alse") r
          else if decide (b = x6e) then strip (bs "ull") r
          else skip_number l
      end
  end.

(** The value of a text that is valid: [checkValid]. *)
Definition top_value (l : bytes) : option bytes :=
  let v := skip_ws l in
  r ← skip_value (length v) 0 v;
  if decide (skip_ws r = []) then Some (between v r) else None.

(** ** String literals *)

Definition encode_rune (r : Z) : bytes :=
  if r <? 128 then [Z_byte r]
  else if r <? 2048 then [Z_byte (192 + r / 64); Z_byte (128 + r mod 64)]
  else if ((55296 <=? r) && (r <=? 57343)) || (1114111 <? r) then [xef; xbf; xbd]
  else if r <? 65536
  then [Z_byte (224 + r / 4096); Z_byte (128 + (r / 64) mod 64); Z_byte (128 + r mod 64)]
  else [Z_byte (240 + r / 262144); Z_byte (128 + (r / 4096) mod 64);
        Z_byte (128 + (r / 64) mod 64); Z_byte (128 + r mod 64)].

(** [getu4]: the code unit of a [\uXXXX] at the start. *)
Definition getu4 (l : bytes) : option Z :=
  match l with
  | x5c :: x75 :: a :: b :: c :: d :: _ =>
      a ← hex_val a; b ← hex_val b; c ← hex_val c; d ← hex_val d;
      Some (((a * 16 + b) * 16 + c) * 16 + d)
  | _ => None
  end.

Definition is_surrogate (r : Z) : bool := (55296 <=? r) && (r <=? 57343).
Definition replacement : bytes := [xef; xbf; xbd].

(** One step of [unquoteBytes]: the bytes consumed and the bytes produced. *)
Definition unquote_step (l : bytes) : nat * bytes :=
  match l with
  | [] => (0%nat, [])
  | x5c :: c :: _ =>
      match c with
      | x75 =>
          match getu4 l with
          | None => (6%nat, [])
          | Some r =>
              if is_surrogate r then
                match getu4 (drop 6 l) with
                | Some r1 =>
                    if (r <? 56320) && (56320 <=? r1) && (r1 <=? 57343)
                    then (12%nat, encode_rune ((r - 55296) * 1024 + (r1 - 56320) + 65536))
                    else (6%nat, replacement)
                | None => (6%nat, replacement)
                end
              else (6%nat, encode_rune r)
          end
      | x62 => (2%nat, [x08])
      | x66 => (2%nat, [x0c])
      | x6e => (2%nat, [x0a])
      | x72 => (2%nat, [x0d])
      | x74 => (2%nat, [x09])
      | _ => (2%nat, [c])
      end
  | b :: _ =>
      if byte_Z b <? 128 then (1%nat, [b])
      else match rune_size l with
           | Some n => (n, take n l)
           | None => (1%nat, replacement)
           end
  end.

Fixpoint unquote_loop (fuel : nat) (l : bytes) : bytes :=
  match fuel, l with
  | S fuel', _ :: _ =>
      let '(n, out) := unquote_step l in out ++ unquote_loop fuel' (drop n l)
  | _, _ => []
  end.

(** The literal with its quotes. *)
Definition unquote (text : bytes) : bytes :=
  let l := take (length text - 2) (tail text) in unquote_loop (length l) l.

(** ** Structs *)

(** [foldName], as far as a name of ASCII letters can tell: the only other
    runes that fold to an ASCII letter are the long s and the Kelvin sign. *)
Fixpoint fold_name (l : bytes) : bytes :=
  match l with
  | [] => []
  | xc5 :: xbf :: r => x53 :: fold_name r
  | xe2 :: x84 :: xaa :: r => x4b :: fold_name r
  | b :: r => (if in_range 97 122 b then Z_byte (byte_Z b - 32) else b) :: fold_name r
  end.

(** A field: its name, and how a value (as written) changes the struct; [None]
    is a type error. *)
Section struct.
Context {T : Type}.
Definition field : Type := (string * (bytes -> T -> option T))%type.

Definition find_field (fs : list field) (key : bytes) : option (bytes -> T -> option T) :=
  match List.find (fun f => bool_decide (bs f.1 = key)) fs with
  | Some f => Some f.2
  | None =>
      match List.find (fun f => bool_decide (fold_name (bs f.1) = fold_name key)) fs with
      | Some f => Some f.2
      | None => None
      end
  end.

(** The members one after the other; an error is returned at the end. *)
Fixpoint set_members (fs : list field) (ms : list (bytes * bytes)) (s : T) : option T :=
  match ms with
  | [] => Some s
  | (k, v) :: ms' =>
      match find_field fs (unquote k) with
      | Some set => s ← set v s; set_members fs ms' s
      | None => set_members fs ms' s
      end
  end.

(** [json.Unmarshal] into a struct that is [s] before; [null] changes nothing,
    and no other value but an object is accepted. *)
Definition Unmarshal (fs : list field) (text : bytes) (s : T) : option T :=
  v ← top_value text;
  if starts (is_byte x7b) v then
    '(ms, _) ← object_members (skip_value (length v) 1) (length v) (tail v); set_members fs ms s
  else if starts (is_byte x6e) v then Some s
  else None.

(** Fields of type [string], [uint64] and [json.RawMessage]. *)
Definition set_string (f : string -> T -> T) (v : bytes) (s : T) : option T :=
  if starts (is_byte x22) v then Some (f (str (unquote v)) s)
  else if starts (is_byte x6e) v then Some s
  else None.
Definition set_uint (f : Z -> T -> T) (v : bytes) (s : T) : option T :=
  if starts (is_byte x6e) v then Some s
  else match ParseUint v with Ok n => Some (f n s) | Err _ => None end.
Definition set_raw (f : bytes -> T -> T) (v : bytes) (s : T) : option T := Some (f v s).
End struct.

(** ** The scanner reads a text whatever follows it

    Only a number can be continued by what follows. *)

Definition delim (l : bytes) : Prop :=
  starts is_digit l = false /\ starts (is_byte x2e) l = false /\ starts is_exp l = false.

(** [l] is a non-empty text [t], then [r]; with enough fuel and any shallower
    depth the parser reads [t] also when something else follows. *)
Definition reads (P : nat -> nat -> bytes -> option bytes) (d : nat) (l r : bytes) : Prop :=
  exists t, l = t ++ r /\ t <> [] /\
    forall f d' e, (length t <= f)%nat -> (d' <= d)%nat -> e = r \/ delim e ->
      P f d' (t ++ e) = Some e.

Lemma skip_ws_spec l : exists w, l = w ++ skip_ws l /\ Forall (fun b => is_ws b) w /\
  starts is_ws (skip_ws l) = false.
Proof.
  induction l as [|b l (w & E & Hw & Hs)]; cbn [skip_ws]; [by exists []|].
  destruct (is_ws b) eqn:Hb; [|by exists []].
  exists (b :: w). split; [by rewrite E at 1|]. split; [|done]. constructor; [by rewrite Hb|done].
Qed.

Lemma skip_ws_app w l : Forall (fun b => is_ws b) w -> starts is_ws l = false -> skip_ws (w ++ l) = l.
Proof.
  induction 1 as [|b w Hb Hw IH]; intros Hl; cbn [app skip_ws].
  - destruct l as [|b l]; [done|]. cbn in Hl |- *. by rewrite Hl.
  - apply Is_true_true in Hb. rewrite Hb. by apply IH.
Qed.

Lemma skip_string_reads l r : skip_string l = Some r ->
  exists t, l = t ++ r /\ t <> [] /\ forall e, skip_string (t ++ e) = Some e.
Proof.
  assert (forall n l, (length l <= n)%nat -> skip_string l = Some r ->
    exists t, l = t ++ r /\ t <> [] /\ forall e, skip_string (t ++ e) = Some e) as H; [|by apply (H (length l))].
  clear l. induction n as [|n IH]; intros [|b l] Hn; cbn [length skip_string] in *; try done; [lia|].
  destruct (decide (b = x22)) as [->|Hq]; [intros [= <-]; by exists [x22]|].
  destruct (decide (b = x5c)) as [->|Hb].
  - destruct l as [|c l]; [done|]. cbn [length] in Hn. destruct (decide (c = x75)) as [->|Hu].
    + destruct l as [|h1 [|h2 [|h3 [|h4 l]]]]; try done. destruct (_ && _) eqn:Hh; [|done].
      intros (t & -> & _ & Ht)%IH; [|cbn [length] in Hn; lia].
      exists (x5c :: x75 :: h1 :: h2 :: h3 :: h4 :: t). split; [done|]. split; [done|].
      intros e. cbn [app skip_string]. rewrite !decide_False by done. rewrite !decide_True by done.
      by rewrite Hh.
    + destruct (simple_escape c) eqn:Hc; [|done]. intros (t & -> & _ & Ht)%IH; [|lia].
      exists (x5c :: c :: t). split; [done|]. split; [done|]. intros e. cbn [app skip_string].
      rewrite decide_False by done. rewrite decide_True by done. by rewrite decide_False, Hc by done.
  - destruct (byte_Z b <? 32) eqn:Hc; [done|]. intros (t & -> & _ & Ht)%IH; [|lia].
    exists (b :: t). split; [done|]. split; [done|]. intros e. cbn [app skip_string].
    by rewrite !decide_False, Hc by done.
Qed.

Lemma skip_digits_spec l : exists t, l = t ++ skip_digits l /\ Forall (fun b => is_digit b) t /\
  starts is_digit (skip_digits l) = false /\ (starts is_digit l = true -> t <> []).
Proof.
  induction l as [|b l (t & E & Ht & Hs & _)]; cbn [skip_digits]; [by exists []|].
  destruct (is_digit b) eqn:Hb; [|exists []; split_and!; try done; cbn; by rewrite Hb].
  exists (b :: t). split; [by rewrite E at 1|]. split; [|done]. constructor; [by rewrite Hb|done].
Qed.

Lemma skip_digits_app t l : Forall (fun b => is_digit b) t -> starts is_digit l = false ->
  skip_digits (t ++ l) = l.
Proof.
  induction 1 as [|b t Hb Ht IH]; intros Hl; cbn [app skip_digits].
  - destruct l as [|b l]; [done|]. cbn in Hl |- *. by rewrite Hl.
  - apply Is_true_true in Hb. rewrite Hb. by apply IH.
Qed.

Lemma starts_app p t l : t <> [] -> starts p (t ++ l) = starts p t.
Proof. by destruct t. Qed.

Lemma skip_digits1_reads l r : skip_digits1 l = Some r ->
  exists t, l = t ++ r /\ t <> [] /\ starts is_digit r = false /\
    forall e, starts is_digit e = false -> skip_digits1 (t ++ e) = Some e.
Proof.
  unfold skip_digits1. destruct (starts is_digit l) eqn:Hl; [|done]. intros [= <-].
  destruct (skip_digits_spec l) as (t & E & Ht & Hs & Hne). specialize (Hne Hl).
  exists t. split; [done|]. split; [done|]. split; [done|]. intros e He.
  rewrite starts_app by done. rewrite E, starts_app in Hl by done. rewrite Hl. by rewrite skip_digits_app.
Qed.

Lemma starts_swap p t r e : starts p (t ++ r) = false -> starts p e = false -> starts p (t ++ e) = false.
Proof. by destruct t. Qed.

(** The optional parts of a number. *)
Definition continues (P : bytes -> option bytes) (l r : bytes) : Prop :=
  exists t, l = t ++ r /\ forall e, delim e -> P (t ++ e) = Some e.

Lemma skip_exp_reads l r : skip_exp l = Some r -> continues skip_exp l r.
Proof.
  unfold skip_exp. destruct (starts is_exp l) eqn:Hl.
  - destruct l as [|x l]; [done|]. cbn [starts] in Hl. cbn [tail].
    destruct (starts is_sign l) eqn:Hs.
    + destruct l as [|y l]; [done|]. cbn [starts] in Hs. cbn [tail].
      intros (t & -> & Hne & _ & Ht)%skip_digits1_reads. exists (x :: y :: t). split; [done|].
      intros e (He & _). cbn [app starts]. rewrite Hl. cbn [tail]. cbn [starts tail].
      rewrite Hs. by apply Ht.
    + intros (t & -> & Hne & _ & Ht)%skip_digits1_reads. exists (x :: t). split; [done|].
      intros e (He & _). cbn [app starts]. rewrite Hl. cbn [tail].
      rewrite starts_app in Hs |- * by done. rewrite Hs. by apply Ht.
  - intros [= <-]. exists []. split; [done|]. intros e (_ & _ & He). cbn [app]. by rewrite He.
Qed.

Lemma skip_frac_reads l r : skip_frac l = Some r -> continues skip_frac l r.
Proof.
  unfold skip_frac. destruct (starts (is_byte x2e) l) eqn:Hl.
  - destruct l as [|x l]; [done|]. cbn [starts] in Hl. cbn [tail].
    destruct (skip_digits1 l) as [r1|] eqn:H1; [|done]. cbn [mbind option_bind].
    apply skip_digits1_reads in H1 as (t1 & -> & Hne & Hd & Ht1).
    intros (t2 & -> & Ht2)%skip_exp_reads. exists (x :: t1 ++ t2). split; [by rewrite (assoc_L (++))|].
    intros e He. cbn [app starts]. rewrite Hl. cbn [tail]. rewrite <- app_assoc.
    rewrite Ht1 by (eapply starts_swap; [exact Hd|apply He]). by apply Ht2.
  - intros (t & -> & Ht)%skip_exp_reads. exists t. split; [done|]. intros e He.
    rewrite (starts_swap _ t r e Hl) by apply He. by apply Ht.
Qed.

Lemma skip_number_reads l r : skip_number l = Some r ->
  exists t, l = t ++ r /\ t <> [] /\ forall e, e = r \/ delim e -> skip_number (t ++ e) = Some e.
Proof.
  intros H0. assert (exists t, l = t ++ r /\ t <> [] /\ forall e, delim e -> skip_number (t ++ e) = Some e)
    as (t & -> & Hne & Ht); [|exists t; split; [done|]; split; [done|]; intros e [->|He]; by auto].
  assert (forall l r, (if starts (is_byte x30) l then skip_frac (tail l)
      else r ← skip_digits1 l; skip_frac r) = Some r ->
    exists t, l = t ++ r /\ t <> [] /\ forall e, delim e ->
      (if starts (is_byte x30) (t ++ e) then skip_frac (tail (t ++ e))
       else r ← skip_digits1 (t ++ e); skip_frac r) = Some e) as Habs.
  { clear. intros l r. destruct (starts (is_byte x30) l) eqn:Hl.
    - destruct l as [|x l]; [done|]. cbn [starts] in Hl. cbn [tail].
      intros (t & -> & Ht)%skip_frac_reads. exists (x :: t). split; [done|]. split; [done|].
      intros e He. cbn [app starts]. rewrite Hl. cbn [tail]. by apply Ht.
    - destruct (skip_digits1 l) as [r1|] eqn:H1; [|done]. cbn [mbind option_bind].
      apply skip_digits1_reads in H1 as (t1 & -> & Hne & Hd & Ht1).
      intros (t2 & -> & Ht2)%skip_frac_reads. exists (t1 ++ t2). split; [by rewrite (assoc_L (++))|].
      split; [by destruct t1|]. intros e He. rewrite <- app_assoc. rewrite starts_app in Hl |- * by done.
      rewrite Hl, Ht1 by (eapply starts_swap; [exact Hd|apply He]). by apply Ht2. }
  unfold skip_number in H0 |- *. destruct (starts (is_byte x2d) l) eqn:Hl.
  - destruct l as [|x l]; [done|]. cbn [starts] in Hl. cbn [tail] in H0. apply Habs in H0 as (t & -> & Hne & Ht). exists (x :: t). split; [done|]. split; [done|].
    intros e He. cbn [app starts]. rewrite Hl. cbn [tail]. by apply Ht.
  - apply Habs in H0 as (t & -> & Hne & Ht). exists t. split; [done|]. split; [done|].
    intros e He. rewrite starts_app in Hl |- * by done. rewrite Hl. by apply Ht.
Qed.

Lemma strip_reads p l r : strip p l = Some r -> l = p ++ r /\ forall e, strip p (p ++ e) = Some e.
Proof.
  unfold strip. destruct (decide _) as [E|]; [|done]. intros [= <-]. split.
  - rewrite <- E at 1. by rewrite take_drop.
  - intros e. rewrite take_app_length, drop_app_length. by rewrite decide_True.
Qed.

(** Whitespace, a comma, a colon or a closing bracket ends a number. *)
Lemma ws_delim l : starts (fun b => is_ws b || is_byte x2c b || is_byte x3a b || is_byte x5d b || is_byte x7d b) l = true ->
  delim l.
Proof.
  destruct l as [|b l]; [done|]. unfold delim. cbn [starts]. unfold is_ws, is_exp, is_byte, is_digit.
  intros H. destruct b; vm_compute in H; try discriminate; by vm_compute.
Qed.

Lemma between_app t r : between (t ++ r) r = t.
Proof. unfold between. rewrite length_app, Nat.add_sub. apply take_app_length. Qed.

Lemma expect_reads b l r : expect b l = Some r -> l = b :: r.
Proof. unfold expect. destruct l as [|c l]; [done|]. destruct (decide (c = b)) as [->|]; [|done]. by intros [= ->]. Qed.

Lemma expect_cons b l : expect b (b :: l) = Some l.
Proof. unfold expect. by rewrite decide_True. Qed.

(** Whitespace before a text that starts with something else. *)
Lemma skip_ws_text w t e : Forall (fun b => is_ws b) w -> t <> [] -> starts is_ws t = false ->
  skip_ws (w ++ t ++ e) = t ++ e.
Proof. intros Hw Hne Ht. apply skip_ws_app; [done|]. by rewrite starts_app. Qed.

(** Whitespace and then one of the bytes that separate values. *)
Lemma ws_sep_delim w b e : Forall (fun b => is_ws b) w ->
  is_byte x2c b || is_byte x3a b || is_byte x5d b || is_byte x7d b = true -> delim (w ++ b :: e).
Proof.
  intros Hw Hb. apply ws_delim. destruct Hw as [|c w Hc Hw]; cbn [app starts].
  - rewrite <- !orb_assoc in *. by rewrite Hb, orb_true_r.
  - apply Is_true_true in Hc. by rewrite Hc.
Qed.

Lemma sep_not_ws b e :
  is_byte x2c b || is_byte x3a b || is_byte x5d b || is_byte x7d b = true -> starts is_ws (b :: e) = false.
Proof. cbn [starts]. by destruct b. Qed.

(** The text of a value that is nested in [d] others at most. *)
Record value_text (d : nat) (t : bytes) : Prop := {
  vt_start : t <> [] /\ starts is_ws t = false;
  vt_reads f d' e : (length t <= f)%nat -> (d' <= d)%nat -> delim e -> skip_value f d' (t ++ e) = Some e
}.

Lemma reads_value_text d l r : reads skip_value d l r -> starts is_ws l = false ->
  exists t, l = t ++ r /\ value_text d t.
Proof.
  intros (t & -> & Hne & Ht) Hw. exists t. split; [done|]. constructor.
  - split; [done|]. by rewrite starts_app in Hw.
  - intros f d' e Hf Hd He. apply Ht; [done|done|by right].
Qed.

Section loops_read.
Variables (f0 d : nat).
Hypothesis Hvalue : forall l r, skip_value f0 (S d) l = Some r -> reads skip_value (S d) l r.

Lemma elements_reads n l r : elements (skip_value f0 (S d)) n l = Some r ->
  exists t, l = t ++ r /\ t <> [] /\ starts (is_byte x5d) (skip_ws l) = false /\
    forall f n' d' e, (length t <= f)%nat -> (length t <= n')%nat -> (d' <= d)%nat ->
      elements (skip_value f (S d')) n' (t ++ e) = Some e.
Proof.
  revert l. induction n as [|n IH]; intros l; cbn [elements]; [done|].
  destruct (skip_ws_spec l) as (w1 & E1 & Hw1 & Hk). set (k := skip_ws l) in *. clearbody k. subst l.
  destruct (skip_value f0 (S d) k) as [r1|] eqn:Hv; [|done]. cbn [mbind option_bind].
  assert (starts (is_byte x5d) k = false) as Hnk.
  { destruct k as [|b k]; [done|]. cbn [starts]. destruct f0; [done|]. apply bool_decide_eq_false.
    intros ->. by cbn in Hv. }
  apply Hvalue in Hv. destruct (reads_value_text _ _ _ Hv Hk) as (v & -> & [[Hne Hvw] Hvt]). clear Hv.
  destruct (skip_ws_spec r1) as (w2 & E2 & Hw2 & Hs2).
  assert (forall b r2, skip_ws r1 = b :: r2 ->
    is_byte x2c b || is_byte x3a b || is_byte x5d b || is_byte x7d b = true ->
    r1 = w2 ++ b :: r2 /\ forall f n' d' e, (length (w1 ++ v ++ w2 ++ [b]) <= f)%nat -> (d' <= d)%nat ->
      elements (skip_value f (S d')) (S n') ((w1 ++ v ++ w2 ++ [b]) ++ e) =
      (if decide (b = x2c) then elements (skip_value f (S d')) n' e
       else if decide (b = x5d) then Some e else None)) as Hstep.
  { intros b r2 Eb Hb. rewrite Eb in E2. split; [done|]. intros f n' d' e Hf Hd. cbn [elements].
    rewrite !length_app in Hf. rewrite <- !app_assoc, skip_ws_text by done. cbn [app].
    rewrite Hvt by (lia || by apply ws_sep_delim). cbn [mbind option_bind].
    by rewrite skip_ws_app by (done || by apply sep_not_ws). }
  destruct (skip_ws r1) as [|b r2] eqn:Er1; [done|].
  destruct (decide (b = x2c)) as [->|Hb]; [|destruct (decide (b = x5d)) as [->|]; [|done]].
  - intros (t2 & -> & Hne2 & _ & Ht2)%IH. destruct (Hstep x2c _ eq_refl eq_refl) as [-> Hst].
    exists ((w1 ++ v ++ w2 ++ [x2c]) ++ t2). split; [by rewrite <- !app_assoc|].
    split; [by destruct w1, v|]. split; [done|]. intros f n' d' e Hf Hn Hd.
    rewrite length_app in Hf, Hn. destruct n' as [|n']; [destruct v; [done|]; rewrite !length_app in Hn; simpl in Hn; lia|].
    rewrite <- (app_assoc _ t2), Hst by lia. rewrite decide_True by done.
    apply Ht2; [lia| |done]. rewrite !length_app in Hn. simpl in Hn. lia.
  - intros [= <-]. destruct (Hstep x5d _ eq_refl eq_refl) as [-> Hst].
    exists (w1 ++ v ++ w2 ++ [x5d]). split; [by rewrite <- !app_assoc|].
    split; [by destruct w1, v|]. split; [done|]. intros f n' d' e Hf Hn Hd.
    destruct n' as [|n']; [destruct v; [done|]; rewrite !length_app in Hn; simpl in Hn; lia|]. by rewrite Hst.
Qed.

Lemma member_reads l m r : member (skip_value f0 (S d)) l = Some (m, r) ->
  exists t, l = t ++ r /\ t <> [] /\ starts (is_byte x7d) (skip_ws l) = false /\
    value_text (S d) m.2 /\
    forall f d' e, (length t <= f)%nat -> (d' <= d)%nat -> delim e ->
      member (skip_value f (S d')) (t ++ e) = Some (m, e).
Proof.
  unfold member. destruct (skip_ws_spec l) as (w1 & E1 & Hw1 & Hk). set (k := skip_ws l) in *. clearbody k. subst l.
  destruct (expect x22 k) as [q|] eqn:Hq; [|done]. apply expect_reads in Hq as ->. cbn [mbind option_bind].
  destruct (skip_string q) as [r1|] eqn:Hs; [|done]. cbn [mbind option_bind].
  apply skip_string_reads in Hs as (ts & -> & _ & Hts).
  destruct (skip_ws_spec r1) as (w2 & E2 & Hw2 & Hs2).
  destruct (expect x3a (skip_ws r1)) as [r2|] eqn:Hc; [|done]. apply expect_reads in Hc. cbn [mbind option_bind].
  rewrite Hc in E2. clear Hc Hs2. subst r1.
  destruct (skip_ws_spec r2) as (w3 & E3 & Hw3 & Hs3). set (v0 := skip_ws r2) in *. clearbody v0. subst r2.
  destruct (skip_value f0 (S d) v0) as [r3|] eqn:Hv; [|done]. cbn [mbind option_bind]. intros [= <- <-].
  apply Hvalue in Hv. destruct (reads_value_text _ _ _ Hv Hs3) as (v & -> & Htext).
  pose proof Htext as [[Hne Hvw] Hvt]. clear Hv.
  exists (w1 ++ (x22 :: ts) ++ w2 ++ [x3a] ++ w3 ++ v). split; [by rewrite <- !app_assoc|].
  split; [by destruct w1|]. split; [done|]. cbn [snd]. rewrite between_app. split; [done|].
  intros f d' e Hf Hd He. rewrite !length_app in Hf. rewrite <- !app_assoc.
  rewrite skip_ws_text by done. cbn [app]. rewrite expect_cons. cbn [mbind option_bind].
  rewrite Hts. cbn [mbind option_bind]. rewrite skip_ws_app by done. rewrite expect_cons. cbn [mbind option_bind].
  rewrite skip_ws_text by done. rewrite Hvt by (lia || done). cbn [mbind option_bind].
  rewrite !app_comm_cons, !between_app. cbn [app]. done.
Qed.

Lemma members_reads n l ms r : members (skip_value f0 (S d)) n l = Some (ms, r) ->
  exists t, l = t ++ r /\ t <> [] /\ starts (is_byte x7d) (skip_ws l) = false /\
    Forall (fun m => value_text (S d) m.2) ms /\
    forall f n' d' e, (length t <= f)%nat -> (length t <= n')%nat -> (d' <= d)%nat ->
      members (skip_value f (S d')) n' (t ++ e) = Some (ms, e).
Proof.
  revert l ms. induction n as [|n IH]; intros l ms; cbn [members]; [done|].
  destruct (member _ l) as [[m r1]|] eqn:Hm; [|done]. cbn [mbind option_bind].
  apply member_reads in Hm as (t1 & -> & Hne & Hnk & Hval & Ht1).
  destruct (skip_ws_spec r1) as (w2 & E2 & Hw2 & _).
  destruct (skip_ws r1) as [|b r2] eqn:Er1; [done|]. subst r1.
  assert (is_byte x2c b || is_byte x3a b || is_byte x5d b || is_byte x7d b = true ->
    forall f n' d' e, (length (t1 ++ w2 ++ [b]) <= f)%nat -> (d' <= d)%nat ->
      members (skip_value f (S d')) (S n') ((t1 ++ w2 ++ [b]) ++ e) =
      (if decide (b = x2c) then '(ms, e') ← members (skip_value f (S d')) n' e; Some (m :: ms, e')
       else if decide (b = x7d) then Some ([m], e) else None)) as Hstep.
  { intros Hb f n' d' e Hf Hd. cbn [members]. rewrite !length_app in Hf. rewrite <- !app_assoc. cbn [app].
    rewrite Ht1 by (lia || by apply ws_sep_delim). cbn [mbind option_bind].
    by rewrite skip_ws_app by (done || by apply sep_not_ws). }
  destruct (decide (b = x2c)) as [->|Hb]; [|destruct (decide (b = x7d)) as [->|]; [|done]].
  - destruct (members _ n r2) as [[ms2 r3]|] eqn:H2; [|done]. cbn [mbind option_bind]. intros [= <- <-].
    apply IH in H2 as (t2 & -> & Hne2 & _ & Hvs & Ht2). specialize (Hstep eq_refl).
    exists ((t1 ++ w2 ++ [x2c]) ++ t2). split; [by rewrite <- !app_assoc|].
    split; [by destruct t1|]. split; [done|]. split; [by constructor|]. intros f n' d' e Hf Hn Hd.
    rewrite length_app in Hf, Hn. rewrite !length_app in Hn. simpl in Hn. destruct n' as [|n']; [lia|].
    rewrite <- (app_assoc _ t2), Hstep by lia. destruct (decide (x2c = x2c)); [|done]. by rewrite Ht2 by lia.
  - intros [= <- <-]. specialize (Hstep eq_refl). exists (t1 ++ w2 ++ [x7d]). split; [by rewrite <- !app_assoc|].
    split; [by destruct t1|]. split; [done|]. split; [by constructor; [|constructor]|]. intros f n' d' e Hf Hn Hd.
    destruct n' as [|n']; [rewrite !length_app in Hn; simpl in Hn; lia|]. by rewrite Hstep.
Qed.

End loops_read.

(** The same for possibly empty arrays and objects, after the bracket. *)
Lemma empty_reads c l r : skip_ws l = c :: r -> c = x5d \/ c = x7d ->
  exists t, l = t ++ r /\ t <> [] /\ forall e, skip_ws (t ++ e) = c :: e.
Proof.
  intros E Hc. destruct (skip_ws_spec l) as (w & El & Hw & _). exists (w ++ [c]).
  split; [rewrite El, E; by rewrite <- app_assoc|]. split; [by destruct w|]. intros e.
  rewrite <- app_assoc. cbn [app]. apply skip_ws_app; [done|]. by destruct Hc as [-> | ->].
Qed.

Lemma starts_is_byte c l : starts (is_byte c) l = true -> exists r, l = c :: r.
Proof. destruct l as [|b l]; [done|]. cbn. intros ->%bool_decide_eq_true. by exists l. Qed.

Section value_read.
Variables (f0 d : nat).
Hypothesis Hvalue : forall l r, skip_value f0 (S d) l = Some r -> reads skip_value (S d) l r.

Lemma array_reads n l r : array_elements (skip_value f0 (S d)) n l = Some r ->
  exists t, l = t ++ r /\ t <> [] /\
    forall f n' d' e, (length t <= f)%nat -> (length t <= n')%nat -> (d' <= d)%nat ->
      array_elements (skip_value f (S d')) n' (t ++ e) = Some e.
Proof.
  unfold array_elements. destruct (starts (is_byte x5d) (skip_ws l)) eqn:Hs.
  - apply starts_is_byte in Hs as [r' E]. rewrite E. cbn [tail]. intros [= <-].
    apply empty_reads in E as (t & -> & Hne & Ht); [|by left]. exists t. split; [done|]. split; [done|].
    intros f n' d' e _ _ _. by rewrite Ht.
  - intros H. destruct (elements_reads f0 d Hvalue n l r H) as (t & -> & Hne & _ & Ht).
    exists t. split; [done|]. split; [done|]. intros f n' d' e Hf Hn Hd.
    pose proof (Ht f n' d' e Hf Hn Hd) as He. rewrite He.
    destruct (starts _ (skip_ws (t ++ e))) eqn:Hs'; [|done].
    destruct n' as [|n']; [done|]. cbn [elements] in He. apply starts_is_byte in Hs' as [x Ex]. rewrite Ex in He.
    by destruct f.
Qed.

Lemma object_reads n l ms r : object_members (skip_value f0 (S d)) n l = Some (ms, r) ->
  exists t, l = t ++ r /\ t <> [] /\ Forall (fun m => value_text (S d) m.2) ms /\
    forall f n' d' e, (length t <= f)%nat -> (length t <= n')%nat -> (d' <= d)%nat ->
      object_members (skip_value f (S d')) n' (t ++ e) = Some (ms, e).
Proof.
  unfold object_members. destruct (starts (is_byte x7d) (skip_ws l)) eqn:Hs.
  - apply starts_is_byte in Hs as [r' E]. rewrite E. cbn [tail]. intros [= <- <-].
    apply empty_reads in E as (t & -> & Hne & Ht); [|by right]. exists t. split; [done|]. split; [done|].
    split; [done|]. intros f n' d' e _ _ _. by rewrite Ht.
  - intros H. destruct (members_reads f0 d Hvalue n l ms r H) as (t & -> & Hne & _ & Hvs & Ht).
    exists t. split; [done|]. split; [done|]. split; [done|]. intros f n' d' e Hf Hn Hd.
    pose proof (Ht f n' d' e Hf Hn Hd) as He. rewrite He.
    destruct (starts _ (skip_ws (t ++ e))) eqn:Hs'; [|done]. destruct n' as [|n']; [done|]. cbn [members] in He.
    unfold member in He. apply starts_is_byte in Hs' as [x Ex]. by rewrite Ex in He.
Qed.
End value_read.

Lemma skip_value_reads f d l r : skip_value f d l = Some r -> reads skip_value d l r.
Proof.
  revert d l r. induction f as [|f IH]; intros d l r; cbn [skip_value]; [done|].
  destruct l as [|b l]; [done|].
  assert (forall p, b :: l = p ++ r -> p <> [] ->
    (forall f d' e, (length p <= S f)%nat -> (d' <= d)%nat -> e = r \/ delim e ->
      skip_value (S f) d' (p ++ e) = Some e) -> reads skip_value d (b :: l) r) as Hr.
  { intros p E Hne Hp. exists p. split; [done|]. split; [done|]. intros g d' e Hg Hd He.
    destruct g as [|g]; [destruct p; [done|simpl in Hg; lia]|]. by apply Hp. }
  destruct (decide (b = x22)) as [->|Hq].
  { intros (t & -> & _ & Ht)%skip_string_reads. apply (Hr (x22 :: t)); [done|done|].
    intros g d' e _ _ _. cbn. apply Ht. }
  destruct (decide (b = x7b)) as [->|Hb1].
  { destruct (Nat.ltb_spec d maxNestingDepth) as [Hd|]; [|done].
    destruct (object_members _ f l) as [[ms r']|] eqn:Ho; [|done]. cbn. intros [= <-].
    destruct (object_reads f d (fun l r => IH (S d) l r) f l ms r' Ho) as (t & -> & _ & _ & Ht).
    apply (Hr (x7b :: t)); [done|done|]. intros g d' e Hg Hd' _. cbn [app skip_value].
    rewrite (decide_False (P := x7b = x22)) by done. rewrite decide_True by done.
    rewrite (proj2 (Nat.ltb_lt d' maxNestingDepth)) by lia. cbn [length] in Hg. by rewrite Ht by lia. }
  destruct (decide (b = x5b)) as [->|Hb2].
  { destruct (Nat.ltb_spec d maxNestingDepth) as [Hd|]; [|done].
    intros Ho. destruct (array_reads f d (fun l r => IH (S d) l r) f l r Ho) as (t & -> & _ & Ht).
    apply (Hr (x5b :: t)); [done|done|]. intros g d' e Hg Hd' _. cbn [app skip_value].
    rewrite !decide_False by done. rewrite decide_True by done.
    rewrite (proj2 (Nat.ltb_lt d' maxNestingDepth)) by lia. cbn [length] in Hg. by rewrite Ht by lia. }
  destruct (decide (b = x74)) as [->|Hb3].
  { intros [-> Ht]%strip_reads. apply (Hr (x74 :: bs "rue")); [done|done|]. intros g d' e _ _ _. apply Ht. }
  destruct (decide (b = x66)) as [->|Hb4].
  { intros [-> Ht]%strip_reads. apply (Hr (x66 :: bs "alse")); [done|done|]. intros g d' e _ _ _. apply Ht. }
  destruct (decide (b = x6e)) as [->|Hb5].
  { intros [-> Ht]%strip_reads. apply (Hr (x6e :: bs "ull")); [done|done|]. intros g d' e _ _ _. apply Ht. }
  intros (t & E & Hne & Ht)%skip_number_reads. apply (Hr t); [done|done|]. intros g d' e _ _ He.
  specialize (Ht e He). destruct t as [|b' t]; [done|]. injection E as <- _. cbn [app skip_value] in Ht |- *.
  by rewrite !decide_False by done.
Qed.

End json.
