(* ===== verification/JsonCodec.v ===== *)
(** * Writing and reading JSON text are inverse

    What [json.Marshal] writes, [json.Unmarshal] reads back: the scanner
    accepts every printed value in any context, a quoted string decodes to the
    string with malformed UTF-8 replaced, and the members of a printed object
    are its keys and the texts of its values. *)
From S2P Require Import Prelude.
From S2P Require Import GoStd.
From S2P Require Import Json.
From S2P Require Import JsonDecode.

Module codec.
Import json.

(** ** Numbers *)

Lemma fmt_digits_head fuel u : 1 <= u < 10 ^ Z.of_nat fuel ->
  starts (is_byte x30) (fmt_digits fuel u []) = false.
Proof.
  revert u. induction fuel as [|fuel IH]; intros u Hu; [simpl in Hu; lia|].
  cbn [fmt_digits]. destruct (Z.ltb_spec u 10) as [Hs|Hs].
  - cbn [starts]. apply bool_decide_eq_false. intros E. apply (f_equal byte_Z) in E.
    unfold digit_byte in E. rewrite byte_Z_byte in E. change (byte_Z x30) with 48 in E.
    rewrite (Z.mod_small u 10), Z.mod_small in E by lia. lia.
  - rewrite fmt_digits_app. rewrite Nat2Z.inj_succ, Z.pow_succ_r in Hu by lia.
    assert (1 <= u / 10 < 10 ^ Z.of_nat fuel) as Hd.
    { split; [apply Z.div_le_lower_bound; lia|apply Z.div_lt_upper_bound; lia]. }
    rewrite starts_app; [by apply IH|].
    destruct fuel as [|fuel]; [simpl in Hd; lia|]. apply fmt_digits_nonempty.
Qed.

Lemma skip_frac_delim e : delim e -> skip_frac e = Some e.
Proof. intros (_ & E1 & E2). unfold skip_frac, skip_exp. by rewrite E1, E2. Qed.

Lemma digits_not_byte l c : Forall (fun b => is_digit b) l -> is_digit c = false ->
  starts (is_byte c) l = false.
Proof.
  destruct 1 as [|b l Hb _]; [done|]. intros Hc. cbn. apply bool_decide_eq_false. intros ->.
  by rewrite Hc in Hb.
Qed.

Lemma skip_number_uint u e : 0 <= u < 2 ^ 64 -> delim e ->
  skip_number (FormatUint u ++ e) = Some e /\ (forall p, skip_number (x2d :: FormatUint u ++ e) = p -> p = Some e).
Proof.
  intros Hu He. pose proof (FormatUint_digits u ltac:(lia)) as Hd. pose proof (FormatUint_nonempty u) as Hne.
  assert ((if starts (is_byte x30) (FormatUint u ++ e) then skip_frac (tail (FormatUint u ++ e))
    else r ← skip_digits1 (FormatUint u ++ e); skip_frac r) = Some e) as Hn.
  { destruct (decide (u = 0)) as [->|Hz]; [by apply skip_frac_delim|].
    rewrite starts_app by done. unfold FormatUint at 1. rewrite fmt_digits_head
      by (change (10 ^ Z.of_nat 20) with 100000000000000000000; lia).
    assert (starts is_digit (FormatUint u) = true) as Hs.
    { destruct Hd as [|b l Hb _]; [done|]. by apply Is_true_true in Hb. }
    unfold skip_digits1. rewrite starts_app, Hs by done. rewrite skip_digits_app by (done || apply He).
    by apply skip_frac_delim. }
  split.
  - unfold skip_number. rewrite starts_app by done. rewrite (digits_not_byte (FormatUint u) x2d Hd eq_refl).
    exact Hn.
  - intros p <-. exact Hn.
Qed.

(** ** Strings *)

(** [s] with every byte that starts no well-formed sequence replaced. *)
Fixpoint sanitize_loop (fuel : nat) (l : bytes) : bytes :=
  match fuel, l with
  | S fuel', b :: l' =>
      if byte_Z b <? 128 then b :: sanitize_loop fuel' l'
      else match rune_size l with
           | Some n => take n l ++ sanitize_loop fuel' (drop n l)
           | None => replacement ++ sanitize_loop fuel' l'
           end
  | _, _ => []
  end.
Definition sanitize (s : string) : bytes := sanitize_loop (length (bs s)) (bs s).
(** Well-formed UTF-8. *)
Definition utf8 (s : string) : Prop := sanitize s = bs s.

Lemma skip_string_high h r : Forall (fun b => 128 <= byte_Z b) h -> skip_string (h ++ r) = skip_string r.
Proof.
  induction 1 as [|b h Hb Hh IH]; [done|]. cbn [app skip_string].
  rewrite decide_False by (intros ->; by vm_compute in Hb).
  rewrite decide_False by (intros ->; by vm_compute in Hb).
  by destruct (Z.ltb_spec (byte_Z b) 32); [lia|].
Qed.

Lemma skip_string_safe b r : html_safe b = true -> skip_string (b :: r) = skip_string r.
Proof. by destruct b; intros H; try discriminate H. Qed.

Lemma skip_string_escape b r : byte_Z b < 128 -> html_safe b = false ->
  skip_string (escape_ascii b ++ r) = skip_string r.
Proof. destruct b; intros H1 H2; try discriminate H2; by vm_compute in H1. Qed.

Lemma quote_step_skip l r : l <> [] -> skip_string ((quote_step l).2 ++ r) = skip_string r.
Proof.
  destruct l as [|b l]; [done|]. intros _. unfold quote_step.
  destruct (Z.ltb_spec (byte_Z b) 128) as [Hb|Hb]; cbn [snd].
  - destruct (html_safe b) eqn:Hs; [by apply skip_string_safe|by apply skip_string_escape].
  - destruct (rune_size (b :: l)) as [n|] eqn:Hn; [|done].
    destruct (decide _); [done|]. destruct (decide _); [done|]. cbn [snd].
    apply skip_string_high. by eapply rune_size_high.
Qed.

Lemma quote_loop_skip n l r : skip_string (quote_loop n l ++ x22 :: r) = Some r.
Proof.
  revert l. induction n as [|n IH]; intros l; [done|]. destruct l as [|b l]; [done|]. cbn [quote_loop].
  pose proof (quote_step_skip (b :: l)) as Hs. destruct (quote_step (b :: l)) as [k out].
  rewrite <- app_assoc. cbn [snd] in Hs. by rewrite Hs.
Qed.

Lemma quote_skip s e : skip_string (tail (quote s) ++ e) = Some e.
Proof. unfold quote. cbn [tail]. rewrite <- app_assoc. apply quote_loop_skip. Qed.

Lemma rune_size_local l n r : rune_size l = Some n -> rune_size (take n l ++ r) = Some n.
Proof.
  unfold rune_size. destruct l as [|b0 [|b1 l]]; [done|done|].
  if_case E2; [intros [= <-]; cbn [take app]; by rewrite E2|].
  destruct l as [|b2 l]; [done|].
  if_case E3; [intros [= <-]; cbn [take app]; by rewrite E2, E3|].
  destruct l as [|b3 l]; [done|].
  if_case E4; [|done]. intros [= <-]. cbn [take app]. by rewrite E2, E3, E4.
Qed.

Lemma unquote_safe b r : byte_Z b < 128 -> html_safe b = true -> unquote_step (b :: r) = (1%nat, [b]).
Proof. destruct b; intros H1 H2; try discriminate H2; try (by vm_compute in H1); done. Qed.

Lemma unquote_escape b r : byte_Z b < 128 -> html_safe b = false ->
  unquote_step (escape_ascii b ++ r) = (length (escape_ascii b), [b]).
Proof. destruct b; intros H1 H2; try discriminate H2; try (by vm_compute in H1); done. Qed.

Lemma unquote_rune l n r : rune_size l = Some n -> 128 <= byte_Z (default x00 (head l)) ->
  unquote_step (take n l ++ r) = (n, take n l).
Proof.
  intros Hn Hb. pose proof (rune_size_bound l n Hn) as Hl. pose proof (rune_size_local l n r Hn) as Hloc.
  destruct l as [|b l]; [simpl in Hl; lia|]. destruct n as [|n]; [lia|].
  cbn [take app] in Hloc |- *. cbn in Hb. unfold unquote_step.
  rewrite Hloc. destruct (Z.ltb_spec (byte_Z b) 128); [lia|].
  assert (S n <= length (b :: take n l ++ r))%nat as Hlen.
  { simpl. rewrite length_app, length_take. simpl in Hl. lia. }
  assert (take (S n) (b :: take n l ++ r) = b :: take n l) as ->.
  { cbn [take]. f_equal. rewrite take_app_le by (rewrite length_take; simpl in Hl; lia).
    rewrite take_take. f_equal. lia. }
  destruct b; try (by vm_compute in Hb); destruct (take n l ++ r); done.
Qed.

(** One step of quoting, undone. *)
Lemma unquote_quote_step b l r : let '(n, out) := quote_step (b :: l) in
  out <> [] /\ (length (unquote_step (out ++ r)).2 <> 0)%nat /\
  unquote_step (out ++ r) = (length out,
    if byte_Z b <? 128 then [b]
    else match rune_size (b :: l) with Some n => take n (b :: l) | None => replacement end) /\
  (0 < n)%nat /\
  drop n (b :: l) = (if byte_Z b <? 128 then l
    else match rune_size (b :: l) with Some n => drop n (b :: l) | None => l end).
Proof.
  unfold quote_step. destruct (Z.ltb_spec (byte_Z b) 128) as [Hb|Hb].
  - destruct (html_safe b) eqn:Hs.
    + cbn [app]. rewrite unquote_safe by done. split_and!; done || lia.
    + rewrite unquote_escape by done. split_and!; try (done || lia). by destruct b.
  - destruct (rune_size (b :: l)) as [n|] eqn:Hn; [|split_and!; done || lia].
    pose proof (rune_size_bound _ n Hn) as Hl.
    destruct (decide _) as [E|E1]; [rewrite E; split_and!; done || lia|].
    destruct (decide _) as [E|E2]; [rewrite E; split_and!; done || lia|].
    rewrite (unquote_rune (b :: l) n r Hn Hb). cbn [snd].
    assert (length (take n (b :: l)) = n) as Ht by (rewrite length_take; lia).
    split; [intros E; rewrite E in Ht; simpl in Ht; lia|]. rewrite Ht. split_and!; done || lia.
Qed.

Lemma unquote_loop_quote m n l : (length (quote_loop n l) <= m)%nat ->
  unquote_loop m (quote_loop n l) = sanitize_loop n l.
Proof.
  revert m l. induction n as [|n IH]; intros m l Hm; [by destruct m|].
  destruct l as [|b l]; [by destruct m|]. cbn [quote_loop sanitize_loop] in *.
  pose proof (unquote_quote_step b l) as Hs. destruct (quote_step (b :: l)) as [k out].
  destruct (Hs (quote_loop n (drop k (b :: l)))) as (Hne & _ & Hu & Hk & Hd).
  rewrite length_app in Hm. destruct m as [|m]; [destruct out; [done|simpl in Hm; lia]|].
  assert (exists x y, out ++ quote_loop n (drop k (b :: l)) = x :: y) as (x & y & E).
  { destruct out as [|x out]; [done|]. by eexists _, _. }
  cbn [unquote_loop]. rewrite E, <- E, Hu. rewrite drop_app_length, Hd.
  assert (1 <= length out)%nat by (destruct out; [done|simpl; lia]).
  destruct (byte_Z b <? 128).
  - cbn [app]. f_equal. rewrite Hd in Hm. apply IH. lia.
  - destruct (rune_size (b :: l)); f_equal; rewrite Hd in Hm; apply IH; lia.
Qed.

Lemma unquote_quote s : unquote (quote s) = sanitize s.
Proof.
  unfold unquote, quote. cbn [tail length].
  assert (take (S (length (quote_loop (length (bs s)) (bs s) ++ [x22])) - 2)
    (quote_loop (length (bs s)) (bs s) ++ [x22]) = quote_loop (length (bs s)) (bs s)) as ->.
  { rewrite length_app. cbn [length]. replace (_ - 2)%nat with (length (quote_loop (length (bs s)) (bs s))) by lia.
    apply take_app_length. }
  by apply unquote_loop_quote.
Qed.

(** ** Values *)

(** [v] can be nested in [d] arrays and objects: integers are 64-bit, the depth
    is within the limit, and application texts are values. *)
Fixpoint fits (d : nat) (v : jval) : Prop :=
  match v with
  | JInt n => - 2 ^ 63 <= n < 2 ^ 64
  | JArr l => (d < maxNestingDepth)%nat /\
      (fix go l := match l with [] => True | v :: l' => fits (S d) v /\ go l' end) l
  | JObj l => (d < maxNestingDepth)%nat /\
      (fix go l := match l with [] => True | (_, v) :: l' => fits (S d) v /\ go l' end) l
  | JRaw t => value_text d t
  | _ => True
  end.

Lemma value_text_open d t : value_text d t ->
  starts (is_byte x5d) t = false /\ starts (is_byte x7d) t = false.
Proof.
  intros [[Hne _] Ht]. destruct t as [|b t]; [done|]. cbn [starts].
  specialize (Ht (length (b :: t)) 0%nat [] ltac:(done) ltac:(lia) ltac:(done)).
  rewrite app_nil_r in Ht. split; apply bool_decide_eq_false; intros ->; cbn in Ht; done.
Qed.

Lemma skip_ws_value d t e : value_text d t -> skip_ws (t ++ e) = t ++ e.
Proof. intros [[Hne Hw] _]. by apply (skip_ws_text []). Qed.

Lemma elements_print d f d' ts n e : ts <> [] -> Forall (value_text (S d)) ts ->
  (length (comma_sep ts) <= f)%nat -> (length ts <= n)%nat -> (d' <= d)%nat ->
  elements (skip_value f (S d')) n (comma_sep ts ++ x5d :: e) = Some e.
Proof.
  intros Hne Hts. revert n. induction Hts as [|t ts Ht Hts IH]; intros n Hf Hn Hd; [done|].
  cbn [length] in Hn. destruct n as [|n]; [lia|]. unfold comma_sep in *. cbn [join_sep] in *.
  destruct ts as [|t' ts].
  - cbn [elements]. rewrite (skip_ws_value _ _ _ Ht). by rewrite (vt_reads _ _ Ht) by (done || lia).
  - rewrite length_app in Hf. cbn [length] in Hf. rewrite <- app_assoc. cbn [app elements].
    rewrite (skip_ws_value _ _ _ Ht), (vt_reads _ _ Ht) by (done || lia). cbn [mbind option_bind].
    cbn [skip_ws]. change (is_ws x2c) with false. cbn iota. destruct (decide (x2c = x2c)); [|done].
    apply IH; [done|lia|cbn [length] in Hn |- *; lia|done].
Qed.

Definition member_text (m : string * bytes) : bytes := quote m.1 ++ x3a :: m.2.

Lemma member_print d f d' m e : value_text (S d) m.2 -> (length m.2 <= f)%nat -> (d' <= d)%nat -> delim e ->
  member (skip_value f (S d')) (member_text m ++ e) = Some ((quote m.1, m.2), e).
Proof.
  intros Ht Hf Hd He. unfold member_text, member. rewrite <- app_assoc. cbn [app].
  change (quote m.1) with (x22 :: tail (quote m.1)). set (q := tail (quote m.1)). cbn [app].
  cbn [skip_ws]. change (is_ws x22) with false. cbn iota. rewrite expect_cons. cbn [mbind option_bind].
  unfold q. rewrite quote_skip. fold q. cbn [mbind option_bind]. cbn [skip_ws]. change (is_ws x3a) with false.
  cbn iota. rewrite expect_cons. cbn [mbind option_bind].
  rewrite (skip_ws_value _ _ _ Ht), (vt_reads _ _ Ht) by (done || lia). cbn [mbind option_bind].
  by rewrite app_comm_cons, !between_app.
Qed.

Lemma members_print d f d' ms n e : ms <> [] -> Forall (fun m => value_text (S d) m.2) ms ->
  (length (comma_sep (map member_text ms)) <= f)%nat -> (length ms <= n)%nat -> (d' <= d)%nat ->
  members (skip_value f (S d')) n (comma_sep (map member_text ms) ++ x7d :: e)
    = Some (map (fun m => (quote m.1, m.2)) ms, e).
Proof.
  intros Hne Hms. revert n. induction Hms as [|m ms Hm Hms IH]; intros n Hf Hn Hd; [done|].
  cbn [length] in Hn. destruct n as [|n]; [lia|]. unfold comma_sep in *. cbn [join_sep map] in *.
  assert (length m.2 <= length (member_text m))%nat as Hl.
  { unfold member_text. rewrite length_app. cbn [length]. lia. }
  destruct ms as [|m' ms]; cbn [map] in *.
  - cbn [members]. by rewrite (member_print d) by (done || lia).
  - rewrite length_app in Hf. cbn [length] in Hf. rewrite <- app_assoc. cbn [app members].
    rewrite (member_print d) by (done || lia). cbn [mbind option_bind].
    cbn [skip_ws]. change (is_ws x2c) with false. cbn iota. destruct (decide (x2c = x2c)); [|done].
    rewrite IH; [done|done|lia|cbn [length] in Hn |- *; lia|done].
Qed.

Lemma comma_sep_open c ts e : ts <> [] -> Forall (fun t => t <> [] /\ starts is_ws t = false /\ starts (is_byte c) t = false) ts ->
  starts (is_byte c) (skip_ws (comma_sep ts ++ e)) = false.
Proof.
  intros Hne Hall. destruct Hall as [|t ts' (Ht & Hw & Hc) _]; [done|]. unfold comma_sep.
  assert (exists e', join_sep x2c (t :: ts') ++ e = t ++ e') as [e' ->].
  { cbn [join_sep]. destruct ts'; [by eexists|]. rewrite <- app_assoc. by eexists. }
  pose proof (skip_ws_text [] t e' ltac:(constructor) Ht Hw) as E. cbn [app] in E. rewrite E. by rewrite starts_app.
Qed.

Lemma length_join ts : Forall (fun t => t <> []) ts -> (length ts <= length (comma_sep ts))%nat.
Proof.
  unfold comma_sep. induction 1 as [|t ts Ht Hts IH]; [done|]. destruct t as [|b t]; [done|]. cbn [join_sep length].
  destruct ts as [|t' ts]; [cbn; lia|]. rewrite length_app. cbn [length] in *. lia.
Qed.

(** A text that begins with a bracket, a quote or a letter is a value when the
    parser for what follows reads it. *)
Lemma value_text_intro d b t : is_ws b = false ->
  (forall f d' e, (length t <= f)%nat -> (d' <= d)%nat -> delim e -> skip_value (S f) d' (b :: t ++ e) = Some e) ->
  value_text d (b :: t).
Proof.
  intros Hb Ht. constructor; [by split|]. intros f d' e Hf Hd He. destruct f as [|f]; [simpl in Hf; lia|].
  apply Ht; [simpl in Hf; lia|done|done].
Qed.

Lemma array_text d ts : (d < maxNestingDepth)%nat -> Forall (value_text (S d)) ts ->
  value_text d (x5b :: comma_sep ts ++ [x5d]).
Proof.
  intros Hmax Hts. apply value_text_intro; [done|]. intros f d' e Hf Hd He. cbn [skip_value].
  rewrite !decide_False by done. rewrite decide_True by done.
  rewrite (proj2 (Nat.ltb_lt d' maxNestingDepth)) by lia. unfold array_elements.
  rewrite <- app_assoc. cbn [app]. destruct ts as [|t ts]; [done|].
  rewrite comma_sep_open; [|done|].
  2: { eapply Forall_impl; [exact Hts|]. intros x Hx. pose proof Hx as [[H1 H2] _]. split_and!; [done|done|].
    by apply (value_text_open (S d)) in Hx as [? _]. }
  rewrite length_app in Hf. apply (elements_print d); [done|done|lia| |done].
  etransitivity; [apply length_join|lia]. eapply Forall_impl; [exact Hts|]. by intros x [[H _] _].
Qed.

Lemma object_text d ms : (d < maxNestingDepth)%nat -> Forall (fun m => value_text (S d) m.2) ms ->
  value_text d (x7b :: comma_sep (map member_text ms) ++ [x7d]) /\
  forall f d' e, (length (comma_sep (map member_text ms)) <= f)%nat -> (d' <= d)%nat ->
    object_members (skip_value f (S d')) f (comma_sep (map member_text ms) ++ x7d :: e)
      = Some (map (fun m => (quote m.1, m.2)) ms, e).
Proof.
  intros Hmax Hms.
  assert (forall f d' e, (length (comma_sep (map member_text ms)) <= f)%nat -> (d' <= d)%nat ->
    object_members (skip_value f (S d')) f (comma_sep (map member_text ms) ++ x7d :: e)
      = Some (map (fun m => (quote m.1, m.2)) ms, e)) as Ho.
  { intros f d' e Hf Hd. unfold object_members. destruct ms as [|m ms]; [done|].
    rewrite comma_sep_open; [|done|].
    2: { apply Forall_map, Forall_forall. intros x _. by split_and!. }
    apply (members_print d); [done|done|done| |done].
    rewrite <- (length_map member_text (m :: ms)). etransitivity; [apply length_join|exact Hf].
    apply Forall_map, Forall_forall. by intros x _. }
  split; [|exact Ho]. apply value_text_intro; [done|]. intros f d' e Hf Hd He. cbn [skip_value].
  rewrite (decide_False (P := x7b = x22)) by done. rewrite decide_True by done.
  rewrite (proj2 (Nat.ltb_lt d' maxNestingDepth)) by lia. rewrite length_app in Hf.
  rewrite <- app_assoc. cbn [app]. by rewrite Ho by lia.
Qed.

Lemma string_text d s : value_text d (quote s).
Proof.
  change (quote s) with (x22 :: tail (quote s)). apply value_text_intro; [done|].
  intros f d' e _ _ _. cbn [skip_value]. rewrite decide_True by done. apply quote_skip.
Qed.

Lemma number_text d n : - 2 ^ 63 <= n < 2 ^ 64 -> value_text d (Itoa n).
Proof.
  intros Hn. unfold Itoa. destruct (Z.ltb_spec n 0) as [Hneg|Hpos].
  - apply value_text_intro; [done|]. intros f d' e _ _ He. cbn [skip_value]. rewrite !decide_False by done.
    by apply (proj2 (skip_number_uint (- n) e ltac:(lia) He)).
  - pose proof (FormatUint_digits n Hpos) as Hd. pose proof (FormatUint_nonempty n) as Hne.
    destruct (FormatUint n) as [|b t] eqn:E; [done|]. apply Forall_cons in Hd as [Hb _].
    apply value_text_intro; [by destruct b|]. intros f d' e _ _ He. cbn [skip_value].
    destruct (skip_number_uint n e ltac:(lia) He) as [Hs _]. rewrite E in Hs. cbn [app] in Hs.
    rewrite !decide_False by (intros ->; done). exact Hs.
Qed.

Lemma print_text : forall v d, fits d v -> value_text d (print v).
Proof.
  fix IH 1. intros [| [|] | n | s | l | l | t] d; cbn [fits print]; intros Hf.
  - apply value_text_intro; [done|]. intros f d' e _ _ _. reflexivity.
  - apply value_text_intro; [done|]. intros f d' e _ _ _. reflexivity.
  - apply value_text_intro; [done|]. intros f d' e _ _ _. reflexivity.
  - by apply number_text.
  - apply string_text.
  - destruct Hf as [Hd Hl]. apply array_text; [done|]. revert Hl.
    induction l as [|v l IHl]; [constructor|]. intros [Hv Hl]. constructor; [by apply IH|by apply IHl].
  - destruct Hf as [Hd Hl].
    assert (map (fun '(k, v) => quote k ++ x3a :: print v) l = map member_text (map (fun '(k, v) => (k, print v)) l)) as ->.
    { rewrite map_map. apply map_ext. by intros [k v]. }
    apply object_text; [done|]. revert Hl.
    induction l as [|[k v] l IHl]; [constructor|]. intros [Hv Hl]. constructor; [by apply IH|by apply IHl].
  - done.
Qed.

(** ** Whole texts *)

Lemma value_text_mono d d' t : (d' <= d)%nat -> value_text d t -> value_text d' t.
Proof. intros Hd [Hs Ht]. constructor; [done|]. intros f d0 e Hf Hd0. apply Ht; lia. Qed.

Lemma top_value_text t : value_text 0 t -> top_value t = Some t.
Proof.
  intros Ht. pose proof Ht as [[Hne Hw] Hr]. unfold top_value.
  pose proof (skip_ws_value 0 t [] Ht) as E. rewrite app_nil_r in E. rewrite E.
  pose proof (Hr (length t) 0%nat [] ltac:(lia) ltac:(lia) ltac:(done)) as Hs. rewrite app_nil_r in Hs.
  rewrite Hs. cbn [mbind option_bind]. rewrite decide_True by done. unfold between. cbn [length].
  by rewrite Nat.sub_0_r, firstn_all.
Qed.

Lemma top_value_sound l v : top_value l = Some v -> value_text 0 v.
Proof.
  unfold top_value. destruct (skip_ws_spec l) as (w & _ & _ & Hs).
  destruct (skip_value _ 0 (skip_ws l)) as [r|] eqn:Hv; [|done]. cbn [mbind option_bind].
  apply skip_value_reads in Hv. destruct (reads_value_text _ _ _ Hv Hs) as (t & -> & Ht).
  destruct (decide _); [|done]. rewrite between_app. by intros [= <-].
Qed.

(** The scanner needs no more fuel than the length of the text. *)
Lemma fuel_enough f f' d l r : (length l <= f')%nat -> skip_value f d l = Some r ->
  skip_value f' d l = Some r.
Proof.
  intros Hf (t & -> & _ & Ht)%skip_value_reads. rewrite length_app in Hf. apply Ht; [lia|done|by left].
Qed.

Section struct.
Context {T : Type} (fs : list (@field T)).

(** A printed object is decoded member by member. *)
Lemma Unmarshal_object l s : fits 0 (JObj l) ->
  Unmarshal fs (print (JObj l)) s
    = set_members fs (map (fun m => (quote m.1, print m.2)) l) s.
Proof.
  intros Hf. unfold Unmarshal. rewrite top_value_text by by apply print_text. cbn [mbind option_bind].
  cbn [print starts]. change (is_byte x7b x7b) with true. cbn iota. cbn [tail].
  assert (map (fun '(k, v) => quote k ++ x3a :: print v) l
    = map member_text (map (fun m => (m.1, print m.2)) l)) as ->.
  { rewrite map_map. apply map_ext. by intros [k v]. }
  destruct Hf as [_ Hl]. destruct (object_text 0 (map (fun m => (m.1, print m.2)) l)) as [_ Ho].
  - by apply Nat.ltb_lt.
  - apply Forall_map. induction l as [|[k v] l IHl]; [constructor|]. destruct Hl as [Hv Hl].
    constructor; [by apply print_text|by apply IHl].
  - pose proof (Ho (length (x7b :: comma_sep (map member_text (map (fun m => (m.1, print m.2)) l)) ++ [x7d])) 0%nat []) as E.
    cbn [length] in E |- *. rewrite E; [|rewrite length_app; lia|lia]. cbn [mbind option_bind].
    by rewrite map_map.
Qed.

(** What is decoded comes from members whose values are values. *)
Lemma Unmarshal_members text s s' : Unmarshal fs text s = Some s' ->
  exists ms, set_members fs ms s = Some s' /\ Forall (fun m => value_text 0 m.2) ms.
Proof.
  unfold Unmarshal. destruct (top_value text) as [v|]; [|done]. cbn [mbind option_bind].
  destruct (starts (is_byte x7b) v).
  - destruct (object_members _ _ _) as [[ms r]|] eqn:Ho; [|done]. cbn [mbind option_bind]. intros Hs.
    exists ms. split; [done|].
    destruct (object_reads (length v) 0 (fun l r => skip_value_reads (length v) 1 l r) _ _ _ _ Ho) as (t & _ & _ & Hms & _).
    eapply Forall_impl; [exact Hms|]. intros m. apply value_text_mono. lia.
  - destruct (starts (is_byte x6e) v); [|done]. intros [= <-]. exists []. split; [done|constructor].
Qed.

Lemma set_members_app ms1 ms2 s : set_members fs (ms1 ++ ms2) s
  = (s ← set_members fs ms1 s; set_members fs ms2 s).
Proof.
  revert s. induction ms1 as [|[k v] ms1 IH]; intros s; [done|]. cbn [app set_members].
  destruct (find_field fs (unquote k)) as [set|]; [|apply IH]. destruct (set v s); [|done]. apply IH.
Qed.

Lemma find_field_In key set : json.find_field fs key = Some set -> exists name, In (name, set) fs.
Proof.
  unfold find_field. destruct (List.find (fun f => bool_decide (bs f.1 = key)) fs) as [[n x]|] eqn:E1.
  - intros [= <-]. exists n. by apply find_some in E1 as [? _].
  - destruct (List.find (fun f => bool_decide (fold_name (bs f.1) = fold_name key)) fs) as [[n x]|] eqn:E2; [|done].
    intros [= <-]. exists n. by apply find_some in E2 as [? _].
Qed.

(** An invariant that every field keeps. *)
Lemma set_members_inv (Q : T -> Prop) ms s s' :
  (forall name set v s s', In (name, set) fs -> value_text 0 v -> Q s -> set v s = Some s' -> Q s') ->
  Forall (fun m => value_text 0 m.2) ms -> Q s -> set_members fs ms s = Some s' -> Q s'.
Proof.
  intros Hset Hms. revert s. induction Hms as [|[k v] ms Hv Hms IH]; intros s Hs; cbn [set_members].
  - by intros [= <-].
  - destruct (find_field fs (unquote k)) as [set|] eqn:Hf; [|by apply IH].
    destruct (set v s) as [s1|] eqn:E; [|done]. cbn [mbind option_bind]. apply IH.
    destruct (find_field_In _ _ Hf) as [name Hin]. by eapply Hset.
Qed.

(** Strings and integers as they are printed. *)
Lemma set_string_quote (f : string -> T -> T) v s : utf8 v -> set_string f (quote v) s = Some (f v s).
Proof.
  intros Hv. unfold set_string. change (quote v) with (x22 :: tail (quote v)) at 1. cbn [starts].
  change (is_byte x22 x22) with true. cbn iota. by rewrite unquote_quote, Hv, str_bs.
Qed.
Lemma set_uint_Itoa (f : Z -> T -> T) n s : 0 <= n < 2 ^ 64 -> set_uint f (Itoa n) s = Some (f n s).
Proof.
  intros Hn. unfold set_uint, Itoa. destruct (Z.ltb_spec n 0); [lia|].
  rewrite digits_not_byte by (done || apply FormatUint_digits; lia). by rewrite ParseUint_FormatUint.
Qed.
End struct.

End codec.
