(* ===== verification/Hash.v ===== *)
(** * Digests and text encodings of the standard library

    SHA-1 with standard base64 (the WebSocket accept key) and SHA-256 with
    hexadecimal (long idempotency keys), on 32-bit words kept in [Z]. *)
From S2P Require Import Prelude.

(** ** 32-bit words *)

Definition w32 (z : Z) : Z := z mod 2 ^ 32.
Definition not32 (x : Z) : Z := Z.lxor x (2 ^ 32 - 1).
Definition rotl (n x : Z) : Z := Z.lor (w32 (Z.shiftl x n)) (Z.shiftr x (32 - n)).
Definition rotr (n x : Z) : Z := rotl (32 - n) x.

(** Big-endian integers. *)
Definition be_combine (l : bytes) : Z := fold_left (fun acc b => acc * 256 + byte_Z b) l 0.
Fixpoint be_split (n : nat) (z : Z) : bytes :=
  match n with
  | O => []
  | S n' => be_split n' (z / 256) ++ [Z_byte z]
  end.

Fixpoint chunks {A} (fuel n : nat) (l : list A) : list (list A) :=
  match fuel, l with
  | S fuel', _ :: _ => take n l :: chunks fuel' n (drop n l)
  | _, _ => []
  end.
Definition chunk {A} (n : nat) (l : list A) : list (list A) := chunks (length l) n l.

(** Message padding shared by both digests. *)
Definition pad (m : bytes) : bytes :=
  let z := Z.to_nat ((55 - len m) mod 64) in
  m ++ x80 :: replicate z x00 ++ be_split 8 (8 * len m).
Definition blocks (m : bytes) : list (list Z) :=
  map (fun b => map be_combine (chunk 4 b)) (chunk 64 (pad m)).

(** The message schedule, kept newest word first. *)
Fixpoint schedule (f : list Z -> Z) (n : nat) (rev_w : list Z) : list Z :=
  match n with
  | O => rev_w
  | S n' => schedule f n' (f rev_w :: rev_w)
  end.

(** ** SHA-1 *)

Definition sha1_next (r : list Z) : Z :=
  rotl 1 (Z.lxor (Z.lxor (nth 2 r 0) (nth 7 r 0)) (Z.lxor (nth 13 r 0) (nth 15 r 0))).

Definition sha1_round (st : Z * Z * Z * Z * Z) (iw : nat * Z) : Z * Z * Z * Z * Z :=
  let '(a, b, c, d, e) := st in
  let '(i, w) := iw in
  let '(f, k) :=
    if (i <? 20)%nat then (Z.lor (Z.land b c) (Z.land (not32 b) d), 1518500249)
    else if (i <? 40)%nat then (Z.lxor b (Z.lxor c d), 1859775393)
    else if (i <? 60)%nat
         then (Z.lor (Z.land b c) (Z.lor (Z.land b d) (Z.land c d)), 2400959708)
    else (Z.lxor b (Z.lxor c d), 3395469782) in
  (w32 (rotl 5 a + f + e + k + w), a, rotl 30 b, c, d).

Definition sha1_block (h : Z * Z * Z * Z * Z) (ws : list Z) : Z * Z * Z * Z * Z :=
  let w := rev (schedule sha1_next 64 (rev ws)) in
  let '(a, b, c, d, e) := fold_left sha1_round (combine (seq 0 80) w) h in
  let '(h0, h1, h2, h3, h4) := h in
  (w32 (h0 + a), w32 (h1 + b), w32 (h2 + c), w32 (h3 + d), w32 (h4 + e)).

Definition sha1_Sum (m : bytes) : bytes :=
  let '(a, b, c, d, e) :=
    fold_left sha1_block (blocks m)
      (1732584193, 4023233417, 2562383102, 271733878, 3285377520) in
  concat (map (be_split 4) [a; b; c; d; e]).

(** ** SHA-256 *)

Definition sha256_k : list Z :=
  [1116352408; 1899447441; 3049323471; 3921009573; 961987163; 1508970993; 2453635748;
   2870763221; 3624381080; 310598401; 607225278; 1426881987; 1925078388; 2162078206;
   2614888103; 3248222580; 3835390401; 4022224774; 264347078; 604807628; 770255983;
   1249150122; 1555081692; 1996064986; 2554220882; 2821834349; 2952996808; 3210313671;
   3336571891; 3584528711; 113926993; 338241895; 666307205; 773529912; 1294757372;
   1396182291; 1695183700; 1986661051; 2177026350; 2456956037; 2730485921; 2820302411;
   3259730800; 3345764771; 3516065817; 3600352804; 4094571909; 275423344; 430227734;
   506948616; 659060556; 883997877; 958139571; 1322822218; 1537002063; 1747873779;
   1955562222; 2024104815; 2227730452; 2361852424; 2428436474; 2756734187; 3204031479;
   3329325298].

Definition sha256_next (r : list Z) : Z :=
  let x := nth 14 r 0 in let y := nth 1 r 0 in
  let s0 := Z.lxor (Z.lxor (rotr 7 x) (rotr 18 x)) (Z.shiftr x 3) in
  let s1 := Z.lxor (Z.lxor (rotr 17 y) (rotr 19 y)) (Z.shiftr y 10) in
  w32 (nth 15 r 0 + s0 + nth 6 r 0 + s1).

Definition sha256_round (st : list Z) (kw : Z * Z) : list Z :=
  match st with
  | [a; b; c; d; e; f; g; h] =>
      let s1 := Z.lxor (Z.lxor (rotr 6 e) (rotr 11 e)) (rotr 25 e) in
      let ch := Z.lxor (Z.land e f) (Z.land (not32 e) g) in
      let t1 := w32 (h + s1 + ch + fst kw + snd kw) in
      let s0 := Z.lxor (Z.lxor (rotr 2 a) (rotr 13 a)) (rotr 22 a) in
      let mj := Z.lxor (Z.lxor (Z.land a b) (Z.land a c)) (Z.land b c) in
      [w32 (t1 + w32 (s0 + mj)); a; b; c; w32 (d + t1); e; f; g]
  | _ => st
  end.

Definition sha256_block (h : list Z) (ws : list Z) : list Z :=
  let w := rev (schedule sha256_next 48 (rev ws)) in
  zip_with (fun x y => w32 (x + y)) h (fold_left sha256_round (combine sha256_k w) h).

Definition sha256_Sum256 (m : bytes) : bytes :=
  concat (map (be_split 4)
    (fold_left sha256_block (blocks m)
       [1779033703; 3144134277; 1013904242; 2773480762; 1359893119; 2600822924;
        528734635; 1541459225])).

(** ** hex and base64 *)

Definition hex_char (n : Z) : byte := Z_byte (if n <? 10 then 48 + n else 87 + n).
Definition hex_EncodeToString (l : bytes) : bytes :=
  concat (map (fun b => [hex_char (byte_Z b / 16); hex_char (byte_Z b mod 16)]) l).

Definition base64_alphabet : bytes :=
  bs "ABCDEFGHIJKLMNOPQRSTUVWXYZabcdefghijklmnopqrstuvwxyz0123456789+/".
Definition base64_char (n : Z) : byte := nth (Z.to_nat (n mod 64)) base64_alphabet x00.
Definition base64_group (g : bytes) : bytes :=
  match g with
  | [a; b; c] =>
      let n := be_combine g in
      [base64_char (n / 262144); base64_char (n / 4096); base64_char (n / 64); base64_char n]
  | [a; b] =>
      let n := be_combine g * 256 in
      [base64_char (n / 262144); base64_char (n / 4096); base64_char (n / 64); x3d]
  | [a] =>
      let n := be_combine g * 65536 in
      [base64_char (n / 262144); base64_char (n / 4096); x3d; x3d]
  | _ => []
  end.
Definition base64_EncodeToString (l : bytes) : bytes := concat (map base64_group (chunk 3 l)).

(** ** Test vectors *)

Example sha1_abc : hex_EncodeToString (sha1_Sum (bs "abc"))
  = bs "a9993e364706816aba3e25717850c26c9cd0d89d".
Proof. vm_compute. reflexivity. Qed.

Example sha256_abc : hex_EncodeToString (sha256_Sum256 (bs "abc"))
  = bs "ba7816bf8f01cfea414140de5dae2223b00361a396177a9cb410ff61f20015ad".
Proof. vm_compute. reflexivity. Qed.

Example sha256_two_blocks :
  hex_EncodeToString (sha256_Sum256 (bs "abcdbcdecdefdefgefghfghighijhijkijkljklmklmnlmnomnopnopq"))
  = bs "248d6a61d20638b8e5c026930c3e6039a33ce45964ff2167f6ecedd419db06c1".
Proof. vm_compute. reflexivity. Qed.

Example base64_fo : base64_EncodeToString (bs "fo") = bs "Zm8=".
Proof. vm_compute. reflexivity. Qed.

(** ** Big-endian lemmas *)

Lemma length_be_split n z : length (be_split n z) = n.
Proof. revert z. induction n as [|n IH]; intros z; simpl; [done|]. rewrite length_app, IH. simpl. lia. Qed.

Lemma be_combine_snoc l b : be_combine (l ++ [b]) = be_combine l * 256 + byte_Z b.
Proof. unfold be_combine. by rewrite fold_left_app. Qed.

Lemma be_combine_split n z : be_combine (be_split n z) = z mod 256 ^ Z.of_nat n.
Proof.
  revert z. induction n as [|n IH]; intros z.
  - simpl. by rewrite Z.mod_1_r.
  - cbn [be_split]. rewrite be_combine_snoc, IH, byte_Z_byte.
    rewrite Nat2Z.inj_succ, Z.pow_succ_r by lia.
    rewrite (Z.rem_mul_r z 256) by lia. lia.
Qed.

Lemma be_combine_nonneg l : 0 <= be_combine l < 256 ^ len l.
Proof.
  induction l as [|b l IH] using rev_ind; [by vm_compute|].
  rewrite be_combine_snoc, len_app. pose proof (byte_Z_range b).
  rewrite Z.pow_add_r by (apply len_nonneg || done). change (256 ^ len [b]) with 256. lia.
Qed.
