(* ===== verification/Ids.v ===== *)
(** * Random names ([newSessionID], [randomClientID], [randomPollSID])

    What the code makes of the bytes of [crypto/rand]: [None] when there are
    none. Everywhere else the names are arguments, fresh where the caller of a
    handler says so. *)
From S2P Require Import Prelude.
From S2P Require Import GoStd.
From S2P Require Import Hash.

Module ids.

Definition newSessionID (b : option bytes) : string :=
  match b with Some b => str (hex_EncodeToString b) | None => ""%string end.
Definition randomClientID (b : option bytes) : string :=
  match b with Some b => str (hex_EncodeToString b) | None => "client-unknown"%string end.
Definition randomPollSID (b : option bytes) : string :=
  match b with Some b => str (hex_EncodeToString b) | None => "sid-fallback"%string end.

Lemma hex_char_inj m n : 0 <= m < 16 -> 0 <= n < 16 -> hex_char m = hex_char n -> m = n.
Proof.
  intros Hm Hn E. apply (f_equal byte_Z) in E. unfold hex_char in E. rewrite !byte_Z_byte in E.
  destruct (m <? 10) eqn:Em, (n <? 10) eqn:En; rewrite !Z.mod_small in E; lia.
Qed.

Lemma hex_inj l l' : hex_EncodeToString l = hex_EncodeToString l' -> l = l'.
Proof.
  revert l'. induction l as [|a l IH]; intros [|b l']; unfold hex_EncodeToString; cbn; try done.
  intros [= E1 E2 E3]. pose proof (byte_Z_range a). pose proof (byte_Z_range b).
  apply hex_char_inj in E1; [|split; [apply Z.div_pos|apply Z.div_lt_upper_bound]; lia..].
  apply hex_char_inj in E2; [|apply Z.mod_pos_bound; lia..]. f_equal.
  - apply byte_Z_inj. rewrite (Z.div_mod (byte_Z a) 16), (Z.div_mod (byte_Z b) 16) by done. lia.
  - by apply IH.
Qed.

(** Different random bytes give different names, and a session token is empty
    only when there was no entropy. *)
Lemma newSessionID_inj b b' : newSessionID (Some b) = newSessionID (Some b') -> b = b'.
Proof.
  unfold newSessionID. intros E. apply (f_equal bs) in E. rewrite !bs_str in E. by apply hex_inj.
Qed.

Lemma newSessionID_empty b : b <> Some [] -> newSessionID b = ""%string <-> b = None.
Proof.
  intros Hne. split; [|by intros ->]. destruct b as [[|x b]|]; [done| |done].
  unfold newSessionID. intros E. apply (f_equal bs) in E. by rewrite bs_str in E.
Qed.

End ids.
