(* ===== verification/EngineIO.v ===== *)
(** * Engine.IO packets ([internal/engineio])

    The packet codec of [packet.go], the batch codec of [batch.go], the open
    handshake of [handshake.go], the probe payload of [upgrade.go] and the
    session data of [session.go]. *)
From S2P Require Import Prelude.
From S2P Require Import GoStd.
From S2P Require Import Json.

Module engineio.

(** ** Constants *)

Definition Version : string := "4".
Definition RecordSeparator : byte := x1e.
Definition TransportPolling : string := "polling".
Definition TransportWebSocket : string := "websocket".

Definition ProbePayload : string := "probe".
Definition IsProbe (data : bytes) : bool := bool_decide (data = bs ProbePayload).

(** ** Packet types: a Go [int] with seven known values *)

Definition PacketType := Z.
Definition Open : PacketType := 0.
Definition Close : PacketType := 1.
Definition Ping : PacketType := 2.
Definition Pong : PacketType := 3.
Definition Message : PacketType := 4.
Definition Upgrade : PacketType := 5.
Definition Noop : PacketType := 6.
Definition minType : PacketType := Open.
Definition maxType : PacketType := Noop.

Definition String (t : PacketType) : string :=
  if t =? Open then "open"
  else if t =? Close then "close"
  else if t =? Ping then "ping"
  else if t =? Pong then "pong"
  else if t =? Message then "message"
  else if t =? Upgrade then "upgrade"
  else if t =? Noop then "noop"
  else "unknown(" +:+ str (Itoa t) +:+ ")".

Definition valid (t : PacketType) : bool := (minType <=? t) && (t <=? maxType).

(** ** Packets and their codec *)

Record Packet := mkPacket { Type_ : PacketType; Data : bytes }.

Inductive Error :=
  | ErrEmptyPacket
  | ErrInvalidType (t : PacketType)   (* "invalid packet type %d" *)
  | ErrInvalidDigit (b : byte)        (* "invalid packet type %q" *)
  | ErrBatchSegment (e : Error).      (* "decode batch segment: %w" *)

Definition Encode (p : Packet) : result Error bytes :=
  if negb (valid (Type_ p)) then Err (ErrInvalidType (Type_ p))
  else Ok (digit_byte (Type_ p) :: Data p).

Definition Decode (raw : bytes) : result Error Packet :=
  match raw with
  | [] => Err ErrEmptyPacket
  | digit :: data =>
      if (byte_Z digit <? 48) || (54 <? byte_Z digit) then Err (ErrInvalidDigit digit)
      else Ok (mkPacket (byte_Z digit - 48) data)
  end.

(** [EncodeBatch]: the loop with its buffer, a separator before every packet
    but the first. *)
Fixpoint encode_batch_loop (i : nat) (buf : bytes) (ps : list Packet) : result Error bytes :=
  match ps with
  | [] => Ok buf
  | p :: ps' =>
      wire ← Encode p;
      encode_batch_loop (S i)
        ((if (0 <? i)%nat then buf ++ [RecordSeparator] else buf) ++ wire) ps'
  end.
Definition EncodeBatch (packets : list Packet) : result Error bytes :=
  match packets with [] => Ok [] | _ => encode_batch_loop 0 [] packets end.

Fixpoint decode_parts (parts : list bytes) (out : list Packet) : result Error (list Packet) :=
  match parts with
  | [] => Ok out
  | part :: parts' =>
      if (length part =? 0)%nat then decode_parts parts' out
      else match Decode part with
           | Err e => Err (ErrBatchSegment e)
           | Ok p => decode_parts parts' (out ++ [p])
           end
  end.
Definition DecodeBatch (body : bytes) : result Error (list Packet) :=
  match body with [] => Ok [] | _ => decode_parts (split_sep RecordSeparator body) [] end.

(** ** Handshake *)

(** Durations are Go [int64] nanoseconds. *)
Definition Millisecond : Z := 1000000.

Record Config := mkConfig {
  cfg_PingInterval : Z; cfg_PingTimeout : Z; cfg_MaxPayload : Z
}.

Record Session := mkSession {
  s_ID : string; s_PingInterval : Z; s_PingTimeout : Z; s_MaxPayload : Z; s_CreatedAt : Z
}.

Record Handshake := mkHandshake {
  SID : string; Upgrades : list string; PingInterval : Z; PingTimeout : Z; MaxPayload : Z
}.

Definition NewHandshake (sid : string) (pingInterval pingTimeout maxPayload : Z) : Handshake :=
  mkHandshake sid [TransportWebSocket]
    (Z.quot pingInterval Millisecond) (Z.quot pingTimeout Millisecond) maxPayload.

(** The value [json.Marshal] prints for a handshake. *)
Definition handshake_json (h : Handshake) : jval :=
  JObj [("sid", JStr (SID h));
        ("upgrades", JArr (map JStr (Upgrades h)));
        ("pingInterval", JInt (PingInterval h));
        ("pingTimeout", JInt (PingTimeout h));
        ("maxPayload", JInt (MaxPayload h))].

Definition MarshalOpenPacket (h : Handshake) : result Error bytes :=
  Encode (mkPacket Open (print (handshake_json h))).

(** ** Lemmas *)

Lemma valid_spec t : valid t = true <-> 0 <= t <= 6.
Proof. unfold valid. rewrite andb_true_iff, !Z.leb_le. done. Qed.

Lemma Encode_Ok p raw : Encode p = Ok raw <->
  0 <= Type_ p <= 6 /\ raw = digit_byte (Type_ p) :: Data p.
Proof.
  unfold Encode. destruct (valid (Type_ p)) eqn:E; simpl.
  - apply valid_spec in E. naive_solver.
  - split; [done|]. intros [H _]. apply valid_spec in H. congruence.
Qed.

Lemma Encode_valid p : 0 <= Type_ p <= 6 -> Encode p = Ok (digit_byte (Type_ p) :: Data p).
Proof. intros H. by apply Encode_Ok. Qed.

Lemma Decode_digit t data : 0 <= t <= 6 -> Decode (digit_byte t :: data) = Ok (mkPacket t data).
Proof.
  intros H. unfold Decode, digit_byte. rewrite byte_Z_byte, Z.mod_small by lia.
  destruct (Z.ltb_spec (48 + t) 48); [lia|]. destruct (Z.ltb_spec 54 (48 + t)); [lia|].
  simpl. repeat f_equal. lia.
Qed.

Lemma Decode_Encode_iff p raw : Encode p = Ok raw <-> Decode raw = Ok p.
Proof.
  rewrite Encode_Ok. split.
  - intros [H ->]. rewrite Decode_digit by done. by destruct p.
  - unfold Decode. destruct raw as [|d data]; [done|].
    destruct (_ || _) eqn:E; [done|]. intros [= <-]. zify_bool. simpl. split; [lia|].
    f_equal. apply byte_Z_inj. unfold digit_byte. pose proof (byte_Z_range d).
    rewrite byte_Z_byte, Z.mod_small by lia. lia.
Qed.

Lemma Encode_nonempty p raw : Encode p = Ok raw -> raw <> [].
Proof. intros [_ ->]%Encode_Ok. done. Qed.

Lemma digit_byte_not_RS t : 0 <= t <= 6 -> digit_byte t <> RecordSeparator.
Proof.
  intros H E. apply (f_equal byte_Z) in E. unfold digit_byte in E.
  rewrite byte_Z_byte, Z.mod_small in E by lia. change (byte_Z RecordSeparator) with 30 in E. lia.
Qed.

(** The encoder's loop joins the wire forms with the separator. *)
Lemma encode_batch_loop_acc i buf ps : (0 < i)%nat ->
  encode_batch_loop i buf ps =
    (wires ← mapE Encode ps;
     Ok (buf ++ concat (map (fun w => RecordSeparator :: w) wires))).
Proof.
  revert i buf. induction ps as [|p ps IH]; intros i buf Hi; simpl.
  - cbn. by rewrite app_nil_r.
  - unfold mbind, result_bind. destruct (Encode p) as [w|]; [|done].
    rewrite IH by lia. unfold mbind, result_bind.
    destruct (mapE Encode ps); [|done]. rewrite (proj2 (Nat.ltb_lt 0 i)) by lia. simpl.
    by rewrite <- !app_assoc.
Qed.

Lemma join_sep_concat sep w ws :
  join_sep sep (w :: ws) = w ++ concat (map (fun w => sep :: w) ws).
Proof.
  revert w. induction ws as [|w2 ws IH]; intros w; simpl; [by rewrite app_nil_r|].
  specialize (IH w2). simpl in IH. by rewrite IH.
Qed.

Lemma EncodeBatch_join ps :
  EncodeBatch ps = (wires ← mapE Encode ps; Ok (join_sep RecordSeparator wires)).
Proof.
  destruct ps as [|p ps]; [done|]. unfold EncodeBatch. cbn [encode_batch_loop mapE].
  unfold mbind, result_bind. destruct (Encode p) as [w|]; [|done].
  rewrite encode_batch_loop_acc by lia. unfold mbind, result_bind.
  destruct (mapE Encode ps) as [ws|]; [|done]. simpl app. by rewrite join_sep_concat.
Qed.

Definition nonempty (l : bytes) : bool := negb (length l =? 0)%nat.

Lemma decode_parts_acc parts out :
  decode_parts parts out =
    (ps ← mapE (fun part => map_err ErrBatchSegment (Decode part)) (List.filter nonempty parts);
     Ok (out ++ ps)).
Proof.
  revert out. induction parts as [|part parts IH]; intros out; simpl.
  - by rewrite app_nil_r.
  - unfold nonempty at 1. destruct (length part =? 0)%nat; simpl; [apply IH|].
    unfold mbind, result_bind. destruct (Decode part) as [p|]; simpl; [|done].
    rewrite IH. unfold mbind, result_bind.
    destruct (mapE _ (List.filter nonempty parts)); [|done]. by rewrite <- app_assoc.
Qed.

Lemma map_err_Ok {E E' A} (f : E -> E') (r : result E A) a :
  map_err f r = Ok a <-> r = Ok a.
Proof. destruct r; simpl; naive_solver. Qed.

Lemma Forall2_Decode_Encode parts ps :
  Forall2 (fun part p => map_err ErrBatchSegment (Decode part) = Ok p) parts ps <->
  Forall2 (fun p part => Encode p = Ok part) ps parts.
Proof.
  split; induction 1 as [|a b la lb H Hl IH]; constructor; try done.
  - apply Decode_Encode_iff. by apply map_err_Ok in H.
  - apply map_err_Ok. by apply Decode_Encode_iff.
Qed.

Lemma DecodeBatch_spec body ps :
  DecodeBatch body = Ok ps <->
  mapE Encode ps = Ok (List.filter nonempty (split_sep RecordSeparator body)).
Proof.
  rewrite mapE_Ok. destruct body as [|c body].
  - simpl. split; [intros [= <-]; constructor|]. intros H. by inv H.
  - unfold DecodeBatch. rewrite decode_parts_acc, <- Forall2_Decode_Encode, <- mapE_Ok.
    unfold mbind, result_bind. destruct (mapE _ _); simpl; naive_solver.
Qed.

Lemma filter_nonempty_all ls : Forall (fun l => l <> []) ls -> List.filter nonempty ls = ls.
Proof.
  induction 1 as [|l ls Hl Hls IH]; simpl; [done|].
  unfold nonempty at 1. destruct l; [done|]. simpl. by rewrite IH.
Qed.

Lemma wires_no_RS ps wires : mapE Encode ps = Ok wires ->
  Forall (fun p => RecordSeparator ∉ Data p) ps ->
  Forall (fun w => RecordSeparator ∉ w) wires /\ Forall (fun w => w <> []) wires.
Proof.
  rewrite mapE_Ok. induction 1 as [|p w ps wires Hp Hps IH]; intros Hd; [done|].
  inv Hd. destruct IH as [IH1 IH2]; [done|]. apply Encode_Ok in Hp as [Ht ->].
  split; constructor; try done. apply not_elem_of_cons. split; [|done].
  intros E. by apply (digit_byte_not_RS (Type_ p)).
Qed.

Lemma DecodeBatch_EncodeBatch ps body :
  Forall (fun p => RecordSeparator ∉ Data p) ps ->
  EncodeBatch ps = Ok body -> DecodeBatch body = Ok ps.
Proof.
  intros Hd. rewrite EncodeBatch_join. unfold mbind, result_bind.
  destruct (mapE Encode ps) as [wires|] eqn:Hw; [|done]. intros [= <-].
  apply DecodeBatch_spec. rewrite Hw. f_equal.
  destruct (wires_no_RS ps wires Hw Hd) as [H1 H2].
  destruct wires as [|w wires]; [done|].
  rewrite split_join by done. by rewrite filter_nonempty_all.
Qed.

Lemma mapE_Encode_valid ps : Forall (fun p => valid (Type_ p)) ps ->
  mapE Encode ps = Ok (map (fun p => digit_byte (Type_ p) :: Data p) ps).
Proof.
  intros H. apply mapE_Ok. induction H as [|p ps Hp Hps IH]; simpl; constructor; [|done].
  apply Encode_valid, valid_spec. by apply Is_true_true.
Qed.

(** ** Properties *)

(** [Encode] and [Decode] are exact inverses: a packet encodes to [raw]
    precisely when [raw] decodes to that packet (so each direction of the
    round trip holds, and the two fail together). *)
Theorem packet_codec_inverse p raw : Encode p = Ok raw <-> Decode raw = Ok p.
Proof. apply Decode_Encode_iff. Qed.

(** A batch body is decoded to exactly the packets whose wire forms are
    its non-empty segments; it fails when a segment is not a packet. *)
Theorem DecodeBatch_segments body ps :
  DecodeBatch body = Ok ps <->
  mapE Encode ps = Ok (List.filter nonempty (split_sep RecordSeparator body)).
Proof. apply DecodeBatch_spec. Qed.

(** C35: a batch of packets of known types whose payloads hold no record
    separator is encoded, and decodes to the same packets in the same order. *)
Theorem batch_roundtrip ps :
  Forall (fun p => valid (Type_ p) /\ RecordSeparator ∉ Data p) ps ->
  exists body, EncodeBatch ps = Ok body /\ DecodeBatch body = Ok ps.
Proof.
  intros H. apply Forall_and in H as [Hv Hd]. eexists. split.
  - rewrite EncodeBatch_join, mapE_Encode_valid by done. reflexivity.
  - apply DecodeBatch_EncodeBatch; [done|].
    rewrite EncodeBatch_join, mapE_Encode_valid by done. reflexivity.
Qed.

Lemma batch_roundtrip_witness :
  exists body, EncodeBatch [mkPacket Message (bs "hi"); mkPacket Ping (bs "probe")] = Ok body
    /\ DecodeBatch body = Ok [mkPacket Message (bs "hi"); mkPacket Ping (bs "probe")].
Proof.
  apply batch_roundtrip. repeat constructor; apply (bool_decide_unpack _); vm_compute; done.
Defined.

(** JSON text marshalled by the server never holds a record separator:
    [encoding/json] escapes control characters, so a batch of messages made of
    server values always survives the round trip. *)
Theorem json_batch_roundtrip (vs : list jval) :
  Forall raw_ok vs ->
  exists body, EncodeBatch (map (fun v => mkPacket Message (print v)) vs) = Ok body
    /\ DecodeBatch body = Ok (map (fun v => mkPacket Message (print v)) vs).
Proof.
  intros H. assert (Forall (fun p => valid (Type_ p) /\ RecordSeparator ∉ Data p)
                      (map (fun v => mkPacket Message (print v)) vs)) as Hf.
  { apply Forall_fmap. eapply Forall_impl; [exact H|]. intros v Hv. split; [done|].
    apply no_ctl_not_elem; [vm_compute; done|]. by apply print_no_ctl. }
  apply Forall_and in Hf as [Hv Hd]. eexists. split.
  - rewrite EncodeBatch_join, mapE_Encode_valid by done. reflexivity.
  - apply DecodeBatch_EncodeBatch; [done|].
    rewrite EncodeBatch_join, mapE_Encode_valid by done. reflexivity.
Qed.

Lemma json_batch_roundtrip_witness :
  exists body,
    EncodeBatch (map (fun v => mkPacket Message (print v)) [JStr (str [x1e]); JInt 7]) = Ok body
    /\ DecodeBatch body
       = Ok (map (fun v => mkPacket Message (print v)) [JStr (str [x1e]); JInt 7]).
Proof. apply json_batch_roundtrip. repeat constructor. Defined.

End engineio.
