(* ===== verification/SocketIO.v ===== *)
(** * Socket.IO packets ([internal/socketio])

    The text codec of [packet.go]:
    [<type>[<#attachments>-][<namespace>,][<ackId>][<json-payload>]]. *)
From S2P Require Import Prelude.
From S2P Require Import GoStd.

Module socketio.

(** ** Packet types *)

Definition PacketType := Z.
Definition Connect : PacketType := 0.
Definition Disconnect : PacketType := 1.
Definition Event : PacketType := 2.
Definition Ack : PacketType := 3.
Definition ConnectError : PacketType := 4.
Definition BinaryEvent : PacketType := 5.
Definition BinaryAck : PacketType := 6.
Definition minType : PacketType := Connect.
Definition maxType : PacketType := BinaryAck.
Definition defaultNamespace : string := "/".

Definition String (t : PacketType) : string :=
  if t =? Connect then "connect"
  else if t =? Disconnect then "disconnect"
  else if t =? Event then "event"
  else if t =? Ack then "ack"
  else if t =? ConnectError then "connect_error"
  else if t =? BinaryEvent then "binary_event"
  else if t =? BinaryAck then "binary_ack"
  else "unknown(" +:+ str (Itoa t) +:+ ")".

Definition valid (t : PacketType) : bool := (minType <=? t) && (t <=? maxType).
Definition isBinary (t : PacketType) : bool := (t =? BinaryEvent) || (t =? BinaryAck).

(** ** Packets *)

Record Packet := mkPacket {
  Type_ : PacketType;
  Namespace : string;
  AckID : option Z;       (* *int, nil when absent *)
  Data : bytes;           (* json.RawMessage, nil when absent *)
  Attachments : Z
}.

Inductive Error :=
  | ErrEmptyPacket
  | ErrInvalidType (t : PacketType)
  | ErrInvalidDigit (b : byte)
  | ErrAttachmentsSet
  | ErrNegativeAttachments
  | ErrNamespace (ns : string)
  | ErrAttachmentHeader
  | ErrAttachmentCount (e : NumError)
  | ErrAckID (e : NumError).

(** ** Encode *)

Definition has_slash (l : bytes) : bool := bool_decide (head l = Some x2f).

Definition Encode (p : Packet) : result Error bytes :=
  if negb (valid (Type_ p)) then Err (ErrInvalidType (Type_ p))
  else if negb (isBinary (Type_ p)) && negb (Attachments p =? 0) then Err ErrAttachmentsSet
  else if isBinary (Type_ p) && (Attachments p <? 0) then Err ErrNegativeAttachments
  else
    let b0 := [digit_byte (Type_ p)] in
    let b1 := if isBinary (Type_ p) then b0 ++ Itoa (Attachments p) ++ [x2d] else b0 in
    let ns := Namespace p in
    b2 ← (if bool_decide (ns <> ""%string) && bool_decide (ns <> defaultNamespace)
          then if has_slash (bs ns) then Ok (b1 ++ bs ns ++ [x2c]) else Err (ErrNamespace ns)
          else Ok b1);
    let b3 := match AckID p with Some n => b2 ++ Itoa n | None => b2 end in
    Ok (b3 ++ Data p).

(** ** Decode *)

Definition isDigit (b : byte) : bool := (48 <=? byte_Z b) && (byte_Z b <=? 57).

(** The scanning loops [for j < len(raw) && cond(raw[j]) { j++ }]: the part
    scanned over and the rest. *)
Fixpoint scan (cond : byte -> bool) (l : bytes) : bytes * bytes :=
  match l with
  | [] => ([], [])
  | c :: l' => if cond c then let '(a, r) := scan cond l' in (c :: a, r) else ([], l)
  end.

Definition decode_attachments (t : PacketType) (raw : bytes) : result Error (Z * bytes) :=
  if isBinary t then
    let '(ds, r) := scan isDigit raw in
    match ds, r with
    | _ :: _, x2d :: r' => n ← map_err ErrAttachmentCount (Atoi ds); Ok (n, r')
    | _, _ => Err ErrAttachmentHeader
    end
  else Ok (0, raw).

Definition decode_namespace (raw : bytes) : string * bytes :=
  match raw with
  | x2f :: _ =>
      let '(ns, r) := scan (fun c => bool_decide (c <> x2c)) raw in
      (str ns, match r with _ :: r' => r' | [] => [] end)
  | _ => (defaultNamespace, raw)
  end.

Definition decode_ack (raw : bytes) : result Error (option Z * bytes) :=
  let '(ds, r) := scan isDigit raw in
  match ds with
  | [] => Ok (None, raw)
  | _ => n ← map_err ErrAckID (Atoi ds); Ok (Some n, r)
  end.

Definition Decode (raw : bytes) : result Error Packet :=
  match raw with
  | [] => Err ErrEmptyPacket
  | digit :: rest =>
      if (byte_Z digit <? 48) || (54 <? byte_Z digit) then Err (ErrInvalidDigit digit)
      else
        let t := byte_Z digit - 48 in
        '(att, r1) ← decode_attachments t rest;
        let '(ns, r2) := decode_namespace r1 in
        '(ack, data) ← decode_ack r2;
        Ok (mkPacket t ns ack data att)
  end.

(** ** Well-formed packets: the ones whose text form is unambiguous *)

Definition head_is (P : byte -> Prop) (l : bytes) : Prop :=
  match l with [] => False | c :: _ => P c end.

Record wf (p : Packet) : Prop := {
  wf_type : 0 <= Type_ p <= 6;
  wf_att : if isBinary (Type_ p) then 0 <= Attachments p < 2 ^ 63 else Attachments p = 0;
  wf_ns : Namespace p = defaultNamespace \/
          (has_slash (bs (Namespace p)) = true /\ x2c ∉ bs (Namespace p));
  wf_ack : match AckID p with Some n => 0 <= n < 2 ^ 63 | None => True end;
  wf_digit : ~ head_is (fun c => isDigit c = true) (Data p)
}.

(** The payload cannot be mistaken for a namespace. *)
Definition unambiguous (p : Packet) : Prop :=
  Namespace p = defaultNamespace -> AckID p = None -> ~ head_is (fun c => c = x2f) (Data p).

(** ** Lemmas on the scanners *)

Lemma isDigit_is_digit b : isDigit b = is_digit b.
Proof. done. Qed.

Lemma scan_app (cond : byte -> bool) a r :
  Forall (fun c => cond c) a -> ~ head_is (fun c => cond c = true) r ->
  scan cond (a ++ r) = (a, r).
Proof.
  intros Ha Hr. induction Ha as [|c a Hc Ha IH]; simpl.
  - destruct r as [|c r]; [done|]. simpl in *. by destruct (cond c).
  - apply Is_true_true in Hc. by rewrite Hc, IH.
Qed.

Lemma scan_spec (cond : byte -> bool) l a r : scan cond l = (a, r) ->
  l = a ++ r /\ Forall (fun c => cond c) a /\ ~ head_is (fun c => cond c = true) r.
Proof.
  revert a r. induction l as [|c l IH]; intros a r; simpl; [intros [= <- <-]; naive_solver|].
  destruct (cond c) eqn:Hc.
  - destruct (scan cond l) as [a' r'] eqn:Hs. intros [= <- <-].
    destruct (IH a' r' eq_refl) as (-> & Ha & Hr). split; [done|]. split; [|done].
    constructor; [by apply Is_true_true|done].
  - intros [= <- <-]. simpl. rewrite Hc. naive_solver.
Qed.

Lemma Itoa_digits n : 0 <= n -> Forall (fun c => isDigit c) (Itoa n).
Proof.
  intros H. unfold Itoa. destruct (Z.ltb_spec n 0); [lia|]. by apply FormatUint_digits.
Qed.

Lemma Itoa_nonempty n : Itoa n <> [].
Proof. unfold Itoa. destruct (n <? 0); [done|]. apply FormatUint_nonempty. Qed.

Lemma decode_ack_some n r :
  0 <= n < 2 ^ 63 -> ~ head_is (fun c => isDigit c = true) r ->
  decode_ack (Itoa n ++ r) = Ok (Some n, r).
Proof.
  intros Hn Hr. unfold decode_ack. rewrite scan_app; [|apply Itoa_digits; lia|done].
  pose proof (Itoa_nonempty n). destruct (Itoa n) as [|c s] eqn:E; [done|].
  by rewrite <- E, Atoi_Itoa by done.
Qed.

Lemma decode_ack_none r :
  ~ head_is (fun c => isDigit c = true) r -> decode_ack r = Ok (None, r).
Proof. intros Hr. unfold decode_ack. pose proof (scan_app isDigit [] r) as H.
  simpl in H. by rewrite H. Qed.

Lemma decode_attachments_binary t n r : isBinary t = true -> 0 <= n < 2 ^ 63 ->
  decode_attachments t (Itoa n ++ x2d :: r) = Ok (n, r).
Proof.
  intros Ht Hn. unfold decode_attachments. rewrite Ht.
  rewrite scan_app; [|apply Itoa_digits; lia|by vm_compute].
  pose proof (Itoa_nonempty n). destruct (Itoa n) as [|c s] eqn:E; [done|].
  by rewrite <- E, Atoi_Itoa by done.
Qed.

Lemma decode_namespace_custom ns r : has_slash (bs ns) = true -> x2c ∉ bs ns ->
  decode_namespace (bs ns ++ x2c :: r) = (ns, r).
Proof.
  intros Hs Hc. unfold has_slash in Hs. apply bool_decide_eq_true in Hs.
  destruct (bs ns) as [|c l] eqn:E; [done|]. injection Hs as ->.
  unfold decode_namespace. change ((x2f :: l) ++ x2c :: r) with (x2f :: (l ++ x2c :: r)).
  cbv iota. change (x2f :: (l ++ x2c :: r)) with ((x2f :: l) ++ x2c :: r).
  rewrite scan_app; [by rewrite <- E, str_bs| |by simpl].
  apply Forall_forall. intros c Hin. apply bool_decide_spec. intros ->. done.
Qed.

Lemma decode_namespace_default r : ~ head_is (fun c => c = x2f) r ->
  decode_namespace r = (defaultNamespace, r).
Proof. intros Hr. unfold decode_namespace. destruct r as [|c r]; [done|]. by destruct c. Qed.

(** ** Lemmas on the codec *)

Definition attach_text (p : Packet) : bytes :=
  if isBinary (Type_ p) then Itoa (Attachments p) ++ [x2d] else [].
Definition ns_text (p : Packet) : bytes :=
  if bool_decide (Namespace p <> ""%string) && bool_decide (Namespace p <> defaultNamespace)
  then bs (Namespace p) ++ [x2c] else [].
Definition ack_text (p : Packet) : bytes :=
  match AckID p with Some n => Itoa n | None => [] end.

Lemma Encode_wf p : wf p ->
  Encode p = Ok (digit_byte (Type_ p) :: attach_text p ++ ns_text p ++ ack_text p ++ Data p).
Proof.
  intros [Ht Ha Hn _ _]. unfold Encode, attach_text, ns_text, ack_text.
  assert (valid (Type_ p) = true) as -> by (unfold valid; rewrite andb_true_iff, !Z.leb_le; done).
  assert (negb (isBinary (Type_ p)) && negb (Attachments p =? 0) = false) as ->.
  { destruct (isBinary _); simpl; [done|]. by rewrite Ha. }
  assert (isBinary (Type_ p) && (Attachments p <? 0) = false) as ->.
  { destruct (isBinary _); simpl; [|done]. apply Z.ltb_ge. lia. }
  simpl negb. cbv iota zeta. unfold mbind, result_bind.
  assert (bool_decide (Namespace p <> ""%string) && bool_decide (Namespace p <> defaultNamespace)
          = true -> has_slash (bs (Namespace p)) = true) as Hslash.
  { destruct Hn as [->|[? _]]; [|done]. by vm_compute. }
  destruct (bool_decide _ && bool_decide _); [rewrite Hslash by done|];
    destruct (isBinary _), (AckID p); simpl; by rewrite <- ?app_assoc.
Qed.

Lemma ns_text_cases p : wf p ->
  (Namespace p = defaultNamespace /\ ns_text p = []) \/
  (ns_text p = bs (Namespace p) ++ [x2c] /\ has_slash (bs (Namespace p)) = true
   /\ x2c ∉ bs (Namespace p)).
Proof.
  intros [_ _ Hn _ _]. unfold ns_text.
  destruct (decide (Namespace p = defaultNamespace)) as [->|Hne]; [by left|].
  right. destruct Hn as [?|[Hs Hc]]; [done|].
  rewrite !bool_decide_eq_true_2; [done|done|].
  intros E. rewrite E in Hs. by vm_compute in Hs.
Qed.

Lemma ack_no_slash p l : wf p ->
  (AckID p = None -> ~ head_is (fun c => c = x2f) l) ->
  ~ head_is (fun c => c = x2f) (ack_text p ++ l).
Proof.
  intros [_ _ _ Hk _] Hl. unfold ack_text. destruct (AckID p) as [n|]; [|by apply Hl].
  pose proof (Itoa_nonempty n). pose proof (Itoa_digits n ltac:(lia)) as Hd.
  destruct (Itoa n) as [|c s]; [done|]. simpl. intros ->. inv Hd.
Qed.

Lemma decode_ack_wf p : wf p -> decode_ack (ack_text p ++ Data p) = Ok (AckID p, Data p).
Proof.
  intros [_ _ _ Hk Hd]. unfold ack_text. destruct (AckID p) as [n|].
  - by apply decode_ack_some.
  - by apply decode_ack_none.
Qed.

Lemma Decode_Encode_wf p : wf p -> unambiguous p ->
  exists raw, Encode p = Ok raw /\ Decode raw = Ok p.
Proof.
  intros Hwf Hu. eexists. split; [by apply Encode_wf|].
  pose proof Hwf as [Ht Ha _ _ _]. unfold Decode, digit_byte.
  rewrite byte_Z_byte, Z.mod_small by lia.
  destruct (Z.ltb_spec (48 + Type_ p) 48); [lia|].
  destruct (Z.ltb_spec 54 (48 + Type_ p)); [lia|]. cbn [orb].
  replace (48 + Type_ p - 48) with (Type_ p) by lia.
  assert (decode_attachments (Type_ p) (attach_text p ++ ns_text p ++ ack_text p ++ Data p)
          = Ok (Attachments p, ns_text p ++ ack_text p ++ Data p)) as ->.
  { unfold attach_text. destruct (isBinary (Type_ p)) eqn:Hb.
    - rewrite <- app_assoc. by apply decode_attachments_binary.
    - unfold decode_attachments. by rewrite Hb, Ha. }
  cbn [mbind result_bind].
  assert (decode_namespace (ns_text p ++ ack_text p ++ Data p)
          = (Namespace p, ack_text p ++ Data p)) as ->.
  { destruct (ns_text_cases p Hwf) as [[Hn ->]|(-> & Hs & Hc)].
    - rewrite Hn. apply decode_namespace_default, ack_no_slash; [done|]. by apply Hu.
    - rewrite <- app_assoc. by apply decode_namespace_custom. }
  rewrite decode_ack_wf by done. cbn. by destruct p.
Qed.

Lemma decode_attachments_wf t raw n r : decode_attachments t raw = Ok (n, r) ->
  if isBinary t then 0 <= n < 2 ^ 63 else n = 0.
Proof.
  unfold decode_attachments. destruct (isBinary t); [|by intros [= <- <-]].
  destruct (scan isDigit raw) as [ds r'] eqn:Hs. apply scan_spec in Hs as (_ & Hd & _).
  destruct ds as [|d ds]; [done|]. destruct r' as [|c r']; [done|].
  destruct c; try done. unfold mbind, result_bind.
  destruct (Atoi (d :: ds)) eqn:Ha; simpl; [|done].
  intros [= <- <-]. by eapply Atoi_digits_range.
Qed.

Lemma decode_namespace_wf raw ns r : decode_namespace raw = (ns, r) ->
  ns = defaultNamespace \/ (has_slash (bs ns) = true /\ x2c ∉ bs ns).
Proof.
  unfold decode_namespace. destruct raw as [|c raw]; [intros [= <- <-]; by left|].
  destruct c; try (intros [= <- <-]; by left).
  destruct (scan _ _) as [a r'] eqn:Hs. intros [= <- _]. right. rewrite bs_str.
  pose proof Hs as (Hl & Ha & _)%scan_spec. simpl in Hs.
  destruct (scan _ raw) as [a2 r2]. injection Hs as <- _. split; [done|].
  intros Hin. rewrite Forall_forall in Ha. apply Ha in Hin. by apply bool_decide_spec in Hin.
Qed.

Lemma decode_ack_facts raw ack data : decode_ack raw = Ok (ack, data) ->
  match ack with Some n => 0 <= n < 2 ^ 63 | None => True end /\
  ~ head_is (fun c => isDigit c = true) data.
Proof.
  unfold decode_ack. destruct (scan isDigit raw) as [ds r] eqn:Hs.
  apply scan_spec in Hs as (-> & Hd & Hr). destruct ds as [|d ds].
  - intros [= <- <-]. by split.
  - unfold mbind, result_bind. destruct (Atoi (d :: ds)) eqn:Ha; simpl; [|done].
    intros [= <- <-]. split; [|done]. by eapply Atoi_digits_range.
Qed.

Lemma Decode_wf raw p : Decode raw = Ok p -> wf p.
Proof.
  unfold Decode. destruct raw as [|d rest]; [done|].
  destruct (_ || _) eqn:E; [done|]. zify_bool.
  unfold mbind, result_bind.
  destruct (decode_attachments _ _) as [[att r1]|] eqn:Ha; [|done].
  destruct (decode_namespace r1) as [ns r2] eqn:Hn.
  destruct (decode_ack r2) as [[ack data]|] eqn:Hk; [|done].
  intros [= <-]. apply decode_ack_facts in Hk as [Hk Hd].
  constructor; simpl; [lia|by eapply decode_attachments_wf|by eapply decode_namespace_wf|done|done].
Qed.

(** ** Properties *)

(** C36: encoding then decoding returns the packet, for every well-formed
    packet (known type, attachment count and ack id in range, namespace that
    starts with a slash and holds no comma, payload that starts with no digit)
    whose payload cannot be read as a namespace. *)
Theorem encode_decode_roundtrip p :
  wf p -> unambiguous p -> exists raw, Encode p = Ok raw /\ Decode raw = Ok p.
Proof. apply Decode_Encode_wf. Qed.

Lemma encode_decode_roundtrip_witness :
  exists raw, Encode (mkPacket Event "/admin" (Some 7) (bs "[]") 0) = Ok raw
    /\ Decode raw = Ok (mkPacket Event "/admin" (Some 7) (bs "[]") 0).
Proof.
  apply encode_decode_roundtrip.
  - split; [by vm_compute|by vm_compute| |by vm_compute|by vm_compute].
    right. split; [done|]. apply (bool_decide_unpack _). by vm_compute.
  - intros H. done.
Defined.

(** [Encode] inverts [Decode] on everything [Decode] produces, except a
    packet on the default namespace without an ack id whose payload starts
    with a slash. *)
Theorem decode_encode_roundtrip raw p :
  Decode raw = Ok p -> unambiguous p ->
  exists raw', Encode p = Ok raw' /\ Decode raw' = Ok p.
Proof. intros Hd Hu. apply Decode_Encode_wf; [by eapply Decode_wf|done]. Qed.

Lemma decode_encode_roundtrip_witness :
  exists raw', Encode (mkPacket BinaryEvent "/admin" (Some 9) (bs "[1]") 1) = Ok raw'
    /\ Decode raw' = Ok (mkPacket BinaryEvent "/admin" (Some 9) (bs "[1]") 1).
Proof.
  apply (decode_encode_roundtrip (bs "501-/admin,009[1]")); [by vm_compute|]. intros H. done.
Defined.

(** The exception is real: the text [2/,/x] decodes to an event on the
    default namespace with payload [/x]; encoding that packet gives [2/x],
    which decodes to an event on the namespace [/x] without payload. *)
Theorem encode_not_inverse :
  exists p p', Decode (bs "2/,/x") = Ok p /\ Encode p = Ok (bs "2/x")
    /\ Decode (bs "2/x") = Ok p' /\ Namespace p = "/"%string /\ Namespace p' = "/x"%string.
Proof. do 2 eexists. repeat split; vm_compute; reflexivity. Qed.

End socketio.
