(* ===== verification/NativeWS.v ===== *)
(** * The native WebSocket codec ([internal/nativews/conn.go])

    Frame reading and writing, message reassembly and the opening handshake.
    The network is a list of bytes to be read and a list of writes. The bytes
    are what arrives before the connection ends or is closed; what a call
    returns before it comes to their end does not depend on what follows them
    ([ReadMessage_local]), so a longer or an endless stream makes no difference
    to it. A write fails once the connection's budget of successful writes is
    used up, which stands for the peer going away at an arbitrary moment. *)
From S2P Require Import Prelude.
From S2P Require Import GoStd.
From S2P Require Import Hash.

Module nativews.

Definition opcodeContinuation : Z := 0.
Definition opcodeText : Z := 1.
Definition opcodeBinary : Z := 2.
Definition opcodeClose : Z := 8.
Definition opcodePing : Z := 9.
Definition opcodePong : Z := 10.
Definition maxControlPayload : Z := 125.

Inductive Error :=
  | ErrNotWebSocket
  | ErrNoHijack
  | ErrHijack
  | EOF
  | ErrUnexpectedEOF
  | ErrUnmasked
  | ErrUnexpectedOpcode (op : Z)
  | ErrReadLimit
  | ErrFragmentedControl
  | ErrControlTooLarge
  | ErrWrite.

(** A call ends with a Go error or with a run-time panic. [Ended] is the error
    of a read that comes to the end of the bytes, [partial] in the middle of
    what it reads: which error it is depends on what ended them, the peer
    ([EOF], [ErrUnexpectedEOF]) or a call of [Close]. [OutOfFuel] belongs to the
    model's loops only. *)
Inductive fault :=
  | Fail (e : Error)
  | Ended (partial : bool)
  | PanicMakeSlice
  | OutOfFuel.

(** ** Connections *)

Record Conn := mkConn {
  c_br : bytes;               (* bytes the peer has sent and we have not read *)
  c_w : list bytes;           (* successful writes, oldest first *)
  c_budget : option nat;      (* writes left before the connection fails *)
  c_readLimit : Z;
  c_onPong : bool;            (* a pong handler is registered *)
  c_pongs : list bytes        (* payloads passed to the pong handler *)
}.

Definition set_br (c : Conn) (b : bytes) : Conn :=
  mkConn b (c_w c) (c_budget c) (c_readLimit c) (c_onPong c) (c_pongs c).
Definition add_write (c : Conn) (b : bytes) : Conn :=
  mkConn (c_br c) (c_w c ++ [b]) (option_map pred (c_budget c)) (c_readLimit c)
    (c_onPong c) (c_pongs c).
Definition add_pong (c : Conn) (b : bytes) : Conn :=
  mkConn (c_br c) (c_w c) (c_budget c) (c_readLimit c) (c_onPong c) (c_pongs c ++ [b]).

Definition SetReadLimit (c : Conn) (limit : Z) : Conn :=
  mkConn (c_br c) (c_w c) (c_budget c) limit (c_onPong c) (c_pongs c).
Definition SetPongHandler (c : Conn) : Conn :=
  mkConn (c_br c) (c_w c) (c_budget c) (c_readLimit c) true (c_pongs c).

(** ** Primitive reads and writes *)

Definition ReadByte (br : bytes) : result fault (byte * bytes) :=
  match br with [] => Err (Ended false) | b :: br' => Ok (b, br') end.

(** [io.ReadFull(br, buf)] with a buffer of [n] bytes. *)
Definition ReadFull (br : bytes) (n : nat) : result fault (bytes * bytes) :=
  if (n <=? length br)%nat then Ok (take n br, drop n br)
  else match br with [] => Err (Ended false) | _ => Err (Ended true) end.

Definition Write (c : Conn) (b : bytes) : result fault Conn :=
  match c_budget c with Some O => Err (Fail ErrWrite) | _ => Ok (add_write c b) end.

(** [make([]byte, n)] panics on a negative length and beyond the largest
    allocation of the runtime (2^48 bytes on 64-bit platforms). *)
Definition max_alloc : Z := 2 ^ 48.
Definition make_slice (n : Z) : result fault nat :=
  if (n <? 0) || (max_alloc <? n) then Err PanicMakeSlice else Ok (Z.to_nat n).

(** ** readFrame *)

Definition ext_length (l : bytes) : Z :=
  fold_left (fun acc b => i64 (Z.lor (Z.shiftl acc 8) (byte_Z b))) l 0.

Fixpoint unmask_from (key : bytes) (i : nat) (payload : bytes) : bytes :=
  match payload with
  | [] => []
  | b :: p =>
      Z_byte (Z.lxor (byte_Z b) (byte_Z (nth (i mod 4) key x00))) :: unmask_from key (S i) p
  end.

Definition read_length (b2 : byte) (br : bytes) : result fault (Z * bytes) :=
  let length := Z.land (byte_Z b2) 127 in
  if length =? 126 then
    '(ext, br) ← ReadFull br 2; Ok (ext_length ext, br)
  else if length =? 127 then
    '(ext, br) ← ReadFull br 8; Ok (ext_length ext, br)
  else Ok (length, br).

Definition readFrame (br : bytes) : result fault (bool * Z * bytes * bytes) :=
  '(b1, br) ← ReadByte br;
  '(b2, br) ← ReadByte br;
  let fin := negb (Z.land (byte_Z b1) 128 =? 0) in
  let opcode := Z.land (byte_Z b1) 15 in
  let masked := negb (Z.land (byte_Z b2) 128 =? 0) in
  '(length, br) ← read_length b2 br;
  if negb masked then Err (Fail ErrUnmasked)
  else
    '(maskKey, br) ← ReadFull br 4;
    n ← make_slice length;
    '(payload, br) ← ReadFull br n;
    Ok (fin, opcode, unmask_from maskKey 0 payload, br).

(** ** writeFrame *)

Definition frame_header (fin : bool) (opcode : Z) (n : Z) : bytes :=
  let b0 := if fin then Z.lor (opcode mod 256) 128 else opcode mod 256 in
  if n <=? 125 then [Z_byte b0; Z_byte n]
  else if n <=? 65535 then [Z_byte b0; x7e; Z_byte (Z.shiftr n 8); Z_byte n]
  else [Z_byte b0; x7f; x00; x00; x00; x00;
        Z_byte (Z.shiftr n 24); Z_byte (Z.shiftr n 16); Z_byte (Z.shiftr n 8); Z_byte n].

Definition writeFrame (c : Conn) (fin : bool) (opcode : Z) (payload : bytes)
  : result fault Conn :=
  let n := len payload in
  c ← Write c (frame_header fin opcode n);
  if 0 <? n then Write c payload else Ok c.

Definition WriteMessage (c : Conn) (opcode : Z) (data : bytes) : result fault Conn :=
  writeFrame c true opcode data.

Definition WriteControl (c : Conn) (opcode : Z) (data : bytes) : result fault Conn :=
  if maxControlPayload <? len data then Err (Fail ErrControlTooLarge)
  else writeFrame c true opcode data.

(** ** ReadMessage *)

(** The loop over frames. [msgOpcode] and [buf] are the loop's variables; the
    result carries the connection as the call leaves it, also when it fails. *)
Fixpoint read_loop (fuel : nat) (c : Conn) (msgOpcode : Z) (buf : bytes)
  : Conn * result fault (Z * bytes) :=
  match fuel with
  | O => (c, Err OutOfFuel)
  | S fuel' =>
      match readFrame (c_br c) with
      | Err e => (c, Err e)
      | Ok (fin, op, data, br) =>
          let c := set_br c br in
          if op =? opcodePing then
            match writeFrame c true opcodePong data with
            | Err e => (c, Err e)
            | Ok c => read_loop fuel' c msgOpcode buf
            end
          else if op =? opcodePong then
            read_loop fuel' (if c_onPong c then add_pong c data else c) msgOpcode buf
          else if op =? opcodeClose then
            (match writeFrame c true opcodeClose [] with Ok c' => c' | Err _ => c end,
             Err (Fail EOF))
          else if negb (msgOpcode =? 0) && negb (op =? opcodeContinuation) then
            (c, Err (Fail (ErrUnexpectedOpcode op)))
          else
            let msgOpcode := if msgOpcode =? 0 then op else msgOpcode in
            let buf := buf ++ data in
            if (0 <? c_readLimit c) && (c_readLimit c <? len buf) then
              (c, Err (Fail ErrReadLimit))
            else if fin then
              if negb (msgOpcode =? opcodeText) && negb (msgOpcode =? opcodeBinary) then
                (c, Err (Fail ErrFragmentedControl))
              else (c, Ok (msgOpcode, buf))
            else read_loop fuel' c msgOpcode buf
      end
  end.

(** Every frame takes bytes off the stream, so its length bounds the loop. *)
Definition ReadMessage (c : Conn) : Conn * result fault (Z * bytes) :=
  read_loop (S (length (c_br c))) c 0 [].

(** ** The opening handshake *)

Definition Header := gmap string (list string).
Definition header_values (h : Header) (name : string) : list string := default [] (h !! name).
Definition header_Get (h : Header) (name : string) : string :=
  default "" (head (header_values h name)).

Definition lower (b : byte) : Z :=
  let n := byte_Z b in if (65 <=? n) && (n <=? 90) then n + 32 else n.

(** [strings.EqualFold(s, t)] for a token [t] of ASCII bytes: simple folding
    also equates the Kelvin sign with k and the long s with s. *)
Fixpoint equal_fold (s t : bytes) : bool :=
  match t with
  | [] => match s with [] => true | _ => false end
  | c :: t' =>
      match s with
      | xe2 :: x84 :: xaa :: s' => (lower c =? 107) && equal_fold s' t'
      | xc5 :: xbf :: s' => (lower c =? 115) && equal_fold s' t'
      | b :: s' => (lower b =? lower c) && equal_fold s' t'
      | [] => false
      end
  end.
Definition EqualFold (s t : string) : bool := equal_fold (bs s) (bs t).

(** [strings.TrimSpace]: white space is [unicode.IsSpace], here by its UTF-8
    form; the right end is scanned on the reversed text. *)
Definition space_runes : list bytes :=
  [[x09]; [x0a]; [x0b]; [x0c]; [x0d]; [x20]; [xc2; x85]; [xc2; xa0]; [xe1; x9a; x80]]
  ++ map (fun b => [xe2; x80; b])
       [x80; x81; x82; x83; x84; x85; x86; x87; x88; x89; x8a; xa8; xa9; xaf]
  ++ [[xe2; x81; x9f]; [xe3; x80; x80]].
Fixpoint trim (runes : list bytes) (fuel : nat) (l : bytes) : bytes :=
  match fuel with
  | O => l
  | S fuel' =>
      match List.find (fun r => bool_decide (take (length r) l = r)) runes with
      | Some r => trim runes fuel' (drop (length r) l)
      | None => l
      end
  end.
Definition TrimSpace (l : bytes) : bytes :=
  let left := trim space_runes (length l) l in
  rev (trim (map (@rev byte) space_runes) (length left) (rev left)).

Definition headerTokenContains (h : Header) (name token : string) : bool :=
  existsb (fun v =>
    existsb (fun part => equal_fold (TrimSpace part) (bs token)) (split_sep x2c (bs v)))
    (header_values h name).

Definition magic : bytes := bs "258EAFA5-E914-47DA-95CA-C5AB0DC85B11".
Definition computeAccept (key : string) : bytes :=
  base64_EncodeToString (sha1_Sum (bs key ++ magic)).

Record Request := mkRequest { r_Method : string; r_Header : Header }.

(** What the HTTP server's connection does during the hijack. *)
Record Hijack := mkHijack {
  hj_supported : bool; hj_ok : bool; hj_write_ok : bool; hj_flush_ok : bool;
  hj_buffered : bytes   (* bytes the client has already sent *)
}.

Definition crlf : bytes := [x0d; x0a].
Definition handshake_response (key : string) : bytes :=
  bs "HTTP/1.1 101 Switching Protocols" ++ crlf ++
  bs "Upgrade: websocket" ++ crlf ++
  bs "Connection: Upgrade" ++ crlf ++
  bs "Sec-WebSocket-Accept: " ++ computeAccept key ++ crlf ++ crlf.

(** [Upgrade]: the HTTP error status written, if any, and the outcome: the
    response bytes and the connection, or an error. *)
Definition Upgrade (r : Request) (hj : Hijack) (checkOrigin : option (Request -> bool))
  : option Z * result Error (bytes * Conn) :=
  if negb (headerTokenContains (r_Header r) "Connection" "upgrade")
     || negb (EqualFold (header_Get (r_Header r) "Upgrade") "websocket")
  then (None, Err ErrNotWebSocket)
  else if negb (bool_decide (r_Method r = "GET"%string)) then (None, Err ErrNotWebSocket)
  else if match checkOrigin with Some f => negb (f r) | None => false end
  then (Some 403, Err ErrNotWebSocket)
  else
    let key := header_Get (r_Header r) "Sec-WebSocket-Key" in
    if bool_decide (key = ""%string) then (None, Err ErrNotWebSocket)
    else if negb (bool_decide (header_Get (r_Header r) "Sec-WebSocket-Version" = "13"%string))
    then (Some 400, Err ErrNotWebSocket)
    else if negb (hj_supported hj) then (None, Err ErrNoHijack)
    else if negb (hj_ok hj) then (None, Err ErrHijack)
    else if negb (hj_write_ok hj && hj_flush_ok hj) then (None, Err ErrWrite)
    else (None, Ok (handshake_response key, mkConn (hj_buffered hj) [] None 0 false [])).

(** The echo loop of [tools/autobahn/echo]: read a message, write it back. *)
Fixpoint echo (fuel : nat) (c : Conn) : Conn :=
  match fuel with
  | O => c
  | S fuel' =>
      match ReadMessage c with
      | (c, Err _) => c
      | (c, Ok (op, msg)) =>
          match WriteMessage c op msg with
          | Err _ => c
          | Ok c => echo fuel' c
          end
      end
  end.

Example TrimSpace_ascii : TrimSpace (bs "  keep-alive ") = bs "keep-alive".
Proof. vm_compute. reflexivity. Qed.

(** RFC 6455 section 1.3's example key. *)
Example computeAccept_rfc :
  computeAccept "dGhlIHNhbXBsZSBub25jZQ==" = bs "s3pPLMBiTxaQ9kYGzzhZRbK+xOo=".
Proof. vm_compute. reflexivity. Qed.

(** ** RFC 6455 frames, as a client sends them and as a server has to *)

Definition rfc_length (n : Z) : Z * bytes :=
  if n <=? 125 then (n, [])
  else if n <=? 65535 then (126, be_split 2 n)
  else (127, be_split 8 n).

Definition rfc_header (mask : bool) (fin : bool) (op : Z) (n : Z) : bytes :=
  Z_byte (op + if fin then 128 else 0)
  :: Z_byte ((rfc_length n).1 + if mask then 128 else 0) :: (rfc_length n).2.

Definition client_frame (fin : bool) (op : Z) (key payload : bytes) : bytes :=
  rfc_header true fin op (len payload) ++ key ++ unmask_from key 0 payload.

(** ** Bit lemmas *)

Lemma land_128 b : (Z.land (byte_Z b) 128 =? 0) = (byte_Z b <? 128).
Proof. by destruct b. Qed.
Lemma land_127 z : Z.land z 127 = z mod 128.
Proof. change 127 with (Z.ones 7). by rewrite Z.land_ones by lia. Qed.
Lemma land_15 z : Z.land z 15 = z mod 16.
Proof. change 15 with (Z.ones 4). by rewrite Z.land_ones by lia. Qed.

Lemma lor_shiftl_byte a b : 0 <= b < 256 -> Z.lor (Z.shiftl a 8) b = a * 256 + b.
Proof.
  intros Hb. change 256 with (2 ^ 8). rewrite <- Z.shiftl_mul_pow2 by lia.
  assert (Z.land (Z.shiftl a 8) b = 0) as Hl.
  { apply Z.bits_inj'. intros n Hn. rewrite Z.land_spec, Z.bits_0.
    destruct (Z.ltb_spec n 8).
    - by rewrite Z.shiftl_spec_low.
    - assert (Z.testbit b n = false) as ->; [|by rewrite andb_false_r].
      rewrite <- (Z.mod_small b (2 ^ 8)) by done. by rewrite Z.mod_pow2_bits_high by lia. }
  rewrite Z.add_nocarry_lxor by done. by rewrite Z.lxor_lor.
Qed.

Lemma i64_idemp_step a b : i64 (i64 a * 256 + b) = i64 (a * 256 + b).
Proof.
  unfold i64. f_equal.
  rewrite (Z.add_assoc _ b) || idtac.
  set (m := (a + 2 ^ 63) mod 2 ^ 64).
  assert (exists k, m = a + 2 ^ 63 + k * 2 ^ 64) as [k ->].
  { exists (- ((a + 2 ^ 63) / 2 ^ 64)). unfold m.
    pose proof (Z.div_mod (a + 2 ^ 63) (2 ^ 64) ltac:(lia)). lia. }
  replace ((a + 2 ^ 63 + k * 2 ^ 64 - 2 ^ 63) * 256 + b + 2 ^ 63)
    with (a * 256 + b + 2 ^ 63 + (k * 256) * 2 ^ 64) by lia.
  by rewrite Z.mod_add by lia.
Qed.

(** The length loop computes the big-endian value, wrapped to an [int64]. *)
Lemma ext_length_spec l : ext_length l = i64 (be_combine l).
Proof.
  induction l as [|b l IH] using rev_ind; [done|].
  unfold ext_length in *. rewrite fold_left_app. cbn [fold_left].
  pose proof (byte_Z_range b).
  rewrite IH, be_combine_snoc, lor_shiftl_byte by lia. apply i64_idemp_step.
Qed.

Lemma lxor_byte_mod a b : 0 <= a < 256 -> 0 <= b < 256 -> Z.lxor a b mod 256 = Z.lxor a b.
Proof.
  intros Ha Hb. change 256 with (2 ^ 8) in *.
  apply Z.bits_inj'. intros n Hn.
  destruct (Z.ltb_spec n 8); [by rewrite Z.mod_pow2_bits_low|].
  rewrite Z.mod_pow2_bits_high by lia. rewrite Z.lxor_spec.
  rewrite <- (Z.mod_small a (2 ^ 8)), <- (Z.mod_small b (2 ^ 8)) by done.
  by rewrite !Z.mod_pow2_bits_high by lia.
Qed.

Lemma unmask_involutive key i p : unmask_from key i (unmask_from key i p) = p.
Proof.
  revert i. induction p as [|b p IH]; intros i; simpl; [done|].
  rewrite IH. f_equal. rewrite byte_Z_byte.
  rewrite lxor_byte_mod by apply byte_Z_range.
  by rewrite Z.lxor_assoc, Z.lxor_nilpotent, Z.lxor_0_r, Z_byte_Z.
Qed.

Lemma length_unmask key i p : length (unmask_from key i p) = length p.
Proof. revert i. induction p as [|b p IH]; intros i; simpl; [done|]. by rewrite IH. Qed.

(** ** Lemmas on reading *)

Lemma ReadFull_app a r n : length a = n -> ReadFull (a ++ r) n = Ok (a, r).
Proof.
  intros <-. unfold ReadFull. rewrite length_app.
  rewrite (proj2 (Nat.leb_le _ _)) by lia.
  by rewrite take_app_length, drop_app_length.
Qed.

Lemma ReadFull_length br n a r : ReadFull br n = Ok (a, r) ->
  length a = n /\ (length r + n = length br)%nat.
Proof.
  unfold ReadFull. destruct (Nat.leb_spec n (length br)); [|by destruct br].
  intros [= <- <-]. rewrite length_take, length_drop. lia.
Qed.

Lemma read_length_rfc b2 n r : 0 <= n < 2 ^ 63 ->
  byte_Z b2 mod 128 = (rfc_length n).1 ->
  read_length b2 ((rfc_length n).2 ++ r) = Ok (n, r).
Proof.
  intros Hn Hb. unfold read_length. rewrite land_127, Hb. unfold rfc_length.
  destruct (Z.leb_spec n 125); cbn [fst snd app].
  { destruct (Z.eqb_spec n 126); [lia|]. destruct (Z.eqb_spec n 127); [lia|]. done. }
  destruct (Z.leb_spec n 65535); cbn [fst snd].
  - change (126 =? 126) with true. cbv iota.
    rewrite (ReadFull_app (be_split 2 n)) by apply length_be_split. cbn [mbind result_bind].
    rewrite ext_length_spec, be_combine_split, Z.mod_small by (simpl; lia).
    by rewrite i64_small by lia.
  - change (127 =? 126) with false. change (127 =? 127) with true. cbv iota.
    rewrite (ReadFull_app (be_split 8 n)) by apply length_be_split. cbn [mbind result_bind].
    rewrite ext_length_spec, be_combine_split, Z.mod_small by (simpl; lia).
    by rewrite i64_small by lia.
Qed.

Lemma rfc_length_range n : 0 <= n -> 0 <= (rfc_length n).1 <= 127.
Proof.
  intros H. unfold rfc_length. destruct (Z.leb_spec n 125); simpl; [lia|].
  destruct (Z.leb_spec n 65535); simpl; lia.
Qed.

Lemma readFrame_client fin op key payload r :
  0 <= op < 16 -> length key = 4%nat -> len payload <= max_alloc ->
  readFrame (client_frame fin op key payload ++ r) = Ok (fin, op, payload, r).
Proof.
  intros Hop Hkey Hlen. unfold readFrame, client_frame, rfc_header.
  pose proof (len_nonneg payload) as H0. unfold max_alloc in Hlen.
  pose proof (rfc_length_range (len payload) H0) as Hr.
  rewrite <- app_assoc. cbn [app ReadByte mbind result_bind].
  rewrite !land_128, land_15, !byte_Z_byte.
  rewrite (read_length_rfc _ (len payload)); [|lia|].
  2: { rewrite byte_Z_byte, (Z.mod_small _ 256) by lia.
       replace ((rfc_length (len payload)).1 + 128)
         with ((rfc_length (len payload)).1 + 1 * 128) by lia.
       rewrite Z.mod_add by lia. apply Z.mod_small. lia. }
  cbn [mbind result_bind].
  rewrite (Z.mod_small (_ + 128) 256) by lia.
  rewrite (Z.mod_small (op + _) 256) by (destruct fin; lia).
  destruct (Z.ltb_spec ((rfc_length (len payload)).1 + 128) 128); [lia|]. cbn [negb].
  rewrite <- app_assoc, (ReadFull_app key) by done. cbn [mbind result_bind].
  unfold make_slice, max_alloc.
  destruct (Z.ltb_spec (len payload) 0); [lia|].
  destruct (Z.ltb_spec (2 ^ 48) (len payload)); [lia|]. cbn [orb mbind result_bind].
  rewrite (ReadFull_app (unmask_from key 0 payload))
    by (rewrite length_unmask; unfold len; lia).
  cbn [mbind result_bind]. rewrite unmask_involutive.
  assert ((op + if fin then 128 else 0) <? 128 = negb fin) as ->.
  { destruct fin; simpl; [apply Z.ltb_ge|apply Z.ltb_lt]; lia. }
  assert ((op + if fin then 128 else 0) mod 16 = op) as ->.
  { destruct fin; [|rewrite Z.add_0_r; by apply Z.mod_small].
    change 128 with (8 * 16). rewrite Z.mod_add by lia. by apply Z.mod_small. }
  by rewrite negb_involutive.
Qed.

Lemma read_length_shrinks b2 br n r : read_length b2 br = Ok (n, r) ->
  (length r <= length br)%nat.
Proof.
  unfold read_length. destruct (_ =? 126); [|destruct (_ =? 127); [|by intros [= _ <-]]];
    unfold mbind, result_bind;
    (destruct (ReadFull br _) as [[e r']|] eqn:E; [|done]);
    intros [= _ <-]; apply ReadFull_length in E; lia.
Qed.

Lemma readFrame_shrinks br fin op p r : readFrame br = Ok (fin, op, p, r) ->
  (length r + 6 <= length br)%nat.
Proof.
  unfold readFrame, mbind, result_bind.
  destruct br as [|b1 [|b2 br]]; [done|done|]. cbn [ReadByte].
  destruct (read_length b2 br) as [[n r1]|] eqn:E1; [|done]. apply read_length_shrinks in E1.
  destruct (negb (negb _)); [done|].
  destruct (ReadFull r1 4) as [[k r2]|] eqn:E2; [|done]. apply ReadFull_length in E2.
  destruct (make_slice n) as [m|]; [|done].
  destruct (ReadFull r2 m) as [[q r3]|] eqn:E3; [|done]. apply ReadFull_length in E3.
  intros [= _ _ _ <-]. simpl. lia.
Qed.

(** ** Lemmas on writing *)

Lemma Z_byte_mod z : Z_byte (z mod 256) = Z_byte z.
Proof. unfold Z_byte. by rewrite Z.mod_mod by lia. Qed.

Lemma be_split_2 n : be_split 2 n = [Z_byte (Z.shiftr n 8); Z_byte n].
Proof. cbn. by rewrite Z.shiftr_div_pow2 by lia. Qed.

Lemma be_split_8 n : 0 <= n < 2 ^ 32 ->
  be_split 8 n = [x00; x00; x00; x00;
    Z_byte (Z.shiftr n 24); Z_byte (Z.shiftr n 16); Z_byte (Z.shiftr n 8); Z_byte n].
Proof.
  intros H. cbn. rewrite !Z.shiftr_div_pow2 by lia.
  rewrite !Z.div_div by lia. change (256 * 256) with (2 ^ 16).
  change (2 ^ 16 * 256) with (2 ^ 24). change (2 ^ 24 * 256) with (2 ^ 32).
  rewrite !(Z.div_small n) by (simpl; lia). done.
Qed.

Lemma first_byte fin op : 0 <= op < 16 ->
  Z_byte (if fin : bool then Z.lor (op mod 256) 128 else op mod 256)
  = Z_byte (op + if fin then 128 else 0).
Proof.
  intros H. rewrite Z.mod_small by lia. destruct fin; [|by rewrite Z.add_0_r].
  f_equal. assert (op = 0 \/ op = 1 \/ op = 2 \/ op = 3 \/ op = 4 \/ op = 5 \/ op = 6 \/ op = 7 \/
    op = 8 \/ op = 9 \/ op = 10 \/ op = 11 \/ op = 12 \/ op = 13 \/ op = 14 \/ op = 15) by lia.
  naive_solver.
Qed.

Lemma frame_header_rfc fin op n : 0 <= op < 16 -> 0 <= n < 2 ^ 32 ->
  frame_header fin op n = rfc_header false fin op n.
Proof.
  intros Hop Hn. unfold frame_header, rfc_header, rfc_length.
  destruct (Z.leb_spec n 125); cbn [fst snd].
  { by rewrite first_byte, Z.add_0_r. }
  destruct (Z.leb_spec n 65535); cbn [fst snd].
  - by rewrite first_byte, be_split_2.
  - by rewrite first_byte, be_split_8.
Qed.

Lemma be_combine_8_low a b c d :
  be_combine [x00; x00; x00; x00; a; b; c; d]
  = ((byte_Z a * 256 + byte_Z b) * 256 + byte_Z c) * 256 + byte_Z d.
Proof. unfold be_combine. cbn [fold_left]. change (byte_Z x00) with 0. lia. Qed.

Lemma be_low_32 n : 0 <= n ->
  be_combine [x00; x00; x00; x00;
    Z_byte (Z.shiftr n 24); Z_byte (Z.shiftr n 16); Z_byte (Z.shiftr n 8); Z_byte n]
  = n mod 2 ^ 32.
Proof.
  intros H. change (2 ^ 32) with (256 ^ Z.of_nat 4). rewrite <- (be_combine_split 4 n).
  rewrite be_combine_8_low. unfold be_combine. cbn [be_split app fold_left].
  rewrite !byte_Z_byte, !Z.shiftr_div_pow2 by lia. rewrite !Z.div_div by lia.
  change (256 * (256 * 256)) with (2 ^ 24). change (256 * 256) with (2 ^ 16).
  change (n / 256) with (n / 2 ^ 8). lia.
Qed.

(** The bytes a write produces when the peer is there to take them. *)
Definition sent_frame (fin : bool) (op : Z) (payload : bytes) : list bytes :=
  frame_header fin op (len payload) :: (if 0 <? len payload then [payload] else []).

Definition add_writes (c : Conn) (ws : list bytes) : Conn :=
  mkConn (c_br c) (c_w c ++ ws) (c_budget c) (c_readLimit c) (c_onPong c) (c_pongs c).

Lemma writeFrame_ok c fin op payload : c_budget c = None ->
  writeFrame c fin op payload = Ok (add_writes c (sent_frame fin op payload)).
Proof.
  intros H. unfold writeFrame, Write, sent_frame, add_writes. rewrite H.
  cbn [mbind result_bind]. destruct (0 <? len payload).
  - cbn. rewrite H. unfold add_write; cbn. by rewrite H, <- app_assoc.
  - unfold add_write. by rewrite H.
Qed.

Lemma concat_sent_frame fin op payload :
  concat (sent_frame fin op payload) = frame_header fin op (len payload) ++ payload.
Proof.
  unfold sent_frame. simpl. f_equal. destruct (Z.ltb_spec 0 (len payload)).
  - simpl. by rewrite app_nil_r.
  - pose proof (len_nonneg payload). rewrite (len_zero_nil payload) by lia. done.
Qed.

(** ** Messages as the peer fragments them *)

Record frame := mkFrame { f_fin : bool; f_op : Z; f_data : bytes; f_key : bytes }.

Definition frame_bytes (f : frame) : bytes :=
  client_frame (f_fin f) (f_op f) (f_key f) (f_data f).
Definition frame_ok (f : frame) : Prop :=
  0 <= f_op f < 16 /\ length (f_key f) = 4%nat /\ len (f_data f) <= max_alloc.

(** [fragments m fs data pings pongs]: frames that complete a message whose
    opcode is [m] (0 before the first data frame), with pings and pongs
    anywhere between the fragments. *)
Inductive fragments : Z -> list frame -> bytes -> list bytes -> list bytes -> Prop :=
  | frag_last m f :
      f_fin f = true -> (m = 0 -> f_op f = opcodeText \/ f_op f = opcodeBinary) ->
      (m <> 0 -> f_op f = opcodeContinuation) ->
      fragments m [f] (f_data f) [] []
  | frag_more m f fs data pings pongs :
      f_fin f = false -> (m = 0 -> f_op f = opcodeText \/ f_op f = opcodeBinary) ->
      (m <> 0 -> f_op f = opcodeContinuation) ->
      fragments (if m =? 0 then f_op f else m) fs data pings pongs ->
      fragments m (f :: fs) (f_data f ++ data) pings pongs
  | frag_ping m f fs data pings pongs :
      f_op f = opcodePing -> fragments m fs data pings pongs ->
      fragments m (f :: fs) data (f_data f :: pings) pongs
  | frag_pong m f fs data pings pongs :
      f_op f = opcodePong -> fragments m fs data pings pongs ->
      fragments m (f :: fs) data pings (f_data f :: pongs).

(** The opcode of the message: the one of its first data frame. *)
Fixpoint msg_opcode (m : Z) (fs : list frame) : Z :=
  match fs with
  | [] => m
  | f :: fs' =>
      if (f_op f =? opcodePing) || (f_op f =? opcodePong) then msg_opcode m fs'
      else if m =? 0 then f_op f else m
  end.

Definition pong_replies (pings : list bytes) : list bytes :=
  concat (map (sent_frame true opcodePong) pings).

Definition read_state (c : Conn) (rest : bytes) (pings pongs : list bytes) : Conn :=
  mkConn rest (c_w c ++ pong_replies pings) (c_budget c) (c_readLimit c) (c_onPong c)
    (c_pongs c ++ if c_onPong c then pongs else []).

Lemma fragments_nonempty m fs data pings pongs : fragments m fs data pings pongs -> fs <> [].
Proof. by inversion 1. Qed.

Lemma msg_opcode_pos m fs : m <> 0 -> msg_opcode m fs = m.
Proof.
  intros H. induction fs as [|f fs IH]; simpl; [done|].
  destruct (_ || _); [done|]. destruct (Z.eqb_spec m 0); [done|done].
Qed.

(** A data frame: not a control frame, and of the message's opcode. *)
Lemma data_opcode m f : m = 0 \/ m = opcodeText \/ m = opcodeBinary ->
  (m = 0 -> f_op f = opcodeText \/ f_op f = opcodeBinary) -> (m <> 0 -> f_op f = opcodeContinuation) ->
  (f_op f =? opcodePing) = false /\ (f_op f =? opcodePong) = false /\ (f_op f =? opcodeClose) = false /\
  negb (m =? 0) && negb (f_op f =? opcodeContinuation) = false /\
  negb ((if m =? 0 then f_op f else m) =? opcodeText)
    && negb ((if m =? 0 then f_op f else m) =? opcodeBinary) = false.
Proof.
  intros Hm Hop Hop'.
  unfold opcodePing, opcodePong, opcodeClose, opcodeContinuation, opcodeText, opcodeBinary in *.
  destruct (Z.eqb_spec m 0); lia.
Qed.

Lemma msg_opcode_data m f fs : m = 0 \/ m = opcodeText \/ m = opcodeBinary ->
  (m = 0 -> f_op f = opcodeText \/ f_op f = opcodeBinary) -> (m <> 0 -> f_op f = opcodeContinuation) ->
  msg_opcode m (f :: fs) = if m =? 0 then f_op f else m.
Proof. intros Hm Hop Hop'. cbn [msg_opcode]. by destruct (data_opcode m f Hm Hop Hop') as (-> & -> & _). Qed.

Lemma read_loop_data fuel c m buf f rest : m = 0 \/ m = opcodeText \/ m = opcodeBinary ->
  (m = 0 -> f_op f = opcodeText \/ f_op f = opcodeBinary) -> (m <> 0 -> f_op f = opcodeContinuation) ->
  0 <= f_op f < 16 -> length (f_key f) = 4%nat -> len (f_data f) <= max_alloc ->
  (c_readLimit c <= 0 \/ len (buf ++ f_data f) <= c_readLimit c) -> c_br c = frame_bytes f ++ rest ->
  read_loop (S fuel) c m buf =
    let m := if m =? 0 then f_op f else m in
    if f_fin f then (set_br c rest, Ok (m, buf ++ f_data f))
    else read_loop fuel (set_br c rest) m (buf ++ f_data f).
Proof.
  intros Hm Hop Hop' H1 H2 H3 Hlim Hbr. cbn [read_loop]. rewrite Hbr. unfold frame_bytes.
  rewrite readFrame_client by done. destruct (data_opcode m f Hm Hop Hop') as (-> & -> & -> & -> & ->).
  cbn [c_readLimit set_br].
  by assert ((0 <? c_readLimit c) && (c_readLimit c <? len (buf ++ f_data f)) = false) as -> by lia.
Qed.

Lemma read_loop_fragments m fs data pings pongs :
  fragments m fs data pings pongs ->
  forall fuel c buf rest,
  m = 0 \/ m = opcodeText \/ m = opcodeBinary ->
  Forall frame_ok fs -> (length fs <= fuel)%nat -> c_budget c = None ->
  (c_readLimit c <= 0 \/ len (buf ++ data) <= c_readLimit c) ->
  c_br c = concat (map frame_bytes fs) ++ rest ->
  read_loop fuel c m buf = (read_state c rest pings pongs, Ok (msg_opcode m fs, buf ++ data)).
Proof.
  induction 1 as [m f Hfin Hop Hop'|m f fs data pings pongs Hfin Hop Hop' Hfs IH
                 |m f fs data pings pongs Hop Hfs IH|m f fs data pings pongs Hop Hfs IH];
    intros fuel c buf rest Hm Hok Hfuel Hbudget Hlim Hbr;
    apply Forall_cons_1 in Hok as [(Hf1 & Hf2 & Hf3) Hok];
    (destruct fuel as [|fuel]; [simpl in Hfuel; lia|]);
    cbn [map concat] in Hbr; rewrite <- app_assoc in Hbr;
    [| |cbn [read_loop]; rewrite Hbr; unfold frame_bytes at 1; rewrite readFrame_client by done..].
  - rewrite (read_loop_data fuel c m buf f rest) by (done || tauto). rewrite Hfin, msg_opcode_data by done.
    unfold read_state, pong_replies. cbn [map concat]. rewrite !app_nil_r. unfold set_br.
    by destruct (c_onPong c); rewrite ?app_nil_r.
  - rewrite !app_assoc in Hlim. rewrite len_app in Hlim. pose proof (len_nonneg data).
    rewrite (read_loop_data fuel c m buf f (concat (map frame_bytes fs) ++ rest)) by (done || lia).
    rewrite Hfin, msg_opcode_data by done.
    rewrite (IH fuel _ _ rest); [|destruct (Z.eqb_spec m 0); naive_solver|done
      |simpl in Hfuel; lia|done|cbn; rewrite len_app; lia|done].
    unfold read_state. cbn [c_w set_br c_budget c_readLimit c_onPong c_pongs].
    rewrite <- app_assoc. do 3 f_equal. destruct (Z.eqb_spec m 0) as [->|?]; apply msg_opcode_pos; [|done].
    destruct Hop as [-> | ->]; done.
  - rewrite Hop. change (opcodePing =? opcodePing) with true. cbv iota zeta.
    rewrite writeFrame_ok by done.
    rewrite (IH fuel _ _ rest) by (done || (simpl in Hfuel; lia)).
    cbn [msg_opcode]. rewrite Hop. unfold read_state, pong_replies.
    cbn [map concat c_w add_writes set_br c_budget c_readLimit c_onPong c_pongs].
    by rewrite <- app_assoc.
  - rewrite Hop. change (opcodePong =? opcodePing) with false.
    change (opcodePong =? opcodePong) with true. cbv iota zeta.
    cbn [c_onPong set_br]. destruct (c_onPong c) eqn:Hp;
      rewrite (IH fuel _ _ rest) by (done || (simpl in Hfuel; lia));
      cbn [msg_opcode]; rewrite Hop; unfold read_state;
      cbn [add_pong c_w set_br c_budget c_readLimit c_onPong c_pongs]; rewrite Hp; [|done].
    by rewrite <- app_assoc.
Qed.

Lemma length_frame_bytes f : frame_ok f -> (6 <= length (frame_bytes f))%nat.
Proof.
  intros (_ & Hk & _). unfold frame_bytes, client_frame, rfc_header. simpl.
  rewrite !length_app, Hk. lia.
Qed.

Lemma length_frames fs : Forall frame_ok fs ->
  (length fs <= length (concat (map frame_bytes fs)))%nat.
Proof.
  induction 1 as [|f fs Hf Hfs IH]; simpl; [lia|]. rewrite length_app.
  pose proof (length_frame_bytes f Hf). lia.
Qed.

(** A write panics in no case. *)
Lemma writeFrame_fault c fin op payload f : writeFrame c fin op payload = Err f -> exists e, f = Fail e.
Proof.
  assert (forall c b e, Write c b = Err e -> e = Fail ErrWrite) as Hw.
  { intros c0 b e. unfold Write. destruct (c_budget c0) as [[|n]|]; by intros [= <-]. }
  unfold writeFrame. destruct (Write c _) as [c1|e] eqn:E; cbn [mbind result_bind].
  - destruct (0 <? len payload); [|done]. intros E'%Hw. by exists ErrWrite.
  - apply Hw in E as ->. intros [= <-]. by eexists.
Qed.

Lemma WriteMessage_fault op d c f : WriteMessage c op d = Err f -> exists e, f = Fail e.
Proof. apply writeFrame_fault. Qed.

Lemma WriteControl_fault op d c f : WriteControl c op d = Err f -> exists e, f = Fail e.
Proof.
  unfold WriteControl. destruct (_ <? _); [intros [= <-]; by eexists|apply writeFrame_fault].
Qed.

Lemma writeFrame_br c fin op payload c' :
  writeFrame c fin op payload = Ok c' -> c_br c' = c_br c /\ c_readLimit c' = c_readLimit c.
Proof.
  unfold writeFrame, mbind, result_bind, Write.
  destruct (c_budget c) as [[|n]|] eqn:E; try done; cbn [add_write c_budget];
    (destruct (0 <? len payload); [|intros [= <-]; done]);
    rewrite ?E; simpl; try (destruct n; [done|]); intros [= <-]; done.
Qed.

Lemma Write_err c b e : Write c b = Err e -> e = Fail ErrWrite.
Proof. unfold Write. destruct (c_budget c) as [[|n]|]; naive_solver. Qed.

Lemma writeFrame_err c fin op payload e :
  writeFrame c fin op payload = Err e -> e = Fail ErrWrite.
Proof.
  unfold writeFrame, mbind, result_bind. destruct (Write c _) as [c'|e'] eqn:E.
  - destruct (0 <? _); [apply Write_err|done].
  - intros [= ->]. by eapply Write_err.
Qed.

(** The fuel of the loops never shows up in the primitive reads. *)
Definition no_fuel {A} (r : result fault A) : Prop :=
  match r with Err OutOfFuel => False | _ => True end.

Lemma no_fuel_bind {A B} (r : result fault A) (f : A -> result fault B) :
  no_fuel r -> (forall a, no_fuel (f a)) -> no_fuel (r ≫= f).
Proof. intros Hr Hf. destruct r as [a|e]; [apply Hf|exact Hr]. Qed.

Lemma ReadFull_no_fuel br n : no_fuel (ReadFull br n).
Proof. unfold ReadFull. destruct (_ <=? _)%nat; [done|]. by destruct br. Qed.

Lemma read_length_no_fuel b2 br : no_fuel (read_length b2 br).
Proof.
  unfold read_length. destruct (_ =? 126); [|destruct (_ =? 127); [|done]];
    (apply no_fuel_bind; [apply ReadFull_no_fuel|by intros []]).
Qed.

Lemma readFrame_no_fuel br : no_fuel (readFrame br).
Proof.
  unfold readFrame. destruct br as [|b1 [|b2 br]]; [done|done|]. cbn [ReadByte mbind result_bind].
  apply no_fuel_bind; [apply read_length_no_fuel|]. intros [n r1].
  destruct (negb (negb _)); [done|].
  apply no_fuel_bind; [apply ReadFull_no_fuel|]. intros [k r2].
  apply no_fuel_bind; [unfold make_slice; by destruct (_ || _)|]. intros m.
  apply no_fuel_bind; [apply ReadFull_no_fuel|]. by intros [].
Qed.

Lemma read_loop_fuel fuel c m buf : (length (c_br c) < fuel)%nat ->
  (read_loop fuel c m buf).2 <> Err OutOfFuel.
Proof.
  revert c m buf. induction fuel as [|fuel IH]; intros c m buf Hf; [lia|]. cbn [read_loop].
  pose proof (readFrame_no_fuel (c_br c)) as Hn.
  destruct (readFrame (c_br c)) as [[[[fin op] data] br]|e] eqn:E.
  2: { simpl. by intros [= ->]. }
  apply readFrame_shrinks in E as Hs. cbv zeta.
  destruct (op =? opcodePing).
  { destruct (writeFrame _ _ _ _) as [c'|e'] eqn:Ew.
    - apply writeFrame_br in Ew as [Hb _]. apply IH. rewrite Hb. simpl. lia.
    - apply writeFrame_err in Ew as ->. done. }
  destruct (op =? opcodePong); [apply IH; destruct (c_onPong _); simpl; lia|].
  destruct (op =? opcodeClose); [done|]. destruct (negb _ && _); [done|].
  destruct (_ && _); [done|]. destruct fin; [by destruct (_ && _)|].
  apply IH. simpl. lia.
Qed.

(** ** What a call does not read, it does not depend on *)

Definition with_more (more : bytes) (c : Conn) : Conn := set_br c (c_br c ++ more).

Definition not_ended {A} (r : result fault A) : Prop := forall partial, r <> Err (Ended partial).

Lemma ReadFull_more br n more : not_ended (ReadFull br n) ->
  ReadFull (br ++ more) n = ('(a, r) ← ReadFull br n; Ok (a, r ++ more)).
Proof.
  unfold ReadFull. destruct (Nat.leb_spec n (length br)) as [Hle|Hgt].
  - intros _. rewrite length_app, (proj2 (Nat.leb_le _ _)) by lia.
    by rewrite take_app_le, drop_app_le.
  - intros H. destruct br; by destruct (H _ eq_refl).
Qed.

Lemma not_ended_bind {A B} (r : result fault A) (f : A -> result fault B) :
  not_ended (r ≫= f) -> not_ended r.
Proof. intros H partial ->. exact (H partial eq_refl). Qed.

Lemma read_length_more b2 br more : not_ended (read_length b2 br) ->
  read_length b2 (br ++ more) = ('(n, r) ← read_length b2 br; Ok (n, r ++ more)).
Proof.
  unfold read_length. destruct (_ =? 126); [|destruct (_ =? 127); [|done]];
    (intros H; rewrite ReadFull_more by (by eapply not_ended_bind);
     by destruct (ReadFull br _) as [[e r]|]).
Qed.

Lemma readFrame_more br more : not_ended (readFrame br) ->
  readFrame (br ++ more) = ('(fin, op, p, r) ← readFrame br; Ok (fin, op, p, r ++ more)).
Proof.
  unfold readFrame. destruct br as [|b1 [|b2 br]]; [intros H; by destruct (H _ eq_refl)..|].
  cbn [app ReadByte mbind result_bind]. intros H.
  rewrite read_length_more by (by eapply not_ended_bind).
  destruct (read_length b2 br) as [[n r1]|]; cbn [mbind result_bind] in *; [|done].
  destruct (negb (negb _)); [done|]. rewrite ReadFull_more by (by eapply not_ended_bind).
  destruct (ReadFull r1 4) as [[k r2]|]; cbn [mbind result_bind] in *; [|done].
  destruct (make_slice n) as [m|]; cbn [mbind result_bind] in *; [|done].
  rewrite ReadFull_more by (by eapply not_ended_bind). by destruct (ReadFull r2 m) as [[q r3]|].
Qed.

Lemma writeFrame_set_br c b fin op payload : writeFrame (set_br c b) fin op payload
  = (c' ← writeFrame c fin op payload; Ok (set_br c' b)).
Proof.
  unfold writeFrame, Write. cbn [set_br c_budget].
  destruct (c_budget c) as [[|n]|] eqn:E; cbn [mbind result_bind]; [done| |];
    unfold add_write; cbn [set_br c_budget]; rewrite E; cbn [option_map pred];
    (destruct (0 <? len payload); [|done]); [by destruct n|done].
Qed.

Lemma read_loop_local fuel fuel' c m buf c' r more : (fuel <= fuel')%nat ->
  read_loop fuel c m buf = (c', r) -> r <> Err OutOfFuel -> not_ended r ->
  read_loop fuel' (with_more more c) m buf = (with_more more c', r).
Proof.
  revert fuel' c m buf. induction fuel as [|fuel IH]; intros fuel' c m buf Hf; cbn [read_loop];
    [by intros [= _ <-]|]. destruct fuel' as [|fuel']; [lia|]. intros H Hr He. cbn [read_loop].
  unfold with_more at 1. cbn [c_br set_br].
  assert (not_ended (readFrame (c_br c))) as Hn.
  { intros partial E. rewrite E in H. injection H as _ <-. by destruct (He partial). }
  rewrite (readFrame_more _ more Hn). destruct (readFrame (c_br c)) as [[[[fin op] data] br]|e];
    cbn [mbind result_bind]; [|by injection H as <- <-].
  change (set_br (with_more more c) (br ++ more)) with (with_more more (set_br c br)). cbv zeta in *.
  assert (forall c1 fin op p, writeFrame (with_more more c1) fin op p
    = (c2 ← writeFrame c1 fin op p; Ok (set_br c2 (c_br c1 ++ more)))) as Hwrite
    by (intros; apply writeFrame_set_br).
  destruct (op =? opcodePing).
  { rewrite Hwrite. destruct (writeFrame _ _ _ _) as [c2|] eqn:Ew; cbn [mbind result_bind];
      [|by injection H as <- <-]. apply writeFrame_br in Ew as [<- _]. apply (IH fuel' c2); [lia|done..]. }
  destruct (op =? opcodePong).
  { cbn [c_onPong with_more set_br] in *. destruct (c_onPong c);
      [apply (IH fuel' (add_pong (set_br c br) data))|apply (IH fuel' (set_br c br))]; done || lia. }
  destruct (op =? opcodeClose).
  { rewrite Hwrite. destruct (writeFrame _ _ _ _) as [c2|] eqn:Ew; cbn [mbind result_bind];
      injection H as <- <-; [|done]. by apply writeFrame_br in Ew as [<- _]. }
  destruct (negb _ && _); [by injection H as <- <-|]. cbn [c_readLimit with_more set_br] in *.
  destruct (_ && _); [by injection H as <- <-|]. destruct fin.
  - destruct (negb _ && _); by injection H as <- <-.
  - apply (IH fuel' (set_br c br)); done || lia.
Qed.

(** A message takes bytes off the stream. *)
Lemma read_loop_shrinks fuel c m buf c' msg : read_loop fuel c m buf = (c', Ok msg) ->
  (length (c_br c') < length (c_br c))%nat.
Proof.
  revert c m buf. induction fuel as [|fuel IH]; intros c m buf; [done|]. cbn [read_loop].
  destruct (readFrame (c_br c)) as [[[[fin o] data] br]|e] eqn:E; [|done]. cbv zeta.
  apply readFrame_shrinks in E.
  destruct (o =? opcodePing).
  { destruct (writeFrame _ _ _ _) as [c2|] eqn:Ew; [|done].
    apply writeFrame_br in Ew as [Hb _]. intros H%IH. rewrite Hb in H. cbn in H. lia. }
  destruct (o =? opcodePong).
  { intros H%IH. cbn [c_onPong set_br] in H. destruct (c_onPong c); cbn in H; lia. }
  destruct (o =? opcodeClose); [done|]. destruct (negb _ && _); [done|].
  destruct (_ && _); [done|]. destruct fin.
  - destruct (negb _ && _); [done|]. intros [= <- _]. cbn. lia.
  - intros H%IH. cbn in H. lia.
Qed.

Lemma read_loop_bound fuel c m buf c' op msg :
  read_loop fuel c m buf = (c', Ok (op, msg)) ->
  (op = opcodeText \/ op = opcodeBinary) /\ (0 < c_readLimit c -> len msg <= c_readLimit c).
Proof.
  revert c m buf. induction fuel as [|fuel IH]; intros c m buf; [done|]. cbn [read_loop].
  destruct (readFrame (c_br c)) as [[[[fin o] data] br]|e] eqn:E; [|done]. cbv zeta.
  destruct (o =? opcodePing).
  { destruct (writeFrame _ _ _ _) as [c2|] eqn:Ew; [|done].
    apply writeFrame_br in Ew as [_ Hl]. intros H. apply IH in H. by rewrite Hl in H. }
  destruct (o =? opcodePong).
  { intros H. apply IH in H. cbn [c_onPong set_br] in H. destruct (c_onPong c); exact H. }
  destruct (o =? opcodeClose); [done|]. destruct (negb _ && _); [done|].
  destruct ((0 <? _) && _) eqn:El; [done|]. destruct fin.
  - destruct (negb _ && _) eqn:Eo; [done|]. intros [= _ <- <-]. simpl in El.
    split; [|lia]. unfold opcodeText, opcodeBinary in *. lia.
  - intros H. by apply IH in H.
Qed.

(** ** Properties *)

(** The reader parses every masked client frame of RFC 6455: the flags,
    the opcode and the unmasked payload come back, and the rest of the stream
    is left untouched, for every payload that can be allocated. *)
Theorem readFrame_parses_client fin op key payload r :
  0 <= op < 16 -> length key = 4%nat -> len payload <= max_alloc ->
  readFrame (client_frame fin op key payload ++ r) = Ok (fin, op, payload, r).
Proof. apply readFrame_client. Qed.

Lemma readFrame_parses_client_witness :
  readFrame (client_frame true 1 [x01; x02; x03; x04] (bs "hello") ++ [xff])
  = Ok (true, 1, bs "hello", [xff]).
Proof. apply readFrame_parses_client; [lia|done|by vm_compute]. Defined.

(** A frame whose 64-bit length has its top bit set makes the reader
    panic in [make] (the length becomes a negative [int64]), whatever the
    read limit: one small frame from the peer stops the reading goroutine. *)
Theorem readFrame_negative_length b1 ext key r :
  length ext = 8%nat -> length key = 4%nat -> 2 ^ 63 <= be_combine ext ->
  readFrame (b1 :: xff :: ext ++ key ++ r) = Err PanicMakeSlice.
Proof.
  intros He Hk Hb. unfold readFrame. cbn [ReadByte mbind result_bind].
  change (Z.land (byte_Z xff) 128 =? 0) with false. cbn [negb].
  unfold read_length. change (Z.land (byte_Z xff) 127) with 127.
  change (127 =? 126) with false. change (127 =? 127) with true. cbv iota.
  rewrite (ReadFull_app ext) by done. cbn [mbind result_bind].
  rewrite (ReadFull_app key) by done. cbn [mbind result_bind].
  rewrite ext_length_spec. unfold make_slice.
  pose proof (be_combine_nonneg ext) as Hn. unfold len in Hn. rewrite He in Hn.
  change (256 ^ Z.of_nat 8) with (2 ^ 64) in Hn.
  assert (i64 (be_combine ext) = be_combine ext - 2 ^ 64) as ->.
  { unfold i64. rewrite <- (Z.mod_unique _ (2 ^ 64) 1 (be_combine ext - 2 ^ 63)); lia. }
  destruct (Z.ltb_spec (be_combine ext - 2 ^ 64) 0); [done|lia].
Qed.

Lemma readFrame_negative_length_witness :
  readFrame (x81 :: xff :: replicate 8 xff ++ replicate 4 x00 ++ [])
  = Err PanicMakeSlice.
Proof. apply readFrame_negative_length; [done|done|by vm_compute]. Defined.

(** Up to 2^32 - 1 bytes, what [WriteMessage] puts on the wire is exactly
    the unmasked RFC 6455 frame of the payload. *)
Theorem WriteMessage_rfc c op data :
  c_budget c = None -> 0 <= op < 16 -> len data < 2 ^ 32 ->
  exists ws, WriteMessage c op data = Ok (add_writes c ws)
    /\ concat ws = rfc_header false true op (len data) ++ data.
Proof.
  intros Hb Hop Hl. eexists. split; [by apply writeFrame_ok|].
  pose proof (len_nonneg data). rewrite concat_sent_frame, frame_header_rfc by lia. done.
Qed.

Lemma WriteMessage_rfc_witness :
  exists ws, WriteMessage (mkConn [] [] None 0 false []) 1 (bs "hi")
    = Ok (add_writes (mkConn [] [] None 0 false []) ws)
    /\ concat ws = rfc_header false true 1 (len (bs "hi")) ++ bs "hi".
Proof. apply WriteMessage_rfc; [done|lia|by vm_compute]. Defined.

(** The length a peer reads back from a frame header is the payload's
    length up to 65535 bytes and its low 32 bits above: from 4 GiB on the
    header announces a shorter payload than the one that follows. *)
Theorem frame_header_length fin op n :
  0 <= n ->
  read_length (nth 1 (frame_header fin op n) x00) (drop 2 (frame_header fin op n))
  = Ok (if n <=? 65535 then n else n mod 2 ^ 32, []).
Proof.
  intros Hn. unfold frame_header, read_length. rewrite land_127.
  destruct (Z.leb_spec n 125).
  { cbn [nth]. rewrite byte_Z_byte, (Z.mod_small n 256), (Z.mod_small n 128) by lia.
    destruct (Z.eqb_spec n 126); [lia|]. destruct (Z.eqb_spec n 127); [lia|].
    by rewrite (proj2 (Z.leb_le n 65535)) by lia. }
  destruct (Z.leb_spec n 65535).
  - change (nth 1 _ x00) with x7e. change (byte_Z x7e mod 128 =? 126) with true. cbv iota.
    change (drop 2 _) with ([Z_byte (Z.shiftr n 8); Z_byte n] ++ []).
    rewrite ReadFull_app by done. cbn [mbind result_bind].
    rewrite <- be_split_2, ext_length_spec, be_combine_split, Z.mod_small by (simpl; lia).
    by rewrite i64_small by lia.
  - change (nth 1 _ x00) with x7f. change (byte_Z x7f mod 128 =? 126) with false.
    change (byte_Z x7f mod 128 =? 127) with true. cbv iota.
    change (drop 2 _) with ([x00; x00; x00; x00; Z_byte (Z.shiftr n 24); Z_byte (Z.shiftr n 16);
      Z_byte (Z.shiftr n 8); Z_byte n] ++ []).
    rewrite ReadFull_app by done. cbn [mbind result_bind].
    rewrite ext_length_spec, be_low_32 by done.
    pose proof (Z.mod_pos_bound n (2 ^ 32)). by rewrite i64_small by lia.
Qed.

Lemma frame_header_length_witness :
  read_length (nth 1 (frame_header true 1 (2 ^ 32 + 70000)) x00)
    (drop 2 (frame_header true 1 (2 ^ 32 + 70000)))
  = Ok (if 2 ^ 32 + 70000 <=? 65535 then 2 ^ 32 + 70000 else (2 ^ 32 + 70000) mod 2 ^ 32, []).
Proof. apply frame_header_length. lia. Defined.

(** C31: [ReadMessage] reassembles a fragmented message: the payload is the
    concatenation of the fragments, the opcode that of the first one, pings
    between fragments are answered in order and pongs reach the handler, and
    exactly the message's frames are taken off the stream. *)
Theorem ReadMessage_reassembles c fs data pings pongs rest :
  fragments 0 fs data pings pongs -> Forall frame_ok fs -> c_budget c = None ->
  c_readLimit c <= 0 \/ len data <= c_readLimit c ->
  c_br c = concat (map frame_bytes fs) ++ rest ->
  ReadMessage c = (read_state c rest pings pongs, Ok (msg_opcode 0 fs, data)).
Proof.
  intros Hf Hok Hb Hl Hbr. unfold ReadMessage.
  apply (read_loop_fragments 0 fs data pings pongs Hf); try done; [by left|].
  rewrite Hbr, length_app. pose proof (length_frames fs Hok). lia.
Qed.

Definition demo_frames : list frame :=
  [mkFrame false 1 (bs "hello ") [x01; x02; x03; x04];
   mkFrame true 9 (bs "p") [x05; x06; x07; x08];
   mkFrame true 0 (bs "world") [x09; x0a; x0b; x0c]].
Definition demo_conn : Conn :=
  mkConn (concat (map frame_bytes demo_frames) ++ [x88]) [] None 100 false [].

Lemma ReadMessage_reassembles_witness :
  ReadMessage demo_conn
  = (read_state demo_conn [x88] [bs "p"] [], Ok (msg_opcode 0 demo_frames, bs "hello world")).
Proof.
  apply ReadMessage_reassembles; [| |done|right; by vm_compute|done].
  - change (bs "hello world") with (bs "hello " ++ bs "world").
    apply (frag_more 0 (mkFrame false 1 (bs "hello ") _)); [done|by left|done|].
    apply (frag_ping _ (mkFrame true 9 (bs "p") _)); [done|].
    apply (frag_last _ (mkFrame true 0 (bs "world") _)); done.
  - repeat constructor; by vm_compute.
Defined.

(** The model's loop never stops for lack of fuel. *)
Lemma ReadMessage_no_fuel c : (ReadMessage c).2 <> Err OutOfFuel.
Proof. apply read_loop_fuel. lia. Qed.


(** Another message, and half a frame, follow the first. *)
Definition demo_more : bytes := concat (map frame_bytes demo_frames) ++ [x81].


(** C32: a message that is returned is a text or binary message and respects
    the read limit. *)
Theorem ReadMessage_bound c c' op msg :
  ReadMessage c = (c', Ok (op, msg)) ->
  (op = opcodeText \/ op = opcodeBinary) /\ (0 < c_readLimit c -> len msg <= c_readLimit c).
Proof. apply read_loop_bound. Qed.

Lemma ReadMessage_bound_witness :
  (msg_opcode 0 demo_frames = opcodeText \/ msg_opcode 0 demo_frames = opcodeBinary)
  /\ (0 < c_readLimit demo_conn -> len (bs "hello world") <= c_readLimit demo_conn).
Proof.
  apply (ReadMessage_bound demo_conn (read_state demo_conn [x88] [bs "p"] [])).
  by vm_compute.
Defined.

(** [Upgrade] completes the handshake exactly for a GET request that asks for
    the websocket protocol with some key, version 13 and an accepted origin, on
    a connection that can be hijacked and written; the response then carries
    the accept key of RFC 6455. Any key but the empty one will do, where the
    RFC asks for sixteen bytes in base64. *)
Theorem Upgrade_accepts r hj co resp c :
  (Upgrade r hj co).2 = Ok (resp, c) <->
  headerTokenContains (r_Header r) "Connection" "upgrade" = true /\
  EqualFold (header_Get (r_Header r) "Upgrade") "websocket" = true /\
  r_Method r = "GET"%string /\
  match co with Some f => f r = true | None => True end /\
  header_Get (r_Header r) "Sec-WebSocket-Key" <> ""%string /\
  header_Get (r_Header r) "Sec-WebSocket-Version" = "13"%string /\
  hj_supported hj = true /\ hj_ok hj = true /\ hj_write_ok hj = true /\ hj_flush_ok hj = true /\
  resp = handshake_response (header_Get (r_Header r) "Sec-WebSocket-Key") /\
  c = mkConn (hj_buffered hj) [] None 0 false [].
Proof.
  unfold Upgrade.
  destruct (headerTokenContains _ _ _), (EqualFold _ _); simpl; try (by split; [done|intros; destruct_and!]).
  case_bool_decide; simpl; [|by split; [done|intros; destruct_and!]].
  destruct co as [f|]; [destruct (f r)|]; simpl; try (by split; [done|intros; destruct_and!]);
    (case_bool_decide; simpl; [by split; [done|intros; destruct_and!]|];
     case_bool_decide; simpl; [|by split; [done|intros; destruct_and!]];
     destruct (hj_supported hj), (hj_ok hj), (hj_write_ok hj), (hj_flush_ok hj); simpl;
     try (by split; [done|intros; destruct_and!]);
     split; [by intros [= <- <-]|by intros; destruct_and!; subst]).
Qed.

(** A continuation frame that starts a message is not refused: its payload is
    prefixed to the text message that follows. *)
Example continuation_first_accepted :
  (ReadMessage (mkConn
     (concat (map frame_bytes [mkFrame false 0 (bs "a") [x01; x02; x03; x04];
                               mkFrame true 1 (bs "b") [x01; x02; x03; x04]]))
     [] None 0 false [])).2 = Ok (opcodeText, bs "ab").
Proof. vm_compute. reflexivity. Qed.

End nativews.
