(* ===== verification/Replay.v ===== *)
(** * The replay buffer and the idempotency window ([internal/session.go])

    Module [replay] is [replayBuffer]: a slice whose head index moves forward
    as old frames are dropped and which is compacted now and then. Module
    [keys] is [keyWindow], the FIFO-bounded set of idempotency keys, with the
    same head-and-compaction scheme. Each is related to a plain list by an
    abstraction function, and every operation is proved to act on that list as
    its specification says; an out-of-range index would be a run-time panic
    ([None]). *)
From S2P Require Import Prelude.

(** ** Slices with a moving head *)

(** [copy(s, s[head:])] then truncation, taken when at least 64 dropped slots
    make up half of the slice. *)
Definition compactable {A} (head : nat) (l : list A) : bool :=
  (64 <=? head)%nat && (length l <=? head * 2)%nat.

Module replay.

Record replayEntry := mkEntry { seq : Z; data : bytes }.

(** The zero value stored in a dropped slot. *)
Definition zero_entry : replayEntry := mkEntry 0 [].

Record replayBuffer := mkBuffer {
  entries : list replayEntry;
  head : nat;
  b_bytes : Z;
  maxMsgs : Z;
  maxBytes : Z
}.

Definition new_buffer (msgs byts : Z) : replayBuffer := mkBuffer [] 0 0 msgs byts.

Definition buf_len (b : replayBuffer) : Z := len (entries b) - Z.of_nat (head b).

Definition set_entries (b : replayBuffer) (l : list replayEntry) (h : nat) (n : Z) :=
  mkBuffer l h n (maxMsgs b) (maxBytes b).

Definition reset (b : replayBuffer) : replayBuffer := set_entries b [] 0 0.

Definition dropOldest (b : replayBuffer) : option replayBuffer :=
  e ← entries b !! head b;
  let n := b_bytes b - len (data e) in
  let l := <[head b := zero_entry]> (entries b) in
  let h := S (head b) in
  if (h =? length l)%nat then Some (set_entries b [] 0 n)
  else if compactable h l then Some (set_entries b (drop h l) 0 n)
  else Some (set_entries b l h n).

(** [for b.len() > b.maxMsgs || b.bytes > b.maxBytes { b.dropOldest() }] *)
Fixpoint evict_loop (fuel : nat) (b : replayBuffer) : option replayBuffer :=
  if (maxMsgs b <? buf_len b) || (maxBytes b <? b_bytes b) then
    match fuel with
    | O => None
    | S fuel' => b' ← dropOldest b; evict_loop fuel' b'
    end
  else Some b.

Definition push (b : replayBuffer) (sq : Z) (d : bytes) : option replayBuffer :=
  let size := len d in
  if maxBytes b <? size then Some (reset b)
  else
    let b := set_entries b (entries b ++ [mkEntry sq d]) (head b) (b_bytes b + size) in
    evict_loop (length (entries b)) b.

(** [for b.len() > 0 && b.entries[b.head].seq <= seq { b.dropOldest() }] *)
Fixpoint ack_loop (fuel : nat) (b : replayBuffer) (sq : Z) : option replayBuffer :=
  if 0 <? buf_len b then
    e ← entries b !! head b;
    if seq e <=? sq then
      match fuel with
      | O => None
      | S fuel' => b' ← dropOldest b; ack_loop fuel' b' sq
      end
    else Some b
  else Some b.

Definition ackUpTo (b : replayBuffer) (sq : Z) : option replayBuffer :=
  ack_loop (length (entries b)) b sq.

(** [lastSeq+1] is 64-bit arithmetic. *)
Definition covers (b : replayBuffer) (lastSeq : Z) : bool :=
  (0 <? buf_len b) &&
  match entries b !! head b with
  | Some e => seq e <=? u64 (lastSeq + 1)
  | None => false
  end.

Definition after (b : replayBuffer) (sq : Z) : list replayEntry :=
  List.filter (fun e => sq <? seq e) (drop (head b) (entries b)).

(** ** Specification: a bounded list, oldest first *)

Definition abs (b : replayBuffer) : list replayEntry := drop (head b) (entries b).

Definition size_sum (l : list replayEntry) : Z :=
  fold_right (fun e n => len (data e) + n) 0 l.

Definition fits (msgs byts : Z) (l : list replayEntry) : bool :=
  (len l <=? msgs) && (size_sum l <=? byts).

(** The longest suffix within both limits. *)
Fixpoint trim (msgs byts : Z) (l : list replayEntry) : list replayEntry :=
  match l with
  | [] => []
  | _ :: l' => if fits msgs byts l then l else trim msgs byts l'
  end.

Definition spec_push (msgs byts : Z) (l : list replayEntry) (e : replayEntry)
  : list replayEntry :=
  if byts <? len (data e) then [] else trim msgs byts (l ++ [e]).

Fixpoint spec_ack (l : list replayEntry) (sq : Z) : list replayEntry :=
  match l with
  | [] => []
  | e :: l' => if seq e <=? sq then spec_ack l' sq else l
  end.

(** ** Well-formed buffers *)

Record wf (b : replayBuffer) : Prop := {
  wf_head : (head b <= length (entries b))%nat;
  wf_bytes : b_bytes b = size_sum (abs b);
  wf_fits : fits (maxMsgs b) (maxBytes b) (abs b) = true;
  wf_limits : 0 <= maxMsgs b /\ 0 <= maxBytes b
}.

(** What the loops maintain while the limits may be exceeded. *)
Definition wf_loose (b : replayBuffer) : Prop :=
  (head b <= length (entries b))%nat /\ b_bytes b = size_sum (abs b).

Definition same_limits (b b' : replayBuffer) : Prop :=
  maxMsgs b' = maxMsgs b /\ maxBytes b' = maxBytes b.

(** ** Lemmas *)

Lemma buf_len_abs b : (head b <= length (entries b))%nat -> buf_len b = len (abs b).
Proof. intros H. unfold buf_len, abs, len. rewrite length_drop. lia. Qed.

Lemma size_sum_nonneg l : 0 <= size_sum l.
Proof. induction l as [|e l IH]; simpl; [lia|]. pose proof (len_nonneg (data e)). lia. Qed.

Lemma size_sum_app l1 l2 : size_sum (l1 ++ l2) = size_sum l1 + size_sum l2.
Proof. induction l1 as [|e l IH]; simpl; lia. Qed.

Lemma abs_head b e : entries b !! head b = Some e -> exists l, abs b = e :: l.
Proof. intros H. exists (drop (S (head b)) (entries b)). unfold abs. by apply drop_S. Qed.

Lemma abs_cons_head b e l : abs b = e :: l -> entries b !! head b = Some e.
Proof.
  unfold abs. intros H. rewrite <- (Nat.add_0_r (head b)), <- lookup_drop, H. done.
Qed.

(** Dropping the oldest frame removes the head of the list and its bytes,
    whichever of the three ways the slice is updated. *)
Lemma dropOldest_abs b e l : wf_loose b -> abs b = e :: l ->
  exists b', dropOldest b = Some b' /\ wf_loose b' /\ abs b' = l /\ same_limits b b'.
Proof.
  intros [Hh Hb] Habs. pose proof (abs_cons_head b e l Habs) as He.
  assert (drop (S (head b)) (entries b) = l) as Hl.
  { unfold abs in Habs. rewrite (drop_S _ e (head b) He) in Habs. by injection Habs. }
  assert (b_bytes b - len (data e) = size_sum l) as Hn.
  { rewrite Hb, Habs. simpl. lia. }
  unfold dropOldest. rewrite He. cbn [mbind option_bind].
  rewrite length_insert. pose proof (lookup_lt_Some _ _ _ He) as Hlt.
  assert (drop (S (head b)) (<[head b:=zero_entry]> (entries b)) = l) as Hl'.
  { rewrite drop_insert_lt by lia. done. }
  unfold wf_loose, same_limits, abs. destruct (Nat.eqb_spec (S (head b)) (length (entries b))).
  { eexists. split; [done|]. simpl. rewrite Hn.
    assert (l = []) as ->; [|done].
    rewrite <- Hl. apply nil_length_inv. rewrite length_drop. lia. }
  destruct (compactable _ _); eexists; (split; [done|]); cbn [set_entries head entries b_bytes maxMsgs maxBytes].
  - rewrite Hl', Hn. rewrite drop_0. split; [|done]. split; [lia|done].
  - rewrite Hl', Hn, length_insert. split; [|done]. split; [lia|done].
Qed.

Lemma fits_nil msgs byts : 0 <= msgs -> 0 <= byts -> fits msgs byts [] = true.
Proof. unfold fits. simpl. intros. rewrite len_nil. lia. Qed.

Lemma fits_tail msgs byts e l : fits msgs byts (e :: l) = true -> fits msgs byts l = true.
Proof.
  unfold fits. rewrite len_cons. simpl. pose proof (len_nonneg (data e)). lia.
Qed.

Lemma fits_suffix msgs byts l1 l2 : fits msgs byts (l1 ++ l2) = true -> fits msgs byts l2 = true.
Proof. induction l1 as [|e l1 IH]; simpl; [done|]. intros H. by apply IH, (fits_tail _ _ e). Qed.

Lemma over_limits b : wf_loose b ->
  (maxMsgs b <? buf_len b) || (maxBytes b <? b_bytes b)
  = negb (fits (maxMsgs b) (maxBytes b) (abs b)).
Proof. intros [Hh Hb]. rewrite buf_len_abs by done. unfold fits. rewrite Hb. lia. Qed.

Lemma evict_loop_abs fuel b :
  wf_loose b -> 0 <= maxMsgs b -> 0 <= maxBytes b -> (length (abs b) <= fuel)%nat ->
  exists b', evict_loop fuel b = Some b' /\ wf_loose b' /\ same_limits b b' /\
    abs b' = trim (maxMsgs b) (maxBytes b) (abs b).
Proof.
  revert b. induction fuel as [|fuel IH]; intros b Hwf Hm Hb Hf; cbn [evict_loop];
    rewrite over_limits by done;
    destruct (fits (maxMsgs b) (maxBytes b) (abs b)) eqn:Hfit; cbn [negb].
  - exists b. split; [done|]. split; [done|]. split; [done|].
    destruct (abs b) as [|e l]; simpl; [done|]. by rewrite Hfit.
  - destruct (abs b) as [|e l]; [|simpl in Hf; lia]. by rewrite fits_nil in Hfit.
  - exists b. split; [done|]. split; [done|]. split; [done|].
    destruct (abs b) as [|e l]; simpl; [done|]. by rewrite Hfit.
  - destruct (abs b) as [|e l] eqn:Ha; [by rewrite fits_nil in Hfit|].
    destruct (dropOldest_abs b e l Hwf Ha) as (b1 & -> & Hwf1 & Ha1 & Hs1 & Hs2).
    cbn [mbind option_bind]. destruct (IH b1) as (b' & -> & Hwf' & [Hs1' Hs2'] & Ha'); [done|lia..| |].
    { rewrite Ha1. simpl in Hf. lia. }
    exists b'. split; [done|]. split; [done|]. split; [unfold same_limits; split; congruence|].
    rewrite Ha', Ha1, Hs1, Hs2. cbn [trim]. by rewrite Hfit.
Qed.

Lemma trim_fits msgs byts l : 0 <= msgs -> 0 <= byts -> fits msgs byts (trim msgs byts l) = true.
Proof.
  intros Hm Hb. induction l as [|e l IH]; [by apply fits_nil|]. cbn [trim].
  destruct (fits msgs byts (e :: l)) eqn:E; done.
Qed.

Lemma trim_suffix msgs byts l : exists l1, l = l1 ++ trim msgs byts l.
Proof.
  induction l as [|e l [l1 IH]]; [by exists []|]. cbn [trim].
  destruct (fits _ _ _); [by exists []|]. exists (e :: l1). simpl. by rewrite <- IH.
Qed.

Lemma trim_longest msgs byts l l1 l2 :
  l = l1 ++ l2 -> fits msgs byts l2 = true -> (length l2 <= length (trim msgs byts l))%nat.
Proof.
  intros -> Hf. induction l1 as [|e l1 IH]; simpl.
  - destruct l2 as [|e l2]; [done|]. cbn [trim]. by rewrite Hf.
  - destruct (fits msgs byts (e :: l1 ++ l2)); simpl; [rewrite length_app; lia|done].
Qed.

Lemma wf_of_loose b : wf_loose b -> 0 <= maxMsgs b -> 0 <= maxBytes b ->
  fits (maxMsgs b) (maxBytes b) (abs b) = true -> wf b.
Proof. intros [? ?] ? ? ?. by constructor. Qed.

Lemma wf_to_loose b : wf b -> wf_loose b.
Proof. by intros [? ? _ _]. Qed.

Lemma push_abs b sq d : wf b ->
  exists b', push b sq d = Some b' /\ wf b' /\ same_limits b b' /\
    abs b' = spec_push (maxMsgs b) (maxBytes b) (abs b) (mkEntry sq d).
Proof.
  intros [Hh Hb Hf [Hm Hy]]. unfold push, spec_push. cbn [data].
  destruct (maxBytes b <? len d) eqn:Hbig.
  { eexists. split; [done|]. split; [|split; [done|done]].
    constructor; [done|done|apply fits_nil; done|done]. }
  set (b1 := set_entries b _ _ _).
  assert (abs b1 = abs b ++ [mkEntry sq d]) as Ha1.
  { unfold abs, b1. simpl. by rewrite drop_app_le. }
  assert (wf_loose b1) as Hwf1.
  { split; [unfold b1; simpl; rewrite length_app; lia|].
    rewrite Ha1, size_sum_app. unfold b1. simpl. lia. }
  destruct (evict_loop_abs (length (entries b1)) b1) as (b' & -> & Hwf' & [Hs1 Hs2] & Ha');
    [done|done|done| |].
  { unfold abs. rewrite length_drop. lia. }
  exists b'. split; [done|]. rewrite Ha1 in Ha'. split; [|split; [done|by rewrite Ha']].
  apply wf_of_loose; [done|by rewrite Hs1|by rewrite Hs2|].
  rewrite Hs1, Hs2, Ha'. by apply trim_fits.
Qed.

Lemma ack_loop_abs fuel b sq : wf_loose b -> (length (abs b) <= fuel)%nat ->
  exists b', ack_loop fuel b sq = Some b' /\ wf_loose b' /\ same_limits b b' /\
    abs b' = spec_ack (abs b) sq.
Proof.
  revert b. induction fuel as [|fuel IH]; intros b Hwf Hf; cbn [ack_loop];
    rewrite buf_len_abs by apply Hwf;
    (destruct (abs b) as [|e l] eqn:Ha;
     [by exists b; rewrite Ha|]); [simpl in Hf; lia|].
  rewrite (proj2 (Z.ltb_lt _ _)) by (rewrite len_cons; pose proof (len_nonneg l); lia).
  rewrite (abs_cons_head b e l Ha). cbn [mbind option_bind spec_ack].
  destruct (seq e <=? sq); [|by exists b].
  destruct (dropOldest_abs b e l Hwf Ha) as (b1 & -> & Hwf1 & Ha1 & Hs1 & Hs2).
  cbn [mbind option_bind]. destruct (IH b1) as (b' & -> & Hwf' & [Hs1' Hs2'] & Ha'); [done| |].
  { rewrite Ha1. simpl in Hf. lia. }
  exists b'. split; [done|]. split; [done|]. split; [unfold same_limits; split; congruence|].
  by rewrite Ha', Ha1.
Qed.

Lemma spec_ack_suffix l sq : exists l1, l = l1 ++ spec_ack l sq.
Proof.
  induction l as [|e l [l1 IH]]; [by exists []|]. cbn [spec_ack].
  destruct (_ <=? _); [|by exists []]. exists (e :: l1). simpl. by rewrite <- IH.
Qed.

Lemma ackUpTo_abs b sq : wf b ->
  exists b', ackUpTo b sq = Some b' /\ wf b' /\ same_limits b b' /\
    abs b' = spec_ack (abs b) sq.
Proof.
  intros Hwf. pose proof Hwf as [Hh Hb Hf [Hm Hy]].
  destruct (ack_loop_abs (length (entries b)) b sq) as (b' & Hb' & Hwf' & [Hs1 Hs2] & Ha').
  - by apply wf_to_loose.
  - unfold abs. rewrite length_drop. lia.
  - exists b'. split; [done|]. split; [|split; [done|done]].
    apply wf_of_loose; [done|by rewrite Hs1|by rewrite Hs2|].
    rewrite Hs1, Hs2, Ha'. destruct (spec_ack_suffix (abs b) sq) as [l1 Hl1].
    rewrite Hl1 in Hf. by apply fits_suffix in Hf.
Qed.

Lemma covers_abs b lastSeq : wf b ->
  covers b lastSeq =
  match abs b with e :: _ => seq e <=? u64 (lastSeq + 1) | [] => false end.
Proof.
  intros [Hh _ _ _]. unfold covers. rewrite buf_len_abs by done.
  destruct (abs b) as [|e l] eqn:Ha; [done|].
  rewrite (abs_cons_head b e l Ha), (proj2 (Z.ltb_lt _ _)); [done|].
  rewrite len_cons. pose proof (len_nonneg l). lia.
Qed.

Lemma after_abs b sq : after b sq = List.filter (fun e => sq <? seq e) (abs b).
Proof. done. Qed.

(** ** Contiguous runs of sequence numbers *)

(** [run lo l]: the entries carry the numbers [lo], [lo + 1], ... *)
Fixpoint run (lo : Z) (l : list replayEntry) : Prop :=
  match l with
  | [] => True
  | e :: l' => seq e = lo /\ run (lo + 1) l'
  end.

Lemma run_app lo l1 l2 : run lo (l1 ++ l2) <-> run lo l1 /\ run (lo + len l1) l2.
Proof.
  revert lo. induction l1 as [|e l1 IH]; intros lo; simpl.
  - rewrite len_nil, Z.add_0_r. tauto.
  - rewrite IH, len_cons, Z.add_assoc. tauto.
Qed.

(** On a run, acknowledging drops a prefix and [after] is what is left. *)
Lemma run_spec_ack lo l sq : run lo l ->
  spec_ack l sq = drop (Z.to_nat (sq + 1 - lo)) l.
Proof.
  revert lo. induction l as [|e l IH]; intros lo; simpl; [by rewrite drop_nil|].
  intros [-> Hr]. destruct (Z.leb_spec lo sq).
  - rewrite (IH (lo + 1)) by done.
    replace (Z.to_nat (sq + 1 - lo)) with (S (Z.to_nat (sq + 1 - (lo + 1)))) by lia. done.
  - replace (Z.to_nat (sq + 1 - lo)) with 0%nat by lia. done.
Qed.

Lemma filter_all {A} (f : A -> bool) l : Forall (fun a => f a = true) l -> List.filter f l = l.
Proof. induction 1 as [|a l Ha Hl IH]; simpl; [done|]. by rewrite Ha, IH. Qed.

Lemma run_lower lo l e : run lo l -> e ∈ l -> lo <= seq e.
Proof.
  revert lo. induction l as [|e' l IH]; intros lo; [intros _ Hin; by apply elem_of_nil in Hin|].
  intros [Hs Hr] [->|Hin]%elem_of_cons; [lia|]. specialize (IH (lo + 1) Hr Hin). lia.
Qed.

Lemma run_after lo l sq : run lo l ->
  List.filter (fun e => sq <? seq e) l = spec_ack l sq.
Proof.
  revert lo. induction l as [|e l IH]; intros lo; simpl; [done|].
  intros [-> Hr]. destruct (Z.ltb_spec sq lo), (Z.leb_spec lo sq); try lia.
  - f_equal. apply filter_all, Forall_forall. intros e' Hin.
    pose proof (run_lower _ _ _ Hr Hin). lia.
  - by apply (IH (lo + 1)).
Qed.

(** ** Properties *)

(** C16: [push] never runs out of range and keeps the buffer well formed; the
    frames it holds afterwards are the longest suffix of the old frames and
    the new one that respects both limits, and none at all when the new frame
    alone is larger than the byte limit. *)
Theorem push_longest_suffix b sq d :
  wf b ->
  exists b', push b sq d = Some b' /\ wf b' /\
    (maxBytes b < len d -> abs b' = []) /\
    (len d <= maxBytes b ->
       exists dropped, abs b ++ [mkEntry sq d] = dropped ++ abs b' /\
         forall l1 l2, abs b ++ [mkEntry sq d] = l1 ++ l2 ->
           fits (maxMsgs b) (maxBytes b) l2 = true -> (length l2 <= length (abs b'))%nat).
Proof.
  intros Hwf. destruct (push_abs b sq d Hwf) as (b' & Hp & Hwf' & _ & Ha).
  exists b'. split; [done|]. split; [done|]. rewrite Ha. unfold spec_push. cbn [data].
  destruct (Z.ltb_spec (maxBytes b) (len d)); (split; [intros; try lia; done|intros; try lia]).
  destruct (trim_suffix (maxMsgs b) (maxBytes b) (abs b ++ [mkEntry sq d])) as [l1 Hl1].
  exists l1. split; [done|]. intros l2 l3 Hl Hf. by eapply trim_longest.
Qed.

Lemma push_longest_suffix_witness :
  exists b', push (new_buffer 2 10) 1 (bs "abc") = Some b' /\ wf b' /\
    (maxBytes (new_buffer 2 10) < len (bs "abc") -> abs b' = []) /\
    (len (bs "abc") <= maxBytes (new_buffer 2 10) ->
       exists dropped, abs (new_buffer 2 10) ++ [mkEntry 1 (bs "abc")] = dropped ++ abs b' /\
         forall l1 l2, abs (new_buffer 2 10) ++ [mkEntry 1 (bs "abc")] = l1 ++ l2 ->
           fits (maxMsgs (new_buffer 2 10)) (maxBytes (new_buffer 2 10)) l2 = true ->
           (length l2 <= length (abs b'))%nat).
Proof. apply push_longest_suffix. constructor; [simpl; lia|done|done|simpl; lia]. Defined.

(** [ackUpTo] never runs out of range, keeps the buffer well formed and
    removes exactly the frames numbered up to the acknowledged one. *)
Theorem ackUpTo_refines b sq lo :
  wf b -> run lo (abs b) ->
  exists b', ackUpTo b sq = Some b' /\ wf b' /\
    abs b' = List.filter (fun e => sq <? seq e) (abs b).
Proof.
  intros Hwf Hr. destruct (ackUpTo_abs b sq Hwf) as (b' & Hp & Hwf' & _ & Ha).
  exists b'. split; [done|]. split; [done|]. by rewrite Ha, (run_after lo).
Qed.

Definition demo_buffer : replayBuffer :=
  mkBuffer [mkEntry 4 (bs "a"); mkEntry 5 (bs "b"); mkEntry 6 (bs "c")] 0 3 8 100.

Lemma ackUpTo_refines_witness :
  exists b', ackUpTo demo_buffer 5 = Some b' /\ wf b' /\
    abs b' = List.filter (fun e => 5 <? seq e) (abs demo_buffer).
Proof.
  apply (ackUpTo_refines demo_buffer 5 4); [|done].
  constructor; [simpl; lia|done|done|simpl; lia].
Defined.

End replay.

Module keys.

Record keyWindow := mkWindow {
  k_max : Z;
  k_set : gset string;
  k_order : list string;
  k_head : nat
}.

Definition new_window (max : Z) : keyWindow := mkWindow max ∅ [] 0.

Definition claim (k : keyWindow) (key : string) : option (bool * keyWindow) :=
  if k_max k <=? 0 then Some (true, k)
  else if bool_decide (key ∈ k_set k) then Some (false, k)
  else
    let set := {[key]} ∪ k_set k in
    let order := k_order k ++ [key] in
    if k_max k <? len order - Z.of_nat (k_head k) then
      oldest ← order !! k_head k;
      let set := set ∖ {[oldest]} in
      let order := <[k_head k := ""%string]> order in
      let head := S (k_head k) in
      if compactable head order then Some (true, mkWindow (k_max k) set (drop head order) 0)
      else Some (true, mkWindow (k_max k) set order head)
    else Some (true, mkWindow (k_max k) set order (k_head k)).

(** ** Specification: the last [max] distinct keys, oldest first *)

Definition window (k : keyWindow) : list string := drop (k_head k) (k_order k).

Definition spec_claim (max : Z) (l : list string) (key : string) : bool * list string :=
  if max <=? 0 then (true, l)
  else if bool_decide (key ∈ l) then (false, l)
  else (true, if max <? len (l ++ [key]) then tail (l ++ [key]) else l ++ [key]).

Fixpoint spec_claims (max : Z) (l : list string) (ks : list string) : list string :=
  match ks with
  | [] => l
  | key :: ks' => spec_claims max (spec_claim max l key).2 ks'
  end.

Fixpoint claims (k : keyWindow) (ks : list string) : option keyWindow :=
  match ks with
  | [] => Some k
  | key :: ks' => '(_, k') ← claim k key; claims k' ks'
  end.

Record wf (k : keyWindow) : Prop := {
  wf_head : (k_head k <= length (k_order k))%nat;
  wf_set : forall key, key ∈ k_set k <-> key ∈ window k;
  wf_NoDup : NoDup (window k);
  wf_max : 0 < k_max k -> len (window k) <= k_max k
}.

(** ** Lemmas *)

Lemma spec_claim_NoDup max l key : NoDup l -> NoDup (spec_claim max l key).2.
Proof.
  intros H. unfold spec_claim. destruct (_ <=? _); [done|].
  case_bool_decide as Hin; simpl; [done|].
  assert (NoDup (l ++ [key])) as Hn.
  { apply NoDup_app. split; [done|]. split; [|apply NoDup_singleton].
    intros x Hx Hy%list_elem_of_singleton. congruence. }
  destruct (_ <? _); [|done]. destruct (l ++ [key]); simpl; [done|]. by inversion Hn.
Qed.

Lemma claim_abs k key : wf k ->
  exists k', claim k key = Some ((spec_claim (k_max k) (window k) key).1, k') /\ wf k' /\
    k_max k' = k_max k /\ window k' = (spec_claim (k_max k) (window k) key).2.
Proof.
  intros Hwf. pose proof Hwf as [Hh Hs Hn Hm].
  pose proof (spec_claim_NoDup (k_max k) (window k) key Hn) as Hn'.
  unfold claim. unfold spec_claim in *. destruct (Z.leb_spec (k_max k) 0); [by exists k|].
  rewrite (bool_decide_ext (key ∈ k_set k) (key ∈ window k)) by apply Hs.
  case_bool_decide as Hin; [by exists k|]. cbn [fst snd] in *.
  assert (drop (k_head k) (k_order k ++ [key]) = window k ++ [key]) as Hd
    by (unfold window; by rewrite drop_app_le).
  assert (len (k_order k ++ [key]) - Z.of_nat (k_head k) = len (window k ++ [key])) as ->.
  { rewrite <- Hd. unfold len. rewrite length_drop, length_app. simpl. lia. }
  destruct (Z.ltb_spec (k_max k) (len (window k ++ [key]))) as [Hlt|Hge].
  - destruct (window k ++ [key]) as [|o l] eqn:Hwo; [by destruct (window k)|].
    assert ((k_order k ++ [key]) !! k_head k = Some o) as Ho.
    { by rewrite <- (Nat.add_0_r (k_head k)), <- lookup_drop, Hd. }
    rewrite Ho. cbn [mbind option_bind tail] in *.
    assert (drop (S (k_head k)) (k_order k ++ [key]) = l) as Hl.
    { rewrite (drop_S _ o) in Hd by done. by injection Hd. }
    assert (drop (S (k_head k)) (<[k_head k:=""%string]> (k_order k ++ [key])) = l) as Hl'
      by (by rewrite drop_insert_lt by lia).
    assert (forall x, x ∈ ({[key]} ∪ k_set k) ∖ {[o]} <-> x ∈ l) as Hset.
    { intros x. rewrite elem_of_difference, elem_of_union, !elem_of_singleton, Hs.
      assert (NoDup (o :: l)) as Hol.
      { rewrite <- Hwo. apply NoDup_app. split; [done|]. split; [|apply NoDup_singleton].
        intros y Hy Hz%list_elem_of_singleton. congruence. }
      apply NoDup_cons in Hol as [Hol _].
      assert (x ∈ window k ++ [key] <-> x ∈ o :: l) as Hx by by rewrite Hwo.
      rewrite elem_of_app, list_elem_of_singleton, elem_of_cons in Hx. naive_solver. }
    assert (len l <= k_max k) as Hlen.
    { specialize (Hm ltac:(lia)). apply (f_equal len) in Hwo.
      rewrite len_app, !len_cons, len_nil in Hwo. lia. }
    destruct (compactable _ _); (eexists; split; [done|]; split; [|split; [done|done]]);
      constructor; unfold window; cbn [k_head k_order k_set k_max]; rewrite ?drop_0, ?Hl'; try done.
    + lia.
    + rewrite length_insert, length_app. simpl. lia.
  - eexists. split; [done|]. split; [|split; [done|done]].
    constructor; unfold window; cbn [k_head k_order k_set k_max].
    + rewrite length_app. lia.
    + intros x.
      rewrite Hd, elem_of_union, elem_of_singleton, Hs, elem_of_app, list_elem_of_singleton. tauto.
    + by rewrite Hd.
    + by rewrite Hd.
Qed.

Lemma new_window_wf max : wf (new_window max).
Proof.
  constructor; unfold window; simpl; [lia|set_solver|constructor|].
  intros. rewrite len_nil. lia.
Qed.

(** A key with fewer than [max] accepted keys after it is still in the window. *)
Lemma spec_claims_window max ks l1 key l2 : 0 < max ->
  len (l1 ++ key :: l2) <= max -> len l2 + len ks < max ->
  key ∈ spec_claims max (l1 ++ key :: l2) ks.
Proof.
  intros Hmax. revert l1 l2. induction ks as [|key' ks IH]; intros l1 l2 Hlen Hks; simpl.
  { set_solver. }
  rewrite len_cons in Hks. pose proof (len_nonneg ks). unfold spec_claim.
  destruct (Z.leb_spec max 0); [lia|]. case_bool_decide; cbn [snd]; [apply IH; lia|].
  rewrite <- app_assoc. change ((key :: l2) ++ [key']) with (key :: (l2 ++ [key'])).
  destruct (Z.ltb_spec max (len (l1 ++ key :: l2 ++ [key']))) as [Hlt|Hge].
  - destruct l1 as [|o l1].
    + rewrite app_nil_l, len_cons, len_app in Hlt. change (len [key']) with 1 in Hlt. lia.
    + simpl. apply IH.
      * unfold len in *. rewrite length_app in Hlen |- *. simpl in *.
        rewrite length_app. simpl. lia.
      * rewrite len_app. change (len [key']) with 1. lia.
  - apply IH; [done|]. rewrite len_app. change (len [key']) with 1. lia.
Qed.

Lemma claims_abs k ks : wf k ->
  exists k', claims k ks = Some k' /\ wf k' /\ k_max k' = k_max k /\
    window k' = spec_claims (k_max k) (window k) ks.
Proof.
  revert k. induction ks as [|key ks IH]; intros k Hwf; simpl; [by exists k|].
  destruct (claim_abs k key Hwf) as (k1 & -> & Hwf1 & Hm1 & Hw1). cbn [mbind option_bind].
  destruct (IH k1 Hwf1) as (k2 & -> & Hwf2 & Hm2 & Hw2).
  exists k2. split; [done|]. split; [done|]. split; [congruence|]. by rewrite Hw2, Hw1, Hm1.
Qed.

(** ** Properties *)

(** [claim] never runs out of range; it answers and changes the window as
    its specification does: a key of the window is refused, another one is
    accepted and pushes the oldest key out of a full window. *)
Theorem claim_refines k key :
  wf k ->
  exists k', claim k key = Some ((spec_claim (k_max k) (window k) key).1, k') /\ wf k' /\
    window k' = (spec_claim (k_max k) (window k) key).2.
Proof.
  intros Hwf. destruct (claim_abs k key Hwf) as (k' & ? & ? & _ & ?). by exists k'.
Qed.

Lemma claim_refines_witness :
  exists k', claim (new_window 2) "a"
    = Some ((spec_claim 2 (window (new_window 2)) "a").1, k') /\ wf k' /\
    window k' = (spec_claim 2 (window (new_window 2)) "a").2.
Proof. apply (claim_refines (new_window 2)), new_window_wf. Defined.

(** C17: exactly-once within the window: once a key has been claimed, claiming
    it again is refused as long as fewer than [max] other claims were made in
    between. *)
Theorem claim_once k key k1 ks :
  wf k -> 0 < k_max k -> claim k key = Some (true, k1) -> len ks < k_max k ->
  exists k2 k3, claims k1 ks = Some k2 /\ claim k2 key = Some (false, k3).
Proof.
  intros Hwf Hmax Hc Hks. destruct (claim_abs k key Hwf) as (k1' & Hc' & Hwf1 & Hm1 & Hw1).
  rewrite Hc in Hc'. injection Hc' as Hok ->.
  destruct (claims_abs k1' ks Hwf1) as (k2 & Hc2 & Hwf2 & Hm2 & Hw2).
  destruct (claim_abs k2 key Hwf2) as (k3 & Hc3 & _ & _ & _).
  exists k2, k3. split; [done|]. rewrite Hc3. f_equal. f_equal.
  unfold spec_claim. rewrite Hm2, Hm1. destruct (Z.leb_spec (k_max k) 0); [lia|].
  assert (key ∈ window k2) as Hin; [|by rewrite bool_decide_eq_true_2].
  rewrite Hw2, Hm1. clear Hc2 Hc3 Hw2 Hm2. pose proof (wf_max k1' Hwf1 ltac:(lia)) as Hl1.
  assert (exists l1, window k1' = l1 ++ [key]) as [l1 Hl].
  { rewrite Hw1. unfold spec_claim in Hok |- *. destruct (Z.leb_spec (k_max k) 0); [lia|].
    case_bool_decide; [done|]. cbn [snd]. destruct (_ <? _) eqn:E; [|by eexists].
    destruct (window k) as [|o l]; [|by exists l].
    change (len ([] ++ [key])) with 1 in E. lia. }
  rewrite Hl in *. apply (spec_claims_window _ ks l1 key []); [done|lia|]. rewrite len_nil. lia.
Qed.

Lemma claim_once_witness :
  exists k2 k3, claims (mkWindow 2 {["a"%string]} ["a"%string] 0) ["b"%string] = Some k2
    /\ claim k2 "a" = Some (false, k3).
Proof.
  apply (claim_once (new_window 2) "a"); [apply new_window_wf|done|by vm_compute|done].
Defined.

End keys.
