(* ===== verification/Client.v ===== *)
(** * Peer connections ([internal/client.go])

    The connection object: its outbound queue, its one-time shutdown, its rate
    limiter, metadata and counters. Objects are reached through pointers, kept
    as numbers ([cptr] for clients, [sptr] for sessions); the heap of clients
    is a finite map. Sends that involve a recovery session are in
    [Session.v]; the pumps are in [Pumps.v]. *)
From S2P Require Import Prelude.
From S2P Require Import GoStd.

Module client.

Definition cptr := nat.
Definition sptr := nat.

(** A metadata value ([interface{}]): a string, or a value the server never
    looks into. *)
Inductive any := AnyString (s : string) | AnyOther (tag : Z).

Record Client := mkClient {
  id : string;
  send : chan bytes;
  maxMessageSize : Z;
  writeWait : Z;
  pingPeriod : Z;
  pongWait : Z;
  transportClosed : bool;
  shutdownDone : bool;              (* shutdownOnce *)
  meta : gmap string any;
  session : option sptr;
  replay : list bytes;
  parked : bool;
  resumed : bool;
  noResume : bool;
  dropped : Z;
  lastEvent : option Z;             (* None is the zero time *)
  bytesSent : Z;
  bytesReceived : Z;
  messagesSent : Z;
  messagesRcvd : Z;
  connectedAt : Z;
  lastActivity : Z;
  missedPongs : Z
}.

Record ClientOptions := mkOptions {
  o_ID : string; o_MaxMessageSize : Z; o_WriteWait : Z; o_PingPeriod : Z;
  o_PongWait : Z; o_SendBuffer : Z
}.

Definition NewClient (now : Z) (opt : ClientOptions) : Client :=
  let buf := if o_SendBuffer opt <=? 0 then 256 else o_SendBuffer opt in
  {| id := o_ID opt; send := make_chan (Z.to_nat buf);
     maxMessageSize := o_MaxMessageSize opt; writeWait := o_WriteWait opt;
     pingPeriod := o_PingPeriod opt; pongWait := o_PongWait opt;
     transportClosed := false; shutdownDone := false; meta := ∅; session := None;
     replay := []; parked := false; resumed := false; noResume := false; dropped := 0;
     lastEvent := None; bytesSent := 0; bytesReceived := 0; messagesSent := 0;
     messagesRcvd := 0; connectedAt := now; lastActivity := now; missedPongs := 0 |}.

#[export] Instance Client_inhabited : Inhabited Client :=
  populate (NewClient 0 (mkOptions "" 0 0 0 0 0)).

(** ** Field updates *)

Definition with_send (c : Client) (ch : chan bytes) : Client :=
  {| id := id c; send := ch; maxMessageSize := maxMessageSize c; writeWait := writeWait c;
     pingPeriod := pingPeriod c; pongWait := pongWait c; transportClosed := transportClosed c;
     shutdownDone := shutdownDone c; meta := meta c; session := session c; replay := replay c;
     parked := parked c; resumed := resumed c; noResume := noResume c; dropped := dropped c;
     lastEvent := lastEvent c; bytesSent := bytesSent c; bytesReceived := bytesReceived c;
     messagesSent := messagesSent c; messagesRcvd := messagesRcvd c;
     connectedAt := connectedAt c; lastActivity := lastActivity c; missedPongs := missedPongs c |}.

(** The atomics and session fields that several operations store to. *)
Definition with_flags (c : Client) (tc sd pk rs nr : bool) : Client :=
  {| id := id c; send := send c; maxMessageSize := maxMessageSize c; writeWait := writeWait c;
     pingPeriod := pingPeriod c; pongWait := pongWait c; transportClosed := tc;
     shutdownDone := sd; meta := meta c; session := session c; replay := replay c;
     parked := pk; resumed := rs; noResume := nr; dropped := dropped c;
     lastEvent := lastEvent c; bytesSent := bytesSent c; bytesReceived := bytesReceived c;
     messagesSent := messagesSent c; messagesRcvd := messagesRcvd c;
     connectedAt := connectedAt c; lastActivity := lastActivity c; missedPongs := missedPongs c |}.

Definition with_binding (c : Client) (s : option sptr) (r : list bytes) (m : gmap string any)
  : Client :=
  {| id := id c; send := send c; maxMessageSize := maxMessageSize c; writeWait := writeWait c;
     pingPeriod := pingPeriod c; pongWait := pongWait c; transportClosed := transportClosed c;
     shutdownDone := shutdownDone c; meta := m; session := s; replay := r;
     parked := parked c; resumed := resumed c; noResume := noResume c; dropped := dropped c;
     lastEvent := lastEvent c; bytesSent := bytesSent c; bytesReceived := bytesReceived c;
     messagesSent := messagesSent c; messagesRcvd := messagesRcvd c;
     connectedAt := connectedAt c; lastActivity := lastActivity c; missedPongs := missedPongs c |}.

Definition with_counters (c : Client) (dr : Z) (le : option Z) (bsn br ms mr la mp : Z) : Client :=
  {| id := id c; send := send c; maxMessageSize := maxMessageSize c; writeWait := writeWait c;
     pingPeriod := pingPeriod c; pongWait := pongWait c; transportClosed := transportClosed c;
     shutdownDone := shutdownDone c; meta := meta c; session := session c; replay := replay c;
     parked := parked c; resumed := resumed c; noResume := noResume c; dropped := dr;
     lastEvent := le; bytesSent := bsn; bytesReceived := br;
     messagesSent := ms; messagesRcvd := mr;
     connectedAt := connectedAt c; lastActivity := la; missedPongs := mp |}.

Definition add_dropped (c : Client) : Client :=
  with_counters c (i64 (dropped c + 1)) (lastEvent c) (bytesSent c) (bytesReceived c)
    (messagesSent c) (messagesRcvd c) (lastActivity c) (missedPongs c).

(** ** Metadata, flags and counters *)

Definition MetaGet (c : Client) (key : string) : option any := meta c !! key.
Definition MetaSet (c : Client) (key : string) (v : any) : Client :=
  with_binding c (session c) (replay c) (<[key := v]> (meta c)).

(** [LoadOrStore] keeps what the new connection already has. *)
Definition CopyMetaFrom (c prev : Client) : Client :=
  with_binding c (session c) (replay c) (meta c ∪ meta prev).

Definition SetResumed (c : Client) (v : bool) : Client :=
  with_flags c (transportClosed c) (shutdownDone c) (parked c) v (noResume c).
Definition set_parked (c : Client) : Client :=
  with_flags c (transportClosed c) (shutdownDone c) true (resumed c) (noResume c).

Definition recordBytesSent (c : Client) (n now : Z) : Client :=
  with_counters c (dropped c) (lastEvent c) (i64 (bytesSent c + n)) (bytesReceived c)
    (messagesSent c) (messagesRcvd c) now (missedPongs c).
Definition recordBytesReceived (c : Client) (n now : Z) : Client :=
  with_counters c (dropped c) (lastEvent c) (bytesSent c) (i64 (bytesReceived c + n))
    (messagesSent c) (messagesRcvd c) now (missedPongs c).
Definition recordMessageSent (c : Client) : Client :=
  with_counters c (dropped c) (lastEvent c) (bytesSent c) (bytesReceived c)
    (i64 (messagesSent c + 1)) (messagesRcvd c) (lastActivity c) (missedPongs c).
Definition recordMessageReceived (c : Client) : Client :=
  with_counters c (dropped c) (lastEvent c) (bytesSent c) (bytesReceived c)
    (messagesSent c) (i64 (messagesRcvd c + 1)) (lastActivity c) (missedPongs c).

(** The counter is an [atomic.Int32]. *)
Definition i32 (z : Z) : Z := (z + 2 ^ 31) mod 2 ^ 32 - 2 ^ 31.
Definition set_missedPongs (c : Client) (n : Z) : Client :=
  with_counters c (dropped c) (lastEvent c) (bytesSent c) (bytesReceived c)
    (messagesSent c) (messagesRcvd c) (lastActivity c) n.
Definition IncrementMissedPongs (c : Client) : Client * bool :=
  let count := i32 (missedPongs c + 1) in (set_missedPongs c count, 2 <? count).

(** ** Rate limiting *)

Inductive rate_error := ErrRateLimited.

Definition AllowEvent (c : Client) (interval now : Z) : Client * option rate_error :=
  if interval <=? 0 then (c, None)
  else match lastEvent c with
       | Some t =>
           if now - t <? interval then (c, Some ErrRateLimited)
           else (with_counters c (dropped c) (Some now) (bytesSent c) (bytesReceived c)
                   (messagesSent c) (messagesRcvd c) (lastActivity c) (missedPongs c), None)
       | None =>
           (with_counters c (dropped c) (Some now) (bytesSent c) (bytesReceived c)
              (messagesSent c) (messagesRcvd c) (lastActivity c) (missedPongs c), None)
       end.

(** ** The outbound queue *)

Inductive enqueueResult := enqOK | enqFull | enqClosed.

(** The deferred [recover] turns a send on the closed channel into [enqClosed]. *)
Definition enqueue (c : Client) (frame : bytes) : Client * enqueueResult :=
  match try_send (send c) frame with
  | Sent ch => (with_send c ch, enqOK)
  | WouldBlock => (c, enqFull)
  | SendPanic => (c, enqClosed)
  end.

(** ** Shutdown *)

(** [shutdownOnce.Do]: close the transport, then the channel. Closing a closed
    channel would panic ([None]). *)
Definition closeRaw (c : Client) : option Client :=
  if shutdownDone c then Some c
  else
    let c := with_flags c true true (parked c) (resumed c) (noResume c) in
    ch ← close_chan (send c); Some (with_send c ch).

Definition Shutdown (c : Client) : option Client :=
  closeRaw (with_flags c (transportClosed c) (shutdownDone c) (parked c) (resumed c) true).
Definition ShutdownResumable (c : Client) : option Client := closeRaw c.

(** ** The write side *)

(** The frame [WritePump] writes next and the client without it: first the
    rest of the pre-queue ([replay] holds the frames not yet written), then
    what the channel yields. [None]: the channel is empty. *)
Definition next_frame (c : Client) : option (bytes * Client) :=
  match replay c with
  | f :: r => Some (f, with_binding c (session c) r (meta c))
  | [] =>
      match recv (send c) with
      | Received f ch => Some (f, with_send c ch)
      | RecvClosed | RecvBlocks => None
      end
  end.

(** The frames still to be written, in order. *)
Definition unwritten (c : Client) : list bytes := replay c ++ ch_buf (send c).

(** What every operation preserves: the channel stays within its capacity and
    is closed by the one-time shutdown only. *)
Record wf (c : Client) : Prop := {
  wf_chan : chan_wf (send c);
  wf_closed : ch_closed (send c) = shutdownDone c;
  wf_transport : transportClosed c = shutdownDone c
}.

(** ** Lemmas *)

Lemma NewClient_wf now opt : wf (NewClient now opt).
Proof. constructor; unfold chan_wf; simpl; [lia|done|done]. Qed.

Lemma closeRaw_wf c : wf c ->
  exists c', closeRaw c = Some c' /\ wf c' /\ shutdownDone c' = true /\
    ch_buf (send c') = ch_buf (send c) /\ session c' = session c /\ replay c' = replay c /\
    noResume c' = noResume c /\ id c' = id c.
Proof.
  intros [H1 H2 H3]. unfold closeRaw. destruct (shutdownDone c) eqn:Hs.
  - exists c. repeat split; congruence || done.
  - unfold close_chan. simpl. rewrite H2. simpl. eexists. split; [done|].
    split; [constructor; done|]. done.
Qed.

Lemma enqueue_wf c f : wf c -> wf (enqueue c f).1.
Proof.
  intros [H1 H2 H3]. unfold enqueue. destruct (try_send (send c) f) eqn:E; simpl; [|done|done].
  apply try_send_wf in E as (? & ? & ? & Hc & Hc'). constructor; simpl; [done|congruence|done].
Qed.

(** The only field [enqueue] changes is the channel. *)
Lemma enqueue_session c f : session (enqueue c f).1 = session c.
Proof. unfold enqueue. by destruct (try_send (send c) f). Qed.
Lemma enqueue_replay c f : replay (enqueue c f).1 = replay c.
Proof. unfold enqueue. by destruct (try_send (send c) f). Qed.
Lemma enqueue_buf c f : ch_buf (send (enqueue c f).1) =
  ch_buf (send c) ++ match (enqueue c f).2 with enqOK => [f] | _ => [] end.
Proof.
  unfold enqueue. destruct (try_send (send c) f) eqn:E; simpl; [|by rewrite app_nil_r..].
  by apply try_send_wf in E as (_ & -> & _).
Qed.

Lemma next_frame_unwritten c f c' : next_frame c = Some (f, c') ->
  unwritten c = f :: unwritten c' /\ session c' = session c.
Proof.
  unfold next_frame, unwritten, recv. destruct (replay c) as [|g r] eqn:Hr.
  - destruct (ch_buf (send c)) as [|g l]; [by destruct (ch_closed _)|].
    intros [= <- <-]. simpl. by rewrite Hr.
  - by intros [= <- <-].
Qed.

Lemma next_frame_some c : unwritten c <> [] -> exists f c', next_frame c = Some (f, c').
Proof.
  unfold next_frame, unwritten, recv. destruct (replay c) as [|g r]; simpl; [|eauto].
  destruct (ch_buf (send c)) as [|g l]; [done|eauto].
Qed.

Lemma next_frame_wf c f c' : next_frame c = Some (f, c') -> wf c -> wf c'.
Proof.
  unfold next_frame, recv. intros E [H1 H2 H3]. unfold chan_wf in *. destruct (replay c) as [|g r].
  - destruct (ch_buf (send c)) as [|g l] eqn:Hb; [by destruct (ch_closed _)|].
    injection E as <- <-. constructor; unfold chan_wf; simpl in *; [lia|done|done].
  - injection E as <- <-. by constructor.
Qed.

(** ** Properties *)

(** Timestamps at which a sequence of checks succeeds. *)
Fixpoint allowed (c : Client) (interval : Z) (times : list Z) : list Z :=
  match times with
  | [] => []
  | now :: times' =>
      match AllowEvent c interval now with
      | (c', None) => now :: allowed c' interval times'
      | (c', Some _) => allowed c' interval times'
      end
  end.

Fixpoint spaced (interval : Z) (prev : option Z) (l : list Z) : Prop :=
  match l with
  | [] => True
  | t :: l' =>
      match prev with Some p => interval <= t - p | None => True end /\
      spaced interval (Some t) l'
  end.

Lemma allowed_spaced_from times c interval : 0 < interval ->
  spaced interval (lastEvent c) (allowed c interval times).
Proof.
  intros Hi. revert c. induction times as [|now times IH]; intros c; simpl; [done|].
  unfold AllowEvent. destruct (Z.leb_spec interval 0); [lia|].
  destruct (lastEvent c) as [t|] eqn:Hl.
  - destruct (Z.ltb_spec (now - t) interval); [rewrite <- Hl; apply IH|].
    simpl. split; [lia|]. apply (IH (with_counters c _ (Some now) _ _ _ _ _ _)).
  - simpl. split; [done|]. apply (IH (with_counters c _ (Some now) _ _ _ _ _ _)).
Qed.

(** Whatever the times of the checks, two consecutive successful checks of
    one connection are at least the interval apart. *)
Theorem AllowEvent_spacing c interval times :
  0 < interval -> spaced interval (lastEvent c) (allowed c interval times).
Proof. apply allowed_spaced_from. Qed.

Lemma AllowEvent_spacing_witness :
  spaced 10 None (allowed (NewClient 0 (mkOptions "c" 0 0 0 0 4)) 10 [100; 105; 111; 120; 121]).
Proof. apply (AllowEvent_spacing (NewClient 0 (mkOptions "c" 0 0 0 0 4))). lia. Defined.

Definition shutdown_call (terminal : bool) (c : Client) : option Client :=
  if terminal then Shutdown c else ShutdownResumable c.
Fixpoint shutdown_calls (l : list bool) (c : Client) : option Client :=
  match l with [] => Some c | t :: l' => c' ← shutdown_call t c; shutdown_calls l' c' end.

Lemma with_noResume_wf c : wf c ->
  wf (with_flags c (transportClosed c) (shutdownDone c) (parked c) (resumed c) true).
Proof. by intros [? ? ?]; constructor. Qed.

Lemma shutdown_call_wf t c : wf c -> exists c', shutdown_call t c = Some c' /\ wf c' /\
  shutdownDone c' = true /\ ch_buf (send c') = ch_buf (send c).
Proof.
  intros Hwf. destruct t; simpl.
  - destruct (closeRaw_wf _ (with_noResume_wf c Hwf)) as (c' & ? & ? & ? & ? & _). by exists c'.
  - destruct (closeRaw_wf c Hwf) as (c' & ? & ? & ? & ? & _). by exists c'.
Qed.

Lemma shutdown_calls_wf l c : wf c -> exists c', shutdown_calls l c = Some c' /\ wf c' /\
  ch_buf (send c') = ch_buf (send c) /\ (l <> [] -> shutdownDone c' = true).
Proof.
  revert c. induction l as [|t l IH]; intros c Hwf; simpl; [by exists c|].
  destruct (shutdown_call_wf t c Hwf) as (c1 & -> & Hwf1 & Hd1 & Hb1). cbn [mbind option_bind].
  destruct (IH c1 Hwf1) as (c2 & H2 & Hwf2 & Hb2 & Hd2).
  exists c2. split; [done|]. split; [done|]. split; [congruence|]. intros _.
  destruct l as [|t' l]; [by injection H2 as <-|by apply Hd2].
Qed.

(** Any non-empty sequence of [Shutdown] and [ShutdownResumable] calls
    succeeds without a double close; afterwards the queue keeps its frames and
    refuses new ones as closed. *)
Theorem shutdown_once l c f :
  wf c -> l <> [] ->
  exists c', shutdown_calls l c = Some c' /\ ch_buf (send c') = ch_buf (send c) /\
    enqueue c' f = (c', enqClosed).
Proof.
  intros Hwf Hl. destruct (shutdown_calls_wf l c Hwf) as (c' & ? & [_ Hc _] & ? & Hd).
  exists c'. split; [done|]. split; [done|]. unfold enqueue, try_send.
  by rewrite Hc, (Hd Hl).
Qed.

Lemma shutdown_once_witness :
  exists c', shutdown_calls [true; false; true] (NewClient 0 (mkOptions "c" 0 0 0 0 4)) = Some c'
    /\ ch_buf (send c') = ch_buf (send (NewClient 0 (mkOptions "c" 0 0 0 0 4)))
    /\ enqueue c' (bs "x") = (c', enqClosed).
Proof. apply shutdown_once; [apply NewClient_wf|done]. Defined.

End client.
