(* ===== verification/Session.v ===== *)
(** * Recovery sessions ([internal/session.go], the [Session] type)

    Sequencing, buffering and delivery for one logical connection. All methods
    run under the session's mutex, so each of them is one atomic step; the
    client a session points to is updated in the heap of clients. *)
From S2P Require Import Prelude.
From S2P Require Import GoStd.
From S2P Require Import Json.
From S2P Require Import Hash.
From S2P Require Import Replay.
From S2P Require Import Client.

Module session.
Import client.

Inductive sessionState := stateAttached | stateParked | stateClosed.
#[export] Instance sessionState_eq_dec : EqDecision sessionState.
Proof. solve_decision. Defined.

Inductive SendPolicy := PolicyDisconnect | PolicyDrop | PolicyVolatile.
#[export] Instance SendPolicy_eq_dec : EqDecision SendPolicy.
Proof. solve_decision. Defined.

Definition ReasonUnknownSession : string := "unknown_session".
Definition ReasonExpired : string := "expired".
Definition ReasonOwnerMismatch : string := "owner_mismatch".
Definition ReasonGap : string := "gap_exceeded".
Definition ReasonBadSeq : string := "bad_seq".
Definition ReasonBadRequest : string := "bad_request".

Definition maxKeyLen : Z := 128.

Record Session := mkSession {
  s_id : string;
  s_owner : string;
  s_state : sessionState;
  s_next : Z;                      (* uint64 *)
  s_buf : replay.replayBuffer;
  s_live : option cptr;
  s_member : option cptr;
  s_stalled : bool;
  s_parked : Z;                    (* time *)
  s_keys : keys.keyWindow;
  s_elem : option nat;             (* *list.Element of the parked list *)
  s_dropped : Z
}.

#[export] Instance Session_inhabited : Inhabited Session :=
  populate (mkSession "" "" stateClosed 1 (replay.new_buffer 0 0) None None false 0
              (keys.new_window 0) None 0).

(** ** Field updates *)

Definition set_state (s : Session) (st : sessionState) : Session :=
  mkSession (s_id s) (s_owner s) st (s_next s) (s_buf s) (s_live s) (s_member s)
    (s_stalled s) (s_parked s) (s_keys s) (s_elem s) (s_dropped s).
Definition set_next_buf (s : Session) (n : Z) (b : replay.replayBuffer) : Session :=
  mkSession (s_id s) (s_owner s) (s_state s) n b (s_live s) (s_member s)
    (s_stalled s) (s_parked s) (s_keys s) (s_elem s) (s_dropped s).
Definition set_live (s : Session) (l : option cptr) : Session :=
  mkSession (s_id s) (s_owner s) (s_state s) (s_next s) (s_buf s) l (s_member s)
    (s_stalled s) (s_parked s) (s_keys s) (s_elem s) (s_dropped s).
Definition set_member (s : Session) (m : option cptr) : Session :=
  mkSession (s_id s) (s_owner s) (s_state s) (s_next s) (s_buf s) (s_live s) m
    (s_stalled s) (s_parked s) (s_keys s) (s_elem s) (s_dropped s).
Definition set_stalled (s : Session) (b : bool) : Session :=
  mkSession (s_id s) (s_owner s) (s_state s) (s_next s) (s_buf s) (s_live s) (s_member s)
    b (s_parked s) (s_keys s) (s_elem s) (s_dropped s).
Definition set_parked_time (s : Session) (t : Z) : Session :=
  mkSession (s_id s) (s_owner s) (s_state s) (s_next s) (s_buf s) (s_live s) (s_member s)
    (s_stalled s) t (s_keys s) (s_elem s) (s_dropped s).
Definition set_keys (s : Session) (k : keys.keyWindow) : Session :=
  mkSession (s_id s) (s_owner s) (s_state s) (s_next s) (s_buf s) (s_live s) (s_member s)
    (s_stalled s) (s_parked s) k (s_elem s) (s_dropped s).
Definition set_elem (s : Session) (e : option nat) : Session :=
  mkSession (s_id s) (s_owner s) (s_state s) (s_next s) (s_buf s) (s_live s) (s_member s)
    (s_stalled s) (s_parked s) (s_keys s) e (s_dropped s).
Definition add_dropped (s : Session) : Session :=
  mkSession (s_id s) (s_owner s) (s_state s) (s_next s) (s_buf s) (s_live s) (s_member s)
    (s_stalled s) (s_parked s) (s_keys s) (s_elem s) (i64 (s_dropped s + 1)).

(** ** stamp *)

Definition seq_prefix : bytes := [x7b; x22; x73; x65; x71; x22; x3a].   (* {"seq": *)

Definition stamp (data : bytes) (seq : Z) : bytes :=
  match data with
  | x7b :: d1 :: _ =>
      seq_prefix ++ FormatUint seq ++ (if decide (d1 = x7d) then [] else [x2c])
        ++ drop 1 data
  | _ => data
  end.

(** ** The outbound path *)

Definition Ack (s : Session) (seq : Z) : option Session :=
  if seq <? s_next s then b ← replay.ackUpTo (s_buf s) seq; Some (set_next_buf s (s_next s) b)
  else Some s.

(** The key as the window stores it: keys over 128 bytes are hashed. *)
Definition stored_key (key : string) : string :=
  if maxKeyLen <? len (bs key)
  then str (hex_EncodeToString (sha256_Sum256 (bs key))) else key.

Definition ClaimKey (s : Session) (key : string) : option (Session * bool) :=
  '(ok, k) ← keys.claim (s_keys s) (stored_key key); Some (set_keys s k, ok).

Definition commit (s : Session) (seq : Z) (data : bytes) : option Session :=
  b ← replay.push (s_buf s) seq data; Some (set_next_buf s (u64 (seq + 1)) b).

Definition upd_client (cs : gmap cptr Client) (c : cptr) (cl : Client) : gmap cptr Client :=
  <[c := cl]> cs.

Definition deliver (cs : gmap cptr Client) (s : Session) (data : bytes) (pol : SendPolicy)
  : option (gmap cptr Client * Session * bool) :=
  if decide (s_state s = stateClosed) then Some (cs, s, true)
  else
    match s_live s, s_stalled s with
    | Some live, false =>
        if decide (pol = PolicyVolatile) then
          let '(cl, res) := enqueue (cs !!! live) data in
          let cl := match res with enqOK => cl | _ => client.add_dropped cl end in
          Some (upd_client cs live cl, s, true)
        else
          let seq := s_next s in
          let '(cl, res) := enqueue (cs !!! live) (stamp data seq) in
          let cs' := upd_client cs live cl in
          match res with
          | enqOK => s' ← commit s seq data; Some (cs', s', true)
          | enqClosed => s' ← commit s seq data; Some (cs', set_stalled s' true, true)
          | enqFull =>
              if decide (pol = PolicyDrop)
              then Some (upd_client cs live (client.add_dropped cl), s, true)
              else s' ← commit s seq data; Some (cs', set_stalled s' true, false)
          end
    | _, _ =>
        (* offline: no live client, or its queue overflowed *)
        if decide (pol = PolicyVolatile) then Some (cs, add_dropped s, true)
        else s' ← commit s (s_next s) data; Some (cs, s', true)
    end.

(** ** Resume requests *)

Record ResumeRequest := mkRequest {
  Requested : bool; Invalid : bool; SessionID : string; LastSeq : Z; Owner : string
}.

(** The refusal reason (empty when the resume is honoured) and whether the
    session is to be discarded. *)
Definition verdict (s : Session) (req : ResumeRequest) (now ttl : Z) : string * bool :=
  if decide (s_state s = stateClosed) then (ReasonUnknownSession, false)
  else if decide (s_owner s <> Owner req) then (ReasonOwnerMismatch, false)
  else if bool_decide (s_state s = stateParked) && (ttl <? now - s_parked s)
  then (ReasonExpired, true)
  else if s_next s <=? LastSeq req then (ReasonBadSeq, true)
  else if (LastSeq req <? u64 (s_next s - 1)) && negb (replay.covers (s_buf s) (LastSeq req))
  then (ReasonGap, true)
  else (""%string, false).

(** ** Sending through a client *)

(** [TrySendPolicy] of a client: through the session it is bound to, if any. *)
Definition TrySendPolicy (cs : gmap cptr Client) (ss : gmap sptr Session) (c : cptr)
    (data : bytes) (pol : SendPolicy) : option (gmap cptr Client * gmap sptr Session * bool) :=
  match client.session (cs !!! c) with
  | Some p =>
      '(cs', s', ok) ← deliver cs (ss !!! p) data pol;
      Some (cs', <[p := s']> ss, ok)
  | None =>
      let '(cl, res) := enqueue (cs !!! c) data in
      match res with
      | enqOK => Some (upd_client cs c cl, ss, true)
      | enqFull =>
          if decide (pol = PolicyDisconnect) then Some (upd_client cs c cl, ss, false)
          else Some (upd_client cs c (client.add_dropped cl), ss, true)
      | enqClosed => Some (upd_client cs c cl, ss, false)
      end
  end.
Definition TrySend cs ss c data := TrySendPolicy cs ss c data PolicyDisconnect.

(** ** The log of a session

    [log] lists the data of every frame a session has committed, so the frame
    numbered [n] is entry [n - 1]. [numbered lo l] gives consecutive numbers
    to a list. *)
Fixpoint numbered (lo : Z) (l : list bytes) : list replay.replayEntry :=
  match l with
  | [] => []
  | d :: l' => replay.mkEntry lo d :: numbered (lo + 1) l'
  end.

(** The session holds exactly the frames of [log] after the first [k]. *)
Record logged (log : list bytes) (s : Session) : Prop := {
  lg_next : s_next s = len log + 1;
  lg_bound : len log + 1 < 2 ^ 64;
  lg_wf : replay.wf (s_buf s);
  lg_suffix : exists k, (k <= length log)%nat /\
    replay.abs (s_buf s) = numbered (Z.of_nat k + 1) (drop k log)
}.

(** ** The contract of [deliver]

    [outcome s q data pol frames logd stalled' ok]: with a live queue in state
    [q], delivering [data] puts [frames] on the queue, adds [logd] to the
    session's log, leaves the stalled flag at [stalled'] and answers [ok]. *)
Definition offline (s : Session) : Prop := s_live s = None \/ s_stalled s = true.

Inductive outcome (s : Session) (q : enqueueResult) (data : bytes)
  : SendPolicy -> list bytes -> list bytes -> bool -> bool -> Prop :=
  | out_closed pol :
      s_state s = stateClosed -> outcome s q data pol [] [] (s_stalled s) true
  | out_volatile_offline :
      s_state s <> stateClosed -> offline s ->
      outcome s q data PolicyVolatile [] [] (s_stalled s) true
  | out_volatile_sent :
      s_state s <> stateClosed -> ~ offline s -> q = enqOK ->
      outcome s q data PolicyVolatile [data] [] false true
  | out_volatile_lost :
      s_state s <> stateClosed -> ~ offline s -> q <> enqOK ->
      outcome s q data PolicyVolatile [] [] false true
  | out_offline pol :
      s_state s <> stateClosed -> offline s -> pol <> PolicyVolatile ->
      outcome s q data pol [] [data] (s_stalled s) true
  | out_sent pol :
      s_state s <> stateClosed -> ~ offline s -> pol <> PolicyVolatile -> q = enqOK ->
      outcome s q data pol [stamp data (s_next s)] [data] false true
  | out_gone pol :
      s_state s <> stateClosed -> ~ offline s -> pol <> PolicyVolatile -> q = enqClosed ->
      outcome s q data pol [] [data] true true
  | out_dropped :
      s_state s <> stateClosed -> ~ offline s -> q = enqFull ->
      outcome s q data PolicyDrop [] [] false true
  | out_disconnect :
      s_state s <> stateClosed -> ~ offline s -> q = enqFull ->
      outcome s q data PolicyDisconnect [] [data] true false.

(** The answer of the live queue (irrelevant when there is none). *)
Definition queue_answer (cs : gmap cptr Client) (s : Session) (frame : bytes) : enqueueResult :=
  match s_live s with Some l => (enqueue (cs !!! l) frame).2 | None => enqClosed end.

(** The fields [deliver] leaves alone. *)
Definition same_identity (s s' : Session) : Prop :=
  s_id s' = s_id s /\ s_owner s' = s_owner s /\ s_state s' = s_state s /\
  s_live s' = s_live s /\ s_member s' = s_member s /\ s_keys s' = s_keys s /\
  s_elem s' = s_elem s /\ s_parked s' = s_parked s.

(** What happens to the clients: only the live one changes, and of its queue
    and its session binding only the queue. *)
Definition queued (cs cs' : gmap cptr Client) (s : Session) (frames : list bytes) : Prop :=
  forall c, client.session (cs' !!! c) = client.session (cs !!! c) /\
    client.replay (cs' !!! c) = client.replay (cs !!! c) /\
    ch_buf (send (cs' !!! c)) = ch_buf (send (cs !!! c)) ++
      (if decide (s_live s = Some c) then frames else []).

(** ** Reading sequence numbers off the wire, as the client does *)

Fixpoint strip_prefix (p l : bytes) : option bytes :=
  match p, l with
  | [], _ => Some l
  | a :: p', b :: l' => if decide (a = b) then strip_prefix p' l' else None
  | _, [] => None
  end.

Fixpoint take_digits (l : bytes) : bytes * bytes :=
  match l with
  | c :: l' => if is_digit c then let '(d, r) := take_digits l' in (c :: d, r) else ([], l)
  | [] => ([], [])
  end.

(** The number of a sequenced frame and the event it carries. *)
Definition unstamp (f : bytes) : option (Z * bytes) :=
  l ← strip_prefix seq_prefix f;
  let '(ds, r) := take_digits l in
  match ParseUint ds with
  | Ok n => Some (n, x7b :: match r with x2c :: r' => r' | _ => r end)
  | Err _ => None
  end.

(** A JSON object that does not itself begin with a sequence number. *)
Definition event_frame (d : bytes) : Prop :=
  (exists c l, d = x7b :: c :: l /\ is_digit c = false /\ c <> x2c) /\ strip_prefix seq_prefix d = None.

(** ** Lemmas on stamps *)

Lemma strip_prefix_app p l : strip_prefix p (p ++ l) = Some l.
Proof. induction p as [|a p IH]; simpl; [done|]. by rewrite decide_True. Qed.

Lemma take_digits_app ds r : Forall (fun b => is_digit b) ds ->
  match r with c :: _ => is_digit c = false | [] => True end ->
  take_digits (ds ++ r) = (ds, r).
Proof.
  intros Hd Hr. induction Hd as [|c ds Hc Hd IH]; simpl.
  - destruct r as [|c r]; [done|]. simpl. by rewrite Hr.
  - apply Is_true_true in Hc. by rewrite Hc, IH.
Qed.

Lemma unstamp_stamp d n : event_frame d -> 0 <= n < 2 ^ 64 ->
  unstamp (stamp d n) = Some (n, d).
Proof.
  intros [(c & l & -> & Hc & Hcomma) _] Hn. unfold stamp, unstamp.
  rewrite strip_prefix_app. cbn [mbind option_bind drop].
  destruct (decide (c = x7d)) as [->|Hne].
  - rewrite app_nil_l, take_digits_app; [|apply FormatUint_digits; lia|done].
    by rewrite ParseUint_FormatUint.
  - simpl app. rewrite take_digits_app; [|apply FormatUint_digits; lia|done].
    by rewrite ParseUint_FormatUint.
Qed.

Lemma unstamp_event d : event_frame d -> unstamp d = None.
Proof. intros [_ H]. unfold unstamp. by rewrite H. Qed.

(** ** Lemmas on the log *)

Lemma numbered_app lo l1 l2 :
  numbered lo (l1 ++ l2) = numbered lo l1 ++ numbered (lo + len l1) l2.
Proof.
  revert lo. induction l1 as [|d l1 IH]; intros lo; simpl.
  - by rewrite len_nil, Z.add_0_r.
  - rewrite IH, len_cons. by rewrite Z.add_assoc.
Qed.

Lemma length_numbered lo l : length (numbered lo l) = length l.
Proof. revert lo. induction l as [|d l IH]; intros lo; simpl; [done|]. by rewrite IH. Qed.

Lemma drop_numbered lo l n :
  drop n (numbered lo l) = numbered (lo + Z.of_nat n) (drop n l).
Proof.
  revert lo l. induction n as [|n IH]; intros lo l; simpl; [by rewrite Z.add_0_r|].
  destruct l as [|d l]; simpl; [done|]. rewrite IH. f_equal. lia.
Qed.

Lemma numbered_run lo l : replay.run lo (numbered lo l).
Proof. revert lo. induction l as [|d l IH]; intros lo; simpl; [done|]. by split. Qed.

(** A suffix of a numbered list is a numbered suffix. *)
Lemma numbered_suffix lo l l1 l2 : numbered lo l = l1 ++ l2 ->
  l2 = numbered (lo + len l1) (drop (length l1) l) /\ (length l1 <= length l)%nat.
Proof.
  intros H. split.
  - pose proof (f_equal (drop (length l1)) H) as Hd.
    rewrite drop_app_length, drop_numbered in Hd. done.
  - apply (f_equal length) in H. rewrite length_numbered, length_app in H. lia.
Qed.

Lemma commit_logged log s d : logged log s -> len log + 2 < 2 ^ 64 ->
  exists s', commit s (s_next s) d = Some s' /\ logged (log ++ [d]) s' /\
    s' = set_next_buf s (s_next s + 1) (s_buf s').
Proof.
  intros [Hn Hb Hw (k & Hk & Ha)] Hlim. unfold commit.
  destruct (replay.push_abs (s_buf s) (s_next s) d Hw) as (b' & -> & Hw' & _ & Ha').
  cbn [mbind option_bind]. pose proof (len_nonneg log).
  rewrite u64_small by lia. eexists. split; [done|]. split; [|done].
  constructor; cbn [s_next s_buf set_next_buf].
  - rewrite len_app, Hn. change (len [d]) with 1. lia.
  - rewrite len_app. change (len [d]) with 1. lia.
  - done.
  - rewrite Ha'. unfold replay.spec_push. cbn [replay.data].
    destruct (_ <? len d).
    { exists (length (log ++ [d])). rewrite drop_all. done. }
    rewrite Ha. destruct (replay.trim_suffix (replay.maxMsgs (s_buf s)) (replay.maxBytes (s_buf s))
      (numbered (Z.of_nat k + 1) (drop k log) ++ [replay.mkEntry (s_next s) d])) as [l1 Hl1].
    assert (numbered (Z.of_nat k + 1) (drop k (log ++ [d]))
      = numbered (Z.of_nat k + 1) (drop k log) ++ [replay.mkEntry (s_next s) d]) as Hnum.
    { rewrite drop_app_le, numbered_app by done. simpl. do 3 f_equal.
      rewrite Hn. unfold len. rewrite length_drop. lia. }
    rewrite <- Hnum in Hl1. apply numbered_suffix in Hl1 as [Hl2 Hle].
    exists (k + length l1)%nat. rewrite length_drop, length_app in Hle. simpl in Hle.
    rewrite length_app. simpl. split; [lia|]. rewrite <- Hnum, Hl2, drop_drop.
    f_equal. unfold len. lia.
Qed.

Lemma Ack_logged log s n : logged log s ->
  exists s', Ack s n = Some s' /\ logged log s' /\ s' = set_next_buf s (s_next s) (s_buf s').
Proof.
  intros [Hn Hb Hw (k & Hk & Ha)]. unfold Ack.
  destruct (Z.ltb_spec n (s_next s)).
  2: { exists s. split; [done|]. split; [|by destruct s]. constructor; [done..|by exists k]. }
  destruct (replay.ackUpTo_abs (s_buf s) n Hw) as (b' & -> & Hw' & _ & Ha').
  cbn [mbind option_bind]. eexists. split; [done|]. split; [|done].
  constructor; cbn [s_next s_buf set_next_buf]; [done|done|done|].
  rewrite Ha', Ha, (replay.run_spec_ack (Z.of_nat k + 1)) by apply numbered_run.
  rewrite drop_numbered, drop_drop.
  set (j := Z.to_nat (n + 1 - (Z.of_nat k + 1))).
  exists (k + j)%nat. split; [unfold j; unfold len in Hn; lia|].
  f_equal. lia.
Qed.

(** ** Lemmas on [deliver] *)

Lemma logged_stalled log s b : logged log s -> logged log (set_stalled s b).
Proof. intros [? ? ? ?]; constructor; assumption. Qed.

Lemma logged_dropped log s : logged log s -> logged log (add_dropped s).
Proof. intros [? ? ? ?]; constructor; assumption. Qed.

Lemma queued_none cs s : queued cs cs s [].
Proof. intros c. destruct (decide _); by rewrite app_nil_r. Qed.

(** Replacing the live client by one that differs in its queue only. *)
Lemma queued_upd cs s l cl frames : s_live s = Some l ->
  client.session cl = client.session (cs !!! l) ->
  client.replay cl = client.replay (cs !!! l) ->
  ch_buf (send cl) = ch_buf (send (cs !!! l)) ++ frames ->
  queued cs (upd_client cs l cl) s frames.
Proof.
  intros Hl H1 H2 H3 c. unfold upd_client. destruct (decide (l = c)) as [<-|Hne].
  - rewrite lookup_total_insert_eq. by rewrite decide_True.
  - rewrite lookup_total_insert_ne by done. rewrite decide_False by congruence.
    by rewrite app_nil_r.
Qed.

Lemma enqueue_buf_res c f r : (enqueue c f).2 = r ->
  ch_buf (send (enqueue c f).1) = ch_buf (send c) ++ match r with enqOK => [f] | _ => [] end.
Proof. intros <-. apply enqueue_buf. Qed.

(** Committing keeps the identity of the session. *)
Lemma commit_deliver log s d b : logged log s -> len log + 2 < 2 ^ 64 ->
  exists s', commit s (s_next s) d = Some s' /\ logged (log ++ [d]) s' /\
    same_identity s s' /\ s_stalled s' = s_stalled s /\
    logged (log ++ [d]) (set_stalled s' b) /\ same_identity s (set_stalled s' b).
Proof.
  intros Hl Hb. destruct (commit_logged log s d Hl Hb) as (s' & -> & Hl' & Hs').
  exists s'. split; [done|]. split; [done|]. rewrite Hs'.
  split; [done|]. split; [done|]. split; [|done].
  rewrite <- Hs'. by apply logged_stalled.
Qed.

(** What [deliver] guarantees of a session whose log is [log]. *)
Definition delivers cs s data pol (log : list bytes) (answer : enqueueResult)
    (r : option (gmap cptr Client * Session * bool)) : Prop :=
  exists cs' s' ok frames logd, r = Some (cs', s', ok) /\
    outcome s answer data pol frames logd (s_stalled s') ok /\
    logged (log ++ logd) s' /\ same_identity s s' /\ queued cs cs' s frames.

Lemma offline_delivers cs s data pol log answer : logged log s -> len log + 2 < 2 ^ 64 ->
  s_state s <> stateClosed -> offline s ->
  delivers cs s data pol log answer
    (if decide (pol = PolicyVolatile) then Some (cs, add_dropped s, true)
     else s' ← commit s (s_next s) data; Some (cs, s', true)).
Proof.
  intros Hl Hb Hst Hoff. destruct (decide (pol = PolicyVolatile)) as [->|Hp].
  - exists cs, (add_dropped s), true, [], []. rewrite app_nil_r.
    split; [done|]. cbn [s_stalled add_dropped]. split; [by apply out_volatile_offline|].
    split; [by apply logged_dropped|]. split; [done|apply queued_none].
  - destruct (commit_deliver log s data true Hl Hb) as (s' & -> & Hl' & Hid & Hs' & _).
    cbn [mbind option_bind]. exists cs, s', true, [], [data].
    split; [done|]. split; [rewrite Hs'; by apply out_offline|].
    split; [done|]. split; [done|apply queued_none].
Qed.

Lemma volatile_delivers cs s l data log : logged log s -> s_state s <> stateClosed -> ~ offline s ->
  s_live s = Some l -> s_stalled s = false ->
  delivers cs s data PolicyVolatile log (enqueue (cs !!! l) data).2
    (let '(cl, res) := enqueue (cs !!! l) data in
     let cl := match res with enqOK => cl | _ => client.add_dropped cl end in
     Some (upd_client cs l cl, s, true)).
Proof.
  intros Hl Hst Hon Hlive Hstall.
  pose proof (enqueue_session (cs !!! l) data) as E1. pose proof (enqueue_replay (cs !!! l) data) as E2.
  pose proof (enqueue_buf (cs !!! l) data) as E3. destruct (enqueue (cs !!! l) data) as [cl res].
  cbn [fst snd] in E1, E2, E3 |- *.
  eexists _, s, true, (match res with enqOK => [data] | _ => [] end), [].
  split; [done|]. rewrite app_nil_r, Hstall. split.
  - destruct res; [by apply out_volatile_sent|by apply out_volatile_lost..].
  - split; [done|]. split; [done|]. apply queued_upd; [done|by destruct res..].
Qed.

Lemma numbered_delivers cs s l data pol log : logged log s -> len log + 2 < 2 ^ 64 ->
  s_state s <> stateClosed -> ~ offline s -> s_live s = Some l -> s_stalled s = false ->
  pol <> PolicyVolatile ->
  delivers cs s data pol log (enqueue (cs !!! l) (stamp data (s_next s))).2
    (let '(cl, res) := enqueue (cs !!! l) (stamp data (s_next s)) in
     let cs' := upd_client cs l cl in
     match res with
     | enqOK => s' ← commit s (s_next s) data; Some (cs', s', true)
     | enqClosed => s' ← commit s (s_next s) data; Some (cs', set_stalled s' true, true)
     | enqFull =>
         if decide (pol = PolicyDrop)
         then Some (upd_client cs l (client.add_dropped cl), s, true)
         else s' ← commit s (s_next s) data; Some (cs', set_stalled s' true, false)
     end).
Proof.
  intros Hl Hb Hst Hon Hlive Hstall Hp. set (f := stamp data (s_next s)).
  pose proof (enqueue_session (cs !!! l) f) as E1. pose proof (enqueue_replay (cs !!! l) f) as E2.
  pose proof (enqueue_buf (cs !!! l) f) as E3. destruct (enqueue (cs !!! l) f) as [cl res].
  cbn [fst snd] in E1, E2, E3 |- *.
  destruct (commit_deliver log s data true Hl Hb) as (s' & -> & Hl' & Hid & Hs' & Hl2 & Hid2).
  cbn [mbind option_bind]. destruct res; [|destruct (decide (pol = PolicyDrop)) as [->|Hd]|].
  - exists (upd_client cs l cl), s', true, [f], [data].
    split; [done|]. rewrite Hs', Hstall. split; [by apply out_sent|].
    split; [done|]. split; [done|]. by apply queued_upd.
  - eexists _, s, true, [], []. split; [done|]. rewrite app_nil_r, Hstall.
    split; [by apply out_dropped|]. split; [done|]. split; [done|]. by apply queued_upd.
  - assert (pol = PolicyDisconnect) as -> by (destruct pol; congruence).
    eexists _, _, false, [], [data]. split; [done|]. split; [by apply out_disconnect|].
    split; [done|]. split; [done|]. by apply queued_upd.
  - eexists _, _, true, [], [data]. split; [done|]. split; [by apply out_gone|].
    split; [done|]. split; [done|]. by apply queued_upd.
Qed.

Lemma deliver_contract cs s data pol log : logged log s -> len log + 2 < 2 ^ 64 ->
  delivers cs s data pol log
    (queue_answer cs s (if decide (pol = PolicyVolatile) then data else stamp data (s_next s)))
    (deliver cs s data pol).
Proof.
  intros Hl Hb. unfold deliver, queue_answer.
  destruct (decide (s_state s = stateClosed)) as [Hst|Hst].
  { exists cs, s, true, [], []. rewrite app_nil_r.
    split; [done|]. split; [by constructor|]. split; [done|]. split; [done|]. apply queued_none. }
  destruct (s_live s) as [l|] eqn:Hlive; [destruct (s_stalled s) eqn:Hstall|].
  - apply offline_delivers; try done. by right.
  - assert (~ offline s) as Hon by (intros [?|?]; congruence).
    destruct (decide (pol = PolicyVolatile)) as [->|Hp]; [by apply volatile_delivers|by apply numbered_delivers].
  - apply offline_delivers; try done. by left.
Qed.

Lemma upd_client_wf cs l cl : (forall c, client.wf (cs !!! c)) -> client.wf cl ->
  forall c, client.wf (upd_client cs l cl !!! c).
Proof.
  intros Hcs Hcl c. unfold upd_client. destruct (decide (l = c)) as [<-|Hne].
  - by rewrite lookup_total_insert_eq.
  - rewrite lookup_total_insert_ne by done. apply Hcs.
Qed.

Lemma add_dropped_wf cl : client.wf cl -> client.wf (client.add_dropped cl).
Proof. by intros [? ? ?]; constructor. Qed.

(** No delivery breaks a queue. *)
Lemma deliver_wf cs s data pol cs' s' ok : deliver cs s data pol = Some (cs', s', ok) ->
  (forall c, client.wf (cs !!! c)) -> forall c, client.wf (cs' !!! c).
Proof.
  intros Hd Hcs. unfold deliver in Hd.
  destruct (decide (s_state s = stateClosed)); [by injection Hd as <- <- <-|].
  assert (forall l f, client.wf (enqueue (cs !!! l) f).1) as Hq by (intros; by apply enqueue_wf).
  destruct (s_live s) as [l|]; [destruct (s_stalled s)|].
  - destruct (decide (pol = PolicyVolatile)); [by injection Hd as <- <- <-|].
    destruct (commit s (s_next s) data); [|done]. by injection Hd as <- <- <-.
  - destruct (decide (pol = PolicyVolatile)).
    + specialize (Hq l data). destruct (enqueue (cs !!! l) data) as [cl res].
      injection Hd as <- <- <-. apply upd_client_wf; [done|]. destruct res; by try apply add_dropped_wf.
    + specialize (Hq l (stamp data (s_next s))).
      destruct (enqueue (cs !!! l) (stamp data (s_next s))) as [cl res]. cbn [fst] in Hq.
      pose proof (upd_client_wf cs l cl Hcs Hq) as H1.
      pose proof (upd_client_wf cs l _ Hcs (add_dropped_wf cl Hq)) as H2.
      destruct (commit s (s_next s) data), res; simpl in Hd; try case_decide;
        try done; by injection Hd as <- <- <-.
  - destruct (decide (pol = PolicyVolatile)); [by injection Hd as <- <- <-|].
    destruct (commit s (s_next s) data); [|done]. by injection Hd as <- <- <-.
Qed.

(** When a resume is honoured, what the buffer holds after acknowledging the
    peer's position is exactly the rest of the log. *)
Lemma resume_entries log s q b : logged log s -> 0 <= q -> q < s_next s ->
  (q < s_next s - 1 -> replay.covers (s_buf s) q = true) ->
  replay.ackUpTo (s_buf s) q = Some b ->
  replay.after b q = numbered (q + 1) (drop (Z.to_nat q) log).
Proof.
  intros [Hn Hb Hw (k & Hk & Ha)] Hq Hlt Hcov Hack.
  destruct (replay.ackUpTo_abs (s_buf s) q Hw) as (b' & Hack' & Hw' & _ & Ha').
  rewrite Hack in Hack'. injection Hack' as <-.
  rewrite replay.after_abs, Ha', Ha.
  rewrite (replay.run_spec_ack (Z.of_nat k + 1)) by apply numbered_run.
  rewrite drop_numbered, drop_drop.
  set (j := Z.to_nat (q + 1 - (Z.of_nat k + 1))).
  assert (Z.of_nat k <= q \/ q = len log) as Hkq.
  { destruct (Z.ltb_spec q (s_next s - 1)) as [Hq1|Hq1].
    - specialize (Hcov Hq1). rewrite replay.covers_abs, Ha in Hcov by done. left.
      destruct (drop k log) as [|d l]; simpl in Hcov; [done|].
      rewrite u64_small in Hcov by (unfold len in *; lia). lia.
    - right. lia. }
  assert (replay.run (Z.of_nat (k + j) + 1) (numbered (Z.of_nat k + 1 + Z.of_nat j) (drop (k + j) log)))
    as Hrun.
  { replace (Z.of_nat (k + j) + 1) with (Z.of_nat k + 1 + Z.of_nat j) by lia.
    apply numbered_run. }
  rewrite (replay.run_after _ _ _ Hrun), (replay.run_spec_ack _ _ _ Hrun).
  rewrite drop_numbered, drop_drop.
  destruct (decide (Z.of_nat k <= q)).
  - unfold j. f_equal; [lia|]. f_equal. lia.
  - assert (q = len log) as -> by lia. unfold len.
    rewrite !drop_ge by lia. done.
Qed.

(** ** Properties *)

(** A client that reads frames the documented way finds, in a stamped
    frame, the sequence number and the event that was stamped. *)
Theorem stamp_roundtrip d n :
  event_frame d -> 0 <= n < 2 ^ 64 -> unstamp (stamp d n) = Some (n, d).
Proof. apply unstamp_stamp. Qed.

Lemma stamp_roundtrip_witness :
  unstamp (stamp (print (JObj [("event"%string, JStr "hi")])) 42)
  = Some (42, print (JObj [("event"%string, JStr "hi")])).
Proof.
  apply stamp_roundtrip; [|lia]. split; [|by vm_compute].
  do 2 eexists. split; [by vm_compute|]. by vm_compute.
Defined.

(** C15: the contract of [deliver]: it never fails at run time, and its effect
    is the one [outcome] lists for the policy, the session's state and the
    answer of the live queue. In particular a reliable frame is logged exactly
    when it is numbered, the number on the queue is the frame's position in
    the log, a volatile frame is neither numbered nor logged, a frame dropped
    by policy uses up no number, and the slow peer is to be disconnected only
    after its frame has been logged. *)
Theorem deliver_refines cs s data pol log :
  logged log s -> len log + 2 < 2 ^ 64 ->
  exists cs' s' ok frames logd,
    deliver cs s data pol = Some (cs', s', ok) /\
    outcome s (queue_answer cs s (if decide (pol = PolicyVolatile) then data
                                  else stamp data (s_next s)))
      data pol frames logd (s_stalled s') ok /\
    logged (log ++ logd) s' /\ same_identity s s' /\ queued cs cs' s frames.
Proof. apply deliver_contract. Qed.

Lemma new_session_logged i o live msgs byts win : 0 <= msgs -> 0 <= byts ->
  logged [] (mkSession i o stateAttached 1 (replay.new_buffer msgs byts) live live false 0
               (keys.new_window win) None 0).
Proof.
  intros Hm Hb. constructor; simpl; [done|by vm_compute| |by exists 0%nat].
  constructor; simpl; [lia|done|by apply replay.fits_nil|done].
Qed.

Definition demo_session : Session :=
  mkSession "tok" "" stateAttached 1 (replay.new_buffer 4 100) (Some 0%nat) (Some 0%nat) false 0
    (keys.new_window 4) None 0.

Lemma deliver_refines_witness :
  exists cs' s' ok frames logd,
    deliver ∅ demo_session (bs "{}") PolicyDisconnect = Some (cs', s', ok) /\
    outcome demo_session (queue_answer ∅ demo_session
        (if decide (PolicyDisconnect = PolicyVolatile) then bs "{}" else stamp (bs "{}") 1))
      (bs "{}") PolicyDisconnect frames logd (s_stalled s') ok /\
    logged ([] ++ logd) s' /\ same_identity demo_session s' /\ queued ∅ cs' demo_session frames.
Proof. apply deliver_refines; [by apply new_session_logged|by vm_compute]. Defined.

End session.
