(* ===== verification/SessionStore.v ===== *)
(** * The session registry ([internal/session.go], [SessionStore])

    [Open], [Leave] and [Sweep] run under the store's mutex and the mutexes of
    the sessions they touch, so each is one atomic step on the heap of clients,
    the heap of sessions and the store. The callbacks that run after the locks
    are released ([Release]) are returned as a list, in order. *)
From S2P Require Import Prelude.
From S2P Require Import Json.
From S2P Require Import Replay.
From S2P Require Import Client.
From S2P Require Import Session.

Module store.
Import client session.

Inductive ReleaseReason := ReleaseExpired | ReleaseEvicted | ReleaseReplaced.
Inductive LeaveResult := LeaveGone | LeaveParked | LeaveDisplaced.

Record SessionOptions := mkOptions {
  ReplayMessages : Z; ReplayBytes : Z; TTL : Z; MaxParked : Z; KeyWindow : Z
}.

Record SessionStore := mkStore {
  opt : SessionOptions;
  sessions : gmap string sptr;
  parked : list (nat * sptr);    (* container/list: element identities and values *)
  nextElem : nat;                (* identity of the next element *)
  resumed : Z;
  replayed : Z;
  dupes : Z
}.

Definition or_default (n d : Z) : Z := if n <=? 0 then d else n.
Definition Minute : Z := 60 * 1000000000.

Definition NewSessionStore (o : SessionOptions) : SessionStore :=
  mkStore (mkOptions (or_default (ReplayMessages o) 256)
             (or_default (ReplayBytes o) (Z.shiftl 256 10)) (or_default (TTL o) (2 * Minute))
             (or_default (MaxParked o) 10000) (or_default (KeyWindow o) 1024))
    ∅ [] 0 0 0 0.

(** ** The heap *)

Record world := mkWorld {
  w_clients : gmap cptr Client;
  w_sess : gmap sptr Session;
  w_nextSess : sptr;             (* allocation of session objects *)
  w_store : SessionStore
}.

Definition set_clients (w : world) (cs : gmap cptr Client) : world :=
  mkWorld cs (w_sess w) (w_nextSess w) (w_store w).
Definition set_session (w : world) (p : sptr) (s : Session) : world :=
  mkWorld (w_clients w) (<[p := s]> (w_sess w)) (w_nextSess w) (w_store w).
Definition set_store (w : world) (st : SessionStore) : world :=
  mkWorld (w_clients w) (w_sess w) (w_nextSess w) st.

Definition st_sessions (st : SessionStore) (m : gmap string sptr) : SessionStore :=
  mkStore (opt st) m (parked st) (nextElem st) (resumed st) (replayed st) (dupes st).
Definition st_parked (st : SessionStore) (l : list (nat * sptr)) (n : nat) : SessionStore :=
  mkStore (opt st) (sessions st) l n (resumed st) (replayed st) (dupes st).
Definition st_counts (st : SessionStore) (r n d : Z) : SessionStore :=
  mkStore (opt st) (sessions st) (parked st) (nextElem st) r n d.

(** [list.Remove(e)] *)
Definition list_Remove (l : list (nat * sptr)) (e : nat) : list (nat * sptr) :=
  List.filter (fun x => negb (x.1 =? e)%nat) l.

Definition unlink (w : world) (p : sptr) : world :=
  let s := w_sess w !!! p in
  match s_elem s with
  | None => w
  | Some e =>
      let w := set_store w (st_parked (w_store w) (list_Remove (parked (w_store w)) e)
                              (nextElem (w_store w))) in
      set_session w p (set_elem s None)
  end.

Definition removeLocked (w : world) (p : sptr) : world :=
  let s := w_sess w !!! p in
  let w := set_store w (st_sessions (w_store w) (delete (s_id s) (sessions (w_store w)))) in
  unlink w p.

(** ** The $session frame *)

Definition sessionFrame (id : string) (resumed : bool) (replayed lastSeq : Z)
    (reason : string) : bytes :=
  print (JObj [("event"%string, JStr "$session");
               ("payload"%string,
                JObj ([("sessionId"%string, JStr id); ("resumed"%string, JBool resumed);
                       ("replayed"%string, JInt replayed); ("lastSeq"%string, JInt lastSeq)]
                      ++ omit_if (bool_decide (reason = ""%string)) "reason" (JStr reason)))]).

(** ** Open *)

Record OpenResult := mkResult {
  r_Session : option sptr; r_Resumed : bool; r_Reason : string; r_Replayed : Z;
  r_Prev : option cptr; r_Displaced : option cptr
}.

Definition refused (reason : string) : OpenResult := mkResult None false reason 0 None None.

Definition attachLocked (w : world) (p : sptr) (c : cptr) (lastSeq : Z)
  : option (world * OpenResult) :=
  let s := w_sess w !!! p in
  b ← replay.ackUpTo (s_buf s) lastSeq;
  let entries := replay.after b lastSeq in
  let frames := sessionFrame (s_id s) true (len entries) (u64 (s_next s - 1)) ""
                :: map (fun e => stamp (replay.data e) (replay.seq e)) entries in
  let displaced := match s_live s with
                   | Some l => if decide (l = c) then None else Some l
                   | None => None
                   end in
  let res := mkResult (Some p) true "" (len entries) (s_member s) displaced in
  let s := set_next_buf s (s_next s) b in
  let s := set_member (set_live s (Some c)) (Some c) in
  let s := set_stalled (set_state s stateAttached) false in
  let w := unlink (set_session w p s) p in
  let cl := w_clients w !!! c in
  let w := set_clients w (<[c := with_binding cl (Some p) frames (meta cl)]> (w_clients w)) in
  Some (w, res).

(** The fresh session bound to [c]. [newID] is [newSessionID()]: the empty
    string when the entropy source fails. *)
Definition open_fresh (w : world) (c : cptr) (owner newID reason : string)
  : world * OpenResult :=
  if bool_decide (newID = ""%string) then (w, refused reason)
  else
    let o := opt (w_store w) in
    let p := w_nextSess w in
    let s := mkSession newID owner stateAttached 1
               (replay.new_buffer (ReplayMessages o) (ReplayBytes o)) (Some c) (Some c) false 0
               (keys.new_window (KeyWindow o)) None 0 in
    let cl := w_clients w !!! c in
    let cl := with_binding cl (Some p) [sessionFrame newID false 0 0 reason] (meta cl) in
    (mkWorld (<[c := cl]> (w_clients w)) (<[p := s]> (w_sess w)) (S p)
       (st_sessions (w_store w) (<[newID := p]> (sessions (w_store w)))),
     mkResult (Some p) false reason 0 None None).

Definition Open (w : world) (c : cptr) (req : ResumeRequest) (now : Z) (newID : string)
  : option (world * OpenResult * list (sptr * ReleaseReason)) :=
  let fresh w reason releases :=
    let '(w, res) := open_fresh w c (Owner req) newID reason in Some (w, res, releases) in
  if Invalid req then fresh w ReasonBadRequest []
  else if Requested req then
    match sessions (w_store w) !! SessionID req with
    | None => fresh w ReasonUnknownSession []
    | Some p =>
        let s := w_sess w !!! p in
        let '(reason, kill) := verdict s req now (TTL (opt (w_store w))) in
        if bool_decide (reason = ""%string) then
          '(w, res) ← attachLocked w p c (LastSeq req);
          let st := w_store w in
          let st := st_counts st (i64 (resumed st + 1)) (i64 (replayed st + r_Replayed res))
                      (dupes st) in
          Some (set_store w st, res, [])
        else if kill : bool then
          let w := removeLocked (set_session w p (set_state s stateClosed)) p in
          fresh w reason [(p, ReleaseReplaced)]
        else fresh w reason []
    end
  else fresh w ""%string [].

(** ** Leave *)

(** [for st.parked.Len() > st.opt.MaxParked { ... }]: [Front()] of an empty
    list would be a nil dereference. *)
Fixpoint evict_loop (fuel : nat) (w : world) (evicted : list sptr)
  : option (world * list sptr) :=
  if MaxParked (opt (w_store w)) <? len (parked (w_store w)) then
    match fuel, parked (w_store w) with
    | S fuel', (_, v) :: _ =>
        let w := set_session w v (set_state (w_sess w !!! v) stateClosed) in
        evict_loop fuel' (removeLocked w v) (evicted ++ [v])
    | _, _ => None
    end
  else Some (w, evicted).

Definition Leave (w : world) (p : sptr) (c : cptr) (resumable : bool) (now : Z)
  : option (world * LeaveResult * list (sptr * ReleaseReason)) :=
  let s := w_sess w !!! p in
  if decide (s_state s = stateClosed) then Some (w, LeaveGone, [])
  else if decide (s_live s <> Some c) then Some (w, LeaveDisplaced, [])
  else if negb resumable then
    let s := set_live (set_state s stateClosed) None in
    Some (removeLocked (set_session w p s) p, LeaveGone, [])
  else
    let e := nextElem (w_store w) in
    let s := set_state (set_stalled (set_live s None) false) stateParked in
    let s := set_elem (set_parked_time s now) (Some e) in
    let w := set_session w p s in
    let w := set_clients w (<[c := set_parked (w_clients w !!! c)]> (w_clients w)) in
    let w := set_store w (st_parked (w_store w) (parked (w_store w) ++ [(e, p)]) (S e)) in
    '(w, evicted) ← evict_loop (length (parked (w_store w))) w [];
    Some (w, LeaveParked, map (fun v => (v, ReleaseEvicted)) evicted).

(** ** Sweep *)

Fixpoint sweep_loop (fuel : nat) (w : world) (now : Z) (expired : list sptr)
  : option (world * list sptr) :=
  match parked (w_store w) with
  | [] => Some (w, expired)
  | (_, p) :: _ =>
      let s := w_sess w !!! p in
      if TTL (opt (w_store w)) <? now - s_parked s then
        match fuel with
        | O => None
        | S fuel' =>
            let w := set_session w p (set_state s stateClosed) in
            sweep_loop fuel' (removeLocked w p) now (expired ++ [p])
        end
      else Some (w, expired)
  end.

Definition Sweep (w : world) (now : Z) : option (world * list (sptr * ReleaseReason)) :=
  '(w, expired) ← sweep_loop (length (parked (w_store w))) w now [];
  Some (w, map (fun v => (v, ReleaseExpired)) expired).

(** ** Statistics *)

Record SessionStats := mkStats {
  Sessions : Z; Parked : Z; Resumed : Z; Replayed : Z; Duplicates : Z
}.
Definition Stats (w : world) : SessionStats :=
  let st := w_store w in
  mkStats (Z.of_nat (size (sessions st))) (len (parked st)) (resumed st) (replayed st) (dupes st).
Definition NoteDuplicate (w : world) : world :=
  let st := w_store w in
  set_store w (st_counts st (resumed st) (replayed st) (i64 (dupes st + 1))).

(** The interval between sweeps of [Run]. *)
Definition Millisecond : Z := 1000000.
Definition Second : Z := 1000000000.
Definition sweep_every (ttl : Z) : Z :=
  let every := Z.quot ttl 4 in
  let every := if every <? 10 * Millisecond then 10 * Millisecond else every in
  if 5 * Second <? every then 5 * Second else every.

End store.
