(* ===== verification/SessionInv.v ===== *)
(** * Invariant of the session registry

    The invariant relates the heap of sessions, the token index and the parked
    list, and every operation of [SessionStore.v] and [Session.v] preserves it
    without a run-time panic. *)
From S2P Require Import Prelude.
From S2P Require Import GoStd.
From S2P Require Import Json.
From S2P Require Import Replay.
From S2P Require Import Client.
From S2P Require Import Session.
From S2P Require Import SessionStore.

Module inv.
Import client session store.

(** ** The invariant *)

Record sess_ok (s : Session) : Prop := {
  so_log : exists log, logged log s;
  so_keys : keys.wf (s_keys s);
  so_elem : s_state s = stateParked <-> is_Some (s_elem s);
  so_attached : s_state s = stateAttached -> is_Some (s_live s);
  so_parked : s_state s = stateParked -> s_live s = None
}.

Record core (w : world) : Prop := {
  iv_alloc p s : w_sess w !! p = Some s -> (p < w_nextSess w)%nat;
  iv_sess p s : w_sess w !! p = Some s -> sess_ok s;
  iv_index i p : sessions (w_store w) !! i = Some p ->
    exists s, w_sess w !! p = Some s /\ s_id s = i /\ s_state s <> stateClosed;
  iv_open p s : w_sess w !! p = Some s -> s_state s <> stateClosed ->
    sessions (w_store w) !! s_id s = Some p;
  iv_list e p : (e, p) ∈ parked (w_store w) <->
    exists s, w_sess w !! p = Some s /\ s_elem s = Some e;
  iv_nodup : NoDup (map fst (parked (w_store w)));
  iv_fresh e p : (e, p) ∈ parked (w_store w) -> (e < nextElem (w_store w))%nat;
  iv_live p s c : w_sess w !! p = Some s -> s_live s = Some c ->
    client.session (w_clients w !!! c) = Some p;
  iv_max : 0 < MaxParked (opt (w_store w));
  iv_limits : 0 <= ReplayMessages (opt (w_store w)) /\ 0 <= ReplayBytes (opt (w_store w))
}.

(** Between operations the parked list also respects its cap. *)
Definition inv (w : world) : Prop :=
  core w /\ len (parked (w_store w)) <= MaxParked (opt (w_store w)).

(** ** Generic updates *)

(** A session updated in place, keeping what the index and the list rely on. *)
Lemma core_update w p s s' : core w -> w_sess w !! p = Some s ->
  s_id s' = s_id s -> s_state s' = s_state s -> s_elem s' = s_elem s -> s_live s' = s_live s ->
  sess_ok s' -> core (set_session w p s').
Proof.
  intros [Ha Hs Hi Ho Hl Hn Hf Hv Hm Hr] Hp Eid Est Eel Eli Hok.
  constructor; cbn [w_sess w_nextSess w_store w_clients set_session]; try done.
  - intros q t [[<- <-]|[? ?]]%lookup_insert_Some; eauto.
  - intros q t [[<- <-]|[? ?]]%lookup_insert_Some; eauto.
  - intros i q Hq. destruct (Hi i q Hq) as (t & Ht & Hid & Hst).
    destruct (decide (p = q)) as [<-|Hne].
    + exists s'. rewrite lookup_insert_eq. simplify_eq. split; [done|]. split; congruence.
    + exists t. by rewrite lookup_insert_ne.
  - intros q t [[<- <-]|[? ?]]%lookup_insert_Some Hst; [|eauto].
    rewrite Eid. apply Ho; [done|congruence].
  - intros e q. rewrite Hl. destruct (decide (p = q)) as [<-|Hne].
    + rewrite lookup_insert_eq. split; intros (t & Ht & He); simplify_eq; eexists; split; eauto; congruence.
    + by rewrite lookup_insert_ne.
  - intros q t c [[<- <-]|[? ?]]%lookup_insert_Some Hc; [|eauto].
    apply (Hv p s c); [done|congruence].
Qed.

(** Clients may change in every respect but their session. *)
Lemma core_clients w cs : core w ->
  (forall c, client.session (cs !!! c) = client.session (w_clients w !!! c)) ->
  core (set_clients w cs).
Proof.
  intros [Ha Hs Hi Ho Hl Hn Hf Hv Hm Hr] Hc. constructor; try done.
  intros p s c Hp Hl'. cbn [w_clients set_clients]. rewrite Hc. by eapply Hv.
Qed.

Lemma core_counts w r n d : core w -> core (set_store w (st_counts (w_store w) r n d)).
Proof. by intros [Ha Hs Hi Ho Hl Hn Hf Hv Hm Hr]; constructor. Qed.

Lemma list_Remove_elem l e x : x ∈ list_Remove l e <-> x ∈ l /\ x.1 <> e.
Proof.
  unfold list_Remove. rewrite !list_elem_of_In, filter_In.
  destruct (Nat.eqb_spec (x.1) e); naive_solver.
Qed.

Lemma list_Remove_NoDup l e : NoDup (map fst l) -> NoDup (map fst (list_Remove l e)).
Proof.
  induction l as [|[a q] l IH]; simpl; [done|]. intros [Ha Hl]%NoDup_cons.
  destruct (Nat.eqb_spec a e); simpl; [by apply IH|]. apply NoDup_cons. split; [|by apply IH].
  rewrite list_elem_of_In, in_map_iff in Ha |- *. intros (x & Hx & Hin). apply Ha.
  exists x. split; [done|]. apply list_elem_of_In in Hin. apply list_elem_of_In.
  by apply list_Remove_elem in Hin as [Hin _].
Qed.

Lemma elem_inj w p q s t e : core w -> w_sess w !! p = Some s -> w_sess w !! q = Some t ->
  s_elem s = Some e -> s_elem t = Some e -> p = q.
Proof.
  intros Hw Hp Hq Hs Ht.
  assert ((e, p) ∈ parked (w_store w)) as H1 by (apply (iv_list w Hw); eauto).
  assert ((e, q) ∈ parked (w_store w)) as H2 by (apply (iv_list w Hw); eauto).
  pose proof (iv_nodup w Hw) as Hn. revert H1 H2 Hn.
  induction (parked (w_store w)) as [|[a r] l IH]; simpl; [intros H; by apply elem_of_nil in H|].
  intros [H1|H1]%elem_of_cons [H2|H2]%elem_of_cons [Ha Hn]%NoDup_cons; simplify_eq; [done| | |by apply IH].
  - exfalso. apply Ha. apply list_elem_of_In, in_map_iff. exists (a, q).
    split; [done|]. by apply list_elem_of_In.
  - exfalso. apply Ha. apply list_elem_of_In, in_map_iff. exists (a, p).
    split; [done|]. by apply list_elem_of_In.
Qed.

(** [unlink] at a session, described by its effect on the heap and the list. *)
Lemma unlink_effect w p s : w_sess w !! p = Some s ->
  w_sess (unlink w p) = <[p := set_elem s None]> (w_sess w) /\
  w_clients (unlink w p) = w_clients w /\ w_nextSess (unlink w p) = w_nextSess w /\
  sessions (w_store (unlink w p)) = sessions (w_store w) /\
  opt (w_store (unlink w p)) = opt (w_store w) /\
  nextElem (w_store (unlink w p)) = nextElem (w_store w) /\
  parked (w_store (unlink w p)) =
    match s_elem s with
    | Some e => list_Remove (parked (w_store w)) e
    | None => parked (w_store w)
    end.
Proof.
  intros Hp. unfold unlink. rewrite (lookup_total_correct _ _ _ Hp).
  destruct (s_elem s) as [e|] eqn:He; [by simpl|].
  assert (set_elem s None = s) as -> by (rewrite <- He; by destruct s).
  by rewrite insert_id.
Qed.

Lemma unlink_store w p :
  w_store (unlink w p) = st_parked (w_store w) (parked (w_store (unlink w p))) (nextElem (w_store w)).
Proof. unfold unlink. destruct (s_elem _); simpl; [done|]. by destruct (w_store w). Qed.

(** Membership in the parked list once [p]'s element is removed. *)
Lemma parked_without w p s e q : core w -> w_sess w !! p = Some s ->
  (e, q) ∈ match s_elem s with
           | Some e => list_Remove (parked (w_store w)) e
           | None => parked (w_store w)
           end <-> (e, q) ∈ parked (w_store w) /\ q <> p.
Proof.
  intros Hw Hp. destruct (s_elem s) as [e0|] eqn:He.
  - rewrite list_Remove_elem. simpl. split; intros [Hin Hne]; (split; [done|]).
    + intros ->. apply (iv_list w Hw) in Hin as (t & Ht & Hte). congruence.
    + intros ->. apply Hne. apply (iv_list w Hw) in Hin as (t & Ht & Hte).
      by eapply elem_inj.
  - split; [|by intros [? _]]. intros Hin. split; [done|]. intros ->.
    apply (iv_list w Hw) in Hin as (t & Ht & Hte). congruence.
Qed.

(** Closing a session: its state is set, its token and list element removed.
    [live'] is what the closing operation leaves in the live field. *)
Definition closed_from (s : Session) (live' : option cptr) : Session :=
  set_elem (set_live (set_state s stateClosed) live') None.

Lemma close_core w p s s0 : core w -> w_sess w !! p = Some s -> s_state s <> stateClosed ->
  s_id s0 = s_id s -> s_elem s0 = s_elem s -> s_state s0 = stateClosed ->
  (s_live s0 = s_live s \/ s_live s0 = None) -> sess_ok (set_elem s0 None) ->
  let w' := removeLocked (set_session w p s0) p in
  core w' /\ w_sess w' = <[p := set_elem s0 None]> (w_sess w) /\ w_clients w' = w_clients w /\
  sessions (w_store w') = delete (s_id s) (sessions (w_store w)) /\
  opt (w_store w') = opt (w_store w) /\
  parked (w_store w') = match s_elem s with
                        | Some e => list_Remove (parked (w_store w)) e
                        | None => parked (w_store w)
                        end.
Proof.
  intros Hw Hp Hst Eid Eel Est Eli Hok w'.
  set (w1 := set_store (set_session w p s0)
               (st_sessions (w_store w) (delete (s_id s0) (sessions (w_store w))))).
  assert (w' = unlink w1 p) as Hw'.
  { unfold w', w1, removeLocked. cbn [w_sess set_session w_store].
    by rewrite (lookup_total_correct _ _ s0) by apply lookup_insert_eq. }
  clearbody w'. subst w'. destruct (unlink_effect w1 p s0) as (E1 & E2 & E3 & E4 & E5 & E6 & E7);
    [apply lookup_insert_eq|].
  cbn [w1 set_store set_session w_sess w_clients w_nextSess w_store st_sessions sessions opt
       nextElem parked] in E1, E2, E3, E4, E5, E6, E7.
  rewrite insert_insert_eq in E1. rewrite Eid in E4. rewrite Eel in E7.
  split; [|by rewrite E1, E2, E4, E5, E7].
  pose proof Hw as [Ha Hs Hi Ho Hl Hn Hf Hv Hm Hr].
  constructor; rewrite ?E1, ?E2, ?E3, ?E4, ?E5, ?E6, ?E7.
  - intros q t [[<- <-]|[? ?]]%lookup_insert_Some; eauto.
  - intros q t [[<- <-]|[? ?]]%lookup_insert_Some; eauto.
  - intros i q [Hne Hq]%lookup_delete_Some. destruct (Hi i q Hq) as (t & Ht & Hid & Hts).
    destruct (decide (p = q)) as [<-|Hpq]; [simplify_eq|].
    exists t. by rewrite lookup_insert_ne.
  - intros q t [[<- <-]|[Hpq Ht]]%lookup_insert_Some Hts; [by destruct s0; simpl in *|].
    apply lookup_delete_Some. split; [|eauto]. intros Hid.
    pose proof (Ho q t Ht Hts) as H1. pose proof (Ho p s Hp Hst) as H2. congruence.
  - intros e q. rewrite (parked_without w p s e q) by done. rewrite Hl. split.
    + intros [(t & Ht & Hte) Hne]. exists t. by rewrite lookup_insert_ne.
    + intros (t & [[<- <-]|[Hpq Ht]]%lookup_insert_Some & Hte); [done|]. split; [by exists t|done].
  - destruct (s_elem s); [by apply list_Remove_NoDup|done].
  - intros e q. rewrite (parked_without w p s e q) by done. intros [? _]. eauto.
  - intros q t c [[<- <-]|[Hpq Ht]]%lookup_insert_Some Hc; [|eauto].
    cbn [set_elem s_live] in Hc. apply (Hv p s c); [done|]. destruct Eli; congruence.
  - done.
  - done.
Qed.

Lemma length_list_Remove l e : (length (list_Remove l e) <= length l)%nat.
Proof. unfold list_Remove. induction l as [|x l IH]; simpl; [lia|]. destruct (negb _); simpl; lia. Qed.

Lemma logged_same log s s' : s_next s' = s_next s -> s_buf s' = s_buf s ->
  logged log s -> logged log s'.
Proof.
  intros En Eb [H1 H2 H3 H4]. constructor; rewrite ?En, ?Eb; done.
Qed.

Lemma sess_ok_closed s s' : sess_ok s -> s_next s' = s_next s -> s_buf s' = s_buf s ->
  s_keys s' = s_keys s -> s_state s' = stateClosed -> s_elem s' = None -> sess_ok s'.
Proof.
  intros [[log Hl] Hk _ _ _] En Eb Ek Es Ee. constructor.
  - exists log. by eapply logged_same.
  - by rewrite Ek.
  - rewrite Es, Ee. split; [done|]. by intros [? ?].
  - by rewrite Es.
  - by rewrite Es.
Qed.

(** ** Attaching a client *)

Definition stamped (l : list replay.replayEntry) : list bytes :=
  map (fun e => stamp (replay.data e) (replay.seq e)) l.

(** No session is live on client [c] yet. *)
Definition unbound (w : world) (c : cptr) : Prop :=
  forall p s, w_sess w !! p = Some s -> s_live s <> Some c.

(** A session of the heap rebound to client [c]. *)
Lemma rebind_core w w' p s s' c cl : core w -> w_sess w !! p = Some s ->
  s_state s <> stateClosed -> unbound w c ->
  s_id s' = s_id s -> s_state s' = stateAttached -> s_live s' = Some c -> s_elem s' = None ->
  sess_ok s' -> client.session cl = Some p ->
  w_sess w' = <[p := s']> (w_sess w) -> w_clients w' = <[c := cl]> (w_clients w) ->
  w_nextSess w' = w_nextSess w -> sessions (w_store w') = sessions (w_store w) ->
  opt (w_store w') = opt (w_store w) -> nextElem (w_store w') = nextElem (w_store w) ->
  parked (w_store w') = match s_elem s with
                        | Some e => list_Remove (parked (w_store w)) e
                        | None => parked (w_store w)
                        end ->
  core w'.
Proof.
  intros Hw Hp Hst Hc Eid Est Eli Eel Hok Hcl E1 E2 E3 E4 E5 E6 E7.
  pose proof Hw as [Ha Hs Hi Ho Hl Hn Hf Hv Hm Hr].
  constructor; rewrite ?E1, ?E2, ?E3, ?E4, ?E5, ?E6, ?E7; [| | | | | | | |done|done].
  - intros q t [[<- <-]|[? ?]]%lookup_insert_Some; eauto.
  - intros q t [[<- <-]|[? ?]]%lookup_insert_Some; eauto.
  - intros i q Hq. destruct (Hi i q Hq) as (t & Ht & Hid & Hts).
    destruct (decide (p = q)) as [<-|Hpq].
    + exists s'. rewrite lookup_insert_eq. simplify_eq. split; [done|]. split; congruence.
    + exists t. by rewrite lookup_insert_ne.
  - intros q t [[<- <-]|[Hpq Ht]]%lookup_insert_Some Hts; [|eauto].
    rewrite Eid. by apply Ho.
  - intros e q. rewrite (parked_without w p s e q) by done. rewrite Hl. split.
    + intros [(t & Ht & Hte) Hne]. exists t. by rewrite lookup_insert_ne.
    + intros (t & [[<- <-]|[Hpq Ht]]%lookup_insert_Some & Hte); [congruence|].
      split; [by exists t|done].
  - destruct (s_elem s); [by apply list_Remove_NoDup|done].
  - intros e q. rewrite (parked_without w p s e q) by done. intros [? _]. eauto.
  - intros q t c' [[<- <-]|[Hpq Ht]]%lookup_insert_Some Hc'.
    + assert (c' = c) as -> by congruence. by rewrite lookup_total_insert_eq.
    + rewrite lookup_total_insert_ne; [eauto|]. intros <-. by apply (Hc q t).
Qed.

(** The session after [attachLocked], [b] being its trimmed buffer. *)
Definition attached (s : Session) (b : replay.replayBuffer) (c : cptr) : Session :=
  mkSession (s_id s) (s_owner s) stateAttached (s_next s) b (Some c) (Some c) false
    (s_parked s) (s_keys s) None (s_dropped s).

(** What a client is queued when it resumes after frame [q]. *)
Definition resume_frames (s : Session) (log : list bytes) (q : Z) : list bytes :=
  sessionFrame (s_id s) true (len log - q) (len log) ""
    :: stamped (numbered (q + 1) (drop (Z.to_nat q) log)).

(** The buffer reaches back to frame [q]. *)
Definition reaches (s : Session) (q : Z) : Prop :=
  0 <= q < s_next s /\ (q < s_next s - 1 -> replay.covers (s_buf s) q = true).

Lemma attach_effect w p c q s log : core w -> w_sess w !! p = Some s ->
  s_state s <> stateClosed -> unbound w c -> logged log s -> reaches s q ->
  exists w' b, attachLocked w p c q
      = Some (w', mkResult (Some p) true "" (len log - q) (s_member s) (s_live s)) /\
    core w' /\ logged log (attached s b c) /\
    w_sess w' = <[p := attached s b c]> (w_sess w) /\
    w_clients w' = <[c := with_binding (w_clients w !!! c) (Some p) (resume_frames s log q)
                            (meta (w_clients w !!! c))]> (w_clients w) /\
    w_store w' = st_parked (w_store w) (parked (w_store w')) (nextElem (w_store w)) /\
    (length (parked (w_store w')) <= length (parked (w_store w)))%nat.
Proof.
  intros Hw Hp Hst Hc Hlog [Hq Hcov].
  assert (Ack s q = (b ← replay.ackUpTo (s_buf s) q; Some (set_next_buf s (s_next s) b))) as HA.
  { unfold Ack. by rewrite (proj2 (Z.ltb_lt _ _)) by lia. }
  destruct (Ack_logged log s q Hlog) as (s1 & Hs1 & Hl1 & _). rewrite HA in Hs1.
  unfold attachLocked. rewrite (lookup_total_correct _ _ _ Hp).
  destruct (replay.ackUpTo (s_buf s) q) as [b|] eqn:Hb; [|done].
  cbn [mbind option_bind] in Hs1 |- *. injection Hs1 as <-.
  rewrite (resume_entries log s q b) by (done || lia).
  set (s3 := set_stalled _ false). set (w3 := set_session w p s3).
  destruct (unlink_effect w3 p s3) as (E1 & E2 & E3 & E4 & E5 & E6 & E7); [apply lookup_insert_eq|].
  cbn [w3 set_session w_sess w_clients w_nextSess w_store] in E1, E2, E3, E4, E5, E6, E7.
  rewrite insert_insert_eq in E1.
  assert (logged log (attached s b c)) as Hlog' 
    by (by apply (logged_same log (set_next_buf s (s_next s) b))).
  assert (len (numbered (q + 1) (drop (Z.to_nat q) log)) = len log - q) as Hlen.
  { destruct Hlog as [Hn _ _ _]. unfold len in *. rewrite length_numbered, length_drop. lia. }
  assert (u64 (s_next s - 1) = len log) as Hnext.
  { destruct Hlog as [Hn Hb2 _ _]. pose proof (len_nonneg log). rewrite u64_small; lia. }
  rewrite Hlen, Hnext.
  assert (match s_live s with Some l => if decide (l = c) then None else Some l | None => None end
          = s_live s) as ->.
  { destruct (s_live s) as [l|] eqn:Hl; [|done]. rewrite decide_False; [done|].
    intros ->. by apply (Hc p s). }
  eexists _, b. split; [by rewrite E2|].
  cbn [set_clients w_clients w_sess w_store]. split; [|split; [done|split; [done|split; [done|]]]].
  - eapply (rebind_core w _ p s (attached s b c) c); try done; [|].
    + destruct (iv_sess w Hw p s Hp) as [_ Hk _ _ _]. constructor; cbn; [by exists log|done| | |done].
      * split; [done|]. by intros [? ?].
      * intros _. by eexists.
    + done.
  - split.
    + by rewrite unlink_store at 1.
    + rewrite E7. destruct (s_elem s3); [apply length_list_Remove|done].
Qed.

(** ** Opening a fresh session *)

Definition fresh_session (o : SessionOptions) (newID owner : string) (c : cptr) : Session :=
  mkSession newID owner stateAttached 1
    (replay.new_buffer (ReplayMessages o) (ReplayBytes o)) (Some c) (Some c) false 0
    (keys.new_window (KeyWindow o)) None 0.

Lemma fresh_ok o newID owner c : 0 <= ReplayMessages o -> 0 <= ReplayBytes o ->
  logged [] (fresh_session o newID owner c) /\ sess_ok (fresh_session o newID owner c).
Proof.
  intros Hm Hb. assert (logged [] (fresh_session o newID owner c)) as Hl
    by by apply new_session_logged.
  split; [done|]. constructor; cbn; [by exists []|apply keys.new_window_wf| | |done].
  - split; [done|]. by intros [? ?].
  - intros _. by eexists.
Qed.

Lemma open_fresh_core w c owner newID reason : core w -> unbound w c ->
  newID <> ""%string -> sessions (w_store w) !! newID = None ->
  let w' := (open_fresh w c owner newID reason).1 in
  core w' /\ w_sess w !! w_nextSess w = None /\
  (open_fresh w c owner newID reason).2 = mkResult (Some (w_nextSess w)) false reason 0 None None /\
  w_sess w' = <[w_nextSess w := fresh_session (opt (w_store w)) newID owner c]> (w_sess w) /\
  w_clients w' = <[c := with_binding (w_clients w !!! c) (Some (w_nextSess w))
                          [sessionFrame newID false 0 0 reason] (meta (w_clients w !!! c))]>
                 (w_clients w) /\
  w_store w' = st_sessions (w_store w) (<[newID := w_nextSess w]> (sessions (w_store w))).
Proof.
  intros Hw Hc Hid Hnew w'. unfold w', open_fresh.
  rewrite bool_decide_eq_false_2 by done. cbn [fst snd w_sess w_clients w_store].
  pose proof Hw as [Ha Hs Hi Ho Hl Hn Hf Hv Hm Hr].
  assert (w_sess w !! w_nextSess w = None) as Hp.
  { destruct (w_sess w !! w_nextSess w) as [t|] eqn:Ht; [|done]. apply Ha in Ht. lia. }
  split; [|done].
  constructor; cbn [w_sess w_clients w_nextSess w_store st_sessions sessions parked opt nextElem];
    [| | | | |done|done| |done|done].
  - intros q t [[<- <-]|[? ?]]%lookup_insert_Some; [lia|].
    assert (q < w_nextSess w)%nat by eauto. lia.
  - intros q t [[<- <-]|[? ?]]%lookup_insert_Some; [|eauto]. by apply (fresh_ok _ _ _ _ (proj1 Hr) (proj2 Hr)).
  - intros i q [[<- <-]|[Hne Hq]]%lookup_insert_Some.
    + eexists. by rewrite lookup_insert_eq.
    + destruct (Hi i q Hq) as (t & Ht & ? & ?). exists t.
      rewrite lookup_insert_ne; [done|]. intros <-. by rewrite Hp in Ht.
  - intros q t [[<- <-]|[Hpq Ht]]%lookup_insert_Some Hts; [by rewrite lookup_insert_eq|].
    pose proof (Ho q t Ht Hts) as H. rewrite lookup_insert_ne; [done|]. intros E. rewrite <- E in H. congruence.
  - intros e q. rewrite Hl. split; intros (t & Ht & Hte).
    + exists t. rewrite lookup_insert_ne; [done|]. intros <-. by rewrite Hp in Ht.
    + apply lookup_insert_Some in Ht as [[<- <-]|[Hpq Ht]]; [done|]. by exists t.
  - intros q t c' [[<- <-]|[Hpq Ht]]%lookup_insert_Some Hc'.
    + injection Hc' as <-. by rewrite lookup_total_insert_eq.
    + rewrite lookup_total_insert_ne; [eauto|]. intros <-. by apply (Hc q t).
Qed.

(** ** Which resumes are honoured *)

(** The declarative reading: the request comes from the session's owner in
    time, does not claim frames that were never sent, and every frame it
    misses is still in the replay buffer. *)
Record resumable (s : Session) (log : list bytes) (req : ResumeRequest) (now ttl : Z) : Prop := {
  rs_open : s_state s <> stateClosed;
  rs_owner : s_owner s = Owner req;
  rs_time : s_state s = stateParked -> now - s_parked s <= ttl;
  rs_seq : LastSeq req <= len log;
  rs_frames : numbered (LastSeq req + 1) (drop (Z.to_nat (LastSeq req)) log)
    `suffix_of` replay.abs (s_buf s)
}.

Lemma covers_suffix s log q : logged log s -> 0 <= q < len log ->
  replay.covers (s_buf s) q = true <->
  numbered (q + 1) (drop (Z.to_nat q) log) `suffix_of` replay.abs (s_buf s).
Proof.
  intros [Hn Hb Hw (k & Hk & Ha)] Hq. rewrite replay.covers_abs, Ha by done.
  rewrite u64_small by lia. unfold len in *. split.
  - destruct (drop k log) as [|d l] eqn:Hd; cbn [numbered replay.seq]; [done|].
    intros Hle. change (_ :: numbered _ l) with (numbered (Z.of_nat k + 1) (d :: l)).
    rewrite <- Hd. exists (numbered (Z.of_nat k + 1) (take (Z.to_nat q - k) (drop k log))).
    replace (q + 1) with (Z.of_nat k + 1 + len (take (Z.to_nat q - k) (drop k log))).
    + replace (drop (Z.to_nat q) log) with (drop (Z.to_nat q - k) (drop k log)).
      * by rewrite <- numbered_app, take_drop.
      * rewrite drop_drop. f_equal. lia.
    + unfold len. rewrite length_take, length_drop. lia.
  - intros [l1 Hl1]. apply (f_equal length) in Hl1.
    rewrite length_app, !length_numbered, !length_drop in Hl1.
    destruct (drop k log) as [|d l] eqn:Hd; cbn [numbered replay.seq]; [|lia].
    apply (f_equal length) in Hd. rewrite length_drop in Hd. simpl in Hd. lia.
Qed.

Lemma verdict_resumable s log req now ttl : logged log s -> 0 <= LastSeq req ->
  (verdict s req now ttl).1 = ""%string <-> resumable s log req now ttl.
Proof.
  intros Hl Hq. pose proof Hl as [Hn Hb _ _]. pose proof (len_nonneg log). unfold verdict.
  destruct (decide (s_state s = stateClosed)); [split; [done|by intros []]|].
  destruct (decide (s_owner s <> Owner req)) as [Ho|Ho]; [split; [done|by intros []]|].
  apply dec_stable in Ho.
  destruct (bool_decide (s_state s = stateParked) && (ttl <? now - s_parked s)) eqn:Ht.
  { split; [done|]. intros [_ _ H2 _ _]. apply andb_true_iff in Ht as [H3%bool_decide_eq_true Ht].
    specialize (H2 H3). lia. }
  assert (s_state s = stateParked -> now - s_parked s <= ttl) as Htime.
  { intros Hp. rewrite bool_decide_eq_true_2 in Ht by done. simpl in Ht. lia. }
  destruct (Z.leb_spec (s_next s) (LastSeq req)); [split; [done|]; intros [_ _ _ ? _]; lia|].
  rewrite u64_small by lia. destruct (Z.ltb_spec (LastSeq req) (s_next s - 1)) as [Hlt|Hge]; simpl.
  - pose proof (covers_suffix s log (LastSeq req) Hl ltac:(lia)) as Hcs.
    destruct (replay.covers (s_buf s) (LastSeq req)); simpl; (split; [intros E|intros [? ? ? ? H5]]); try done.
    + constructor; [done|done|done|lia|by apply Hcs].
    + apply Hcs in H5. done.
  - split; [|done]. intros _. constructor; [done|done|done|lia|].
    unfold len in *. rewrite drop_ge by lia. by apply suffix_nil.
Qed.

Lemma resumable_reaches s log req now ttl : logged log s -> 0 <= LastSeq req ->
  resumable s log req now ttl -> reaches s (LastSeq req).
Proof.
  intros Hl Hq [_ _ _ Hs Hf]. pose proof Hl as [Hn _ _ _]. split; [lia|].
  intros Hlt. apply (covers_suffix s log); [done|lia|done].
Qed.

(** ** Open *)

(** The session a request names, if its token is known. *)
Definition named (w : world) (req : ResumeRequest) (p : sptr) (s : Session) : Prop :=
  Invalid req = false /\ Requested req = true /\
  sessions (w_store w) !! SessionID req = Some p /\ w_sess w !! p = Some s.

Lemma named_open w req p s : core w -> named w req p s ->
  s_state s <> stateClosed /\ s_id s = SessionID req.
Proof.
  intros Hw (_ & _ & Hi & Hp). destruct (iv_index w Hw _ _ Hi) as (t & Ht & ? & ?).
  by assert (t = s) as -> by congruence.
Qed.

Lemma Open_resume w c req now newID p s log :
  core w -> unbound w c -> named w req p s -> logged log s -> 0 <= LastSeq req ->
  resumable s log req now (TTL (opt (w_store w))) ->
  exists w' b,
    Open w c req now newID
      = Some (w', mkResult (Some p) true "" (len log - LastSeq req) (s_member s) (s_live s), []) /\
    core w' /\ logged log (attached s b c) /\
    w_sess w' = <[p := attached s b c]> (w_sess w) /\
    w_clients w' = <[c := with_binding (w_clients w !!! c) (Some p)
                            (resume_frames s log (LastSeq req))
                            (meta (w_clients w !!! c))]> (w_clients w) /\
    sessions (w_store w') = sessions (w_store w) /\ opt (w_store w') = opt (w_store w) /\
    (length (parked (w_store w')) <= length (parked (w_store w)))%nat.
Proof.
  intros Hw Hc Hn Hl Hq Hr. destruct (named_open w req p s Hw Hn) as [Hst _].
  destruct Hn as (H1 & H2 & H3 & H4). unfold Open. rewrite H1, H2, H3.
  rewrite (lookup_total_correct _ _ _ H4).
  pose proof (proj2 (verdict_resumable s log req now _ Hl Hq) Hr) as Hv.
  destruct (verdict s req now (TTL (opt (w_store w)))) as [reason kill]. simpl in Hv. subst reason.
  rewrite bool_decide_eq_true_2 by done.
  destruct (attach_effect w p c (LastSeq req) s log Hw H4 Hst Hc Hl) as
    (w1 & b & -> & Hw1 & Hl1 & E1 & E2 & E3 & E4); [by eapply resumable_reaches|].
  cbn [mbind option_bind]. eexists _, b. split; [done|].
  split; [by apply core_counts|]. cbn [set_store w_sess w_clients w_store st_counts sessions opt parked].
  split; [done|]. split; [done|]. split; [done|]. rewrite E3. done.
Qed.

(** The world in which the fresh session of a refused (or absent) resume is
    made: the named session is closed when its owner asked for it. *)
Inductive refused_world (w : world) (req : ResumeRequest) (now : Z)
  : world -> string -> list (sptr * ReleaseReason) -> Prop :=
  | rw_fresh : Invalid req = false -> Requested req = false -> refused_world w req now w "" []
  | rw_bad : Invalid req = true -> refused_world w req now w ReasonBadRequest []
  | rw_unknown : Invalid req = false -> Requested req = true ->
      sessions (w_store w) !! SessionID req = None ->
      refused_world w req now w ReasonUnknownSession []
  | rw_owner p s : named w req p s -> s_owner s <> Owner req ->
      refused_world w req now w ReasonOwnerMismatch []
  | rw_kill p s w1 reason : named w req p s -> s_owner s = Owner req ->
      reason ∈ [ReasonExpired; ReasonBadSeq; ReasonGap] ->
      w1 = removeLocked (set_session w p (set_state s stateClosed)) p ->
      refused_world w req now w1 reason [(p, ReleaseReplaced)].

Lemma Open_refuse w c req now newID :
  core w ->
  (forall p s log, named w req p s -> logged log s ->
     ~ resumable s log req now (TTL (opt (w_store w)))) ->
  0 <= LastSeq req ->
  exists w1 reason rel, refused_world w req now w1 reason rel /\
    Open w c req now newID =
      Some ((open_fresh w1 c (Owner req) newID reason).1,
            (open_fresh w1 c (Owner req) newID reason).2, rel).
Proof.
  intros Hw Hno Hq. unfold Open.
  destruct (Invalid req) eqn:Hinv.
  { exists w, ReasonBadRequest, []. split; [by apply rw_bad|]. by destruct (open_fresh _ _ _ _ _). }
  destruct (Requested req) eqn:Hreq.
  2: { exists w, ""%string, []. split; [by apply rw_fresh|]. by destruct (open_fresh _ _ _ _ _). }
  destruct (sessions (w_store w) !! SessionID req) as [p|] eqn:Hi.
  2: { exists w, ReasonUnknownSession, []. split; [by apply rw_unknown|].
       by destruct (open_fresh _ _ _ _ _). }
  destruct (iv_index w Hw _ _ Hi) as (s & Hp & Hid & Hst).
  rewrite (lookup_total_correct _ _ _ Hp).
  destruct (so_log s (iv_sess w Hw p s Hp)) as [log Hl].
  assert (named w req p s) as Hn by done. specialize (Hno p s log Hn Hl).
  rewrite <- verdict_resumable in Hno by done.
  destruct (verdict s req now (TTL (opt (w_store w)))) as [reason kill] eqn:Hv. simpl in Hno.
  rewrite bool_decide_eq_false_2 by done. unfold verdict in Hv.
  destruct (decide (s_state s = stateClosed)); [done|].
  destruct (decide (s_owner s <> Owner req)) as [Ho|Ho].
  { injection Hv as <- <-. exists w, ReasonOwnerMismatch, [].
    split; [by eapply rw_owner|]. by destruct (open_fresh _ _ _ _ _). }
  apply dec_stable in Ho.
  assert (kill = true /\ reason ∈ [ReasonExpired; ReasonBadSeq; ReasonGap]) as [-> Hrs].
  { repeat case_match; injection Hv as <- <-; try done; (split; [done|]); clear;
      by repeat constructor. }
  eexists _, reason, [(p, ReleaseReplaced)]. split; [by eapply rw_kill|].
  by destruct (open_fresh _ _ _ _ _).
Qed.

Lemma sess_ok_kill s : sess_ok s -> sess_ok (set_elem (set_state s stateClosed) None).
Proof. intros H. by eapply sess_ok_closed. Qed.

Lemma refused_core w req now w1 reason rel : core w -> refused_world w req now w1 reason rel ->
  core w1 /\ w_clients w1 = w_clients w /\ opt (w_store w1) = opt (w_store w) /\
  (length (parked (w_store w1)) <= length (parked (w_store w)))%nat /\
  (forall i, sessions (w_store w) !! i = None -> sessions (w_store w1) !! i = None) /\
  (forall q t, w_sess w1 !! q = Some t -> exists t0, w_sess w !! q = Some t0 /\ s_live t = s_live t0).
Proof.
  intros Hw [| | | |p s w1' rs Hn Ho Hrs ->];
    try by (split; [done|]; split; [done|]; split; [done|]; split; [done|]; split; [done|]; eauto).
  destruct (named_open w req p s Hw Hn) as [Hst _]. destruct Hn as (_ & _ & _ & Hp).
  destruct (close_core w p s (set_state s stateClosed) Hw Hp Hst) as (H1 & H2 & H3 & H4 & H5 & H6);
    try done; [by left|by apply sess_ok_kill, (iv_sess w Hw p)|].
  split; [done|]. split; [done|]. split; [done|]. split; [|split].
  - rewrite H6. destruct (s_elem s); [apply length_list_Remove|done].
  - intros i Hi. rewrite H4, lookup_delete_None. by right.
  - intros q t. rewrite H2. intros [[<- <-]|[? ?]]%lookup_insert_Some; eauto.
Qed.

Lemma resumable_dec_named w req now ttl : core w -> 0 <= LastSeq req ->
  (exists p s log, named w req p s /\ logged log s /\ resumable s log req now ttl) \/
  (forall p s log, named w req p s -> logged log s -> ~ resumable s log req now ttl).
Proof.
  intros Hw Hq.
  destruct (decide (Invalid req = true)) as [Hb|Hb];
    [right; intros p s log (? & _) _ _; congruence|].
  destruct (decide (Requested req = true)) as [Hr|Hr];
    [|right; intros p s log (_ & ? & _) _ _; congruence].
  destruct (sessions (w_store w) !! SessionID req) as [p|] eqn:Hi;
    [|right; intros p s log (_ & _ & ? & _) _ _; congruence].
  destruct (iv_index w Hw _ _ Hi) as (s & Hp & _ & _).
  destruct (so_log s (iv_sess w Hw p s Hp)) as [log Hl].
  destruct (decide ((verdict s req now ttl).1 = ""%string)) as [Hv|Hv].
  - left. exists p, s, log. split; [|split; [done|by apply verdict_resumable]].
    split; [by destruct (Invalid req)|done].
  - right. intros p' s' log' (_ & _ & Hi' & Hp') Hl' Hrs. apply Hv.
    assert (p' = p) as -> by congruence. assert (s' = s) as -> by congruence.
    by apply (verdict_resumable s log').
Qed.

Lemma Open_inv w c req now newID : inv w -> unbound w c ->
  sessions (w_store w) !! newID = None -> 0 <= LastSeq req ->
  exists w' res rel, Open w c req now newID = Some (w', res, rel) /\ inv w' /\
    opt (w_store w') = opt (w_store w).
Proof.
  intros [Hw Hmax] Hc Hnew Hq.
  destruct (resumable_dec_named w req now (TTL (opt (w_store w))) Hw Hq)
    as [(p & s & log & Hn & Hl & Hr)|Hno].
  - destruct (Open_resume w c req now newID p s log Hw Hc Hn Hl Hq Hr)
      as (w' & b & -> & Hw' & _ & _ & _ & _ & Ho & Hlen).
    eexists _, _, _. split; [done|]. split; [|done]. split; [done|].
    rewrite Ho. unfold len in *. lia.
  - destruct (Open_refuse w c req now newID Hw Hno Hq) as (w1 & reason & rel & Hrw & ->).
    destruct (refused_core _ _ _ _ _ _ Hw Hrw) as (Hw1 & _ & Ho & Hlen & Hnone & Hlive).
    eexists _, _, _. split; [done|].
    assert (unbound w1 c) as Hc1.
    { intros q t Ht. destruct (Hlive q t Ht) as (t0 & Ht0 & ->). by eapply Hc. }
    destruct (decide (newID = ""%string)) as [->|Hid].
    + unfold open_fresh. simpl. split; [|done]. split; [done|]. rewrite Ho. unfold len in *. lia.
    + destruct (open_fresh_core w1 c (Owner req) newID reason) as (Hw2 & _ & _ & _ & _ & E);
        [done|done|done|by apply Hnone|].
      rewrite E. split; [|done]. split; [done|]. rewrite E. simpl. rewrite Ho. unfold len in *. lia.
Qed.

(** ** Leave and eviction *)

(** Closing the session at the front of the parked list removes the front. *)
Lemma list_Remove_head e p l : NoDup (map fst ((e, p) :: l)) -> list_Remove ((e, p) :: l) e = l.
Proof.
  intros [Hn _]%NoDup_cons. unfold list_Remove. cbn [List.filter fst]. rewrite Nat.eqb_refl.
  cbn [negb]. apply replay.filter_all, Forall_forall. intros [a q] Hin. simpl.
  destruct (Nat.eqb_spec a e) as [->|]; [|done]. exfalso. apply Hn.
  apply list_elem_of_In, in_map_iff. exists (e, q). split; [done|]. by apply list_elem_of_In.
Qed.

(** One round of eviction or sweeping: the front session is closed. *)
Lemma close_front w e p l : core w -> parked (w_store w) = (e, p) :: l ->
  exists s, w_sess w !! p = Some s /\ s_state s = stateParked /\ s_elem s = Some e /\
    let w' := removeLocked (set_session w p (set_state (w_sess w !!! p) stateClosed)) p in
    core w' /\ w_sess w' = <[p := set_elem (set_state s stateClosed) None]> (w_sess w) /\
    w_clients w' = w_clients w /\ opt (w_store w') = opt (w_store w) /\
    sessions (w_store w') = delete (s_id s) (sessions (w_store w)) /\
    parked (w_store w') = l.
Proof.
  intros Hw Hl. assert ((e, p) ∈ parked (w_store w)) as Hin by (rewrite Hl; by left).
  apply (iv_list w Hw) in Hin as (s & Hp & He). exists s.
  assert (s_state s = stateParked) as Hst by (apply (iv_sess w Hw p s Hp); by eexists).
  rewrite (lookup_total_correct _ _ _ Hp).
  destruct (close_core w p s (set_state s stateClosed) Hw Hp) as (H1 & H2 & H3 & H4 & H5 & H6);
    try done; [by rewrite Hst|by left|by apply sess_ok_kill, (iv_sess w Hw p)|].
  split; [done|]. split; [done|]. split; [done|]. split; [done|]. split; [done|].
  split; [done|]. split; [done|]. split; [done|]. rewrite H6, He, Hl. apply list_Remove_head.
  rewrite <- Hl. by apply (iv_nodup w Hw).
Qed.

(** What closing the sessions [vs], the front of the parked list, leaves. *)
Record closed_front (w w' : world) (vs : list sptr) : Prop := {
  cf_core : core w';
  cf_clients : w_clients w' = w_clients w;
  cf_opt : opt (w_store w') = opt (w_store w);
  cf_parked : exists es, parked (w_store w) = es ++ parked (w_store w') /\ map snd es = vs;
  cf_closed p : p ∈ vs -> exists s, w_sess w !! p = Some s /\ s_state s = stateParked /\
    w_sess w' !! p = Some (set_elem (set_state s stateClosed) None);
  cf_others p : p ∉ vs -> w_sess w' !! p = w_sess w !! p;
  cf_sessions i p : sessions (w_store w') !! i = Some p <->
    sessions (w_store w) !! i = Some p /\ p ∉ vs
}.

Lemma closed_front_nil w : core w -> closed_front w w [].
Proof.
  intros Hw. constructor; try done.
  - by exists [].
  - intros p Hin. by apply elem_of_nil in Hin.
  - intros i p. split; [|by intros [? _]]. intros Hi. split; [done|]. apply not_elem_of_nil.
Qed.

Lemma closed_front_cons w w1 w' e p l vs : core w ->
  parked (w_store w) = (e, p) :: l ->
  w1 = removeLocked (set_session w p (set_state (w_sess w !!! p) stateClosed)) p ->
  closed_front w1 w' vs -> closed_front w w' (p :: vs).
Proof.
  intros Hw Hl -> Hcf. destruct (close_front w e p l Hw Hl) as
    (s & Hp & Hst & He & Hw1 & E1 & E2 & E3 & E4 & E5).
  set (w1 := removeLocked _ _) in *.
  destruct Hcf as [C1 C2 C3 (es & C4 & C4') C5 C6 C7].
  assert (p ∉ vs) as Hpvs.
  { intros Hin. destruct (C5 p Hin) as (t & Ht & Hts & _). rewrite E1, lookup_insert_eq in Ht.
    by injection Ht as <-. }
  constructor; [done|congruence|congruence| | | |].
  - exists ((e, p) :: es). rewrite Hl, <- E5, C4. simpl. by rewrite C4'.
  - intros q [->|Hin]%elem_of_cons.
    + exists s. by rewrite C6, E1, lookup_insert_eq.
    + destruct (C5 q Hin) as (t & Ht & ? & ?). exists t. split; [|done].
      rewrite E1, lookup_insert_ne in Ht; [done|congruence].
  - intros q [Hq Hqv]%not_elem_of_cons. rewrite C6, E1, lookup_insert_ne by done. done.
  - intros i q. rewrite C7, E4, lookup_delete_Some, not_elem_of_cons. split.
    + intros [[Hne Hi] Hin]. split; [done|]. split; [|done]. intros ->.
      destruct (iv_index w Hw i p Hi) as (t & Ht & Hid & _). congruence.
    + intros (Hi & Hne & Hin). split; [|done]. split; [|done]. intros Hid.
      assert (sessions (w_store w) !! s_id s = Some p) as Hs by (apply (iv_open w Hw); [done|by rewrite Hst]).
      congruence.
Qed.

Lemma evict_loop_effect fuel w acc : core w -> (length (parked (w_store w)) <= fuel)%nat ->
  exists w' vs, evict_loop fuel w acc = Some (w', acc ++ vs) /\ closed_front w w' vs /\
    len vs = Z.max 0 (len (parked (w_store w)) - MaxParked (opt (w_store w))).
Proof.
  revert w acc. induction fuel as [|fuel IH]; intros w acc Hw Hf; cbn [evict_loop];
    pose proof (iv_max w Hw) as Hmax;
    destruct (Z.ltb_spec (MaxParked (opt (w_store w))) (len (parked (w_store w)))) as [Hlt|Hge];
    try (exists w, []; rewrite app_nil_r, len_nil; split; [done|]; split; [by apply closed_front_nil|lia]);
    destruct (parked (w_store w)) as [|[e p] l] eqn:Hl; try (simpl in Hf, Hlt; unfold len in *; simpl in *; lia).
  destruct (close_front w e p l Hw Hl) as (s & Hp & Hst & He & Hw1 & E1 & E2 & E3 & E4 & E5).
  set (w1 := removeLocked _ _) in *.
  destruct (IH w1 (acc ++ [p])) as (w' & vs & -> & Hcf & Hlen); [done|rewrite E5; simpl in Hf; lia|].
  exists w', (p :: vs). rewrite <- app_assoc. split; [done|].
  split; [by eapply closed_front_cons|].
  rewrite len_cons, Hlen, E3, E5. rewrite len_cons in *. lia.
Qed.

(** A parked session is out of time. *)
Definition expired (w : world) (now : Z) (p : sptr) : Prop :=
  exists s, w_sess w !! p = Some s /\ TTL (opt (w_store w)) < now - s_parked s.

Lemma sweep_loop_effect fuel w now acc : core w -> (length (parked (w_store w)) <= fuel)%nat ->
  exists w' vs, sweep_loop fuel w now acc = Some (w', acc ++ vs) /\ closed_front w w' vs /\
    (forall p, p ∈ vs -> expired w now p) /\
    (forall e p l, parked (w_store w') = (e, p) :: l -> ~ expired w' now p).
Proof.
  revert w acc. induction fuel as [|fuel IH]; intros w acc Hw Hf; cbn [sweep_loop];
    destruct (parked (w_store w)) as [|[e p] l] eqn:Hl;
    try (exists w, []; rewrite app_nil_r; split; [done|]; split; [by apply closed_front_nil|];
         split; [intros ? []%elem_of_nil|congruence]); [simpl in Hf; lia|].
  destruct (close_front w e p l Hw Hl) as (s & Hp & Hst & He & Hw1 & E1 & E2 & E3 & E4 & E5).
  set (w1 := removeLocked _ _) in *. rewrite (lookup_total_correct _ _ _ Hp).
  destruct (Z.ltb_spec (TTL (opt (w_store w))) (now - s_parked s)) as [Hold|Hyoung].
  - destruct (IH w1 (acc ++ [p])) as (w' & vs & -> & Hcf & Hexp & Hhd);
      [done|rewrite E5; simpl in Hf; lia|].
    exists w', (p :: vs). rewrite <- app_assoc. split; [done|].
    split; [by eapply closed_front_cons|]. split; [|done].
    intros q [->|Hin]%elem_of_cons; [by exists s|].
    destruct (Hexp q Hin) as (t & Ht & Hte). rewrite E3 in Hte. rewrite E1 in Ht.
    apply lookup_insert_Some in Ht as [[<- <-]|[_ Ht]]; [by exists s|by exists t].
  - exists w, []. rewrite app_nil_r. split; [done|]. split; [by apply closed_front_nil|].
    split; [intros ? []%elem_of_nil|]. rewrite Hl. intros e' p' l' [= <- <- <-] (t & Ht & Hte).
    assert (t = s) as -> by congruence. lia.
Qed.

(** ** Leave *)

(** The session as [Leave] parks it, at list element [e]. *)
Definition parked_session (s : Session) (now : Z) (e : nat) : Session :=
  set_elem (set_parked_time (set_state (set_stalled (set_live s None) false) stateParked) now) (Some e).

(** The world in which [p] has just been parked, before any eviction. *)
Definition parked_world (w : world) (p : sptr) (c : cptr) (now : Z) : world :=
  let e := nextElem (w_store w) in
  mkWorld (<[c := set_parked (w_clients w !!! c)]> (w_clients w))
    (<[p := parked_session (w_sess w !!! p) now e]> (w_sess w)) (w_nextSess w)
    (st_parked (w_store w) (parked (w_store w) ++ [(e, p)]) (S e)).

Lemma park_core w p c s now : core w -> w_sess w !! p = Some s -> s_state s = stateAttached ->
  core (parked_world w p c now).
Proof.
  intros Hw Hp Hst. pose proof Hw as [Ha Hs Hi Ho Hl Hn Hf Hv Hm Hr].
  pose proof (Hs p s Hp) as Hok. destruct Hok as [[log Hlog] Hk Hel _ _].
  assert (s_elem s = None) as He.
  { destruct (s_elem s) as [e|]; [|done]. destruct Hel as [_ Hel]. rewrite Hst in Hel.
    exfalso. by discriminate Hel. }
  unfold parked_world. rewrite (lookup_total_correct _ _ _ Hp).
  constructor; cbn [w_sess w_clients w_nextSess w_store st_parked sessions parked opt nextElem];
    [| | | | | | | |done|done].
  - intros q t [[<- <-]|[? ?]]%lookup_insert_Some; eauto.
  - intros q t [[<- <-]|[? ?]]%lookup_insert_Some; [|eauto].
    constructor; cbn; [exists log; by apply (logged_same log s)|done| |done|done].
    split; [|done]. intros _. by eexists.
  - intros i q Hq. destruct (Hi i q Hq) as (t & Ht & Hid & Hts).
    destruct (decide (p = q)) as [<-|Hpq].
    + eexists. rewrite lookup_insert_eq. split; [done|]. cbn. by simplify_eq.
    + exists t. by rewrite lookup_insert_ne.
  - intros q t [[<- <-]|[Hpq Ht]]%lookup_insert_Some Hts; [|eauto].
    apply (Ho p s Hp). by rewrite Hst.
  - intros e q. rewrite elem_of_app, list_elem_of_singleton, Hl. split.
    + intros [(t & Ht & Hte)|[= -> ->]].
      * exists t. rewrite lookup_insert_ne; [done|]. intros <-. congruence.
      * eexists. by rewrite lookup_insert_eq.
    + intros (t & [[<- <-]|[Hpq Ht]]%lookup_insert_Some & Hte); [right|left; by exists t].
      cbn in Hte. by injection Hte as <-.
  - rewrite map_app. apply NoDup_app. split; [done|]. split; [|apply NoDup_singleton].
    intros e Hin [= ->]%list_elem_of_singleton. apply list_elem_of_In, in_map_iff in Hin as ([e q] & He' & Hin).
    simpl in He'. subst e. apply list_elem_of_In, Hf in Hin. lia.
  - intros e q. rewrite elem_of_app, list_elem_of_singleton. intros [Hin|[= -> ->]]; [|lia].
    apply Hf in Hin. lia.
  - intros q t c' [[<- <-]|[Hpq Ht]]%lookup_insert_Some Hc'; [done|].
    destruct (decide (c = c')) as [<-|Hcc].
    + rewrite lookup_total_insert_eq. by apply (Hv q t c).
    + rewrite lookup_total_insert_ne by done. by apply (Hv q t c').
Qed.

(** The branches of [Leave]. *)
Inductive left_session (w : world) (p : sptr) (c : cptr) (s : Session) (resumable : bool) (now : Z)
  : world -> LeaveResult -> list (sptr * ReleaseReason) -> Prop :=
  | lv_closed : s_state s = stateClosed ->
      left_session w p c s resumable now w LeaveGone []
  | lv_displaced : s_state s <> stateClosed -> s_live s <> Some c ->
      left_session w p c s resumable now w LeaveDisplaced []
  | lv_terminal w' : s_state s = stateAttached -> s_live s = Some c -> resumable = false ->
      core w' -> w_clients w' = w_clients w -> opt (w_store w') = opt (w_store w) ->
      w_sess w' = <[p := set_live (set_state s stateClosed) None]> (w_sess w) ->
      sessions (w_store w') = delete (s_id s) (sessions (w_store w)) ->
      parked (w_store w') = parked (w_store w) ->
      left_session w p c s resumable now w' LeaveGone []
  | lv_parked w' vs : s_state s = stateAttached -> s_live s = Some c -> resumable = true ->
      closed_front (parked_world w p c now) w' vs ->
      len vs = Z.max 0 (len (parked (w_store w)) + 1 - MaxParked (opt (w_store w))) ->
      left_session w p c s resumable now w' LeaveParked (map (fun v => (v, ReleaseEvicted)) vs).

Lemma Leave_effect w p c s resumable now : core w -> w_sess w !! p = Some s ->
  exists w' r rel, Leave w p c resumable now = Some (w', r, rel) /\
    left_session w p c s resumable now w' r rel.
Proof.
  intros Hw Hp. unfold Leave. rewrite (lookup_total_correct _ _ _ Hp).
  destruct (decide (s_state s = stateClosed)) as [Hst|Hst].
  { eexists _, _, _. split; [done|]. by apply lv_closed. }
  destruct (decide (s_live s <> Some c)) as [Hlv|Hlv].
  { eexists _, _, _. split; [done|]. by apply lv_displaced. }
  apply dec_stable in Hlv. pose proof (iv_sess w Hw p s Hp) as Hok.
  assert (s_state s = stateAttached) as Hat.
  { destruct (s_state s) eqn:E; [done| |done]. by rewrite (so_parked s Hok E) in Hlv. }
  assert (s_elem s = None) as He.
  { destruct (s_elem s) as [e|] eqn:He; [|done]. destruct (so_elem s Hok) as [_ Hel].
    rewrite Hat, He in Hel. by discriminate Hel. }
  destruct resumable; cbn [negb].
  - match goal with |- context [evict_loop _ ?x []] =>
      assert (x = parked_world w p c now) as -> by
        (unfold parked_world; by rewrite (lookup_total_correct _ _ _ Hp)) end.
    destruct (evict_loop_effect (length (parked (w_store (parked_world w p c now))))
      (parked_world w p c now) []) as (w' & vs & -> & Hcf & Hlen); [by eapply park_core|done|].
    eexists _, _, _. split; [done|]. rewrite app_nil_l. eapply lv_parked; try done.
    rewrite Hlen. simpl. rewrite len_app. done.
  - destruct (close_core w p s (set_live (set_state s stateClosed) None) Hw Hp Hst)
      as (H1 & H2 & H3 & H4 & H5 & H6); try done; [by right|by eapply sess_ok_closed|].
    eexists _, _, _. split; [done|]. eapply lv_terminal; try done.
    + rewrite H2. f_equal. rewrite <- He. by destruct s.
    + by rewrite H6, He.
Qed.

End inv.
