(* ===== verification/Registry.v ===== *)
(** * Running the session registry

    The operations of [Client.v], [Session.v] and [SessionStore.v] as one
    transition system on the heap: every way the server calls them is an [op],
    and [exec] runs one of them ([None] is a run-time panic). The registry
    invariant holds in every reachable state, and no reachable call panics. *)
From Stdlib Require Import Sorting.Sorted.
From S2P Require Import Prelude.
From S2P Require Import GoStd.
From S2P Require Import Json.
From S2P Require Import Replay.
From S2P Require Import Client.
From S2P Require Import Session.
From S2P Require Import SessionStore.
From S2P Require Import SessionInv.

Module registry.
Import client session store inv.

(** ** Operations *)

(** What a connection keeps about itself besides its queue. *)
Inductive note :=
  | NResumed (b : bool) | NMeta (key : string) (v : any) | NCopyMeta (prev : cptr)
  | NAllow (interval now : Z) | NSent (n now : Z) | NReceived (n now : Z)
  | NMissedPong | NPong.

Definition noted (w : world) (cl : Client) (n : note) : Client :=
  match n with
  | NResumed b => SetResumed cl b
  | NMeta key v => MetaSet cl key v
  | NCopyMeta prev => CopyMetaFrom cl (w_clients w !!! prev)
  | NAllow interval now => (AllowEvent cl interval now).1
  | NSent n now => recordMessageSent (recordBytesSent cl n now)
  | NReceived n now => recordMessageReceived (recordBytesReceived cl n now)
  | NMissedPong => (IncrementMissedPongs cl).1
  | NPong => set_missedPongs cl 0
  end.

Inductive op :=
  | ONew (c : cptr) (o : ClientOptions) (now : Z)
  | OOpen (c : cptr) (req : ResumeRequest) (now : Z) (newID : string)
  | OSend (c : cptr) (data : bytes) (pol : SendPolicy)
  | OAck (p : sptr) (n : Z)
  | OClaim (p : sptr) (key : string)
  | OPump (c : cptr)
  | OClose (c : cptr) (terminal : bool)
  | OLeave (p : sptr) (c : cptr) (now : Z)
  | OSweep (now : Z)
  | ONote (c : cptr) (n : note)
  | ODuplicate.

Definition set_client (w : world) (c : cptr) (cl : Client) : world :=
  set_clients w (<[c := cl]> (w_clients w)).

Definition exec (w : world) (o : op) : option world :=
  match o with
  | ONew c opt now => Some (set_client w c (NewClient now opt))
  | OOpen c req now newID => '(w', _, _) ← Open w c req now newID; Some w'
  | OSend c data pol =>
      '(cs, ss, _) ← TrySendPolicy (w_clients w) (w_sess w) c data pol;
      Some (mkWorld cs ss (w_nextSess w) (w_store w))
  | OAck p n => s ← Ack (w_sess w !!! p) n; Some (set_session w p s)
  | OClaim p key => '(s, _) ← ClaimKey (w_sess w !!! p) key; Some (set_session w p s)
  | OPump c =>
      match next_frame (w_clients w !!! c) with
      | Some (_, cl) => Some (set_client w c cl)
      | None => Some w
      end
  | OClose c terminal => cl ← shutdown_call terminal (w_clients w !!! c); Some (set_client w c cl)
  | OLeave p c now => '(w', _, _) ← Leave w p c (negb (noResume (w_clients w !!! c))) now; Some w'
  | OSweep now => '(w', _) ← Sweep w now; Some w'
  | ONote c n => Some (set_client w c (noted w (w_clients w !!! c) n))
  | ODuplicate => Some (NoteDuplicate w)
  end.

(** What a caller guarantees: objects are allocated once and a client is
    opened once; tokens do not collide; a peer's sequence number is an
    unsigned integer; and no session lives to number 2^64 - 1 frames. *)
Definition valid (w : world) (o : op) : Prop :=
  match o with
  | ONew c _ _ => w_clients w !! c = None
  | OOpen c req _ newID =>
      client.session (w_clients w !!! c) = None /\ 0 <= LastSeq req /\ sessions (w_store w) !! newID = None
  | OSend c _ _ => forall p s, client.session (w_clients w !!! c) = Some p ->
      w_sess w !! p = Some s -> s_next s < 2 ^ 64 - 1
  | OAck p _ | OClaim p _ | OLeave p _ _ => is_Some (w_sess w !! p)
  | OPump _ | OClose _ _ | OSweep _ | ONote _ _ | ODuplicate => True
  end.

Definition init (o : SessionOptions) : world := mkWorld ∅ ∅ 0%nat (NewSessionStore o).

Inductive reachable (o : SessionOptions) : world -> Prop :=
  | reach_init : reachable o (init o)
  | reach_step w i w' : reachable o w -> valid w i -> exec w i = Some w' -> reachable o w'.

(** ** The full invariant *)

(** Clients are well formed and their sessions exist. *)
Definition clients_ok (w : world) : Prop :=
  forall c, client.wf (w_clients w !!! c) /\
    forall p, client.session (w_clients w !!! c) = Some p -> is_Some (w_sess w !! p).

(** A client that was not opened yet is live for no session. *)
Lemma core_unbound w c : core w -> client.session (w_clients w !!! c) = None -> unbound w c.
Proof. intros Hw Hn p s Hp Hl. pose proof (iv_live w Hw p s c Hp Hl). congruence. Qed.

Record good (w : world) : Prop := { g_inv : inv w; g_clients : clients_ok w }.

Lemma init_good o : good (init o).
Proof.
  split.
  - split.
    + constructor; cbn [init w_sess w_store NewSessionStore sessions parked opt nextElem MaxParked
                        ReplayMessages ReplayBytes w_clients].
      * intros p s. by rewrite lookup_empty.
      * intros p s. by rewrite lookup_empty.
      * intros i p. by rewrite lookup_empty.
      * intros p s. by rewrite lookup_empty.
      * intros e p. split; [intros []%elem_of_nil|]. intros (s & Hs & _). by rewrite lookup_empty in Hs.
      * constructor.
      * intros e p []%elem_of_nil.
      * intros p s c. by rewrite lookup_empty.
      * unfold or_default. destruct (Z.leb_spec (MaxParked o) 0); lia.
      * unfold or_default. destruct (Z.leb_spec (ReplayMessages o) 0), (Z.leb_spec (ReplayBytes o) 0);
          split; try lia; by vm_compute.
    + cbn. unfold or_default. rewrite len_nil. destruct (Z.leb_spec (MaxParked o) 0); lia.
  - intros c. cbn [init w_clients]. unfold lookup_total, map_lookup_total. rewrite lookup_empty. cbn.
    split; [apply NewClient_wf|done].
Qed.

(** ** Preservation, operation by operation *)

(** A client replaced by one with the same session. *)
Lemma set_client_good w c cl : good w -> client.wf cl ->
  client.session cl = client.session (w_clients w !!! c) -> good (set_client w c cl).
Proof.
  intros [[Hw Hmax] Hc] Hcl Hs.
  assert (forall c', client.session (<[c := cl]> (w_clients w) !!! c')
    = client.session (w_clients w !!! c')) as Hsame.
  { intros c'. destruct (decide (c = c')) as [<-|Hne].
    - by rewrite lookup_total_insert_eq.
    - by rewrite lookup_total_insert_ne. }
  split; [split; [by apply core_clients|done]|].
  intros c'. cbn [set_client set_clients w_clients w_sess]. rewrite Hsame. split; [|apply Hc].
  destruct (decide (c = c')) as [<-|Hne].
  - by rewrite lookup_total_insert_eq.
  - rewrite lookup_total_insert_ne by done. apply Hc.
Qed.

(** A session that keeps its identity, updated together with the clients. *)
Lemma update_good w cs p s s' : good w -> w_sess w !! p = Some s ->
  same_identity s s' -> (exists log, logged log s') -> keys.wf (s_keys s') ->
  (forall c, client.session (cs !!! c) = client.session (w_clients w !!! c)) ->
  (forall c, client.wf (cs !!! c)) ->
  good (mkWorld cs (<[p := s']> (w_sess w)) (w_nextSess w) (w_store w)).
Proof.
  intros [[Hw Hmax] Hc] Hp (I1 & I2 & I3 & I4 & I5 & I6 & I7 & I8) Hlog Hk Hcs Hwf.
  destruct (iv_sess w Hw p s Hp) as [_ _ He Ha Hpk].
  assert (core (set_session w p s')) as Hw1.
  { apply (core_update w p s s'); try done.
    constructor; rewrite ?I3, ?I4, ?I7; done. }
  split; [split; [|done]|].
  - by apply (core_clients (set_session w p s') cs).
  - intros c. cbn [w_clients w_sess]. rewrite Hcs. split; [done|]. intros q Hq.
    destruct (Hc c) as [_ Hex]. destruct (Hex q Hq) as [t Ht].
    destruct (decide (p = q)) as [<-|Hne]; [rewrite lookup_insert_eq|rewrite lookup_insert_ne by done];
      by eexists.
Qed.

Lemma send_good w c data pol : good w -> valid w (OSend c data pol) ->
  exists w', exec w (OSend c data pol) = Some w' /\ good w'.
Proof.
  intros Hg Hv. pose proof Hg as [[Hw Hmax] Hc]. unfold exec, TrySendPolicy.
  destruct (client.session (w_clients w !!! c)) as [p|] eqn:Hs.
  - destruct (proj2 (Hc c) p Hs) as [s Hp]. rewrite (lookup_total_correct _ _ _ Hp).
    destruct (so_log s (iv_sess w Hw p s Hp)) as [log Hl].
    specialize (Hv p s Hs Hp). pose proof (lg_next log s Hl) as Hn.
    destruct (deliver_contract (w_clients w) s data pol log Hl ltac:(lia))
      as (cs' & s' & ok & frames & logd & Hd & _ & Hl' & Hid & Hq).
    rewrite Hd. cbn [mbind option_bind]. eexists. split; [done|].
    eapply update_good; try done; [by eexists| | |].
    + destruct Hid as (_ & _ & _ & _ & _ & -> & _). by apply (so_keys s (iv_sess w Hw p s Hp)).
    + intros c'. by apply Hq.
    + eapply deliver_wf; [done|]. intros c'. apply Hc.
  - pose proof (enqueue_wf (w_clients w !!! c) data (proj1 (Hc c))) as Hwf.
    pose proof (enqueue_session (w_clients w !!! c) data) as Hse.
    destruct (enqueue (w_clients w !!! c) data) as [cl res]. cbn [fst] in Hwf, Hse.
    assert (good (set_client w c cl)) as G1 by by apply set_client_good.
    assert (good (set_client w c (client.add_dropped cl))) as G2
      by (apply set_client_good; [done|by apply add_dropped_wf|done]).
    destruct res; [|case_decide|]; (eexists; split; [done|]); assumption.
Qed.

Lemma ack_good w p n : good w -> is_Some (w_sess w !! p) ->
  exists w', exec w (OAck p n) = Some w' /\ good w'.
Proof.
  intros Hg [s Hp]. pose proof Hg as [[Hw Hmax] Hc].
  destruct (iv_sess w Hw p s Hp) as [[log Hl] Hk _ _ _].
  destruct (Ack_logged log s n Hl) as (s' & Ha & Hl' & Hs'). unfold exec.
  rewrite (lookup_total_correct _ _ _ Hp), Ha. cbn [mbind option_bind]. eexists. split; [done|].
  assert (same_identity s s') as Hid by by rewrite Hs'.
  apply (update_good w (w_clients w) p s); try done; [by exists log| |].
  - by destruct Hid as (_ & _ & _ & _ & _ & -> & _).
  - intros c. by destruct (Hc c).
Qed.

Lemma claim_good w p key : good w -> is_Some (w_sess w !! p) ->
  exists w', exec w (OClaim p key) = Some w' /\ good w'.
Proof.
  intros [[Hw Hmax] Hc] [s Hp]. destruct (iv_sess w Hw p s Hp) as [[log Hl] Hk He Ha Hpk].
  unfold exec, ClaimKey. rewrite (lookup_total_correct _ _ _ Hp).
  destruct (keys.claim_abs (s_keys s) (stored_key key) Hk) as (k & -> & Hwf & _).
  cbn [mbind option_bind]. eexists. split; [done|].
  split; [split; [|done]|].
  - apply (core_update w p s); try done.
    constructor; cbn; [exists log; by apply (logged_same log s)|done|done|done|done].
  - intros c. destruct (Hc c) as [H1 H2]. split; [done|]. intros q Hq.
    cbn [set_session w_sess]. destruct (decide (p = q)) as [<-|Hne];
      [rewrite lookup_insert_eq; by eexists|rewrite lookup_insert_ne by done; by apply H2].
Qed.

Lemma pump_good w c : good w -> exists w', exec w (OPump c) = Some w' /\ good w'.
Proof.
  intros Hg. unfold exec. destruct (next_frame (w_clients w !!! c)) as [[f cl]|] eqn:E; [|by exists w].
  eexists. split; [done|]. apply set_client_good; [done| |].
  - eapply next_frame_wf; [done|]. apply Hg.
  - by apply next_frame_unwritten in E as [_ ?].
Qed.

Lemma close_good w c terminal : good w -> exists w', exec w (OClose c terminal) = Some w' /\ good w'.
Proof.
  intros Hg. unfold exec.
  assert (exists cl, shutdown_call terminal (w_clients w !!! c) = Some cl /\ client.wf cl /\
    client.session cl = client.session (w_clients w !!! c)) as (cl & -> & Hwf & Hs).
  { pose proof (proj1 (g_clients w Hg c)) as Hwf. destruct terminal; simpl.
    - destruct (closeRaw_wf _ (with_noResume_wf _ Hwf)) as (cl & ? & ? & _ & _ & ? & _). by exists cl.
    - destruct (closeRaw_wf _ Hwf) as (cl & ? & ? & _ & _ & ? & _). by exists cl. }
  cbn [mbind option_bind]. eexists. split; [done|]. by apply set_client_good.
Qed.

(** Clients stay well formed when one of them is bound to an existing session
    and the heap of sessions only grows. *)
Lemma clients_ok_bind w w' c q fs m : clients_ok w ->
  (forall p, is_Some (w_sess w !! p) -> is_Some (w_sess w' !! p)) -> is_Some (w_sess w' !! q) ->
  w_clients w' = <[c := with_binding (w_clients w !!! c) (Some q) fs m]> (w_clients w) ->
  clients_ok w'.
Proof.
  intros Hc Hgrow Hq E c'. rewrite E. destruct (decide (c = c')) as [<-|Hne].
  - rewrite lookup_total_insert_eq. destruct (Hc c) as [[H1 H2 H3] _]. split; [by constructor|].
    intros p [= <-]. done.
  - rewrite lookup_total_insert_ne by done. destruct (Hc c') as [H1 H2]. split; [done|]. eauto.
Qed.

Lemma clients_ok_sess w w' : clients_ok w -> w_clients w' = w_clients w ->
  (forall p, is_Some (w_sess w !! p) -> is_Some (w_sess w' !! p)) -> clients_ok w'.
Proof. intros Hc E Hg c. rewrite E. destruct (Hc c) as [H1 H2]. split; [done|]. eauto. Qed.

Lemma insert_is_Some {A} (m : gmap sptr A) p a q : is_Some (m !! q) -> is_Some (<[p := a]> m !! q).
Proof.
  intros H. destruct (decide (p = q)) as [<-|Hne];
    [rewrite lookup_insert_eq; by eexists|by rewrite lookup_insert_ne].
Qed.

Lemma refused_sess w req now w1 reason rel p : core w -> refused_world w req now w1 reason rel ->
  is_Some (w_sess w !! p) -> is_Some (w_sess w1 !! p).
Proof.
  intros Hw [| | | |q s w1' rs Hn Ho Hrs ->]; try done.
  destruct (named_open w req q s Hw Hn) as [Hst _]. destruct Hn as (_ & _ & _ & Hp).
  destruct (close_core w q s (set_state s stateClosed) Hw Hp Hst) as (_ & -> & _);
    try done; [by left|by apply sess_ok_kill, (iv_sess w Hw q)|]. apply insert_is_Some.
Qed.

Lemma refused_next w req now w1 reason rel : refused_world w req now w1 reason rel ->
  w_nextSess w1 = w_nextSess w.
Proof.
  intros [| | | |q s w1' rs Hn Ho Hrs ->]; try done.
  unfold removeLocked, unlink. by destruct (s_elem _).
Qed.

Lemma refused_reason w req now w1 reason rel : refused_world w req now w1 reason rel ->
  reason = ""%string <-> Invalid req = false /\ Requested req = false.
Proof.
  intros [H1 H2|H|H1 H2 H3|q s (H1 & H2 & _) Ho|q s w1' rs (H1 & H2 & _) Ho Hrs _];
    (split; [|intros [? ?]]); try done; try congruence.
  intros ->. apply list_elem_of_In in Hrs. by destruct Hrs as [|[|[|]]].
Qed.

Lemma refused_index w req now w1 reason rel i p : core w -> refused_world w req now w1 reason rel ->
  sessions (w_store w1) !! i = Some p -> sessions (w_store w) !! i = Some p.
Proof.
  intros Hw [| | | |q s w1' rs Hn Ho Hrs ->]; try done.
  destruct (named_open w req q s Hw Hn) as [Hst Hidq]. pose proof Hn as (_ & _ & _ & Hpq).
  destruct (close_core w q s (set_state s stateClosed) Hw Hpq Hst) as (_ & _ & _ & -> & _);
    try done; [by left|by apply sess_ok_kill, (iv_sess w Hw q)|].
  by intros [_ ?]%lookup_delete_Some.
Qed.

(** The sessions after a refusal: the one that was killed is released and loses
    its token. *)
Lemma refused_others w req now w1 reason rel p s : core w -> refused_world w req now w1 reason rel ->
  w_sess w !! p = Some s ->
  (w_sess w1 !! p = Some s /\ (p, ReleaseReplaced) ∉ rel) \/
  (named w req p s /\ s_owner s = Owner req /\ rel = [(p, ReleaseReplaced)] /\
   sessions (w_store w1) !! SessionID req = None /\
   exists s1, w_sess w1 !! p = Some s1 /\ s_state s1 = stateClosed).
Proof.
  intros Hw Hrw Hps. destruct Hrw as [| | | |q sq w1' rs Hn Ho Hrs ->]; try (left; split; [done|set_solver]).
  destruct (named_open w req q sq Hw Hn) as [Hst Hidq]. pose proof Hn as (_ & _ & _ & Hpq).
  destruct (close_core w q sq (set_state sq stateClosed) Hw Hpq Hst) as (_ & Es & _ & Ei & _ & _);
    try done; [by left|by apply sess_ok_kill, (iv_sess w Hw q)|].
  destruct (decide (p = q)) as [->|Hpn].
  - right. assert (s = sq) as -> by congruence. split; [done|]. split; [done|]. split; [done|].
    rewrite Ei, <- Hidq. split; [apply lookup_delete_eq|].
    exists (set_elem (set_state sq stateClosed) None). by rewrite Es, lookup_insert_eq.
  - left. rewrite Es, lookup_insert_ne by done. split; [done|].
    rewrite list_elem_of_singleton. by intros [= ->].
Qed.

Lemma refused_tokens w req now w1 reason rel i p : core w ->
  refused_world w req now w1 reason rel -> sessions (w_store w) !! i = Some p ->
  (p, ReleaseReplaced) ∉ rel -> sessions (w_store w1) !! i = Some p.
Proof.
  intros Hw [| | | |q s w1' rs Hn Ho Hrs ->]; try done. intros Hi Hrel.
  destruct (named_open w req q s Hw Hn) as [Hst Hidq]. pose proof Hn as (_ & _ & H3 & Hpq).
  destruct (close_core w q s (set_state s stateClosed) Hw Hpq Hst) as (_ & _ & _ & -> & _);
    try done; [by left|by apply sess_ok_kill, (iv_sess w Hw q)|].
  rewrite lookup_delete_ne; [done|]. intros Hd. apply Hrel. rewrite <- Hd, Hidq in Hi.
  rewrite H3 in Hi. injection Hi as ->. by left.
Qed.

Lemma open_good w c req now newID : good w -> valid w (OOpen c req now newID) ->
  exists w', exec w (OOpen c req now newID) = Some w' /\ good w'.
Proof.
  intros [Hinv Hcl] (Hun & Hq & Hnew). pose proof (core_unbound w c (proj1 Hinv) Hun) as Hc.
  destruct (Open_inv w c req now newID Hinv Hc Hnew Hq) as (w' & res & rel & HO & Hinv' & _).
  unfold exec. rewrite HO. cbn [mbind option_bind]. exists w'. split; [done|]. split; [done|].
  destruct Hinv as [Hw _].
  destruct (resumable_dec_named w req now (TTL (opt (w_store w))) Hw Hq)
    as [(p & s & log & Hn & Hl & Hr)|Hno].
  - destruct (Open_resume w c req now newID p s log Hw Hc Hn Hl Hq Hr)
      as (w2 & b & HO' & _ & _ & E1 & E2 & _). rewrite HO in HO'. injection HO' as -> -> ->.
    eapply clients_ok_bind; [done| | |done]; rewrite E1; [intros; by apply insert_is_Some|].
    rewrite lookup_insert_eq. by eexists.
  - destruct (Open_refuse w c req now newID Hw Hno Hq) as (w1 & reason & rel' & Hrw & HO').
    rewrite HO in HO'. injection HO' as -> _ _.
    destruct (refused_core _ _ _ _ _ _ Hw Hrw) as (Hw1 & Ecl & _ & _ & Hnone & Hlive).
    assert (clients_ok w1) as Hcl1.
    { eapply clients_ok_sess; [done|done|]. intros p. by eapply refused_sess. }
    destruct (decide (newID = ""%string)) as [->|Hid]; [done|].
    destruct (open_fresh_core w1 c (Owner req) newID reason) as (_ & _ & _ & E1 & E2 & _);
      [done| |done|by apply Hnone|].
    { intros q t Ht. destruct (Hlive q t Ht) as (t0 & Ht0 & ->). by eapply Hc. }
    eapply clients_ok_bind; [exact Hcl1| | |done]; rewrite E1; [intros; by apply insert_is_Some|].
    rewrite lookup_insert_eq. by eexists.
Qed.

Lemma closed_front_good w w' vs : clients_ok w -> closed_front w w' vs ->
  len (parked (w_store w')) <= MaxParked (opt (w_store w)) -> good w'.
Proof.
  intros Hc [C1 C2 C3 C4 C5 C6 C7] Hlen. split; [split; [done|by rewrite C3]|].
  eapply clients_ok_sess; [done|done|]. intros p [t Ht].
  destruct (decide (p ∈ vs)) as [Hin|Hin]; [|rewrite C6 by done; by eexists].
  destruct (C5 p Hin) as (s & _ & _ & ->). by eexists.
Qed.

Lemma closed_front_len w w' vs : closed_front w w' vs ->
  len (parked (w_store w')) = len (parked (w_store w)) - len vs.
Proof.
  intros [_ _ _ (es & -> & <-) _ _ _]. unfold len. rewrite length_app, length_map. lia.
Qed.

Lemma sweep_good w now : good w -> exists w', exec w (OSweep now) = Some w' /\ good w'.
Proof.
  intros [[Hw Hmax] Hc]. unfold exec, Sweep.
  destruct (sweep_loop_effect (length (parked (w_store w))) w now [] Hw)
    as (w' & vs & -> & Hcf & _ & _); [done|]. cbn [mbind option_bind].
  exists w'. split; [done|]. apply (closed_front_good w w' vs); [done|done|].
  rewrite (closed_front_len _ _ _ Hcf). pose proof (len_nonneg vs). lia.
Qed.

Lemma leave_good w p c now : good w -> is_Some (w_sess w !! p) ->
  exists w', exec w (OLeave p c now) = Some w' /\ good w'.
Proof.
  intros [[Hw Hmax] Hc] [s Hp]. unfold exec.
  destruct (Leave_effect w p c s (negb (noResume (w_clients w !!! c))) now Hw Hp)
    as (w' & r & rel & -> & Hlv). cbn [mbind option_bind]. exists w'. split; [done|].
  destruct Hlv as [|? ?|w' Hst Hlv Hres Hw' E1 E2 E3 E4 E5|w' vs Hst Hlv Hres Hcf Hlen];
    [by split|by split| |].
  - split; [split; [done|by rewrite E2, E5]|]. eapply clients_ok_sess; [done|done|].
    rewrite E3. intros q. apply insert_is_Some.
  - eapply closed_front_good; [|done|].
    + intros c'. unfold parked_world. cbn [w_clients w_sess].
      destruct (decide (c = c')) as [<-|Hne].
      * rewrite lookup_total_insert_eq. destruct (Hc c) as [[H1 H2 H3] H4].
        split; [by constructor|]. intros q Hq. apply insert_is_Some. by apply H4.
      * rewrite lookup_total_insert_ne by done. destruct (Hc c') as [H1 H2]. split; [done|].
        intros q Hq. apply insert_is_Some. by apply H2.
    + rewrite (closed_front_len _ _ _ Hcf), Hlen. cbn [parked_world w_store st_parked parked opt].
      rewrite len_app. change (len [_]) with 1. lia.
Qed.

(** Bookkeeping leaves the queue, the session and the shutdown state alone. *)
Lemma noted_same w cl n : send (noted w cl n) = send cl /\ client.replay (noted w cl n) = client.replay cl /\
  client.session (noted w cl n) = client.session cl /\ shutdownDone (noted w cl n) = shutdownDone cl /\
  transportClosed (noted w cl n) = transportClosed cl.
Proof.
  destruct n; try done. cbn [noted]. unfold AllowEvent. destruct (_ <=? 0); [done|].
  destruct (lastEvent cl); [|done]. by destruct (_ <? _).
Qed.

Lemma noted_wf w cl n : client.wf cl -> client.wf (noted w cl n).
Proof.
  destruct (noted_same w cl n) as (E1 & _ & _ & E4 & E5). intros [H1 H2 H3].
  constructor; rewrite ?E1, ?E4, ?E5; done.
Qed.

Lemma note_good w c n : good w -> good (set_client w c (noted w (w_clients w !!! c) n)).
Proof.
  intros Hg. apply set_client_good; [done|apply noted_wf, Hg|apply noted_same].
Qed.

Lemma duplicate_good w : good w -> good (NoteDuplicate w).
Proof. intros [[[] Hmax] Hc]. by split; [split; [constructor|]|]. Qed.

Lemma step_good w o : good w -> valid w o -> exists w', exec w o = Some w' /\ good w'.
Proof.
  intros Hg Hv. destruct o.
  - eexists. split; [done|]. apply set_client_good; [done|apply NewClient_wf|].
    unfold lookup_total, map_lookup_total. by rewrite Hv.
  - by apply open_good.
  - by apply send_good.
  - by apply ack_good.
  - by apply claim_good.
  - by apply pump_good.
  - by apply close_good.
  - by apply leave_good.
  - by apply sweep_good.
  - eexists. split; [done|]. by apply note_good.
  - eexists. split; [done|]. by apply duplicate_good.
Qed.

Lemma reachable_good o w : reachable o w -> good w.
Proof.
  induction 1 as [|w i w' _ IH Hv He]; [apply init_good|].
  destruct (step_good w i IH Hv) as (w2 & He2 & ?). by rewrite He in He2; injection He2 as ->.
Qed.

(** ** Closed sessions stay closed *)

Definition closed_at (w : world) (p : sptr) (n : Z) : Prop :=
  exists s, w_sess w !! p = Some s /\ s_state s = stateClosed /\ s_next s = n.

Lemma closed_at_insert w q s0 s p n : core w -> w_sess w !! q = Some s0 ->
  (s_state s0 = stateClosed -> s_state s = stateClosed /\ s_next s = s_next s0) ->
  closed_at w p n -> exists t, <[q := s]> (w_sess w) !! p = Some t /\ s_state t = stateClosed /\ s_next t = n.
Proof.
  intros Hw Hq Hs (t & Ht & Hst & Hn). destruct (decide (q = p)) as [<-|Hne].
  - exists s. rewrite lookup_insert_eq. simplify_eq. destruct (Hs Hst) as [? ?]. split; [done|].
    split; congruence.
  - exists t. by rewrite lookup_insert_ne.
Qed.

Lemma closed_at_front w w' vs p n : closed_front w w' vs -> closed_at w p n -> closed_at w' p n.
Proof.
  intros [_ _ _ _ C5 C6 _] (s & Hs & Hst & Hn). exists s. split; [|done]. rewrite C6; [done|].
  intros Hin. destruct (C5 p Hin) as (s1 & Hs1 & Hst1 & _). congruence.
Qed.

Lemma deliver_closed cs s data pol : s_state s = stateClosed -> deliver cs s data pol = Some (cs, s, true).
Proof. intros H. unfold deliver. by rewrite decide_True. Qed.

Lemma closed_open w c req now newID w' res rel p n : good w -> valid w (OOpen c req now newID) ->
  Open w c req now newID = Some (w', res, rel) -> closed_at w p n -> closed_at w' p n.
Proof.
  intros [[Hw _] _] (Hun & Hq & Hnew) HO Hcl. pose proof (core_unbound w c Hw Hun) as Hc.
  destruct (resumable_dec_named w req now (TTL (opt (w_store w))) Hw Hq)
    as [(q & s & log & Hn & Hl & Hr)|Hno].
  - destruct (Open_resume w c req now newID q s log Hw Hc Hn Hl Hq Hr)
      as (w2 & b & HO' & _ & _ & E1 & _). rewrite HO in HO'. injection HO' as -> -> ->.
    destruct (named_open w req q s Hw Hn) as [Hst _]. unfold closed_at. rewrite E1.
    by apply (closed_at_insert w q s); [|apply Hn| |].
  - destruct (Open_refuse w c req now newID Hw Hno Hq) as (w1 & reason & rel' & Hrw & HO').
    rewrite HO in HO'. injection HO' as -> _ _.
    destruct (refused_core _ _ _ _ _ _ Hw Hrw) as (Hw1 & Ecl & _ & _ & Hnone & Hlive).
    assert (closed_at w1 p n) as Hcl1.
    { clear HO. destruct Hrw as [| | | |q s w1' rs Hn Ho Hrs ->]; try done.
      destruct (named_open w req q s Hw Hn) as [Hst _]. destruct Hn as (_ & _ & _ & Hp).
      destruct (close_core w q s (set_state s stateClosed) Hw Hp Hst) as (_ & E & _);
        try done; [by left|by apply sess_ok_kill, (iv_sess w Hw q)|].
      unfold closed_at. rewrite E. by apply (closed_at_insert w q s). }
    destruct (decide (newID = ""%string)) as [->|Hid]; [done|].
    destruct (open_fresh_core w1 c (Owner req) newID reason) as (_ & Hp & _ & E1 & _);
      [done| |done|by apply Hnone|].
    { intros q t Ht. destruct (Hlive q t Ht) as (t0 & Ht0 & ->). by eapply Hc. }
    destruct Hcl1 as (t & Ht & Hst & Hn). exists t. rewrite E1, lookup_insert_ne; [done|].
    intros <-. by rewrite Hp in Ht.
Qed.

Lemma closed_leave w p c r now w' res rel q n : good w -> is_Some (w_sess w !! p) ->
  Leave w p c r now = Some (w', res, rel) -> closed_at w q n -> closed_at w' q n.
Proof.
  intros [[Hw _] _] [s Hp] HL Hcl.
  destruct (Leave_effect w p c s r now Hw Hp) as (w1 & r1 & rel1 & HL' & Hlv).
  rewrite HL in HL'. injection HL' as <- <- <-.
  destruct Hlv as [| |w' Hst Hlv Hres Hw' E1 E2 E3 E4 E5|w' vs Hst Hlv Hres Hcf Hlen]; [done|done| |].
  - unfold closed_at. rewrite E3. apply (closed_at_insert w p s); [done|done| |done].
    by rewrite Hst.
  - eapply closed_at_front; [done|]. unfold closed_at, parked_world. cbn [w_sess].
    apply (closed_at_insert w p s); [done|done| |done]. by rewrite Hst.
Qed.

Lemma closed_step w o w' p n : good w -> valid w o -> exec w o = Some w' ->
  closed_at w p n -> closed_at w' p n.
Proof.
  intros Hg Hv He Hcl. pose proof Hg as [[Hw _] Hc]. destruct o; cbn [exec] in He.
  - by injection He as <-.
  - destruct (Open _ _ _ _ _) as [[[w2 res] rel]|] eqn:HO; [|done]. injection He as <-.
    by eapply closed_open.
  - unfold TrySendPolicy in He. destruct (client.session (w_clients w !!! c)) as [q|] eqn:Hs.
    + destruct (proj2 (Hc c) q Hs) as [s Hq]. rewrite (lookup_total_correct _ _ _ Hq) in He.
      destruct (so_log s (iv_sess w Hw q s Hq)) as [log Hl]. pose proof (lg_next log s Hl).
      specialize (Hv q s Hs Hq).
      destruct (deliver_contract (w_clients w) s data pol log Hl ltac:(lia))
        as (cs' & s' & ok & frames & logd & Hd & _ & _ & Hid & _).
      rewrite Hd in He. injection He as <-. apply (closed_at_insert w q s); [done|done| |done].
      intros Hst. rewrite (deliver_closed _ _ _ _ Hst) in Hd. by injection Hd as <- <-.
    + destruct (enqueue _ _) as [cl [| |]]; try case_decide; by injection He as <-.
  - destruct Hv as [s Hq]. rewrite (lookup_total_correct _ _ _ Hq) in He.
    destruct (so_log s (iv_sess w Hw p0 s Hq)) as [log Hl].
    destruct (Ack_logged log s n0 Hl) as (s' & Ha & _ & Hs'). rewrite Ha in He. injection He as <-.
    apply (closed_at_insert w p0 s); [done|done| |done]. intros Hst. by rewrite Hs'.
  - destruct Hv as [s Hq]. rewrite (lookup_total_correct _ _ _ Hq) in He. unfold ClaimKey in He.
    destruct (keys.claim _ _) as [[ok k]|]; [|done]. injection He as <-.
    by apply (closed_at_insert w p0 s).
  - destruct (next_frame _) as [[f cl]|]; by injection He as <-.
  - destruct (shutdown_call _ _); [|done]. by injection He as <-.
  - destruct (Leave _ _ _ _ _) as [[[w2 res] rel]|] eqn:HL; [|done]. injection He as <-.
    by eapply closed_leave.
  - unfold Sweep in He. destruct (sweep_loop_effect (length (parked (w_store w))) w now [] Hw)
      as (w2 & vs & Hsw & Hcf & _); [done|]. rewrite Hsw in He. injection He as <-.
    by eapply closed_at_front.
  - by injection He as <-.
  - by injection He as <-.
Qed.

(** ** Executable runs, for concrete instances *)

Definition validb (w : world) (o : op) : bool :=
  match o with
  | ONew c _ _ => bool_decide (w_clients w !! c = None)
  | OOpen c req _ newID =>
      bool_decide (client.session (w_clients w !!! c) = None) && (0 <=? LastSeq req)
        && bool_decide (sessions (w_store w) !! newID = None)
  | OSend c _ _ =>
      match client.session (w_clients w !!! c) with
      | Some p => match w_sess w !! p with Some s => s_next s <? 2 ^ 64 - 1 | None => true end
      | None => true
      end
  | OAck p _ | OClaim p _ | OLeave p _ _ => bool_decide (is_Some (w_sess w !! p))
  | OPump _ | OClose _ _ | OSweep _ | ONote _ _ | ODuplicate => true
  end.

Fixpoint runb (w : world) (l : list op) : option world :=
  match l with
  | [] => Some w
  | o :: l' => if validb w o then w' ← exec w o; runb w' l' else None
  end.

Lemma validb_sound w o : validb w o = true -> valid w o.
Proof.
  destruct o; simpl; try by (intros H%bool_decide_eq_true). all: try done.
  - intros [[H2%bool_decide_eq_true H3%Z.leb_le]%andb_prop H4%bool_decide_eq_true]%andb_prop.
    by repeat split.
  - intros H p s Hs Hp. rewrite Hs, Hp in H. lia.
Qed.

Lemma runb_reachable o w l w' : reachable o w -> runb w l = Some w' -> reachable o w'.
Proof.
  revert w. induction l as [|i l IH]; intros w Hr; simpl; [by intros [= <-]|].
  destruct (validb w i) eqn:Hv; [|done]. destruct (exec w i) as [w1|] eqn:He; [|done].
  cbn [mbind option_bind]. apply IH. eapply reach_step; [done|by apply validb_sound|done].
Qed.

Definition demo_opts : SessionOptions := mkOptions 3 1000 100 1 4.
Definition demo_client : ClientOptions := client.mkOptions "c" 0 0 0 0 2.
Definition demo_event (n : Z) : bytes := print (JObj [("event"%string, JInt n)]).
Definition no_resume : ResumeRequest := mkRequest false false "" 0 "u".
Definition resume_from (token : string) (n : Z) (owner : string) : ResumeRequest :=
  mkRequest true false token n owner.

(** Client 0 opens session 0, is sent five events (its queue of two fills up),
    leaves, and client 1 is about to resume. *)
Definition demo_ops : list op :=
  [ONew 0%nat demo_client 0; OOpen 0%nat no_resume 0 "tok";
   OSend 0%nat (demo_event 1) PolicyDisconnect; OSend 0%nat (demo_event 2) PolicyDisconnect;
   OSend 0%nat (demo_event 3) PolicyDisconnect; OClose 0%nat false; OLeave 0%nat 0%nat 10;
   OSend 0%nat (demo_event 4) PolicyDisconnect; OSend 0%nat (demo_event 5) PolicyDisconnect;
   ONew 1%nat demo_client 20].
Definition demo_world : world := default (init demo_opts) (runb (init demo_opts) demo_ops).

Lemma demo_reachable : reachable demo_opts demo_world.
Proof.
  eapply (runb_reachable _ _ demo_ops); [apply reach_init|]. vm_compute. reflexivity.
Qed.

Lemma reachable_log o w p s : reachable o w -> w_sess w !! p = Some s -> exists log, logged log s.
Proof. intros Hr Hp. apply (so_log s). eapply iv_sess; [|done]. apply (reachable_good o w Hr). Qed.

(** ** Properties *)

(** C5: in every reachable state the token index lists exactly the sessions
    that are not closed, the parked list exactly the parked ones, at most
    [MaxParked] of them; every buffer holds a run of its session's log; clients
    and sessions are bound to each other: a client's session exists, the client
    a session is live on is bound to that session, so it is live on no other, an
    attached session is live on a client, and a parked one on none; and no call
    the server can make panics. *)
Theorem registry_safe o w :
  reachable o w ->
  (forall i p, sessions (w_store w) !! i = Some p <->
     exists s, w_sess w !! p = Some s /\ s_id s = i /\ s_state s <> stateClosed) /\
  (forall p, p ∈ map snd (parked (w_store w)) <->
     exists s, w_sess w !! p = Some s /\ s_state s = stateParked) /\
  len (parked (w_store w)) <= MaxParked (opt (w_store w)) /\
  (forall p s, w_sess w !! p = Some s -> exists log, logged log s) /\
  (forall c p, client.session (w_clients w !!! c) = Some p -> is_Some (w_sess w !! p)) /\
  (forall p s c, w_sess w !! p = Some s -> s_live s = Some c ->
     client.session (w_clients w !!! c) = Some p) /\
  (forall p s, w_sess w !! p = Some s ->
     (s_state s = stateAttached -> is_Some (s_live s)) /\ (s_state s = stateParked -> s_live s = None)) /\
  (forall i, valid w i -> is_Some (exec w i)).
Proof.
  intros Hr. pose proof (reachable_good o w Hr) as Hg. pose proof Hg as [[Hw Hmax] Hcl].
  split_and!.
  - intros i p. split; [apply (iv_index w Hw)|]. intros (s & Hp & <- & Hst). by apply (iv_open w Hw).
  - intros p. rewrite list_elem_of_In, in_map_iff. split.
    + intros ([e q] & <- & Hin%list_elem_of_In). apply (iv_list w Hw) in Hin as (s & Hs & He).
      exists s. split; [done|]. apply (iv_sess w Hw q s Hs). by eexists.
    + intros (s & Hs & Hst). apply (iv_sess w Hw p s Hs) in Hst as [e He].
      exists (e, p). split; [done|]. apply list_elem_of_In, (iv_list w Hw). by exists s.
  - done.
  - intros p s. by eapply reachable_log.
  - intros c p Hp. by apply Hcl in Hp.
  - intros p s c. apply (iv_live w Hw).
  - intros p s Hp. destruct (iv_sess w Hw p s Hp). by split.
  - intros i Hv. destruct (step_good w i Hg Hv) as (w' & -> & _). by eexists.
Qed.

Lemma registry_safe_witness :
  len (parked (w_store demo_world)) <= MaxParked (opt (w_store demo_world)) /\
  (forall c p, client.session (w_clients demo_world !!! c) = Some p -> is_Some (w_sess demo_world !! p)) /\
  (forall p s c, w_sess demo_world !! p = Some s -> s_live s = Some c ->
     client.session (w_clients demo_world !!! c) = Some p) /\
  (forall i, valid demo_world i -> is_Some (exec demo_world i)).
Proof.
  destruct (registry_safe demo_opts demo_world demo_reachable) as (_ & _ & H1 & _ & H2 & H3 & _ & H4).
  exact (conj H1 (conj H2 (conj H3 H4))).
Defined.

(** C6: a resume that comes from the owner, in time, for a position the peer
    can have, with every missing frame still buffered, is honoured: the
    session and its log go on unchanged, live on the new client, whose
    pre-queue is the $session frame followed by exactly the frames of the log
    after the peer's position, numbered as they were; the displaced client and
    the room member are handed to the caller. *)
Theorem resume_granted o w c req now newID p s log :
  reachable o w -> client.session (w_clients w !!! c) = None -> 0 <= LastSeq req ->
  named w req p s -> logged log s -> resumable s log req now (TTL (opt (w_store w))) ->
  exists w' s',
    Open w c req now newID
      = Some (w', mkResult (Some p) true "" (len log - LastSeq req) (s_member s) (s_live s), []) /\
    w_sess w' = <[p := s']> (w_sess w) /\ logged log s' /\
    s_state s' = stateAttached /\ s_live s' = Some c /\ s_stalled s' = false /\
    replay (w_clients w' !!! c) = resume_frames s log (LastSeq req) /\
    (forall c', c' <> c -> w_clients w' !! c' = w_clients w !! c').
Proof.
  intros Hr Hun Hq Hn Hl Hres. pose proof (reachable_good o w Hr) as [[Hw _] _].
  pose proof (core_unbound w c Hw Hun) as Hc.
  destruct (Open_resume w c req now newID p s log Hw Hc Hn Hl Hq Hres)
    as (w' & b & -> & _ & Hl' & E1 & E2 & _).
  exists w', (attached s b c). split; [done|]. split; [done|]. split; [done|].
  split; [done|]. split; [done|]. split; [done|]. rewrite E2. split.
  - by rewrite lookup_total_insert_eq.
  - intros c' Hne. by rewrite lookup_insert_ne.
Qed.

(** The log of the session of [demo_world]. *)
Definition demo_log : list bytes := map demo_event [1; 2; 3; 4; 5].

Lemma demo_logged : logged demo_log (w_sess demo_world !!! 0%nat).
Proof.
  constructor; [by vm_compute|by vm_compute| |].
  - constructor; [vm_compute; lia|by vm_compute|by vm_compute|split; by vm_compute].
  - exists 2%nat. split; [vm_compute; lia|by vm_compute].
Qed.

Lemma resume_granted_witness :
  exists w' s',
    Open demo_world 1%nat (resume_from "tok" 2 "u") 50 "new"
      = Some (w', mkResult (Some 0%nat) true "" (len demo_log - 2) (s_member (w_sess demo_world !!! 0%nat))
                      (s_live (w_sess demo_world !!! 0%nat)), []) /\
    w_sess w' = <[0%nat := s']> (w_sess demo_world) /\ logged demo_log s' /\
    s_state s' = stateAttached /\ s_live s' = Some 1%nat /\ s_stalled s' = false /\
    replay (w_clients w' !!! 1%nat) = resume_frames (w_sess demo_world !!! 0%nat) demo_log 2 /\
    (forall c', c' <> 1%nat -> w_clients w' !! c' = w_clients demo_world !! c').
Proof.
  apply (resume_granted demo_opts demo_world 1%nat (resume_from "tok" 2 "u") 50 "new" 0%nat
           (w_sess demo_world !!! 0%nat) demo_log).
  - apply demo_reachable.
  - by vm_compute.
  - done.
  - split; [done|]. split; [done|]. split; by vm_compute.
  - apply demo_logged.
  - constructor; [by vm_compute|by vm_compute|vm_compute; intros _; done|by vm_compute|].
    exists []. by vm_compute.
Defined.

(** C7: every other resume is refused and the peer starts afresh. Its client is
    queued the $session frame with the reason and nothing else, on a new, empty
    session under the new token; when there is no entropy for a token ([newID]
    is empty), it gets no session and its client stays as it is. The session
    that was named is closed only when its owner asked for it (it is then
    unusable), and released as replaced; a request without the right owner
    changes no existing session and no token. *)
Theorem resume_refused o w c req now newID :
  reachable o w -> client.session (w_clients w !!! c) = None -> 0 <= LastSeq req ->
  newID = ""%string \/ sessions (w_store w) !! newID = None ->
  (forall p s log, named w req p s -> logged log s ->
     ~ resumable s log req now (TTL (opt (w_store w)))) ->
  exists w' reason rel,
    (if bool_decide (newID = ""%string)
     then Open w c req now newID = Some (w', refused reason, rel) /\
       w_clients w' = w_clients w /\ w_nextSess w' = w_nextSess w /\
       (forall p, is_Some (w_sess w' !! p) -> is_Some (w_sess w !! p)) /\
       (forall i p, sessions (w_store w') !! i = Some p -> sessions (w_store w) !! i = Some p)
     else exists s',
       Open w c req now newID = Some (w', mkResult (Some (w_nextSess w)) false reason 0 None None, rel) /\
       client.session (w_clients w' !!! c) = Some (w_nextSess w) /\
       replay (w_clients w' !!! c) = [sessionFrame newID false 0 0 reason] /\
       (forall c', c' <> c -> w_clients w' !! c' = w_clients w !! c') /\
       w_sess w' !! w_nextSess w = Some s' /\ logged [] s' /\ s_owner s' = Owner req /\
       sessions (w_store w') !! newID = Some (w_nextSess w)) /\
    (reason = ""%string <-> Invalid req = false /\ Requested req = false) /\
    (forall i p, sessions (w_store w) !! i = Some p -> (p, ReleaseReplaced) ∉ rel ->
       sessions (w_store w') !! i = Some p) /\
    (forall p s, w_sess w !! p = Some s ->
       (w_sess w' !! p = Some s /\ (p, ReleaseReplaced) ∉ rel) \/
       (named w req p s /\ s_owner s = Owner req /\ rel = [(p, ReleaseReplaced)] /\
        sessions (w_store w') !! SessionID req <> Some p /\
        exists s1, w_sess w' !! p = Some s1 /\ s_state s1 = stateClosed)).
Proof.
  intros Hr Hun Hq Hnew Hno. pose proof (reachable_good o w Hr) as [[Hw _] _].
  pose proof (core_unbound w c Hw Hun) as Hc.
  destruct (Open_refuse w c req now newID Hw Hno Hq) as (w1 & reason & rel & Hrw & ->).
  destruct (refused_core _ _ _ _ _ _ Hw Hrw) as (Hw1 & Ecl & Eo & _ & Hnone & Hlive).
  assert (w_nextSess w1 = w_nextSess w) as Enx by (eapply refused_next; done).
  case_bool_decide as Hid.
  { subst newID. exists w1, reason, rel. split; [|split; [by eapply refused_reason|split]].
    - split; [done|]. split; [done|]. split; [done|]. split.
      + intros p [t Ht]. destruct (Hlive p t Ht) as (t0 & Ht0 & _). by eexists.
      + intros i p. by apply (refused_index w req now w1 reason rel).
    - intros i p Hi Hrel. by apply (refused_tokens w req now w1 reason rel).
    - intros p s Hps. destruct (refused_others w req now w1 reason rel p s Hw Hrw Hps)
        as [?|(H1 & H2 & H3 & H4 & H5)]; [by left|right]. rewrite H4. by split_and!. }
  destruct Hnew as [|Hnew]; [done|].
  destruct (open_fresh_core w1 c (Owner req) newID reason) as (Hw2 & Hp & E0 & E1 & E2 & E3);
    [done| |done|by apply Hnone|].
  { intros q t Ht. destruct (Hlive q t Ht) as (t0 & Ht0 & ->). by eapply Hc. }
  rewrite Enx in *. set (w2 := (open_fresh w1 c (Owner req) newID reason).1) in *.
  exists w2, reason, rel. split; [exists (fresh_session (opt (w_store w1)) newID (Owner req) c)|].
  { split; [by rewrite E0|]. split; [by rewrite E2, lookup_total_insert_eq|].
    split; [by rewrite E2, lookup_total_insert_eq|].
    split; [intros c' Hne; rewrite E2, lookup_insert_ne by done; by rewrite Ecl|].
    split; [by rewrite E1, lookup_insert_eq|].
    split; [apply fresh_ok; apply (iv_limits w1 Hw1)|]. split; [done|].
    rewrite E3. cbn. by rewrite lookup_insert_eq. }
  split; [by eapply refused_reason|]. split.
  { intros i p Hi Hrel. rewrite E3. cbn [st_sessions sessions].
    rewrite lookup_insert_ne by congruence. by apply (refused_tokens w req now w1 reason rel). }
  intros p s Hps.
  assert (w_nextSess w <> p) as Hne by (apply (iv_alloc w Hw) in Hps; lia).
  rewrite E1, lookup_insert_ne by done.
  destruct (refused_others w req now w1 reason rel p s Hw Hrw Hps) as [?|(H1 & H2 & H3 & H4 & H5)]; [by left|right].
  split; [done|]. split; [done|]. split; [done|]. split; [|done]. rewrite E3. cbn [st_sessions sessions].
  intros [[_ E]|[_ E]]%lookup_insert_Some; congruence.
Qed.

(** Another user presents the token, when there is no entropy and when there is. *)
Lemma demo_not_resumable p s log : named demo_world (resume_from "tok" 2 "evil") p s -> logged log s ->
  ~ resumable s log (resume_from "tok" 2 "evil") 50 (TTL (opt (w_store demo_world))).
Proof.
  intros (_ & _ & Hi & Hp) _ [_ Ho _ _ _].
  assert (Some 0%nat = Some p) as [= <-] by (rewrite <- Hi; by vm_compute).
  apply lookup_total_correct in Hp. rewrite <- Hp in Ho. vm_compute in Ho. discriminate Ho.
Qed.

Lemma resume_refused_witness :
  (exists w' reason rel s',
    Open demo_world 1%nat (resume_from "tok" 2 "evil") 50 "new"
      = Some (w', mkResult (Some (w_nextSess demo_world)) false reason 0 None None, rel) /\
    w_sess w' !! w_nextSess demo_world = Some s' /\ s_owner s' = "evil"%string) /\
  (exists w' reason rel,
    Open demo_world 1%nat (resume_from "tok" 2 "evil") 50 "" = Some (w', refused reason, rel) /\
    w_clients w' = w_clients demo_world).
Proof.
  destruct (resume_refused demo_opts demo_world 1%nat (resume_from "tok" 2 "evil") 50 "new")
    as (w1 & reason1 & rel1 & (s1 & A1 & _ & _ & _ & A2 & _ & A3 & _) & _);
    [exact demo_reachable|by vm_compute|done|right; by vm_compute|exact demo_not_resumable|].
  destruct (resume_refused demo_opts demo_world 1%nat (resume_from "tok" 2 "evil") 50 "")
    as (w2 & reason2 & rel2 & (B1 & B2 & _) & _);
    [exact demo_reachable|by vm_compute|done|by left|exact demo_not_resumable|].
  split; [exists w1, reason1, rel1, s1; exact (conj A1 (conj A2 A3))|].
  exists w2, reason2, rel2. exact (conj B1 B2).
Defined.

(** C21: a session that is closed stays closed, logs nothing more and cannot be
    resumed, whatever is called afterwards. *)
Theorem closed_absorbing o w p s l w' :
  reachable o w -> w_sess w !! p = Some s -> s_state s = stateClosed ->
  runb w l = Some w' ->
  exists s', w_sess w' !! p = Some s' /\ s_state s' = stateClosed /\ s_next s' = s_next s /\
    forall i, sessions (w_store w') !! i <> Some p.
Proof.
  intros Hr Hp Hst Hrun.
  assert (closed_at w' p (s_next s)) as (s' & Hp' & Hst' & Hn').
  { assert (closed_at w p (s_next s)) as Hcl by by exists s. clear Hp Hst.
    revert w Hr Hrun Hcl. induction l as [|i l IH]; intros w Hr; simpl; [by intros [= <-]|].
    destruct (validb w i) eqn:Hv; [|done]. destruct (exec w i) as [w1|] eqn:He; [|done].
    cbn [mbind option_bind]. apply validb_sound in Hv. intros Hrun Hcl.
    apply (IH w1); [by eapply reach_step|done|].
    eapply closed_step; [by eapply reachable_good|done|done|done]. }
  exists s'. split; [done|]. split; [done|]. split; [done|]. intros i Hi.
  pose proof (runb_reachable o w l w' Hr Hrun) as Hr'.
  destruct (reachable_good o w' Hr') as [[Hw' _] _].
  destruct (iv_index w' Hw' i p Hi) as (t & Ht & _ & Hts). congruence.
Qed.

(** Client 0's session after the server disconnected the peer for good. *)
Definition kicked_world : world := default (init demo_opts) (runb (init demo_opts)
  [ONew 0%nat demo_client 0; OOpen 0%nat no_resume 0 "tok"; OClose 0%nat true; OLeave 0%nat 0%nat 10]).
Definition after_kick : list op :=
  [OSend 0%nat (demo_event 1) PolicyDisconnect; ONew 1%nat demo_client 20;
   OOpen 1%nat (resume_from "tok" 0 "u") 30 "new"].

Lemma closed_absorbing_witness :
  exists s', w_sess (default kicked_world (runb kicked_world after_kick)) !! 0%nat = Some s' /\
    s_state s' = stateClosed /\ s_next s' = s_next (w_sess kicked_world !!! 0%nat) /\
    forall i, sessions (w_store (default kicked_world (runb kicked_world after_kick))) !! i
              <> Some 0%nat.
Proof.
  apply (closed_absorbing demo_opts kicked_world 0%nat (w_sess kicked_world !!! 0%nat) after_kick).
  - eapply (runb_reachable _ _ [ONew 0%nat demo_client 0; OOpen 0%nat no_resume 0 "tok";
      OClose 0%nat true; OLeave 0%nat 0%nat 10]); [apply reach_init|by vm_compute].
  - by vm_compute.
  - by vm_compute.
  - by vm_compute.
Defined.

(** C19: a disconnect that may be resumed parks the session: its token stays,
    its log is kept, and it is not the one evicted, whatever the cap. At most
    one session is evicted, only when the list was full, and then it is the
    one parked first. *)
Theorem leave_parks o w p c now s log :
  reachable o w -> w_sess w !! p = Some s -> s_state s <> stateClosed -> s_live s = Some c ->
  logged log s ->
  exists w' s' evicted,
    Leave w p c true now = Some (w', LeaveParked, map (fun v => (v, ReleaseEvicted)) evicted) /\
    w_sess w' !! p = Some s' /\ s_state s' = stateParked /\ s_parked s' = now /\ s_live s' = None /\
    logged log s' /\ sessions (w_store w') !! s_id s = Some p /\
    evicted = (if len (parked (w_store w)) <? MaxParked (opt (w_store w)) then []
               else map snd (take 1 (parked (w_store w)))) /\
    (forall v, v ∈ evicted -> v <> p /\ exists t, w_sess w' !! v = Some t /\ s_state t = stateClosed) /\
    map snd (parked (w_store w')) = drop (length evicted) (map snd (parked (w_store w))) ++ [p].
Proof.
  intros Hr Hp Hst Hlive Hl. pose proof (reachable_good o w Hr) as [[Hw Hmax] _].
  destruct (Leave_effect w p c s true now Hw Hp) as (w' & r & rel & -> & Hlv).
  destruct Hlv as [| |w' _ _ Hres _|w' vs Hat _ _ Hcf Hlen]; [done|done|done|].
  assert (w_sess (parked_world w p c now) !! p
    = Some (parked_session s now (nextElem (w_store w)))) as Hp1.
  { unfold parked_world. cbn [w_sess]. by rewrite lookup_insert_eq, (lookup_total_correct _ _ _ Hp). }
  pose proof (iv_max w Hw) as Hm1.
  destruct Hcf as [C1 C2 C3 (es & C4 & C4') C5 C6 C7].
  cbn [parked_world w_store st_parked parked] in C4. subst vs. rewrite len_map in Hlen.
  assert (exists es', parked (w_store w) = es ++ es' /\
    parked (w_store w') = es' ++ [(nextElem (w_store w), p)]) as (es' & Hes & Hes').
  { symmetry in C4. apply app_eq_inv in C4 as [(k & -> & Hk)|(k & Hk & Hk')].
    - exists []. destruct k as [|x k]; [by rewrite !app_nil_r in *|].
      exfalso. apply (f_equal len) in Hk. unfold len in *. rewrite !length_app in *. simpl in *. lia.
    - by exists k. }
  assert (p ∉ map snd es) as Hpes.
  { intros Hin. destruct (C5 p Hin) as (t & Ht & Hts & Ht').
    assert (p ∈ map snd (parked (w_store w))) as Hpp by (rewrite Hes, map_app; set_solver).
    apply list_elem_of_In, in_map_iff in Hpp as ([e q] & Hq & Hin'). simpl in Hq. subst q.
    apply list_elem_of_In, (iv_list w Hw) in Hin' as (t' & Ht2 & He').
    assert (t' = s) as -> by congruence.
    assert (s_state s = stateParked) by (apply (iv_sess w Hw p s Hp); by eexists). congruence. }
  eexists w', _, (map snd es). split; [done|]. split; [by rewrite C6|].
  split; [done|]. split; [done|]. split; [done|]. split; [by apply (logged_same log s)|].
  split; [apply C7; split; [by apply (iv_open w Hw)|done]|].
  rewrite Hes, Hes', !map_app, length_map. cbn [map snd].
  rewrite Hes, len_app in Hlen, Hmax. rewrite len_app.
  pose proof (len_nonneg es'). pose proof (len_nonneg es).
  split; [|split].
  - destruct (Z.ltb_spec (len es + len es') (MaxParked (opt (w_store w)))).
    + destruct es; [done|]. rewrite len_cons in *. pose proof (len_nonneg es). lia.
    + destruct es as [|x [|y es]]; [rewrite len_nil in *; lia|by destruct x|].
      rewrite !len_cons in *. pose proof (len_nonneg es). lia.
  - intros v Hv. split; [intros ->; done|]. destruct (C5 v Hv) as (t & _ & _ & Ht). by eexists.
  - f_equal. symmetry. rewrite <- (length_map snd es). apply drop_app_length.
Qed.

(** Two sessions and a cap of one: parking the second evicts the first. *)
Definition crowded_ops : list op :=
  [ONew 0%nat demo_client 0; OOpen 0%nat no_resume 0 "a"; OLeave 0%nat 0%nat 10;
   ONew 1%nat demo_client 20; OOpen 1%nat no_resume 20 "b"].
Definition crowded_world : world := default (init demo_opts) (runb (init demo_opts) crowded_ops).

Lemma crowded_reachable : reachable demo_opts crowded_world.
Proof. eapply (runb_reachable _ _ crowded_ops); [apply reach_init|by vm_compute]. Qed.

Lemma leave_parks_witness :
  exists w' s' evicted,
    Leave crowded_world 1%nat 1%nat true 30
      = Some (w', LeaveParked, map (fun v => (v, ReleaseEvicted)) evicted) /\
    w_sess w' !! 1%nat = Some s' /\ s_state s' = stateParked /\ s_parked s' = 30 /\
    s_live s' = None /\ logged [] s' /\
    sessions (w_store w') !! s_id (w_sess crowded_world !!! 1%nat) = Some 1%nat /\
    evicted = (if len (parked (w_store crowded_world)) <? MaxParked (opt (w_store crowded_world))
               then [] else map snd (take 1 (parked (w_store crowded_world)))) /\
    (forall v, v ∈ evicted -> v <> 1%nat /\
       exists t, w_sess w' !! v = Some t /\ s_state t = stateClosed) /\
    map snd (parked (w_store w'))
      = drop (length evicted) (map snd (parked (w_store crowded_world))) ++ [1%nat].
Proof.
  apply (leave_parks demo_opts crowded_world 1%nat 1%nat 30 (w_sess crowded_world !!! 1%nat) []).
  - apply crowded_reachable.
  - by vm_compute.
  - by vm_compute.
  - by vm_compute.
  - constructor; [by vm_compute|by vm_compute| |by exists 0%nat].
    constructor; [vm_compute; lia|by vm_compute|by vm_compute|split; by vm_compute].
Defined.

(** The sessions are parked in the order of their park times. *)
Definition parked_in_order (w : world) : Prop :=
  StronglySorted (fun p q => s_parked (w_sess w !!! p) <= s_parked (w_sess w !!! q))
    (map snd (parked (w_store w))).

Lemma sorted_app_rel {A} (R : A -> A -> Prop) l1 x l2 y : StronglySorted R (l1 ++ x :: l2) ->
  y ∈ l2 -> R x y.
Proof.
  induction l1 as [|z l1 IH]; simpl; intros Hs Hy; apply StronglySorted_inv in Hs as [H1 H2].
  - rewrite Forall_forall in H2. by apply H2.
  - by apply IH.
Qed.

(** C20: a sweep closes a front part of the parked list, all of it out of time,
    and reports it as expired; it leaves every other session, and the tokens
    of the others, alone. When the sessions are parked in the order of their
    park times, it closes exactly those out of time. *)
Theorem sweep_exact o w now :
  reachable o w ->
  exists w' swept,
    Sweep w now = Some (w', map (fun v => (v, ReleaseExpired)) swept) /\
    map snd (parked (w_store w)) = swept ++ map snd (parked (w_store w')) /\
    (forall p, p ∈ swept -> expired w now p /\
       exists s, w_sess w' !! p = Some s /\ s_state s = stateClosed) /\
    (forall p, p ∉ swept -> w_sess w' !! p = w_sess w !! p) /\
    (forall i p, sessions (w_store w') !! i = Some p <->
       sessions (w_store w) !! i = Some p /\ p ∉ swept) /\
    (parked_in_order w ->
       forall p, p ∈ map snd (parked (w_store w)) -> (p ∈ swept <-> expired w now p)).
Proof.
  intros Hr. pose proof (reachable_good o w Hr) as [[Hw Hmax] _].
  destruct (sweep_loop_effect (length (parked (w_store w))) w now [] Hw)
    as (w' & vs & Hsw & Hcf & Hexp & Hfront); [done|]. unfold Sweep. rewrite Hsw.
  cbn [mbind option_bind]. rewrite app_nil_l. exists w', vs. split; [done|].
  destruct Hcf as [C1 C2 C3 (es & C4 & C4') C5 C6 C7].
  assert (map snd (parked (w_store w)) = vs ++ map snd (parked (w_store w'))) as Hparts
    by by rewrite C4, map_app, C4'.
  split; [done|]. split.
  { intros p Hp. split; [by apply Hexp|]. destruct (C5 p Hp) as (s & _ & _ & ->). by eexists. }
  split; [done|]. split; [done|].
  intros Hord p Hp. split; [by apply Hexp|]. intros He. rewrite Hparts in Hp.
  apply elem_of_app in Hp as [Hp|Hp]; [done|]. exfalso.
  destruct (parked (w_store w')) as [|[e q] l] eqn:Hl; simpl in Hp; [by apply elem_of_nil in Hp|].
  apply (Hfront e q l eq_refl). destruct He as (s & Hs & Hse).
  assert (q ∉ vs) as Hqv.
  { intros Hin. destruct (C5 q Hin) as (t & _ & _ & Ht).
    assert ((e, q) ∈ parked (w_store w')) as Hin' by (rewrite Hl; by left).
    apply (iv_list w' C1) in Hin' as (t' & Ht' & He'). rewrite Ht in Ht'. by injection Ht' as <-. }
  assert (exists t, w_sess w !! q = Some t) as [t Ht].
  { assert ((e, q) ∈ parked (w_store w)) as Hin by (rewrite C4; apply elem_of_app; right; by left).
    apply (iv_list w Hw) in Hin as (t & ? & _). by exists t. }
  exists t. rewrite C6, C3 by done. split; [done|].
  apply elem_of_cons in Hp as [->|Hp]; [simplify_eq; done|].
  unfold parked_in_order in Hord. rewrite Hparts in Hord. simpl in Hord.
  pose proof (sorted_app_rel _ _ _ _ p Hord Hp) as Hle. simpl in Hle.
  rewrite (lookup_total_correct _ _ _ Ht), (lookup_total_correct _ _ _ Hs) in Hle. lia.
Qed.

Lemma sweep_exact_witness :
  exists w' swept,
    Sweep demo_world 111 = Some (w', map (fun v => (v, ReleaseExpired)) swept) /\
    map snd (parked (w_store demo_world)) = swept ++ map snd (parked (w_store w')) /\
    (forall p, p ∈ swept -> expired demo_world 111 p /\
       exists s, w_sess w' !! p = Some s /\ s_state s = stateClosed) /\
    (forall p, p ∉ swept -> w_sess w' !! p = w_sess demo_world !! p) /\
    (forall i p, sessions (w_store w') !! i = Some p <->
       sessions (w_store demo_world) !! i = Some p /\ p ∉ swept) /\
    (parked_in_order demo_world ->
       forall p, p ∈ map snd (parked (w_store demo_world)) -> (p ∈ swept <-> expired demo_world 111 p)).
Proof. apply (sweep_exact demo_opts), demo_reachable. Defined.

End registry.
