(* ===== verification/Recovery.v ===== *)
(** * What a recovering peer observes

    The registry of [Registry.v] together with one peer that follows the
    documented protocol: it handles the frames of its connection in order,
    remembers the number of the last sequenced frame, may lose its connection
    at any moment and reconnects with that number. Everything else (other
    peers, acknowledgements, sweeps, sends under any policy, slow consumers)
    happens in between at will. [log] is the list of the events committed to
    the session, which exists only in this file. *)
From stdpp Require Import relations.
From S2P Require Import Prelude.
From S2P Require Import GoStd.
From S2P Require Import Json.
From S2P Require Import Replay.
From S2P Require Import Client.
From S2P Require Import Session.
From S2P Require Import SessionStore.
From S2P Require Import SessionInv.
From S2P Require Import Registry.

Module recovery.
Import client session store inv registry.

(** ** The peer *)

Record peer := mkPeer {
  p_conn : option cptr;        (* its connection, while it believes to have one *)
  p_wire : list bytes;         (* written by the server, not yet read *)
  p_got : list bytes;          (* sequenced events handled, in order *)
  p_last : Z                   (* the last sequence number seen *)
}.

Definition receive (pr : peer) (f : bytes) (wire : list bytes) : peer :=
  match unstamp f with
  | Some (n, d) => mkPeer (p_conn pr) wire (p_got pr ++ [d]) n
  | None => mkPeer (p_conn pr) wire (p_got pr) (p_last pr)
  end.

Record sys := mkSys { y_w : world; y_log : list bytes; y_peer : peer }.

(** Events are JSON objects that do not begin with a number of their own. *)
Definition valid_event (w : world) (i : op) : Prop :=
  valid w i /\ match i with OSend _ data _ => event_frame data | _ => True end.

Definition log_after (p : sptr) (w w' : world) (i : op) (log : list bytes) : list bytes :=
  match i with
  | OSend _ data _ =>
      if s_next (w_sess w' !!! p) =? s_next (w_sess w !!! p) then log else log ++ [data]
  | _ => log
  end.

Inductive sstep (p : sptr) : sys -> sys -> Prop :=
  | ss_op w log pr i w' :
      valid_event w i -> (forall c, i = OPump c -> p_conn pr <> Some c) -> exec w i = Some w' ->
      sstep p (mkSys w log pr) (mkSys w' (log_after p w w' i log) pr)
  | ss_write w log pr c f cl :
      p_conn pr = Some c -> next_frame (w_clients w !!! c) = Some (f, cl) ->
      sstep p (mkSys w log pr)
        (mkSys (set_client w c cl) log (mkPeer (Some c) (p_wire pr ++ [f]) (p_got pr) (p_last pr)))
  | ss_read w log pr f wire :
      p_wire pr = f :: wire -> sstep p (mkSys w log pr) (mkSys w log (receive pr f wire))
  | ss_cut w log pr :
      sstep p (mkSys w log pr) (mkSys w log (mkPeer None [] (p_got pr) (p_last pr)))
  | ss_resume w log pr c token owner now newID w' res rel :
      let req := mkRequest true false token (p_last pr) owner in
      valid w (OOpen c req now newID) -> Open w c req now newID = Some (w', res, rel) ->
      sstep p (mkSys w log pr)
        (mkSys w' log (mkPeer (if decide (r_Session res = Some p) then Some c else None) []
                         (p_got pr) (p_last pr))).

(** States of the registry when only well-formed events are sent. *)
Inductive wreach (o : SessionOptions) : world -> Prop :=
  | wreach_init : wreach o (init o)
  | wreach_step w i w' : wreach o w -> valid_event w i -> exec w i = Some w' -> wreach o w'.

(** The peer's first connection opens session [p]. *)
Inductive sreach (o : SessionOptions) (p : sptr) : sys -> Prop :=
  | sreach_start w c req now newID w' res rel :
      wreach o w -> valid w (OOpen c req now newID) ->
      Open w c req now newID = Some (w', res, rel) ->
      r_Session res = Some p -> r_Resumed res = false ->
      sreach o p (mkSys w' [] (mkPeer (Some c) [] [] 0))
  | sreach_step y y' : sreach o p y -> sstep p y y' -> sreach o p y'.

Lemma sys_eta y : mkSys (y_w y) (y_log y) (y_peer y) = y.
Proof. by destruct y. Qed.

(** ** The frames of a stream that carry numbers *)

Definition seqs (l : list bytes) : list replay.replayEntry :=
  omap (fun f => '(n, d) ← unstamp f; Some (replay.mkEntry n d)) l.

Lemma seqs_app l1 l2 : seqs (l1 ++ l2) = seqs l1 ++ seqs l2.
Proof. apply omap_app. Qed.

Lemma seqs_plain l : Forall (fun f => unstamp f = None) l -> seqs l = [].
Proof. unfold seqs. induction 1 as [|f l Hf Hl IH]; simpl; [done|]. by rewrite Hf. Qed.

Lemma seqs_stamped lo l : Forall event_frame l -> 0 <= lo -> lo + len l <= 2 ^ 64 ->
  seqs (stamped (numbered lo l)) = numbered lo l.
Proof.
  intros Hl. revert lo. induction Hl as [|d l Hd Hl IH]; intros lo Hlo Hb; [done|].
  rewrite len_cons in Hb. pose proof (len_nonneg l). unfold seqs. simpl.
  rewrite unstamp_stamp by (done || lia). simpl. f_equal. apply IH; lia.
Qed.

Lemma seqs_sessionFrame i r n q reason : unstamp (sessionFrame i r n q reason) = None.
Proof. reflexivity. Qed.

(** A session that numbers what it sends on client [c]. *)
Definition online (s : Session) (c : cptr) : Prop :=
  s_state s <> stateClosed /\ s_live s = Some c /\ s_stalled s = false.

(** [s'] continues [s]: it has the same log, and is online at most where [s] was. *)
Definition continues (s s' : Session) (c : cptr) : Prop :=
  (forall log, logged log s -> logged log s') /\ (online s' c -> online s c).

Lemma continues_refl s c : continues s s c.
Proof. by split. Qed.

Lemma continues_same s s' c : s_next s' = s_next s -> s_buf s' = s_buf s ->
  (online s' c -> online s c) -> continues s s' c.
Proof. intros En Eb Ho. split; [|done]. intros log. by apply logged_same. Qed.

(** [p] in a heap in which session [q] was replaced. *)
Lemma insert_continues (m : gmap sptr Session) p q s sq sq' c : m !! p = Some s -> m !! q = Some sq ->
  continues sq sq' c -> exists s', <[q := sq']> m !! p = Some s' /\ continues s s' c.
Proof.
  intros Hp Hq Hc. destruct (decide (q = p)) as [->|Hne].
  - exists sq'. rewrite lookup_insert_eq. by simplify_eq.
  - exists s. rewrite lookup_insert_ne by done. split; [done|apply continues_refl].
Qed.

Lemma front_continues w w' vs p s c : closed_front w w' vs -> w_sess w !! p = Some s ->
  exists s', w_sess w' !! p = Some s' /\ continues s s' c.
Proof.
  intros [_ _ _ _ C5 C6 _] Hp. destruct (decide (p ∈ vs)) as [Hin|Hin].
  - destruct (C5 p Hin) as (s0 & Hs0 & _ & ->). simplify_eq. eexists. split; [done|].
    apply continues_same; [done|done|]. intros (H & _). done.
  - exists s. rewrite C6 by done. split; [done|apply continues_refl].
Qed.

Lemma leave_continues w q c0 r now w' res rel p s c : good w -> is_Some (w_sess w !! q) ->
  Leave w q c0 r now = Some (w', res, rel) -> w_sess w !! p = Some s ->
  exists s', w_sess w' !! p = Some s' /\ continues s s' c.
Proof.
  intros [[Hw _] _] [sq Hq] HL Hp.
  destruct (Leave_effect w q c0 sq r now Hw Hq) as (w1 & r1 & rel1 & HL' & Hlv).
  rewrite HL in HL'. injection HL' as <- <- <-.
  destruct Hlv as [| |w' Hst Hlv Hres Hw' E1 E2 E3 E4 E5|w' vs Hst Hlv Hres Hcf Hlen].
  - exists s. split; [done|apply continues_refl].
  - exists s. split; [done|apply continues_refl].
  - rewrite E3. eapply insert_continues; [done|done|]. apply continues_same; [done|done|].
    intros (H & _). done.
  - assert (exists s1, w_sess (parked_world w q c0 now) !! p = Some s1 /\ continues s s1 c)
      as (s1 & Hs1 & [Hc1 Hc2]).
    { unfold parked_world. cbn [w_sess]. rewrite (lookup_total_correct _ _ _ Hq).
      eapply insert_continues; [done|done|]. apply continues_same; [done|done|].
      intros (_ & H & _). done. }
    destruct (front_continues _ _ _ p s1 c Hcf Hs1) as (s2 & Hs2 & [Hd1 Hd2]).
    exists s2. split; [done|]. split; auto.
Qed.

Lemma open_continues w c0 req now newID w' res rel p s c : good w ->
  valid w (OOpen c0 req now newID) -> Open w c0 req now newID = Some (w', res, rel) ->
  w_sess w !! p = Some s -> c <> c0 ->
  exists s', w_sess w' !! p = Some s' /\ continues s s' c.
Proof.
  intros [[Hw _] _] (Hun & Hq & Hnew) HO Hp Hne. pose proof (core_unbound w c0 Hw Hun) as Hc.
  destruct (resumable_dec_named w req now (TTL (opt (w_store w))) Hw Hq)
    as [(q & sq & log & Hn & Hl & Hr)|Hno].
  - destruct (Open_resume w c0 req now newID q sq log Hw Hc Hn Hl Hq Hr)
      as (w2 & b & HO' & _ & Hlb & E1 & _). rewrite HO in HO'. injection HO' as <- _ _.
    rewrite E1. eapply insert_continues; [done|apply Hn|]. split.
    + intros log' Hl'.
      assert (resumable sq log' req now (TTL (opt (w_store w)))) as Hr'
        by (apply verdict_resumable; [done..|]; by apply (verdict_resumable sq log)).
      destruct (Open_resume w c0 req now newID q sq log' Hw Hc Hn Hl' Hq Hr')
        as (w3 & b' & HO3 & _ & Hlb' & E3 & _). rewrite HO in HO3. injection HO3 as <- _ _.
      rewrite E1 in E3. apply (f_equal (fun m => m !! q)) in E3.
      rewrite !lookup_insert_eq in E3. by injection E3 as ->.
    + intros (_ & H & _). simpl in H. congruence.
  - destruct (Open_refuse w c0 req now newID Hw Hno Hq) as (w1 & reason & rel' & Hrw & HO').
    rewrite HO in HO'. injection HO' as -> _ _.
    destruct (refused_core _ _ _ _ _ _ Hw Hrw) as (Hw1 & Ecl & _ & _ & Hnone & Hlive).
    assert (exists s1, w_sess w1 !! p = Some s1 /\ continues s s1 c) as (s1 & Hs1 & Hc1).
    { clear HO. destruct Hrw as [| | | |q sq w1' rs Hn Ho Hrs ->];
        try by (exists s; split; [done|apply continues_refl]).
      destruct (named_open w req q sq Hw Hn) as [Hst _]. destruct Hn as (_ & _ & _ & Hpq).
      destruct (close_core w q sq (set_state sq stateClosed) Hw Hpq Hst) as (_ & E & _);
        try done; [by left|by apply sess_ok_kill, (iv_sess w Hw q)|].
      rewrite E. eapply insert_continues; [done|done|]. apply continues_same; [done|done|].
      intros (H & _). done. }
    destruct (decide (newID = ""%string)) as [->|Hid]; [by exists s1|].
    destruct (open_fresh_core w1 c0 (Owner req) newID reason) as (_ & Hpn & _ & E1 & _);
      [done| |done|by apply Hnone|].
    { intros q t Ht. destruct (Hlive q t Ht) as (t0 & Ht0 & ->). by eapply Hc. }
    exists s1. rewrite E1, lookup_insert_ne; [done|]. intros <-. by rewrite Hpn in Hs1.
Qed.

Definition is_send (i : op) : bool := match i with OSend _ _ _ => true | _ => false end.

(** Every call but a send leaves the log of a session alone and never brings
    it online for a client bound earlier. *)
Lemma quiet_session w i w' p s c : good w -> valid w i -> exec w i = Some w' ->
  is_send i = false -> w_sess w !! p = Some s ->
  match i with OOpen c0 _ _ _ => c <> c0 | _ => True end ->
  exists s', w_sess w' !! p = Some s' /\ continues s s' c.
Proof.
  intros Hg Hv He Hi Hp Hc. pose proof Hg as [[Hw _] _].
  destruct i as [| |c0 data pol|q n|q key| | |q c0 now|now|c0 n|]; cbn [exec] in He;
    [| |done| | | | | | | |].
  - injection He as <-. exists s. split; [done|apply continues_refl].
  - destruct (Open _ _ _ _ _) as [[[w2 res] rel]|] eqn:HO; [|done]. injection He as <-.
    by eapply open_continues.
  - destruct Hv as [sq Hq]. rewrite (lookup_total_correct _ _ _ Hq) in He.
    destruct (Ack sq n) as [sq'|] eqn:Ha; [|done]. injection He as <-.
    eapply insert_continues; [done|done|]. split.
    + intros log Hl. destruct (Ack_logged log sq n Hl) as (s2 & Ha2 & Hl2 & _). congruence.
    + destruct (so_log sq (iv_sess w Hw q sq Hq)) as [log Hl].
      destruct (Ack_logged log sq n Hl) as (s2 & Ha2 & _ & Hs2). assert (sq' = s2) as -> by congruence.
      by rewrite Hs2.
  - destruct Hv as [sq Hq]. rewrite (lookup_total_correct _ _ _ Hq) in He. unfold ClaimKey in He.
    destruct (keys.claim _ _) as [[ok k]|]; [|done]. injection He as <-.
    eapply insert_continues; [done|done|]. by apply continues_same.
  - exists s. split; [|apply continues_refl]. by destruct (next_frame _) as [[f cl]|]; injection He as <-.
  - exists s. split; [|apply continues_refl]. by destruct (shutdown_call _ _); [injection He as <-|].
  - destruct (Leave _ _ _ _ _) as [[[w2 res] rel]|] eqn:HL; [|done]. injection He as <-.
    by eapply leave_continues.
  - unfold Sweep in He. destruct (sweep_loop_effect (length (parked (w_store w))) w now [] Hw)
      as (w2 & vs & Hsw & Hcf & _); [done|]. rewrite Hsw in He. injection He as <-.
    by eapply front_continues.
  - injection He as <-. exists s. split; [done|apply continues_refl].
  - injection He as <-. exists s. split; [done|apply continues_refl].
Qed.

Lemma quiet_log w i w' p s : good w -> valid w i -> exec w i = Some w' ->
  is_send i = false -> w_sess w !! p = Some s ->
  exists s', w_sess w' !! p = Some s' /\ (forall log, logged log s -> logged log s').
Proof.
  intros Hg Hv He Hi Hp.
  destruct (quiet_session w i w' p s (match i with OOpen c0 _ _ _ => S c0 | _ => 0%nat end)
    Hg Hv He Hi Hp) as (s' & ? & [? _]); [|by exists s'].
  by destruct i.
Qed.

(** What a client keeps: its session and the frames queued for it. *)
Definition same_queue (w w' : world) (c : cptr) : Prop :=
  client.session (w_clients w' !!! c) = client.session (w_clients w !!! c) /\
  unwritten (w_clients w' !!! c) = unwritten (w_clients w !!! c).

Lemma same_queue_insert w w' c0 cl c : w_clients w' = <[c0 := cl]> (w_clients w) ->
  (c = c0 -> client.session cl = client.session (w_clients w !!! c) /\
             unwritten cl = unwritten (w_clients w !!! c)) ->
  same_queue w w' c.
Proof.
  intros E H. unfold same_queue. rewrite E. destruct (decide (c0 = c)) as [->|Hne].
  - rewrite lookup_total_insert_eq. by apply H.
  - by rewrite lookup_total_insert_ne.
Qed.

Lemma open_clients w c0 req now newID w' res rel : core w ->
  client.session (w_clients w !!! c0) = None -> 0 <= LastSeq req ->
  sessions (w_store w) !! newID = None -> Open w c0 req now newID = Some (w', res, rel) ->
  w_clients w' = w_clients w \/
  exists q fs, w_clients w' = <[c0 := with_binding (w_clients w !!! c0) (Some q) fs
                                        (meta (w_clients w !!! c0))]> (w_clients w).
Proof.
  intros Hw Hun Hq Hnew HO. pose proof (core_unbound w c0 Hw Hun) as Hc.
  destruct (resumable_dec_named w req now (TTL (opt (w_store w))) Hw Hq)
    as [(q & sq & log & Hn & Hl & Hr)|Hno].
  - destruct (Open_resume w c0 req now newID q sq log Hw Hc Hn Hl Hq Hr)
      as (w2 & b & HO' & _ & Hlb & E1 & E2 & _). rewrite HO in HO'. injection HO' as <- _ _.
    right. eauto.
  - destruct (Open_refuse w c0 req now newID Hw Hno Hq) as (w1 & reason & rel' & Hrw & HO').
    rewrite HO in HO'. injection HO' as -> _ _.
    destruct (refused_core _ _ _ _ _ _ Hw Hrw) as (Hw1 & Ecl & _ & _ & Hnone & Hlive).
    destruct (decide (newID = ""%string)) as [->|Hid]; [by left|].
    destruct (open_fresh_core w1 c0 (Owner req) newID reason) as (_ & Hpn & _ & _ & E2 & _);
      [done| |done|by apply Hnone|].
    { intros q t Ht. destruct (Hlive q t Ht) as (t0 & Ht0 & ->). by eapply Hc. }
    right. rewrite E2, Ecl. eauto.
Qed.

Lemma shutdown_same tm cl cl' : shutdown_call tm cl = Some cl' -> client.wf cl ->
  client.session cl' = client.session cl /\ unwritten cl' = unwritten cl.
Proof.
  intros Hs Hwf. unfold unwritten. destruct tm; simpl in Hs.
  - destruct (closeRaw_wf _ (with_noResume_wf cl Hwf)) as (cl2 & H2 & _ & _ & Hb & Hse & Hr & _).
    unfold Shutdown in Hs. rewrite Hs in H2. injection H2 as <-. by rewrite Hb, Hse, Hr.
  - destruct (closeRaw_wf cl Hwf) as (cl2 & H2 & _ & _ & Hb & Hse & Hr & _).
    unfold ShutdownResumable in Hs. rewrite Hs in H2. injection H2 as <-. by rewrite Hb, Hse, Hr.
Qed.

Lemma leave_queue w q c0 r now w' res rel c : good w -> is_Some (w_sess w !! q) ->
  Leave w q c0 r now = Some (w', res, rel) -> same_queue w w' c.
Proof.
  intros [[Hw _] _] [sq Hq] HL.
  destruct (Leave_effect w q c0 sq r now Hw Hq) as (w1 & r1 & rel1 & HL' & Hlv).
  rewrite HL in HL'. injection HL' as <- <- <-.
  destruct Hlv as [| |w' Hst Hlv Hres Hw' E1 E2 E3 E4 E5|w' vs Hst Hlv Hres Hcf Hlen].
  - done.
  - done.
  - unfold same_queue. by rewrite E1.
  - apply (same_queue_insert w w' c0 (set_parked (w_clients w !!! c0)));
      [by rewrite (cf_clients _ _ _ Hcf)|]. by intros ->.
Qed.

(** The calls that make, open or write client [c]. *)
Definition touches (i : op) (c : cptr) : Prop :=
  match i with ONew c' _ _ | OOpen c' _ _ _ | OPump c' => c' = c | _ => False end.
#[export] Instance touches_dec i c : Decision (touches i c).
Proof. destruct i; simpl; apply _. Defined.

(** Every call but a send, and those that make, open or write the client
    itself, keeps the queue of a client. *)
Lemma quiet_queue w i w' c : good w -> valid w i -> exec w i = Some w' -> is_send i = false ->
  ~ touches i c -> same_queue w w' c.
Proof.
  intros Hg Hv He Hi Htouch. pose proof Hg as [[Hw _] _].
  destruct i as [c0 o now|c0 req now newID|c0 data pol|q n|q key|c0|c0 tm|q c0 now|now|c0 n|];
    cbn [exec] in He; [| |done| | | | | | | |].
  - injection He as <-. eapply same_queue_insert; [done|]. intros ->. by destruct Htouch.
  - destruct (Open _ _ _ _ _) as [[[w2 res] rel]|] eqn:HO; [|done]. injection He as <-.
    destruct Hv as (Hun & Hq & Hnew).
    destruct (open_clients w c0 req now newID w2 res rel Hw Hun Hq Hnew HO) as [E|(r & fs & E)].
    + unfold same_queue. by rewrite E.
    + eapply same_queue_insert; [done|]. intros ->. by destruct Htouch.
  - destruct (Ack _ _); [|done]. by injection He as <-.
  - destruct (ClaimKey _ _) as [[? ?]|]; [|done]. by injection He as <-.
  - destruct (next_frame (w_clients w !!! c0)) as [[f cl]|]; injection He as <-; [|done].
    eapply same_queue_insert; [done|]. intros ->. by destruct Htouch.
  - destruct (shutdown_call tm (w_clients w !!! c0)) as [cl|] eqn:Hs; [|done]. injection He as <-.
    eapply same_queue_insert; [done|]. intros ->. by apply (shutdown_same tm _ _ Hs), (g_clients w Hg).
  - destruct (Leave _ _ _ _ _) as [[[w2 res] rel]|] eqn:HL; [|done]. injection He as <-.
    by eapply leave_queue.
  - unfold Sweep in He. destruct (sweep_loop_effect (length (parked (w_store w))) w now [] Hw)
      as (w2 & vs & Hsw & Hcf & _); [done|]. rewrite Hsw in He. injection He as <-.
    unfold same_queue. by rewrite (cf_clients _ _ _ Hcf).
  - injection He as <-. eapply same_queue_insert; [done|]. intros ->.
    destruct (noted_same w (w_clients w !!! c0) n) as (E1 & E2 & E3 & _).
    split; [done|]. unfold unwritten. congruence.
  - by injection He as <-.
Qed.

(** ** Sends *)

(** What a send does to the frames queued on a client of session [p], whose
    log is [log] before and [log'] after. *)
Inductive sent (s s' : Session) (c : cptr) (data : bytes) (log : list bytes)
  : list bytes -> list bytes -> Prop :=
  | sent_plain fs : fs = [] \/ fs = [data] -> (online s' c -> online s c) ->
      sent s s' c data log fs log
  | sent_numbered : online s c -> sent s s' c data log [stamp data (s_next s)] (log ++ [data])
  | sent_stored : ~ online s' c -> sent s s' c data log [] (log ++ [data]).

Lemma if_same {A} (P : Prop) `{Decision P} (a : A) : (if decide P then a else a) = a.
Proof. by destruct (decide P). Qed.

Lemma outcome_sent s s' c q data pol frames logd ok log : same_identity s s' ->
  outcome s q data pol frames logd (s_stalled s') ok ->
  sent s s' c data log (if decide (s_live s = Some c) then frames else []) (log ++ logd).
Proof.
  intros (_ & _ & Est & Eli & _) Ho.
  assert (forall b, s_stalled s = b -> s_stalled s' = b -> online s' c -> online s c) as Hsame.
  { intros b E1 E2 (H1 & H2 & H3). split; [congruence|]. split; congruence. }
  assert (forall fs b, (fs = [] \/ fs = [data]) -> s_stalled s = b -> s_stalled s' = b ->
    sent s s' c data log (if decide (s_live s = Some c) then fs else []) (log ++ [])) as Hplain.
  { intros fs b Hfs E1 E2. rewrite app_nil_r. apply sent_plain; [|by eapply Hsame].
    destruct (decide _); [done|by left]. }
  assert (~ offline s -> s_stalled s = false) as Hon.
  { intros Hn. destruct (s_stalled s) eqn:E; [|done]. destruct Hn. by right. }
  remember (s_stalled s') as st' eqn:Est'.
  destruct Ho as [pol Hc|Hc Ho|Hc Ho Hq|Hc Ho Hq|pol Hc Ho Hp|pol Hc Ho Hp Hq|pol Hc Ho Hp Hq|Hc Ho Hq|Hc Ho Hq];
    rewrite ?if_same.
  - rewrite app_nil_r. apply sent_plain; [by left|]. intros (H & _). congruence.
  - rewrite app_nil_r. apply sent_plain; [by left|]. by eapply Hsame.
  - apply (Hplain _ false); [by right|by apply Hon|done].
  - rewrite app_nil_r. apply sent_plain; [by left|]. eapply Hsame; [by apply Hon|done].
  - apply sent_stored. intros (H1 & H2 & H3). destruct Ho; congruence.
  - destruct (decide (s_live s = Some c)) as [Hl|Hl].
    + apply sent_numbered. split; [done|]. split; [done|]. by apply Hon.
    + apply sent_stored. intros (_ & H & _). congruence.
  - apply sent_stored. intros (_ & _ & H). congruence.
  - rewrite app_nil_r. apply sent_plain; [by left|]. eapply Hsame; [by apply Hon|done].
  - apply sent_stored. intros (_ & _ & H). congruence.
Qed.

Lemma enqueue_unwritten cl f : unwritten (enqueue cl f).1 =
  unwritten cl ++ match (enqueue cl f).2 with enqOK => [f] | _ => [] end.
Proof. unfold unwritten. by rewrite enqueue_replay, enqueue_buf, app_assoc. Qed.

(** A send through a client without a session. *)
Lemma send_unbound w c0 data pol w' : exec w (OSend c0 data pol) = Some w' ->
  client.session (w_clients w !!! c0) = None ->
  w_sess w' = w_sess w /\
  forall c, client.session (w_clients w' !!! c) = client.session (w_clients w !!! c) /\
    exists fs, unwritten (w_clients w' !!! c) = unwritten (w_clients w !!! c) ++ fs /\
      (fs = [] \/ (fs = [data] /\ c = c0)).
Proof.
  intros He Hs. cbn [exec] in He. unfold TrySendPolicy in He. rewrite Hs in He.
  pose proof (enqueue_unwritten (w_clients w !!! c0) data) as Hu.
  pose proof (enqueue_session (w_clients w !!! c0) data) as Hse.
  destruct (enqueue (w_clients w !!! c0) data) as [cl res]. cbn [fst snd] in Hu, Hse.
  assert (exists cl', w' = mkWorld (<[c0 := cl']> (w_clients w)) (w_sess w) (w_nextSess w) (w_store w)
    /\ client.session cl' = client.session cl /\ unwritten cl' = unwritten cl) as (cl' & -> & H1 & H2).
  { destruct res; [|case_decide|]; injection He as <-; eexists; (split; [done|]); done. }
  split; [done|]. intros c. cbn [w_clients]. destruct (decide (c0 = c)) as [<-|Hne].
  - rewrite lookup_total_insert_eq. split; [congruence|]. rewrite H2, Hu. eexists. split; [done|].
    destruct res; auto.
  - rewrite lookup_total_insert_ne by done. split; [done|]. exists []. rewrite app_nil_r. auto.
Qed.

(** A send through a client of session [q]. *)
Lemma send_bound w c0 data pol w' q sq log : good w -> valid w (OSend c0 data pol) ->
  exec w (OSend c0 data pol) = Some w' -> client.session (w_clients w !!! c0) = Some q ->
  w_sess w !! q = Some sq -> logged log sq ->
  exists sq' logd, w_sess w' = <[q := sq']> (w_sess w) /\ logged (log ++ logd) sq' /\
    (logd = [] \/ logd = [data]) /\
    forall c, client.session (w_clients w' !!! c) = client.session (w_clients w !!! c) /\
      exists fs, unwritten (w_clients w' !!! c) = unwritten (w_clients w !!! c) ++ fs /\
        sent sq sq' c data log fs (log ++ logd) /\ (s_live sq <> Some c -> fs = []).
Proof.
  intros [[Hw _] _] Hv He Hs Hq Hl. specialize (Hv q sq Hs Hq). pose proof (lg_next log sq Hl).
  destruct (deliver_contract (w_clients w) sq data pol log Hl ltac:(lia))
    as (cs' & sq' & ok & frames & logd & Hd & Ho & Hl' & Hid & Hqu).
  cbn [exec] in He. unfold TrySendPolicy in He.
  rewrite Hs, (lookup_total_correct _ _ _ Hq), Hd in He. injection He as <-.
  exists sq', logd. split; [done|]. split; [done|]. split; [by destruct Ho; auto|].
  intros c. cbn [w_clients]. destruct (Hqu c) as (H1 & H2 & H3). split; [done|].
  exists (if decide (s_live sq = Some c) then frames else []).
  split; [unfold unwritten; by rewrite H2, H3, app_assoc|].
  split; [by eapply outcome_sent|]. intros Hne. by rewrite decide_False.
Qed.

(** ** Queues of clients that were not opened yet *)

Definition plain (f : bytes) : Prop := unstamp f = None.

Definition plain_queues (w : world) : Prop :=
  forall c, client.session (w_clients w !!! c) = None -> Forall plain (unwritten (w_clients w !!! c)).

Lemma plain_same w w' c : same_queue w w' c ->
  (client.session (w_clients w !!! c) = None -> Forall plain (unwritten (w_clients w !!! c))) ->
  client.session (w_clients w' !!! c) = None -> Forall plain (unwritten (w_clients w' !!! c)).
Proof. intros [-> ->]. done. Qed.

Lemma plain_send w c0 data pol w' : good w -> valid w (OSend c0 data pol) -> event_frame data ->
  exec w (OSend c0 data pol) = Some w' -> plain_queues w -> plain_queues w'.
Proof.
  intros Hg Hv Hev He Hpl c. specialize (Hpl c). pose proof Hg as [[Hw _] Hcl].
  destruct (client.session (w_clients w !!! c0)) as [q|] eqn:Hs.
  - destruct (proj2 (Hcl c0) q Hs) as [sq Hq].
    destruct (so_log sq (iv_sess w Hw q sq Hq)) as [log Hl].
    destruct (send_bound w c0 data pol w' q sq log Hg Hv He Hs Hq Hl)
      as (sq' & logd & _ & _ & _ & Hc). destruct (Hc c) as (-> & fs & -> & _ & Hfs).
    intros Hn. rewrite Hfs, app_nil_r; [by apply Hpl|].
    intros Hlive. pose proof (iv_live w Hw q sq c Hq Hlive). congruence.
  - destruct (send_unbound w c0 data pol w' He Hs) as [_ Hc].
    destruct (Hc c) as (-> & fs & -> & Hfs). intros Hn. apply Forall_app. split; [by apply Hpl|].
    destruct Hfs as [->|[-> _]]; [done|]. constructor; [by apply unstamp_event|done].
Qed.

Lemma plain_exec w i w' : good w -> valid_event w i -> exec w i = Some w' ->
  plain_queues w -> plain_queues w'.
Proof.
  intros Hg [Hv Hev] He Hpl c.
  destruct (is_send i) eqn:Hi; [destruct i; try done; by eapply plain_send|].
  destruct (decide (touches i c)) as [Ht|Ht];
    [|eapply plain_same; [by eapply quiet_queue|apply Hpl]].
  destruct i as [c0 o now|c0 req now id| | | |c0| | | | |]; try done; simpl in Ht; subst c0;
    cbn [exec] in He.
  - injection He as <-. cbn. by rewrite lookup_total_insert_eq.
  - destruct (Open _ _ _ _ _) as [[[w2 res] rel]|] eqn:HO; [|done]. injection He as <-.
    pose proof Hg as [[Hw _] _]. destruct Hv as (Hun & Hq & Hnew).
    destruct (open_clients w c req now id w2 res rel Hw Hun Hq Hnew HO) as [->|(r & fs & ->)];
      [by apply Hpl|]. by rewrite lookup_total_insert_eq.
  - specialize (Hpl c).
    destruct (next_frame (w_clients w !!! c)) as [[f cl]|] eqn:Hn; injection He as <-; [|done].
    cbn [set_client set_clients w_clients]. rewrite lookup_total_insert_eq.
    apply next_frame_unwritten in Hn as [Hu ->]. rewrite Hu in Hpl. intros Hc.
    specialize (Hpl Hc). by apply Forall_cons in Hpl as [_ ?].
Qed.

(** ** The invariant *)

(** The numbered frames on their way to the peer over client [c] are the next
    part of the log, and all the rest of it while the session is online there. *)
Definition in_flight (w : world) (s : Session) (log got wire : list bytes) (c : cptr) : Prop :=
  exists mid rest, log = got ++ mid ++ rest /\
    seqs (wire ++ unwritten (w_clients w !!! c)) = numbered (len got + 1) mid /\
    (online s c -> rest = []).

Record sinv (p : sptr) (y : sys) : Prop := {
  si_good : good (y_w y);
  si_plain : plain_queues (y_w y);
  si_events : Forall event_frame (y_log y);
  si_got : p_last (y_peer y) = len (p_got (y_peer y)) /\
    exists rest, y_log y = p_got (y_peer y) ++ rest;
  si_sess : exists s, w_sess (y_w y) !! p = Some s /\ logged (y_log y) s /\
    match p_conn (y_peer y) with
    | Some c => client.session (w_clients (y_w y) !!! c) = Some p /\
        in_flight (y_w y) s (y_log y) (p_got (y_peer y)) (p_wire (y_peer y)) c
    | None => p_wire (y_peer y) = []
    end
}.

Lemma in_flight_same w w' s s' log got wire c : same_queue w w' c -> (online s' c -> online s c) ->
  in_flight w s log got wire c -> in_flight w' s' log got wire c.
Proof.
  intros [_ E] Ho (mid & rest & H1 & H2 & H3). exists mid, rest. rewrite E. auto.
Qed.

Lemma in_flight_sent w w' s s' log log' got wire c data fs :
  logged log s -> event_frame data -> sent s s' c data log fs log' ->
  unwritten (w_clients w' !!! c) = unwritten (w_clients w !!! c) ++ fs ->
  in_flight w s log got wire c -> in_flight w' s' log' got wire c.
Proof.
  intros Hl Hev Hs E (mid & rest & H1 & H2 & H3). pose proof Hl as [Hn Hb _ _].
  assert (unstamp data = None) as Hp by by apply unstamp_event.
  destruct Hs as [fs Hfs Ho|Hon|Hoff].
  - exists mid, rest. split; [done|]. split; [|auto]. rewrite E, app_assoc, seqs_app, H2.
    replace (seqs fs) with (@nil replay.replayEntry); [by rewrite app_nil_r|].
    destruct Hfs as [->| ->]; [done|]. symmetry. apply seqs_plain. by constructor.
  - specialize (H3 Hon). subst rest. rewrite app_nil_r in H1. exists (mid ++ [data]), [].
    split; [by rewrite H1, app_nil_r, app_assoc|]. split; [|done].
    rewrite E, app_assoc, seqs_app, H2, numbered_app. f_equal.
    pose proof (len_nonneg log). unfold seqs. simpl. rewrite unstamp_stamp by (done || lia).
    simpl. do 2 f_equal. rewrite Hn, H1, len_app. lia.
  - exists mid, (rest ++ [data]). rewrite E, app_nil_r. split; [by rewrite H1, <- !app_assoc|].
    split; [done|]. intros Hon. by destruct Hoff.
Qed.

Lemma sinv_quiet p w log pr i w' : sinv p (mkSys w log pr) -> valid_event w i ->
  (forall c, i = OPump c -> p_conn pr <> Some c) -> exec w i = Some w' -> is_send i = false ->
  sinv p (mkSys w' log pr).
Proof.
  intros [Hg Hpl Hev Hgot (s & Hp & Hl & Hc)] [Hv He'] Hpump He Hi. cbn [y_w y_log y_peer] in *.
  destruct (step_good w i Hg Hv) as (w2 & He2 & Hg'). rewrite He in He2. injection He2 as <-.
  constructor; cbn [y_w y_log y_peer]; [done|by apply (plain_exec w i w')|done|done|].
  destruct (p_conn pr) as [c|] eqn:Hconn.
  - destruct Hc as [Hc Hfl].
    destruct (quiet_session w i w' p s c Hg Hv He Hi Hp) as (s' & Hp' & [Hcl Hco]).
    { destruct i; try done. intros ->. destruct Hv as (Hun & _). congruence. }
    assert (same_queue w w' c) as Hsame.
    { apply (quiet_queue w i w' c Hg Hv He Hi). destruct i; simpl; try tauto; intros ->.
      - unfold lookup_total, map_lookup_total in Hc. cbn [valid] in Hv. rewrite Hv in Hc. done.
      - destruct Hv as (Hun & _). congruence.
      - by destruct (Hpump c). }
    exists s'. split; [done|]. split; [by apply Hcl|]. split; [by destruct Hsame as [-> _]|].
    by eapply in_flight_same.
  - destruct (quiet_log w i w' p s Hg Hv He Hi Hp) as (s' & Hp' & Hcl).
    exists s'. split; [done|]. split; [by apply Hcl|done].
Qed.

Lemma sinv_send p w log pr c0 data pol w' : sinv p (mkSys w log pr) ->
  valid_event w (OSend c0 data pol) -> exec w (OSend c0 data pol) = Some w' ->
  sinv p (mkSys w' (log_after p w w' (OSend c0 data pol) log) pr).
Proof.
  intros [Hg Hpl Hev Hgot (s & Hp & Hl & Hc)] [Hv He'] He. cbn [y_w y_log y_peer] in *.
  destruct (step_good w _ Hg Hv) as (w2 & He2 & Hg'). rewrite He in He2. injection He2 as <-.
  pose proof (plain_exec w _ w' Hg (conj Hv He') He Hpl) as Hpl'.
  pose proof Hg as [[Hw _] Hcl].
  assert (exists s' log' logd, w_sess w' !! p = Some s' /\ logged log' s' /\ log' = log ++ logd /\
    log' = log_after p w w' (OSend c0 data pol) log /\ (logd = [] \/ logd = [data]) /\
    forall c, client.session (w_clients w !!! c) = Some p ->
      client.session (w_clients w' !!! c) = Some p /\
      exists fs, unwritten (w_clients w' !!! c) = unwritten (w_clients w !!! c) ++ fs /\
        sent s s' c data log fs log') as (s' & log' & logd & Hp' & Hl' & Elog & <- & Hld & Hclients).
  { cbn [log_after]. rewrite (lookup_total_correct _ _ _ Hp).
    destruct (client.session (w_clients w !!! c0)) as [q|] eqn:Hs.
    - destruct (proj2 (Hcl c0) q Hs) as [sq Hq].
      destruct (so_log sq (iv_sess w Hw q sq Hq)) as [logq Hlq].
      destruct (decide (q = p)) as [->|Hqp].
      + assert (sq = s) as -> by congruence.
        destruct (send_bound w c0 data pol w' p s log Hg Hv He Hs Hp Hl)
          as (s' & logd & E & Hl' & Hld & Hcc). exists s', (log ++ logd), logd.
        rewrite E, lookup_insert_eq, lookup_total_insert_eq. split; [done|]. split; [done|].
        split; [done|]. rewrite (lg_next _ _ Hl'), (lg_next _ _ Hl). split.
        { destruct Hld as [->| ->]; [by rewrite app_nil_r, Z.eqb_refl|].
          rewrite len_app. change (len [data]) with 1.
          by rewrite (proj2 (Z.eqb_neq _ _)) by lia. }
        split; [done|]. intros c Hc'. destruct (Hcc c) as (-> & fs & ? & ? & _). split; [done|eauto].
      + destruct (send_bound w c0 data pol w' q sq logq Hg Hv He Hs Hq Hlq)
          as (sq' & logd & E & _ & _ & Hcc). exists s, log, [].
        rewrite E, lookup_insert_ne, lookup_total_insert_ne, (lookup_total_correct _ _ _ Hp) by done.
        split; [done|]. split; [done|]. rewrite app_nil_r. split; [done|]. rewrite Z.eqb_refl.
        split; [done|]. split; [by left|]. intros c Hc'. destruct (Hcc c) as (-> & fs & -> & _ & Hfs).
        split; [done|]. exists []. rewrite Hfs; [split; [done|apply sent_plain; auto]|].
        intros Hlive. pose proof (iv_live w Hw q sq c Hq Hlive). congruence.
    - destruct (send_unbound w c0 data pol w' He Hs) as [E Hcc]. exists s, log, [].
      rewrite E, (lookup_total_correct _ _ _ Hp), Z.eqb_refl, app_nil_r. split; [done|].
      split; [done|]. split; [done|]. split; [done|]. split; [by left|]. intros c Hc'.
      destruct (Hcc c) as (-> & fs & -> & Hfs). split; [done|].
      exists []. destruct Hfs as [->|[-> ->]]; [|congruence]. split; [done|apply sent_plain; auto]. }
  constructor; cbn [y_w y_log y_peer]; [done|done| | |].
  - rewrite Elog. apply Forall_app. split; [done|]. destruct Hld as [->| ->]; [done|by constructor].
  - destruct Hgot as [? (rest & ->)]. split; [done|]. exists (rest ++ logd). by rewrite Elog, app_assoc.
  - exists s'. split; [done|]. split; [done|]. destruct (p_conn pr) as [c|]; [|done].
    destruct Hc as [Hc Hfl]. destruct (Hclients c Hc) as [? (fs & Efs & Hsent)]. split; [done|].
    by apply (in_flight_sent w w' s s' log _ (p_got pr) (p_wire pr) c data fs).
Qed.

Lemma sinv_write p w log pr c f cl : sinv p (mkSys w log pr) -> p_conn pr = Some c ->
  next_frame (w_clients w !!! c) = Some (f, cl) ->
  sinv p (mkSys (set_client w c cl) log (mkPeer (Some c) (p_wire pr ++ [f]) (p_got pr) (p_last pr))).
Proof.
  intros [Hg Hpl Hev Hgot (s & Hp & Hl & Hc)] Hconn Hn. cbn [y_w y_log y_peer] in *.
  rewrite Hconn in Hc. destruct Hc as [Hc (mid & rest & H1 & H2 & H3)].
  assert (exec w (OPump c) = Some (set_client w c cl)) as He by (cbn [exec]; by rewrite Hn).
  destruct (step_good w (OPump c) Hg I) as (w2 & He2 & Hg'). rewrite He in He2. injection He2 as <-.
  constructor; cbn [y_w y_log y_peer p_conn p_wire p_got p_last]; [done| |done|done|].
  - by apply (plain_exec w (OPump c)).
  - exists s. split; [done|]. split; [done|]. apply next_frame_unwritten in Hn as [Hu Hse].
    cbn [set_client set_clients w_clients]. rewrite lookup_total_insert_eq. split; [congruence|].
    exists mid, rest. split; [done|]. split; [|done].
    cbn [w_clients set_client set_clients]. rewrite lookup_total_insert_eq.
    rewrite <- H2, Hu, <- app_assoc. done.
Qed.

Lemma sinv_read p w log pr f wire : sinv p (mkSys w log pr) -> p_wire pr = f :: wire ->
  sinv p (mkSys w log (receive pr f wire)).
Proof.
  intros [Hg Hpl Hev [Hlast (r0 & Hr0)] (s & Hp & Hl & Hc)] Hw. cbn [y_w y_log y_peer] in *.
  destruct (p_conn pr) as [c|] eqn:Hconn; [|by rewrite Hw in Hc].
  destruct Hc as [Hc (mid & rest & H1 & H2 & H3)]. rewrite Hw in H2.
  unfold receive. cbn [app] in H2. unfold seqs in H2. cbn [omap list_omap] in H2.
  fold (seqs (wire ++ unwritten (w_clients w !!! c))) in H2.
  destruct (unstamp f) as [[n d]|] eqn:Hu; cbn [mbind option_bind] in H2.
  - destruct mid as [|d' mid]; [done|]. cbn [numbered] in H2. injection H2 as -> -> H2.
    constructor; cbn [y_w y_log y_peer p_conn p_wire p_got p_last]; [done..| |].
    + rewrite len_app. split; [by unfold len; simpl|]. exists (mid ++ rest).
      by rewrite H1, <- app_assoc.
    + exists s. split; [done|]. split; [done|]. rewrite Hconn. split; [done|].
      exists mid, rest. split; [by rewrite H1, <- app_assoc|]. split; [|done].
      rewrite len_app. exact H2.
  - constructor; cbn [y_w y_log y_peer p_conn p_wire p_got p_last]; [done..| |].
    + split; [done|]. by exists r0.
    + exists s. split; [done|]. split; [done|]. rewrite Hconn. split; [done|]. by exists mid, rest.
Qed.

Lemma sinv_cut p w log pr : sinv p (mkSys w log pr) ->
  sinv p (mkSys w log (mkPeer None [] (p_got pr) (p_last pr))).
Proof.
  intros [Hg Hpl Hev Hgot (s & Hp & Hl & Hc)]. constructor; [done..|]. by exists s.
Qed.

Lemma plain_send_queue w c : plain_queues w -> client.session (w_clients w !!! c) = None ->
  seqs (ch_buf (send (w_clients w !!! c))) = [].
Proof.
  intros Hpl Hc. apply seqs_plain. specialize (Hpl c Hc). unfold unwritten in Hpl.
  by apply Forall_app in Hpl as [_ ?].
Qed.

Lemma seqs_resume_frames s log q : logged log s -> Forall event_frame log -> 0 <= q <= len log ->
  seqs (resume_frames s log q) = numbered (q + 1) (drop (Z.to_nat q) log).
Proof.
  intros [_ Hb _ _] Hev Hq. unfold resume_frames.
  change (seqs (?f :: ?l)) with (seqs l). apply seqs_stamped; [by apply Forall_drop|lia|].
  unfold len in *. rewrite length_drop. lia.
Qed.

Lemma sinv_resume p w log pr c token owner now newID w' res rel : sinv p (mkSys w log pr) ->
  let req := mkRequest true false token (p_last pr) owner in
  valid w (OOpen c req now newID) -> Open w c req now newID = Some (w', res, rel) ->
  sinv p (mkSys w' log (mkPeer (if decide (r_Session res = Some p) then Some c else None) []
                          (p_got pr) (p_last pr))).
Proof.
  intros [Hg Hpl Hev [Hlast (r0 & Hr0)] (s & Hp & Hl & _)] req Hv HO. cbn [y_w y_log y_peer] in *.
  assert (exec w (OOpen c req now newID) = Some w') as He by (cbn [exec]; by rewrite HO).
  destruct (step_good w _ Hg Hv) as (w2 & He2 & Hg'). rewrite He in He2. injection He2 as <-.
  destruct (quiet_log w _ w' p s Hg Hv He eq_refl Hp) as (s' & Hp' & Hl').
  constructor; cbn [y_w y_log y_peer p_conn p_wire p_got p_last]; [done| |done|by split; [|exists r0]|].
  { by apply (plain_exec w (OOpen c req now newID)). }
  exists s'. split; [done|]. split; [by apply Hl'|].
  destruct (decide (r_Session res = Some p)) as [Hres|]; [|done].
  pose proof Hg as [[Hw _] _]. pose proof Hv as (Hun & Hq & Hnew).
  pose proof (core_unbound w c Hw Hun) as Hc.
  destruct (resumable_dec_named w req now (TTL (opt (w_store w))) Hw Hq)
    as [(q & sq & logq & Hn & Hlq & Hr)|Hno].
  - pose proof (Open_resume w c req now newID q sq logq Hw Hc Hn Hlq Hq Hr)
      as (w3 & b & HO' & _ & _ & E1 & _). rewrite HO in HO'. injection HO' as <- Hrs _.
    rewrite Hrs in Hres. injection Hres as ->.
    assert (sq = s) as -> by (destruct Hn as (_ & _ & _ & ?); congruence).
    assert (resumable s log req now (TTL (opt (w_store w)))) as Hr'
      by (apply verdict_resumable; [done..|]; by apply (verdict_resumable s logq)).
    destruct (Open_resume w c req now newID p s log Hw Hc Hn Hl Hq Hr')
      as (w3 & b' & HO' & _ & _ & _ & E2 & _). rewrite HO in HO'. injection HO' as <- _ _.
    rewrite E2, lookup_total_insert_eq. split; [done|].
    assert (len log = len (p_got pr) + len r0) as Hlen by by rewrite Hr0, len_app.
    pose proof (len_nonneg (p_got pr)). pose proof (len_nonneg r0).
    exists r0, []. rewrite app_nil_r. split; [done|]. split; [|done].
    rewrite E2, lookup_total_insert_eq. unfold unwritten. cbn [with_binding replay send app].
    rewrite seqs_app, (plain_send_queue w c Hpl Hun), app_nil_r. cbn [LastSeq req].
    rewrite seqs_resume_frames by (done || lia). rewrite Hlast. f_equal.
    rewrite Hr0. unfold len. by rewrite Nat2Z.id, drop_app_length.
  - exfalso. destruct (Open_refuse w c req now newID Hw Hno Hq) as (w1 & reason & rel' & Hrw & HO').
    rewrite HO in HO'. injection HO' as _ Hrs _.
    pose proof (refused_next _ _ _ _ _ _ Hrw) as Hnx.
    rewrite Hrs in Hres. unfold open_fresh in Hres. destruct (bool_decide (newID = ""%string)); [done|].
    injection Hres as Hnp. apply (iv_alloc w Hw) in Hp. lia.
Qed.

Lemma wreach_inv o w : wreach o w -> good w /\ plain_queues w.
Proof.
  induction 1 as [|w i w' _ [IH1 IH2] Hv He].
  - split; [apply init_good|]. intros c _. cbn [init w_clients].
    unfold lookup_total, map_lookup_total. by rewrite lookup_empty.
  - destruct (step_good w i IH1 (proj1 Hv)) as (w2 & He2 & Hg). rewrite He in He2.
    injection He2 as <-. split; [done|]. by apply (plain_exec w i w').
Qed.

Lemma sinv_start o p w c req now newID w' res rel : wreach o w -> valid w (OOpen c req now newID) ->
  Open w c req now newID = Some (w', res, rel) -> r_Session res = Some p ->
  r_Resumed res = false -> sinv p (mkSys w' [] (mkPeer (Some c) [] [] 0)).
Proof.
  intros Hwr Hv HO Hres Hnr. destruct (wreach_inv o w Hwr) as [Hg Hpl].
  assert (exec w (OOpen c req now newID) = Some w') as He by (cbn [exec]; by rewrite HO).
  destruct (step_good w _ Hg Hv) as (w2 & He2 & Hg'). rewrite He in He2. injection He2 as <-.
  pose proof Hg as [[Hw _] _]. pose proof Hv as (Hun & Hq & Hnew).
  pose proof (core_unbound w c Hw Hun) as Hc.
  destruct (resumable_dec_named w req now (TTL (opt (w_store w))) Hw Hq)
    as [(q & sq & logq & Hn & Hlq & Hr)|Hno].
  { destruct (Open_resume w c req now newID q sq logq Hw Hc Hn Hlq Hq Hr)
      as (w3 & b & HO' & _). rewrite HO in HO'. injection HO' as _ Hrs _. by rewrite Hrs in Hnr. }
  destruct (Open_refuse w c req now newID Hw Hno Hq) as (w1 & reason & rel' & Hrw & HO').
  rewrite HO in HO'. injection HO' as -> Hrs _.
  destruct (refused_core _ _ _ _ _ _ Hw Hrw) as (Hw1 & Ecl & _ & _ & Hnone & Hlive).
  destruct (decide (newID = ""%string)) as [->|Hid]; [by rewrite Hrs in Hres|].
  destruct (open_fresh_core w1 c (Owner req) newID reason) as (_ & Hpn & E0 & E1 & E2 & _);
    [done| |done|by apply Hnone|].
  { intros q t Ht. destruct (Hlive q t Ht) as (t0 & Ht0 & ->). by eapply Hc. }
  rewrite E0 in Hrs. rewrite Hrs in Hres. injection Hres as <-.
  constructor; cbn [y_w y_log y_peer p_conn p_wire p_got p_last]; [done| |done|by split; [|exists []]|].
  { by apply (plain_exec w (OOpen c req now newID)). }
  exists (fresh_session (opt (w_store w1)) newID (Owner req) c).
  split; [by rewrite E1, lookup_insert_eq|]. split; [apply fresh_ok; apply (iv_limits w1 Hw1)|].
  rewrite E2, lookup_total_insert_eq. split; [done|]. exists [], []. split; [done|]. split; [|done].
  rewrite E2, lookup_total_insert_eq. unfold unwritten. cbn [with_binding replay send app].
  unfold seqs. cbn [omap list_omap]. rewrite seqs_sessionFrame. cbn [mbind option_bind].
  rewrite Ecl. by apply plain_send_queue.
Qed.

Lemma sreach_inv o p y : sreach o p y -> sinv p y.
Proof.
  induction 1 as [w c req now newID w' res rel Hw Hv HO Hs Hr|y y' _ IH Hstep].
  - by eapply sinv_start.
  - destruct Hstep as [w log pr i w' Hv Hp He|w log pr c f cl Hc Hn|w log pr f wire Hw|w log pr|
      w log pr c token owner now newID w' res rel req Hv HO].
    + destruct (is_send i) eqn:Hi.
      * destruct i; try done. by apply sinv_send.
      * replace (log_after p w w' i log) with log by by destruct i. by eapply sinv_quiet.
    + by apply sinv_write.
    + by apply sinv_read.
    + by eapply sinv_cut.
    + by apply (sinv_resume p w log pr c token owner now newID w' res rel).
Qed.

(** ** Draining a connection *)

Lemma drain p n w log pr c : p_conn pr = Some c ->
  (2 * length (unwritten (w_clients w !!! c)) + length (p_wire pr) <= n)%nat ->
  exists w' pr', rtc (sstep p) (mkSys w log pr) (mkSys w' log pr') /\ p_conn pr' = Some c /\
    p_wire pr' = [] /\ unwritten (w_clients w' !!! c) = [] /\ w_sess w' = w_sess w.
Proof.
  revert w pr. induction n as [|n IH]; intros w pr Hc Hn.
  - exists w, pr. split; [done|]. split; [done|].
    destruct (p_wire pr), (unwritten (w_clients w !!! c)); simpl in Hn; [done|lia..].
  - destruct (p_wire pr) as [|f wire] eqn:Hw.
    + destruct (unwritten (w_clients w !!! c)) as [|f l] eqn:Hu; [by exists w, pr|].
      destruct (next_frame_some (w_clients w !!! c)) as (g & cl & Hnf); [by rewrite Hu|].
      pose proof (next_frame_unwritten _ _ _ Hnf) as [Hu' _]. rewrite Hu in Hu'. injection Hu' as -> ->.
      destruct (IH (set_client w c cl) (mkPeer (Some c) (p_wire pr ++ [g]) (p_got pr) (p_last pr)))
        as (w' & pr' & Hr & H1 & H2 & H3 & H4); [done| |].
      { cbn [set_client set_clients w_clients p_wire]. rewrite lookup_total_insert_eq, Hw.
        simpl in Hn |- *. lia. }
      exists w', pr'. split; [|done]. eapply rtc_l; [by eapply ss_write|done].
    + destruct (IH w (receive pr f wire)) as (w' & pr' & Hr & H1 & H2 & H3 & H4).
      { unfold receive. by destruct (unstamp f) as [[? ?]|]. }
      { replace (p_wire (receive pr f wire)) with wire
          by (unfold receive; by destruct (unstamp f) as [[? ?]|]). simpl in Hn. lia. }
      exists w', pr'. split; [|done]. eapply rtc_l; [by eapply ss_read|done].
Qed.

Lemma sreach_rtc o p y y' : sreach o p y -> rtc (sstep p) y y' -> sreach o p y'.
Proof. intros Hy. induction 1 as [|y y1 y2 Hs _ IH]; [done|]. apply IH. by eapply sreach_step. Qed.

Lemma drained_all p y c s : sinv p y -> p_conn (y_peer y) = Some c ->
  w_sess (y_w y) !! p = Some s -> online s c -> p_wire (y_peer y) = [] ->
  unwritten (w_clients (y_w y) !!! c) = [] -> p_got (y_peer y) = y_log y.
Proof.
  intros [_ _ _ _ (s' & Hs' & _ & Hc)] Hconn Hp Hon Hw Hu. assert (s' = s) as -> by congruence.
  rewrite Hconn in Hc. destruct Hc as [_ (mid & rest & H1 & H2 & H3)].
  rewrite (H3 Hon), app_nil_r in H1. rewrite Hw, Hu in H2. destruct mid; [|done].
  by rewrite app_nil_r in H1.
Qed.

(** ** Executable runs, for concrete instances *)

Definition event_frameb (d : bytes) : bool :=
  match d with
  | x7b :: c :: _ => negb (is_digit c) && bool_decide (c <> x2c)
  | _ => false
  end && bool_decide (strip_prefix seq_prefix d = None).

Lemma event_frameb_sound d : event_frameb d = true -> event_frame d.
Proof.
  unfold event_frameb. intros [H1 H2%bool_decide_eq_true]%andb_prop. split; [|done].
  destruct d as [|b [|c l]]; [done|by destruct b|]. destruct b; try done.
  apply andb_prop in H1 as [H1 H3%bool_decide_eq_true]. apply negb_true_iff in H1. eauto.
Qed.

Inductive sop :=
  | SOp (i : op) | SWrite | SRead | SCut
  | SResume (c : cptr) (token owner : string) (now : Z) (newID : string).

Definition sexec (p : sptr) (y : sys) (a : sop) : option sys :=
  let '(mkSys w log pr) := y in
  match a with
  | SOp i =>
      if validb w i && match i with OSend _ d _ => event_frameb d | OPump _ => false | _ => true end
      then w' ← exec w i; Some (mkSys w' (log_after p w w' i log) pr) else None
  | SWrite =>
      c ← p_conn pr; '(f, cl) ← next_frame (w_clients w !!! c);
      Some (mkSys (set_client w c cl) log (mkPeer (Some c) (p_wire pr ++ [f]) (p_got pr) (p_last pr)))
  | SRead => match p_wire pr with f :: l => Some (mkSys w log (receive pr f l)) | [] => None end
  | SCut => Some (mkSys w log (mkPeer None [] (p_got pr) (p_last pr)))
  | SResume c token owner now newID =>
      let req := mkRequest true false token (p_last pr) owner in
      if validb w (OOpen c req now newID) then
        '(w', res, _) ← Open w c req now newID;
        Some (mkSys w' log (mkPeer (if decide (r_Session res = Some p) then Some c else None) []
                              (p_got pr) (p_last pr)))
      else None
  end.

Fixpoint srunb (p : sptr) (y : sys) (l : list sop) : option sys :=
  match l with [] => Some y | a :: l' => y' ← sexec p y a; srunb p y' l' end.

Lemma sexec_sound p y a y' : sexec p y a = Some y' -> sstep p y y'.
Proof.
  destruct y as [w log pr], a as [i| | | |c token owner now newID]; cbn [sexec].
  - destruct (_ && _) eqn:Hv; [|done]. apply andb_prop in Hv as [Hv%validb_sound He].
    destruct (exec w i) as [w'|] eqn:Hx; [|done]. intros [= <-]. apply ss_op; [|by intros c ->|done].
    split; [done|]. destruct i; try done. by apply event_frameb_sound.
  - destruct (p_conn pr) as [c|] eqn:Hc; [|done]. cbn [mbind option_bind].
    destruct (next_frame _) as [[f cl]|] eqn:Hn; [|done]. intros [= <-]. by apply ss_write.
  - destruct (p_wire pr) as [|f l] eqn:Hw; [done|]. intros [= <-]. by apply ss_read.
  - intros [= <-]. apply ss_cut.
  - destruct (validb _ _) eqn:Hv; [|done]. apply validb_sound in Hv.
    destruct (Open _ _ _ _ _) as [[[w' res] rel]|] eqn:HO; [|done]. intros [= <-].
    by eapply ss_resume.
Qed.

Lemma srunb_sreach o p y l y' : sreach o p y -> srunb p y l = Some y' -> sreach o p y'.
Proof.
  revert y. induction l as [|a l IH]; intros y Hy; simpl; [by intros [= <-]|].
  destruct (sexec p y a) as [y1|] eqn:Ha; [|done]. cbn [mbind option_bind]. apply IH.
  eapply sreach_step; [done|by eapply sexec_sound].
Qed.

(** The peer opens the session "tok" as client 0 of a fresh server. *)
Definition demo_hello : world := set_client (init demo_opts) 0%nat (NewClient 0 demo_client).
Definition demo_start : sys :=
  match Open demo_hello 0%nat no_resume 0 "tok" with
  | Some (w, _, _) => mkSys w [] (mkPeer (Some 0%nat) [] [] 0)
  | None => mkSys (init demo_opts) [] (mkPeer None [] [] 0)
  end.

Lemma demo_start_sreach : sreach demo_opts 0%nat demo_start.
Proof.
  assert (wreach demo_opts demo_hello) as Hw.
  { eapply (wreach_step _ _ (ONew 0%nat demo_client 0)); [apply wreach_init| |done].
    split; [|done]. apply validb_sound. by vm_compute. }
  unfold demo_start. destruct (Open demo_hello 0%nat no_resume 0 "tok") as [[[w res] rel]|] eqn:HO.
  - eapply (sreach_start _ _ demo_hello 0%nat no_resume 0 "tok"); [done| |done| |].
    + apply validb_sound. by vm_compute.
    + vm_compute in HO. by injection HO as <- <- <-.
    + vm_compute in HO. by injection HO as <- <- <-.
  - by vm_compute in HO.
Qed.

(** Two events are read, a third is lost with the connection, two more are
    sent while the peer is away, and a new client is ready to resume. *)
Definition demo_trace : list sop :=
  [SWrite; SRead;
   SOp (OSend 0%nat (demo_event 1) PolicyDisconnect); SWrite; SRead;
   SOp (OSend 0%nat (demo_event 2) PolicyDrop); SWrite; SRead;
   SOp (OSend 0%nat (demo_event 3) PolicyDisconnect); SWrite; SCut;
   SOp (OClose 0%nat false); SOp (OLeave 0%nat 0%nat 10);
   SOp (OSend 0%nat (demo_event 4) PolicyDisconnect);
   SOp (OSend 0%nat (demo_event 5) PolicyVolatile);
   SOp (OSend 0%nat (demo_event 6) PolicyDisconnect);
   SOp (ONew 1%nat demo_client 20)].
Definition demo_lost : sys := default demo_start (srunb 0%nat demo_start demo_trace).

Lemma demo_lost_sreach : sreach demo_opts 0%nat demo_lost.
Proof. eapply (srunb_sreach _ _ _ demo_trace); [apply demo_start_sreach|by vm_compute]. Qed.

Example demo_lost_log : y_log demo_lost = map demo_event [1; 2; 3; 4; 6].
Proof. by vm_compute. Qed.
Example demo_lost_got : p_got (y_peer demo_lost) = map demo_event [1; 2].
Proof. by vm_compute. Qed.

(** ** Properties *)

(** C1: exactly once, in order, nothing lost: whatever happens between the
    sends (lost connections, slow queues, refused and honoured resumes,
    acknowledgements and resumes by anyone, sweeps and evictions), the events
    the peer has handled are a prefix of the session's log, the number it
    holds is the length of that prefix; and it has the whole log once the
    queues of the connection on which its session is online are empty. *)
Theorem exactly_once_in_order o p y :
  sreach o p y ->
  (exists rest, y_log y = p_got (y_peer y) ++ rest) /\ p_last (y_peer y) = len (p_got (y_peer y)) /\
  (forall c s, p_conn (y_peer y) = Some c -> w_sess (y_w y) !! p = Some s -> online s c ->
     p_wire (y_peer y) = [] -> unwritten (w_clients (y_w y) !!! c) = [] ->
     p_got (y_peer y) = y_log y).
Proof.
  intros Hr. pose proof (sreach_inv o p y Hr) as Hi. destruct (si_got p y Hi) as [? ?].
  split; [done|]. split; [done|]. intros. by eapply drained_all.
Qed.

(** C2: recovery completes: from any reachable state, if the peer's resume is
    one the server honours, then after it the pumps and the peer can run to a
    state in which the peer has handled the whole log. *)
Theorem recovery_completes o p w log pr s c token owner now newID :
  let req := mkRequest true false token (p_last pr) owner in
  sreach o p (mkSys w log pr) -> valid w (OOpen c req now newID) ->
  named w req p s -> resumable s log req now (TTL (opt (w_store w))) ->
  exists y', rtc (sstep p) (mkSys w log pr) y' /\ y_log y' = log /\ p_got (y_peer y') = log.
Proof.
  intros req Hr Hv Hn Hres. pose proof (sreach_inv _ _ _ Hr) as Hi.
  destruct Hi as [Hg _ _ _ (s' & Hs' & Hl & _)]. cbn [y_w y_log y_peer] in *.
  assert (s' = s) as -> by (destruct Hn as (_ & _ & _ & ?); congruence).
  pose proof Hg as [[Hw _] _]. pose proof Hv as (Hun & Hq & Hnew).
  destruct (Open_resume w c req now newID p s log Hw (core_unbound w c Hw Hun) Hn Hl Hq Hres)
    as (w1 & b & HO & _ & _ & E1 & _).
  set (pr1 := mkPeer (Some c) [] (p_got pr) (p_last pr)).
  assert (sstep p (mkSys w log pr) (mkSys w1 log pr1)) as Hstep.
  { pose proof (ss_resume p w log pr c token owner now newID w1 _ _ Hv HO) as Hst.
    cbn [r_Session] in Hst. by rewrite decide_True in Hst by done. }
  destruct (drain p (2 * length (unwritten (w_clients w1 !!! c)) + 0) w1 log pr1 c)
    as (w2 & pr2 & Hd & H1 & H2 & H3 & H4); [done|done|].
  exists (mkSys w2 log pr2). split; [by eapply rtc_l|]. split; [done|].
  assert (sreach o p (mkSys w2 log pr2)) as Hr2.
  { eapply sreach_rtc; [|exact Hd]. by eapply sreach_step. }
  apply (drained_all p (mkSys w2 log pr2) c (attached s b c)); try done; [by apply sreach_inv in Hr2|].
  cbn [y_w]. by rewrite H4, E1, lookup_insert_eq.
Qed.

Lemma exactly_once_in_order_witness :
  (exists rest, y_log demo_lost = p_got (y_peer demo_lost) ++ rest) /\
  p_last (y_peer demo_lost) = len (p_got (y_peer demo_lost)) /\
  (forall c s, p_conn (y_peer demo_lost) = Some c -> w_sess (y_w demo_lost) !! 0%nat = Some s ->
     online s c -> p_wire (y_peer demo_lost) = [] ->
     unwritten (w_clients (y_w demo_lost) !!! c) = [] ->
     p_got (y_peer demo_lost) = y_log demo_lost).
Proof. apply (exactly_once_in_order demo_opts 0%nat), demo_lost_sreach. Defined.

Lemma recovery_completes_witness :
  exists y', rtc (sstep 0%nat) (mkSys (y_w demo_lost) (y_log demo_lost) (y_peer demo_lost)) y' /\
    y_log y' = y_log demo_lost /\ p_got (y_peer y') = y_log demo_lost.
Proof.
  apply (recovery_completes demo_opts 0%nat (y_w demo_lost) (y_log demo_lost) (y_peer demo_lost)
           (w_sess (y_w demo_lost) !!! 0%nat) 1%nat "tok" "u" 50 "new").
  - rewrite sys_eta. apply demo_lost_sreach.
  - apply validb_sound. by vm_compute.
  - split; [done|]. split; [done|]. split; by vm_compute.
  - constructor; [by vm_compute|by vm_compute|vm_compute; intros _; done|by vm_compute|].
    exists []. by vm_compute.
Defined.

End recovery.
