(* ===== verification/Hub.v ===== *)
(** * The connection hub ([internal/hub.go], [internal/wirelabels.go])

    The hub owns the set of registered clients and the rooms. [Run] takes one
    request at a time, so a request is one atomic step on the hub; the
    channels on which requests arrive are unbuffered but for [emit], whose
    capacity decides which jobs are dropped. A map is iterated in no particular
    order: a delivery is given the order in which the targets were visited. *)
From S2P Require Import Prelude.
From S2P Require Import GoStd.
From S2P Require Import Json.
From S2P Require Import Replay.
From S2P Require Import Client.
From S2P Require Import Session.
From S2P Require Import SessionStore.
From S2P Require Import SessionInv.
From S2P Require Import Registry.

Module hub.
Import client session store inv registry.

(** ** State *)

Record EmitJob := mkJob {
  Room : string;
  Event : string;
  Exclude : option cptr;
  Only : option cptr;
  AllClients : bool;
  Data : bytes;
  Policy : SendPolicy
}.

Record Hub := mkHub {
  clients : gset cptr;
  rooms : gmap string (gset cptr);
  roomCreated : gmap string Z;
  emit : chan EmitJob;
  closed : bool;                     (* the closed channel was closed *)
  emitsDropped : Z
}.

Definition NewHub (emitBufferSize : Z) : Hub :=
  let n := if emitBufferSize <=? 0 then 256 else emitBufferSize in
  mkHub ∅ ∅ ∅ (make_chan (Z.to_nat n)) false 0.

Definition set_members (h : Hub) (cs : gset cptr) (rs : gmap string (gset cptr))
    (cr : gmap string Z) : Hub :=
  mkHub cs rs cr (emit h) (closed h) (emitsDropped h).
Definition set_emit (h : Hub) (ch : chan EmitJob) : Hub :=
  mkHub (clients h) (rooms h) (roomCreated h) ch (closed h) (emitsDropped h).

(** [WireEvent.OrDash] and [WireRoom.OrDash], the labels of the log lines. *)
Definition OrDash (s : string) : string := if bool_decide (s = ""%string) then "-" else s.

(** ** Membership *)

Definition members (h : Hub) (room : string) : gset cptr := rooms h !!! room.

Definition registerClient (h : Hub) (c : cptr) : Hub :=
  set_members h ({[c]} ∪ clients h) (rooms h) (roomCreated h).

Definition joinRoom (h : Hub) (c : cptr) (room : string) (now : Z) : Hub :=
  match rooms h !! room with
  | None => set_members h (clients h) (<[room := {[c]}]> (rooms h)) (<[room := now]> (roomCreated h))
  | Some m => set_members h (clients h) (<[room := {[c]} ∪ m]> (rooms h)) (roomCreated h)
  end.

(** [delete(m, c)], and the room with it when that was its last member. *)
Definition leaveRoom (h : Hub) (c : cptr) (room : string) : Hub :=
  match rooms h !! room with
  | None => h
  | Some m =>
      let m' := m ∖ {[c]} in
      if decide (m' = ∅)
      then set_members h (clients h) (delete room (rooms h)) (delete room (roomCreated h))
      else set_members h (clients h) (<[room := m']> (rooms h)) (roomCreated h)
  end.

Definition transferMembership (h : Hub) (from to : cptr) : Hub :=
  let move (m : gset cptr) := if decide (from ∈ m) then {[to]} ∪ m ∖ {[from]} else m in
  set_members h (clients h ∖ {[from]}) (move <$> rooms h) (roomCreated h).

(** [delete(m, c)] in every room; the rooms it empties go. *)
Definition emptied (h : Hub) (c : cptr) : gset string :=
  dom (filter (fun kv : string * gset cptr => kv.2 ∖ {[c]} = ∅) (rooms h)).
Definition removeClientMaps (h : Hub) (c : cptr) : Hub :=
  set_members h (clients h ∖ {[c]})
    (filter (fun kv => kv.1 ∉ emptied h c) ((fun m => m ∖ {[c]}) <$> rooms h))
    (filter (fun kv => kv.1 ∉ emptied h c) (roomCreated h)).

(** ** Delivery *)

Definition collectTargets (h : Hub) (e : EmitJob) : gset cptr :=
  let except (m : gset cptr) := match Exclude e with Some x => m ∖ {[x]} | None => m end in
  if AllClients e then except (clients h)
  else match Only e with
       | Some c => if decide (c ∈ clients h) then {[c]} else ∅
       | None => except (members h (Room e))
       end.

(** Sends to the targets one after the other; the clients whose send failed
    are the ones a goroutine is started for, to shut them down. *)
Fixpoint deliver_all (w : world) (e : EmitJob) (targets : list cptr)
  : option (world * list cptr) :=
  match targets with
  | [] => Some (w, [])
  | c :: targets' =>
      '(cs, ss, ok) ← TrySendPolicy (w_clients w) (w_sess w) c (Data e) (Policy e);
      '(w', slow) ← deliver_all (mkWorld cs ss (w_nextSess w) (w_store w)) e targets';
      Some (w', if ok : bool then slow else c :: slow)
  end.

(** [emitToTargets] when the map iteration visits the targets as in [order]. *)
Definition emitToTargets (w : world) (h : Hub) (e : EmitJob) (order : list cptr)
  : option (world * list cptr) :=
  if decide (list_to_set order = collectTargets h e /\ NoDup order)
  then deliver_all w e order else None.

(** [drainAndCloseAll], then [close(h.closed)]. *)
Fixpoint shutdown_all (w : world) (l : list cptr) : option world :=
  match l with
  | [] => Some w
  | c :: l' => cl ← Shutdown (w_clients w !!! c); shutdown_all (set_client w c cl) l'
  end.
Definition drainAndCloseAll (w : world) (h : Hub) : option (world * Hub) :=
  w' ← shutdown_all w (elements (clients h));
  Some (w', mkHub ∅ ∅ ∅ (emit h) true (emitsDropped h)).

(** ** Requests

    A request is offered to [Run] until the hub is closed. *)
Inductive request :=
  | ReqRegister (c : cptr) | ReqUnregister (c : cptr)
  | ReqJoin (c : cptr) (room : string) | ReqLeave (c : cptr) (room : string)
  | ReqTransfer (from to : cptr).

Definition offer (h : Hub) (r : request) : option request := if closed h then None else Some r.
Definition Register (h : Hub) (c : cptr) := offer h (ReqRegister c).
Definition Unregister (h : Hub) (c : cptr) := offer h (ReqUnregister c).
Definition Join (h : Hub) (c : cptr) (room : string) : option request :=
  if bool_decide (room = ""%string) then None else offer h (ReqJoin c room).
Definition Leave (h : Hub) (c : cptr) (room : string) : option request :=
  if bool_decide (room = ""%string) then None else offer h (ReqLeave c room).
Definition Transfer (h : Hub) (from to : option cptr) : option request :=
  match from, to with
  | Some f, Some t => if decide (f = t) then None else offer h (ReqTransfer f t)
  | _, _ => None
  end.

Definition serve (h : Hub) (r : request) (now : Z) : Hub :=
  match r with
  | ReqRegister c => registerClient h c
  | ReqUnregister c => removeClientMaps h c
  | ReqJoin c room => joinRoom h c room now
  | ReqLeave c room => leaveRoom h c room
  | ReqTransfer from to => transferMembership h from to
  end.

(** A closed hub takes no job; a full queue drops the job. *)
Definition Emit (h : Hub) (job : EmitJob) : Hub :=
  if closed h then h
  else match try_send (emit h) job with
       | Sent ch => set_emit h ch
       | WouldBlock | SendPanic =>
           mkHub (clients h) (rooms h) (roomCreated h) (emit h) (closed h)
             (i64 (emitsDropped h + 1))
       end.

(** ** Queries *)

Definition live_members (w : world) (h : Hub) (room : string) : gset cptr :=
  filter (fun c => client.parked (w_clients w !!! c) = false) (members h room).
Definition RoomSize (w : world) (h : Hub) (room : string) : nat := size (live_members w h room).
Definition RoomClients (w : world) (h : Hub) (room : string) : option (gset cptr) :=
  if decide (live_members w h room = ∅) then None else Some (live_members w h room).
Definition AllRooms (h : Hub) : gset string := dom (rooms h).
Definition ClientRoomCount (h : Hub) (c : option cptr) : nat :=
  match c with
  | None => 0
  | Some c => size (filter (fun kv : string * gset cptr => c ∈ kv.2) (rooms h))
  end.
Definition RoomCreatedAt (h : Hub) (room : string) : option Z := roomCreated h !! room.

(** ** Well-formed hubs *)

(** Rooms are never empty, and every room has its creation time. *)
Record wf (h : Hub) : Prop := {
  wf_rooms room m : rooms h !! room = Some m -> m <> ∅;
  wf_created room : is_Some (roomCreated h !! room) <-> is_Some (rooms h !! room)
}.

Lemma NewHub_wf n : wf (NewHub n).
Proof. split; intros room; simpl; rewrite !lookup_empty; [by intros m|done]. Qed.

Lemma is_Some_insert {A B} (m : gmap string A) (m' : gmap string B) k k' a b :
  (is_Some (m !! k') <-> is_Some (m' !! k')) ->
  (is_Some (<[k := a]> m !! k') <-> is_Some (<[k := b]> m' !! k')).
Proof.
  destruct (decide (k = k')) as [<-|Hne]; [by rewrite !lookup_insert_eq|].
  by rewrite !lookup_insert_ne.
Qed.

Lemma joinRoom_wf h c room now : wf h -> wf (joinRoom h c room now).
Proof.
  intros [H1 H2]. unfold joinRoom. destruct (rooms h !! room) as [m|] eqn:Hr;
    split; cbn [set_members rooms roomCreated]; intros r.
  - intros m' [[<- <-]|[_ Hm]]%lookup_insert_Some; [set_solver|by eapply H1].
  - rewrite H2. destruct (decide (room = r)) as [<-|Hne].
    + rewrite lookup_insert_eq, Hr. split; by eexists.
    + by rewrite lookup_insert_ne.
  - intros m' [[<- <-]|[_ Hm]]%lookup_insert_Some; [set_solver|by eapply H1].
  - by apply is_Some_insert.
Qed.

Lemma leaveRoom_wf h c room : wf h -> wf (leaveRoom h c room).
Proof.
  intros [H1 H2]. unfold leaveRoom. destruct (rooms h !! room) as [m|] eqn:Hr; [|done].
  destruct (decide (m ∖ {[c]} = ∅)) as [He|He]; split; cbn [set_members rooms roomCreated]; intros r.
  - intros m' [_ Hm]%lookup_delete_Some. by eapply H1.
  - destruct (decide (room = r)) as [<-|Hne]; [by rewrite !lookup_delete_eq|].
    by rewrite !lookup_delete_ne.
  - intros m' [[<- <-]|[_ Hm]]%lookup_insert_Some; [done|by eapply H1].
  - rewrite H2. destruct (decide (room = r)) as [<-|Hne].
    + rewrite lookup_insert_eq, Hr. split; by eexists.
    + by rewrite lookup_insert_ne.
Qed.

Lemma transfer_members h from to room :
  rooms (transferMembership h from to) !! room =
  (fun m : gset cptr => if decide (from ∈ m) then {[to]} ∪ m ∖ {[from]} else m) <$> rooms h !! room.
Proof. apply lookup_fmap. Qed.

Lemma transfer_wf h from to : wf h -> wf (transferMembership h from to).
Proof.
  intros [H1 H2]. split; intros room.
  - intros m. rewrite transfer_members. destruct (rooms h !! room) as [m0|] eqn:Hr; [|done].
    intros [= <-]. specialize (H1 room m0 Hr). destruct (decide _); set_solver.
  - rewrite transfer_members, fmap_is_Some. apply H2.
Qed.

Lemma elem_of_emptied h c room : room ∈ emptied h c <->
  exists m, rooms h !! room = Some m /\ m ∖ {[c]} = ∅.
Proof.
  unfold emptied. rewrite elem_of_dom. split.
  - intros [m [Hm He]%map_lookup_filter_Some]. by exists m.
  - intros (m & Hm & He). exists m. by apply map_lookup_filter_Some.
Qed.

Lemma removed_members h c room :
  rooms (removeClientMaps h c) !! room =
  (m ← rooms h !! room; if decide (m ∖ {[c]} = ∅) then None else Some (m ∖ {[c]})).
Proof.
  cbn [removeClientMaps set_members rooms]. rewrite map_lookup_filter, lookup_fmap.
  destruct (rooms h !! room) as [m|] eqn:Hr; [|done]. cbn.
  destruct (decide (m ∖ {[c]} = ∅)) as [He|He].
  - rewrite option_guard_False; [done|]. intros H. apply H, elem_of_emptied. by exists m.
  - rewrite option_guard_True; [done|]. intros (m' & Hm' & He')%elem_of_emptied. congruence.
Qed.

Lemma remove_wf h c : wf h -> wf (removeClientMaps h c).
Proof.
  intros [H1 H2]. split; intros room.
  - intros m. rewrite removed_members. destruct (rooms h !! room) as [m0|]; [|done]. cbn.
    destruct (decide _); [done|]. by intros [= <-].
  - rewrite removed_members. cbn [removeClientMaps set_members roomCreated].
    rewrite map_lookup_filter. specialize (H2 room).
    destruct (rooms h !! room) as [m|] eqn:Hr.
    + destruct H2 as [_ H2]. destruct H2 as [t Ht]; [by eexists|]. rewrite Ht. cbn.
      destruct (decide (m ∖ {[c]} = ∅)) as [He|He].
      * rewrite option_guard_False; [split; by intros [? ?]|]. intros H. apply H, elem_of_emptied. by exists m.
      * rewrite option_guard_True; [split; by eexists|].
        intros (m' & Hm' & He')%elem_of_emptied. congruence.
    + destruct (roomCreated h !! room) as [t|]; [|done].
      destruct H2 as [H2 _]. destruct H2 as [? ?]; [by eexists|done].
Qed.

Lemma serve_wf h r now : wf h -> wf (serve h r now).
Proof.
  intros Hw. destruct r; simpl; [|by apply remove_wf|by apply joinRoom_wf|by apply leaveRoom_wf|
    by apply transfer_wf]. by destruct Hw; split.
Qed.

(** ** Specification of membership: a relation between rooms and clients *)

Definition spec_members (r : request) (before : string -> cptr -> Prop) (room : string) (c : cptr)
  : Prop :=
  match r with
  | ReqRegister _ => before room c
  | ReqUnregister x => before room c /\ c <> x
  | ReqJoin x rm => before room c \/ (room = rm /\ c = x)
  | ReqLeave x rm => before room c /\ ~ (room = rm /\ c = x)
  | ReqTransfer f t => (before room c /\ c <> f) \/ (c = t /\ before room f)
  end.

Definition spec_clients (r : request) (before : cptr -> Prop) (c : cptr) : Prop :=
  match r with
  | ReqRegister x => before c \/ c = x
  | ReqUnregister x | ReqTransfer x _ => before c /\ c <> x
  | ReqJoin _ _ | ReqLeave _ _ => before c
  end.

Lemma members_lookup h room m : rooms h !! room = Some m -> members h room = m.
Proof. apply lookup_total_correct. Qed.

Lemma members_none h room : rooms h !! room = None -> members h room = ∅.
Proof. unfold members, lookup_total, map_lookup_total. by intros ->. Qed.

Lemma members_eq h h' room : rooms h' !! room = rooms h !! room -> members h' room = members h room.
Proof. unfold members, lookup_total, map_lookup_total. by intros ->. Qed.

Lemma joinRoom_members h x rm now room c :
  c ∈ members (joinRoom h x rm now) room <-> c ∈ members h room \/ (room = rm /\ c = x).
Proof.
  unfold joinRoom. destruct (decide (rm = room)) as [<-|Hne].
  - destruct (rooms h !! rm) as [m|] eqn:Hr.
    + rewrite (members_lookup _ rm ({[x]} ∪ m)) by apply lookup_insert_eq.
      rewrite (members_lookup h rm m) by done. set_solver.
    + rewrite (members_lookup _ rm {[x]}) by apply lookup_insert_eq.
      rewrite (members_none h rm) by done. set_solver.
  - rewrite (members_eq h); [naive_solver|].
    by destruct (rooms h !! rm); apply lookup_insert_ne.
Qed.

Lemma leaveRoom_members h x rm room c :
  c ∈ members (leaveRoom h x rm) room <-> c ∈ members h room /\ ~ (room = rm /\ c = x).
Proof.
  unfold leaveRoom. destruct (rooms h !! rm) as [m|] eqn:Hr.
  2: { split; [|by intros []]. intros H. split; [done|]. intros [-> _].
       by rewrite members_none in H. }
  destruct (decide (rm = room)) as [<-|Hne].
  - rewrite (members_lookup h rm m) by done. destruct (decide (m ∖ {[x]} = ∅)) as [He|He].
    + rewrite members_none by apply lookup_delete_eq. set_solver.
    + rewrite (members_lookup _ rm (m ∖ {[x]})) by apply lookup_insert_eq. set_solver.
  - rewrite (members_eq h); [naive_solver|].
    destruct (decide _); [by apply lookup_delete_ne|by apply lookup_insert_ne].
Qed.

Lemma removed_room h x room c :
  c ∈ members (removeClientMaps h x) room <-> c ∈ members h room /\ c <> x.
Proof.
  destruct (rooms h !! room) as [m|] eqn:Hr.
  - rewrite (members_lookup h room m) by done. destruct (decide (m ∖ {[x]} = ∅)) as [He|He].
    + rewrite members_none; [set_solver|]. rewrite removed_members, Hr. cbn. by rewrite decide_True.
    + rewrite (members_lookup _ room (m ∖ {[x]})); [set_solver|].
      rewrite removed_members, Hr. cbn. by rewrite decide_False.
  - rewrite !members_none; [set_solver|done|]. by rewrite removed_members, Hr.
Qed.

Lemma transfer_room h from to room c :
  c ∈ members (transferMembership h from to) room <->
  (c ∈ members h room /\ c <> from) \/ (c = to /\ from ∈ members h room).
Proof.
  destruct (rooms h !! room) as [m|] eqn:Hr.
  - rewrite (members_lookup h room m) by done. erewrite members_lookup;
      [|rewrite transfer_members, Hr; done]. destruct (decide (from ∈ m)); set_solver.
  - rewrite !members_none; [set_solver|done|]. by rewrite transfer_members, Hr.
Qed.

Lemma serve_members h r now room c :
  c ∈ members (serve h r now) room <-> spec_members r (fun rm x => x ∈ members h rm) room c.
Proof.
  destruct r; simpl; [done|apply removed_room|apply joinRoom_members|apply leaveRoom_members|
    apply transfer_room].
Qed.

Lemma serve_clients h r now c :
  c ∈ clients (serve h r now) <-> spec_clients r (fun x => x ∈ clients h) c.
Proof.
  destruct r as [x|x|x rm|x rm|f to]; cbn [serve spec_clients].
  - unfold registerClient. cbn. set_solver.
  - unfold removeClientMaps. cbn. set_solver.
  - unfold joinRoom. by destruct (rooms h !! rm).
  - unfold leaveRoom. destruct (rooms h !! rm) as [m|]; [|done]. by destruct (decide _).
  - unfold transferMembership. cbn. set_solver.
Qed.

(** ** Reachable hubs *)

Inductive hub_reachable (n : Z) : Hub -> Prop :=
  | hr_new : hub_reachable n (NewHub n)
  | hr_serve h r now : hub_reachable n h -> closed h = false -> hub_reachable n (serve h r now)
  | hr_emit h job : hub_reachable n h -> hub_reachable n (Emit h job)
  | hr_take h job ch : hub_reachable n h -> recv (emit h) = Received job ch ->
      hub_reachable n (set_emit h ch)
  | hr_drain h w w' h' : hub_reachable n h -> closed h = false ->
      drainAndCloseAll w h = Some (w', h') -> hub_reachable n h'.

Lemma Emit_rooms h job : rooms (Emit h job) = rooms h /\ roomCreated (Emit h job) = roomCreated h.
Proof. unfold Emit. destruct (closed h); [done|]. by destruct (try_send _ _). Qed.

Lemma hub_reachable_wf n h : hub_reachable n h -> wf h.
Proof.
  induction 1 as [|h r now _ IH _|h job _ IH|h job ch _ IH _|h w w' h' _ IH _ Hd].
  - apply NewHub_wf.
  - by apply serve_wf.
  - destruct IH as [H1 H2], (Emit_rooms h job) as [E1 E2]. split; intros room; rewrite ?E1, ?E2; [apply H1|apply H2].
  - by destruct IH as [H1 H2]; split.
  - unfold drainAndCloseAll in Hd. destruct (shutdown_all _ _); [|done]. injection Hd as <- <-.
    split; intros room; simpl; rewrite !lookup_empty; [by intros m|done].
Qed.

(** ** Sends are local

    A send reads and writes one session and one queue only. *)

Lemma upd_client_at cs l cl : upd_client cs l cl !!! l = cl.
Proof. apply lookup_total_insert_eq. Qed.
Lemma upd_client_ne cs l cl x : l <> x -> upd_client cs l cl !!! x = cs !!! x.
Proof. apply lookup_total_insert_ne. Qed.

Definition local_clients (live : option cptr) (cs cs' cs2 cs2' : gmap cptr Client) : Prop :=
  (forall l, live = Some l -> cs2' !!! l = cs' !!! l) /\
  (forall x, live <> Some x -> cs2' !!! x = cs2 !!! x).

Lemma local_upd l cs cs2 cl : local_clients (Some l) cs (upd_client cs l cl) cs2 (upd_client cs2 l cl).
Proof.
  split; [intros l' [= <-]; by rewrite !upd_client_at|].
  intros x Hne. apply upd_client_ne. congruence.
Qed.

Lemma local_same live cs cs2 : (forall l, live = Some l -> cs2 !!! l = cs !!! l) ->
  local_clients live cs cs cs2 cs2.
Proof. by split. Qed.

Lemma deliver_local cs cs2 s d pol cs' s' ok :
  (forall l, s_live s = Some l -> cs2 !!! l = cs !!! l) ->
  deliver cs s d pol = Some (cs', s', ok) ->
  exists cs2', deliver cs2 s d pol = Some (cs2', s', ok) /\ local_clients (s_live s) cs cs' cs2 cs2'.
Proof.
  intros Hag Hd. unfold deliver in Hd |- *. destruct (decide (s_state s = stateClosed)).
  { injection Hd as <- <- <-. exists cs2. split; [done|by apply local_same]. }
  destruct (s_live s) as [l|] eqn:Hl; [destruct (s_stalled s)|].
  2: rewrite (Hag l eq_refl).
  1, 3: destruct (decide (pol = PolicyVolatile));
    [injection Hd as <- <- <-; exists cs2; split; [done|by apply local_same]|];
    destruct (commit s (s_next s) d) as [s1|]; [|done]; injection Hd as <- <- <-;
    exists cs2; split; [done|by apply local_same].
  destruct (decide (pol = PolicyVolatile)).
  - destruct (enqueue (cs !!! l) d) as [cl res]. injection Hd as <- <- <-.
    eexists. split; [done|]. apply local_upd.
  - destruct (enqueue (cs !!! l) (stamp d (s_next s))) as [cl res].
    destruct (commit s (s_next s) d) as [s1|], res; cbn [mbind option_bind] in Hd |- *;
      try case_decide; try done; injection Hd as <- <- <-;
      eexists; (split; [done|]); apply local_upd.
Qed.

(** The queue a send through [c] may write. *)
Definition queue_of (w : world) (c : cptr) : option cptr :=
  match client.session (w_clients w !!! c) with
  | Some p => s_live (w_sess w !!! p)
  | None => Some c
  end.

(** Two worlds in which a send through [c] finds the same things. *)
Record same_route (w w2 : world) (c : cptr) : Prop := {
  sr_session : client.session (w_clients w2 !!! c) = client.session (w_clients w !!! c);
  sr_sess p : client.session (w_clients w !!! c) = Some p -> w_sess w2 !! p = w_sess w !! p;
  sr_queue x : queue_of w c = Some x -> w_clients w2 !!! x = w_clients w !!! x
}.

(** One send, as a step on the world. *)
Definition send1 (w : world) (e : EmitJob) (c : cptr) : option (world * bool) :=
  '(cs, ss, ok) ← TrySendPolicy (w_clients w) (w_sess w) c (Data e) (Policy e);
  Some (mkWorld cs ss (w_nextSess w) (w_store w), ok).

Lemma lookup_total_same (m m' : gmap sptr Session) p : m' !! p = m !! p -> m' !!! p = m !!! p.
Proof. unfold lookup_total, map_lookup_total. by intros ->. Qed.

Lemma send1_local w w2 e c w' ok : same_route w w2 c -> send1 w e c = Some (w', ok) ->
  exists w2', send1 w2 e c = Some (w2', ok) /\
    (forall p, client.session (w_clients w !!! c) = Some p -> w_sess w2' !! p = w_sess w' !! p) /\
    (forall p, client.session (w_clients w !!! c) <> Some p -> w_sess w2' !! p = w_sess w2 !! p) /\
    local_clients (queue_of w c) (w_clients w) (w_clients w') (w_clients w2) (w_clients w2').
Proof.
  intros [S1 S2 S3] Hs. unfold send1, TrySendPolicy, queue_of in *. rewrite S1.
  destruct (client.session (w_clients w !!! c)) as [p|].
  - rewrite (lookup_total_same (w_sess w)) by by apply S2.
    destruct (deliver (w_clients w) (w_sess w !!! p) (Data e) (Policy e)) as [[[cs s'] ok1]|] eqn:Hd;
      [|done]. injection Hs as <- <-.
    destruct (deliver_local _ (w_clients w2) _ _ _ _ _ _ S3 Hd) as (cs2 & Hd2 & Hl).
    rewrite Hd2. eexists. split; [done|]. cbn [w_sess w_clients].
    split; [intros q [= <-]; by rewrite !lookup_insert_eq|]. split; [|done].
    intros q Hq. apply lookup_insert_ne. congruence.
  - rewrite (S3 c eq_refl). destruct (enqueue (w_clients w !!! c) (Data e)) as [cl res].
    destruct res; [|case_decide|]; injection Hs as <- <-; eexists; (split; [done|]);
      cbn [w_sess w_clients]; (split; [done|]); (split; [done|]); apply local_upd.
Qed.

Lemma same_route_refl w c : same_route w w c.
Proof. by constructor. Qed.

Lemma send1_good w e c : good w -> valid w (OSend c (Data e) (Policy e)) ->
  exists w' ok, send1 w e c = Some (w', ok) /\ good w' /\
    (forall x, client.session (w_clients w' !!! x) = client.session (w_clients w !!! x)) /\
    queue_of w' c = queue_of w c.
Proof.
  intros Hg Hv. destruct (send_good w c (Data e) (Policy e) Hg Hv) as (w' & He & Hg').
  cbn [exec] in He. unfold send1.
  destruct (TrySendPolicy (w_clients w) (w_sess w) c (Data e) (Policy e)) as [[[cs ss] ok]|] eqn:Ht;
    [|done]. cbn [mbind option_bind] in He |- *. injection He as <-.
  eexists _, ok. split; [done|]. split; [done|]. unfold queue_of. cbn [w_clients w_sess].
  unfold TrySendPolicy in Ht. pose proof Hg as [[Hw _] Hcl].
  destruct (client.session (w_clients w !!! c)) as [p|] eqn:Hs.
  - destruct (proj2 (Hcl c) p Hs) as [s Hp]. rewrite (lookup_total_correct _ _ _ Hp) in Ht.
    destruct (so_log s (iv_sess w Hw p s Hp)) as [log Hl]. specialize (Hv p s Hs Hp).
    pose proof (lg_next log s Hl).
    destruct (deliver_contract (w_clients w) s (Data e) (Policy e) log Hl ltac:(lia))
      as (cs' & s' & ok' & frames & logd & Hd & _ & _ & Hid & Hq).
    rewrite Hd in Ht. injection Ht as <- <- _. split; [apply Hq|].
    destruct (Hq c) as (-> & _). rewrite Hs, lookup_total_insert_eq.
    rewrite (lookup_total_correct _ _ _ Hp). apply Hid.
  - pose proof (enqueue_session (w_clients w !!! c) (Data e)) as Hse.
    destruct (enqueue (w_clients w !!! c) (Data e)) as [cl res]. cbn [fst] in Hse.
    assert (exists cl', cs = upd_client (w_clients w) c cl' /\ client.session cl' = client.session cl)
      as (cl' & -> & Hcl') by (destruct res; [|case_decide|]; injection Ht as <- _ _; eauto).
    split; [|by rewrite upd_client_at, Hcl', Hse, Hs]. intros x.
    destruct (decide (c = x)) as [<-|Hne]; [rewrite upd_client_at; congruence|].
    by rewrite upd_client_ne.
Qed.

(** Where the sends through a client go: to its session or to its own queue. *)
Definition route (w : world) (c : cptr) : cptr + sptr :=
  match client.session (w_clients w !!! c) with Some p => inr p | None => inl c end.

Lemma queue_route w c x : good w -> queue_of w c = Some x ->
  client.session (w_clients w !!! x) = client.session (w_clients w !!! c) /\
  (client.session (w_clients w !!! c) = None -> x = c).
Proof.
  intros [[Hw _] Hcl] Hq. unfold queue_of in Hq.
  destruct (client.session (w_clients w !!! c)) as [p|] eqn:Hs.
  - destruct (proj2 (Hcl c) p Hs) as [s Hp]. rewrite (lookup_total_correct _ _ _ Hp) in Hq.
    split; [|done]. by apply (iv_live w Hw p s x).
  - injection Hq as ->. by rewrite Hs.
Qed.

Lemma routes_apart w c c2 x : good w -> route w c <> route w c2 -> queue_of w c2 = Some x ->
  queue_of w c <> Some x.
Proof.
  intros Hg Hne H2 H1. destruct (queue_route w c x Hg H1) as [E1 N1].
  destruct (queue_route w c2 x Hg H2) as [E2 N2]. apply Hne. unfold route.
  rewrite <- E1, <- E2 in *. destruct (client.session (w_clients w !!! x)); [done|].
  by rewrite <- N1, <- N2.
Qed.

Lemma send1_apart w e c c2 w1 ok : good w -> valid w (OSend c (Data e) (Policy e)) ->
  send1 w e c = Some (w1, ok) -> route w c <> route w c2 -> same_route w w1 c2.
Proof.
  intros Hg Hv Hs Hne. destruct (send1_good w e c Hg Hv) as (w1' & ok' & Hs' & _ & Hsess & _).
  rewrite Hs in Hs'. injection Hs' as <- <-.
  destruct (send1_local w w e c w1 ok (same_route_refl w c) Hs) as (w1' & Hs' & _ & F1 & _ & F2).
  rewrite Hs in Hs'. injection Hs' as <-. constructor.
  - apply Hsess.
  - intros p Hp. apply F1. intros Hc. apply Hne. unfold route. by rewrite Hp, Hc.
  - intros x Hx. apply F2. by apply (routes_apart w c c2).
Qed.

Lemma same_route_route w w2 c : same_route w w2 c -> route w2 c = route w c.
Proof. intros [E _ _]. unfold route. by rewrite E. Qed.

Lemma same_route_queue w w2 c : same_route w w2 c -> queue_of w2 c = queue_of w c.
Proof.
  intros [E H _]. unfold queue_of. rewrite E.
  destruct (client.session (w_clients w !!! c)) as [p|]; [|done].
  by rewrite (lookup_total_same (w_sess w)) by by apply H.
Qed.

Lemma same_route_sym w w2 c : same_route w w2 c -> same_route w2 w c.
Proof.
  intros H. pose proof (same_route_queue _ _ _ H) as Eq. destruct H as [A1 A2 A3]. constructor.
  - done.
  - intros p. rewrite A1. intros Hp. symmetry. by apply A2.
  - intros x. rewrite Eq. intros Hx. symmetry. by apply A3.
Qed.

Lemma same_route_trans w w1 w2 c : same_route w w1 c -> same_route w1 w2 c -> same_route w w2 c.
Proof.
  intros H1 H2. pose proof (same_route_queue _ _ _ H1) as Eq.
  destruct H1 as [A1 A2 A3], H2 as [B1 B2 B3]. constructor.
  - by rewrite B1.
  - intros p Hp. rewrite B2 by by rewrite A1. by apply A2.
  - intros x Hx. rewrite B3 by by rewrite Eq. by apply A3.
Qed.

Lemma same_route_valid w w2 c d pol : same_route w w2 c -> valid w (OSend c d pol) ->
  valid w2 (OSend c d pol).
Proof. intros [A1 A2 A3] Hv p s. rewrite A1. intros Hp. rewrite A2 by done. by apply Hv. Qed.

(** What [w'] shows of a send through [c] made in [w]. *)
Definition delivered (w w' : world) (e : EmitJob) (c : cptr) (slow : list cptr) : Prop :=
  exists w1 ok, send1 w e c = Some (w1, ok) /\ (c ∈ slow <-> ok = false) /\
    (forall p, client.session (w_clients w !!! c) = Some p -> w_sess w' !! p = w_sess w1 !! p) /\
    (forall x, queue_of w c = Some x -> w_clients w' !!! x = w_clients w1 !!! x).

Lemma deliver_all_cons w e c l : deliver_all w e (c :: l) =
  '(w1, ok) ← send1 w e c; '(w', slow) ← deliver_all w1 e l;
  Some (w', if ok : bool then slow else c :: slow).
Proof.
  cbn [deliver_all]. unfold send1. by destruct (TrySendPolicy _ _ _ _ _) as [[[cs ss] ok]|].
Qed.

Lemma deliver_all_spec w e l : good w -> NoDup (map (route w) l) ->
  (forall c, c ∈ l -> valid w (OSend c (Data e) (Policy e))) ->
  exists w' slow, deliver_all w e l = Some (w', slow) /\ good w' /\
    (forall c, c ∈ slow -> c ∈ l) /\
    (forall c, c ∈ l -> delivered w w' e c slow) /\
    (forall c, route w c ∉ map (route w) l -> same_route w w' c).
Proof.
  revert w. induction l as [|c l IH]; intros w Hg Hnd Hv.
  { exists w, []. split; [done|]. split; [done|]. split; [done|].
    split; [intros c []%elem_of_nil|]. intros c _. apply same_route_refl. }
  rewrite deliver_all_cons. cbn [map] in Hnd. apply NoDup_cons in Hnd as [Hc Hnd].
  assert (valid w (OSend c (Data e) (Policy e))) as Hvc by (apply Hv; by left).
  destruct (send1_good w e c Hg Hvc) as (w1 & ok & Hs & Hg1 & Hsess & Hqueue). rewrite Hs.
  cbn [mbind option_bind].
  assert (forall c2, route w c <> route w c2 -> same_route w w1 c2) as Hap
    by (intros; by eapply send1_apart).
  assert (forall c2, c2 ∈ l -> same_route w w1 c2) as Hapl.
  { intros c2 Hin. apply Hap. intros E. apply Hc. rewrite E.
    apply list_elem_of_In, in_map, list_elem_of_In, Hin. }
  assert (map (route w1) l = map (route w) l) as Em.
  { apply map_ext_in. intros c2 Hin%list_elem_of_In. by apply same_route_route, Hapl. }
  destruct (IH w1 Hg1) as (w' & slow & -> & Hg' & Hsub & Hdel & Hrest).
  { by rewrite Em. }
  { intros c2 Hin. eapply same_route_valid; [by apply Hapl|]. apply Hv. by right. }
  cbn [mbind option_bind].
  assert (c ∉ l) as Hcl.
  { intros Hin. apply Hc. by apply list_elem_of_In, in_map, list_elem_of_In. }
  exists w', (if ok then slow else c :: slow). split; [done|]. split; [done|]. split; [|split].
  - intros x. destruct ok; [intros Hx; right; by apply Hsub|].
    intros [->|Hx]%elem_of_cons; [by left|right; by apply Hsub].
  - intros c2 [->|Hin]%elem_of_cons.
    + exists w1, ok. split; [done|]. split.
      { destruct ok; [split; [|done]; intros Hx; by apply Hsub in Hx|]. split; [done|by left]. }
      assert (same_route w1 w' c) as [R1 R2 R3].
      { apply Hrest. rewrite Em. unfold route. rewrite Hsess. exact Hc. }
      split; [intros p Hp; apply R2; by rewrite Hsess|].
      intros x Hx. apply R3. by rewrite Hqueue.
    + destruct (Hdel c2 Hin) as (w2 & ok2 & Hs2 & Hslow & D1 & D2).
      pose proof (Hapl c2 Hin) as Hsr. pose proof (same_route_sym _ _ _ Hsr) as Hsr'.
      destruct (send1_local w1 w e c2 w2 ok2 Hsr' Hs2) as (w2' & Hs2' & L1 & _ & L2 & _).
      exists w2', ok2. split; [done|]. split; [|split].
      * rewrite <- Hslow. destruct ok; [done|]. rewrite elem_of_cons. split; [|by right].
        intros [->|?]; done.
      * intros p Hp. rewrite D1, L1 by (rewrite (sr_session _ _ _ Hsr); done). done.
      * intros x Hx. rewrite <- (same_route_queue _ _ _ Hsr) in Hx. rewrite D2, L2 by done. done.
  - intros x Hx. cbn [map] in Hx. apply not_elem_of_cons in Hx as [H1 H2].
    eapply same_route_trans; [by apply Hap|]. apply Hrest.
    rewrite Em. by rewrite (same_route_route w w1 x) by by apply Hap.
Qed.

(** ** Who gets a job *)

Definition is_target (h : Hub) (e : EmitJob) (c : cptr) : Prop :=
  if AllClients e then c ∈ clients h /\ Exclude e <> Some c
  else match Only e with
       | Some x => c = x /\ c ∈ clients h
       | None => c ∈ members h (Room e) /\ Exclude e <> Some c
       end.

Lemma collectTargets_spec h e c : c ∈ collectTargets h e <-> is_target h e c.
Proof.
  unfold collectTargets, is_target.
  assert (forall m : gset cptr, c ∈ match Exclude e with Some x => m ∖ {[x]} | None => m end
    <-> c ∈ m /\ Exclude e <> Some c) as Hex.
  { intros m. destruct (Exclude e) as [x|]; [|by split; [|intros []]].
    rewrite elem_of_difference, elem_of_singleton. split; intros [H1 H2]; (split; [done|congruence]). }
  destruct (AllClients e); [apply Hex|]. destruct (Only e) as [x|]; [|apply Hex].
  destruct (decide (x ∈ clients h)); set_solver.
Qed.

Lemma deliver_all_spec' w h e order : good w -> list_to_set order = collectTargets h e ->
  NoDup (map (route w) order) ->
  (forall c, c ∈ order -> valid w (OSend c (Data e) (Policy e))) ->
  exists w' slow, emitToTargets w h e order = Some (w', slow) /\ good w' /\
    (forall c, c ∈ slow -> is_target h e c) /\
    (forall c, is_target h e c -> delivered w w' e c slow) /\
    (forall c, route w c ∉ map (route w) order -> same_route w w' c).
Proof.
  intros Hg Hset Hnd Hv. unfold emitToTargets.
  rewrite decide_True by (split; [done|by eapply NoDup_fmap_1]).
  destruct (deliver_all_spec w e order Hg Hnd Hv) as (w' & slow & -> & Hg' & Hsub & Hdel & Hrest).
  assert (forall c, is_target h e c <-> c ∈ order) as Ht.
  { intros c. by rewrite <- collectTargets_spec, <- Hset, elem_of_list_to_set. }
  exists w', slow. split; [done|]. split; [done|].
  split; [intros c Hc; by apply Ht, Hsub|]. split; [intros c Hc; by apply Hdel, Ht|done].
Qed.

(** ** Draining *)

Lemma shutdown_all_spec w l : good w ->
  exists w', shutdown_all w l = Some w' /\ good w' /\ w_sess w' = w_sess w /\
    (forall c, c ∈ l -> noResume (w_clients w' !!! c) = true /\
       forall f, enqueue (w_clients w' !!! c) f = (w_clients w' !!! c, enqClosed)) /\
    (forall c, c ∉ l -> w_clients w' !!! c = w_clients w !!! c) /\
    (forall c, unwritten (w_clients w' !!! c) = unwritten (w_clients w !!! c)).
Proof.
  revert w. induction l as [|c l IH]; intros w Hg; cbn [shutdown_all].
  { exists w. split; [done|]. split; [done|]. split; [done|].
    split; [intros c []%elem_of_nil|done]. }
  pose proof (proj1 (g_clients w Hg c)) as Hwf.
  destruct (closeRaw_wf _ (with_noResume_wf _ Hwf)) as (cl & Hs & Hwf' & Hd & Hb & Hse & Hr & Hn & _).
  unfold Shutdown. rewrite Hs. cbn [mbind option_bind].
  destruct (IH (set_client w c cl)) as (w' & -> & Hg' & Es & Hin & Hout & Hun);
    [by apply set_client_good|].
  exists w'. split; [done|]. split; [done|]. split; [done|].
  assert (forall x, x <> c -> w_clients (set_client w c cl) !!! x = w_clients w !!! x) as Hne
    by (intros x Hx; by apply lookup_total_insert_ne).
  assert (w_clients (set_client w c cl) !!! c = cl) as Heq by apply lookup_total_insert_eq.
  split; [|split].
  - intros x Hx. destruct (decide (x ∈ l)) as [Hxl|Hxl]; [by apply Hin|].
    apply elem_of_cons in Hx as [->|Hx]; [|done]. rewrite Hout, Heq by done. split; [done|].
    intros f. unfold enqueue, try_send. destruct Hwf' as [_ Hcl _]. by rewrite Hcl, Hd.
  - intros x [Hx Hxl]%not_elem_of_cons. rewrite Hout by done. by apply Hne.
  - intros x. rewrite Hun. destruct (decide (x = c)) as [->|Hx]; [|by rewrite Hne].
    rewrite Heq. unfold unwritten. by rewrite Hb, Hr.
Qed.

(** ** Properties *)

(** C13: each request changes membership exactly as its specification, a
    relation between rooms and clients, says: a transfer renames the old client
    to the new one in every room the old one is in and nowhere else, and
    nothing else but a leave or an unregistration takes a client out of a
    room. *)
Theorem serve_refines h r now :
  (forall room c, c ∈ members (serve h r now) room <->
     spec_members r (fun rm x => x ∈ members h rm) room c) /\
  (forall c, c ∈ clients (serve h r now) <-> spec_clients r (fun x => x ∈ clients h) c).
Proof. split; [intros; apply serve_members|intros; apply serve_clients]. Qed.

(** In every reachable state of the hub no room is empty, so no memory is
    held for rooms nobody is in, and a room is listed exactly when its creation
    time is known and when somebody is in it. *)
Theorem rooms_nonempty n h room :
  hub_reachable n h ->
  (room ∈ AllRooms h <-> members h room <> ∅) /\
  (room ∈ AllRooms h <-> is_Some (RoomCreatedAt h room)).
Proof.
  intros Hr. destruct (hub_reachable_wf n h Hr) as [H1 H2]. unfold AllRooms, RoomCreatedAt.
  rewrite elem_of_dom. split; [|by rewrite H2]. split.
  - intros [m Hm]. rewrite (members_lookup h room m) by done. by eapply H1.
  - intros Hne. destruct (rooms h !! room) as [m|] eqn:Hm; [by eexists|].
    by rewrite members_none in Hne.
Qed.

Definition demo_hub : Hub :=
  serve (serve (serve (NewHub 2) (ReqRegister 0%nat) 1) (ReqJoin 0%nat "lobby") 2)
        (ReqTransfer 0%nat 1%nat) 3.

Lemma rooms_nonempty_witness :
  ("lobby"%string ∈ AllRooms demo_hub <-> members demo_hub "lobby" <> ∅) /\
  ("lobby"%string ∈ AllRooms demo_hub <-> is_Some (RoomCreatedAt demo_hub "lobby")).
Proof. apply (rooms_nonempty 2). repeat (apply hr_serve; [|done]). apply hr_new. Defined.

(** C12: a broadcast reaches each of its targets once, whatever the order in
    which the map is visited: when no two targets share a session, every
    target's session and queue end up as one single send from the state before
    the broadcast would leave them, everybody else's as they were, and the
    clients to disconnect are the targets whose single send asks for it. *)
Theorem broadcast_once w h e order :
  good w -> list_to_set order = collectTargets h e -> NoDup (map (route w) order) ->
  (forall c, c ∈ order -> valid w (OSend c (Data e) (Policy e))) ->
  exists w' slow, emitToTargets w h e order = Some (w', slow) /\ good w' /\
    (forall c, c ∈ slow -> is_target h e c) /\
    (forall c, is_target h e c -> delivered w w' e c slow) /\
    (forall c, route w c ∉ map (route w) order -> same_route w w' c).
Proof. apply deliver_all_spec'. Qed.

(** Two clients in one room, one of them with a session. *)
Definition two_ops : list op :=
  [ONew 0%nat demo_client 0; OOpen 0%nat no_resume 0 "tok"; ONew 1%nat demo_client 1].
Definition two_world : world := default (init demo_opts) (runb (init demo_opts) two_ops).
Lemma two_good : good two_world.
Proof.
  eapply reachable_good, (runb_reachable demo_opts _ two_ops); [apply reach_init|by vm_compute].
Qed.
Definition two_hub : Hub :=
  fold_left (fun h r => serve h r 1)
    [ReqRegister 0%nat; ReqRegister 1%nat; ReqJoin 0%nat "r"; ReqJoin 1%nat "r"] (NewHub 8).
Definition two_job : EmitJob := mkJob "r" "e" None None false (demo_event 7) PolicyDisconnect.

Lemma broadcast_once_witness :
  exists w' slow, emitToTargets two_world two_hub two_job [1%nat; 0%nat] = Some (w', slow) /\
    good w' /\
    (forall c, c ∈ slow -> is_target two_hub two_job c) /\
    (forall c, is_target two_hub two_job c -> delivered two_world w' two_job c slow) /\
    (forall c, route two_world c ∉ map (route two_world) [1%nat; 0%nat] ->
       same_route two_world w' c).
Proof.
  apply (broadcast_once two_world two_hub two_job [1%nat; 0%nat]).
  - apply two_good.
  - by vm_compute.
  - apply (bool_decide_eq_true_1 _). by vm_compute.
  - intros c Hc. apply validb_sound. cbn [validb Data Policy two_job].
    apply elem_of_cons in Hc as [->|Hc]; [by vm_compute|].
    apply list_elem_of_singleton in Hc as ->. by vm_compute.
Defined.

(** C26: shutting the hub down never panics, closes every registered client for
    good (its session cannot be resumed and its queue takes no more frames,
    while the frames already queued stay), leaves every other client and all
    sessions alone, and forgets clients and rooms. *)
Theorem drain_closes_all w h :
  good w ->
  exists w' h', drainAndCloseAll w h = Some (w', h') /\ good w' /\
    clients h' = ∅ /\ rooms h' = ∅ /\ roomCreated h' = ∅ /\ closed h' = true /\
    w_sess w' = w_sess w /\
    (forall c, c ∈ clients h -> noResume (w_clients w' !!! c) = true /\
       forall f, enqueue (w_clients w' !!! c) f = (w_clients w' !!! c, enqClosed)) /\
    (forall c, c ∉ clients h -> w_clients w' !!! c = w_clients w !!! c) /\
    (forall c, unwritten (w_clients w' !!! c) = unwritten (w_clients w !!! c)).
Proof.
  intros Hg. unfold drainAndCloseAll.
  destruct (shutdown_all_spec w (elements (clients h)) Hg) as (w' & -> & Hg' & Es & Hin & Hout & Hun).
  cbn [mbind option_bind]. eexists _, _. split; [done|]. split; [done|].
  do 5 (split; [done|]). split; [|split; [|done]].
  - intros c Hc. by apply Hin, elem_of_elements.
  - intros c Hc. apply Hout. by rewrite elem_of_elements.
Qed.

Lemma drain_closes_all_witness :
  exists w' h', drainAndCloseAll two_world two_hub = Some (w', h') /\ good w' /\
    clients h' = ∅ /\ rooms h' = ∅ /\ roomCreated h' = ∅ /\ closed h' = true /\
    w_sess w' = w_sess two_world /\
    (forall c, c ∈ clients two_hub -> noResume (w_clients w' !!! c) = true /\
       forall f, enqueue (w_clients w' !!! c) f = (w_clients w' !!! c, enqClosed)) /\
    (forall c, c ∉ clients two_hub -> w_clients w' !!! c = w_clients two_world !!! c) /\
    (forall c, unwritten (w_clients w' !!! c) = unwritten (w_clients two_world !!! c)).
Proof. apply drain_closes_all, two_good. Defined.

(** The moment between [SessionStore.Open] and [Hub.Transfer] in [openSession]:
    the session lives on client 1, client 0 is still registered. *)
Definition resuming_world : world :=
  default (init demo_opts)
    (runb (init demo_opts) (demo_ops ++ [OOpen 1%nat (resume_from "tok" 2 "u") 50 "new"])).
Definition resuming_hub : Hub :=
  fold_left (fun h r => serve h r 1) [ReqRegister 0%nat; ReqRegister 1%nat] (NewHub 8).
Definition to_all (d : bytes) : EmitJob := mkJob "" "e" None None true d PolicyDisconnect.

(** At that moment a broadcast to all clients is numbered, logged and sent
    twice to the resuming peer, once through each client of its session. *)
Theorem broadcast_twice_while_resuming :
  exists w' slow,
    emitToTargets resuming_world resuming_hub (to_all (demo_event 9)) [0%nat; 1%nat]
      = Some (w', slow) /\
    unwritten (w_clients w' !!! 1%nat)
      = unwritten (w_clients resuming_world !!! 1%nat)
          ++ [stamp (demo_event 9) 6; stamp (demo_event 9) 7].
Proof. eexists _, _. split; by vm_compute. Qed.

End hub.
