(* ===== verification/Transport.v ===== *)
(** * Transports ([internal/transport.go], [internal/upgrader.go],
    [internal/eio_ws_transport.go])

    The operations the client pumps depend on, as a type class, with two
    contracts: what closing a transport promises ([ClosableTransport]) and
    where it may panic ([SafeTransport]); the transport over the native
    WebSocket codec; and the transport that carries Engine.IO packets over
    another one. A read blocks: it is given the events that wake it up, in
    order, and returns the ones it did not use; [None] means that it is still
    blocked after them. A panic of the goroutine is an answer like the others
    ([RuntimePanic], [SigPanic]), which the caller has to pass on. *)
From S2P Require Import Prelude.
From S2P Require Import GoStd.
From S2P Require Import EngineIO.
From S2P Require Import NativeWS.

Module transport.

Inductive terror :=
  | EOF | ErrTimeout | errTransportUpgraded | ErrInboxFull | ErrOutboxFull
  | ErrPacket (e : engineio.Error)   (* an Engine.IO packet that does not parse *)
  | ErrConn (e : nativews.Error)     (* an error of the WebSocket connection *)
  | ErrClosed                        (* the network connection was closed *)
  | RuntimePanic.                    (* not an error: the goroutine panics *)
#[export] Instance terror_inhabited : Inhabited terror := populate EOF.

(** What wakes a reader up. A timer that fires in the middle of a frame leaves
    [n] bytes of it consumed. *)
Inductive wakeup := WakeData | WakeUpgrade | WakeTimer (n : nat).

(** Handlers called by a transport, in order; [SigPanic] is a panic of an
    operation that answers no error, which ends it there. *)
Inductive signal := SigPong | SigClose | SigProbe | SigUpgradePacket | SigPanic.
#[export] Instance signal_eq_dec : EqDecision signal.
Proof. solve_decision. Defined.

Definition read_outcome (T : Type) : Type :=
  option (T * list signal * result terror bytes * list wakeup).

Class Transport (T : Type) := {
  Name : T -> string;
  SetReadLimit : T -> Z -> T;
  SetReadDeadline : T -> Z -> T;
  OnPong : T -> T;
  Read : T -> list wakeup -> read_outcome T;
  Write : T -> bytes -> T * result terror unit;
  Ping : T -> T * result terror unit;
  SendClose : T -> T * result terror unit;
  Close : T -> T * list signal
}.

Definition panicked {A} (r : result terror A) : bool :=
  match r with Err RuntimePanic => true | _ => false end.

(** The contract on closing: it is permanent, and then nothing is written and
    no read blocks. A read may still return what the transport had read ahead,
    at most [backlog] messages. *)
Class ClosableTransport (T : Type) `{Transport T} := {
  is_closed : T -> Prop;
  backlog : T -> nat;
  Close_closed t : is_closed (Close t).1;
  Close_again t : is_closed t -> Close t = (t, []);
  Read_closed t w l : is_closed t -> exists t' sg r rest,
    Read t (w :: l) = Some (t', sg, r, rest) /\ is_closed t' /\
    match r with Ok _ => (backlog t' < backlog t)%nat | Err e => e <> ErrTimeout end;
  Write_closed t d : is_closed t -> exists e, Write t d = (t, Err e);
  Ping_closed t : is_closed t -> exists e, Ping t = (t, Err e);
  SendClose_closed t : is_closed t ->
    is_closed (SendClose t).1 /\ (backlog (SendClose t).1 <= backlog t)%nat;
  Deadline_closed t tm : is_closed t ->
    is_closed (SetReadDeadline t tm) /\ (backlog (SetReadDeadline t tm) <= backlog t)%nat
}.

(** The contract on panics: from a [safe] state on, only a read may panic. *)
Class SafeTransport (T : Type) `{Transport T} := {
  safe : T -> Prop;
  safe_limit t n : safe t -> safe (SetReadLimit t n);
  safe_deadline t tm : safe t -> safe (SetReadDeadline t tm);
  safe_onPong t : safe t -> safe (OnPong t);
  safe_read t sched t' sg r rest : safe t -> Read t sched = Some (t', sg, r, rest) ->
    safe t' /\ SigPanic ∉ sg;
  safe_write t d : safe t -> safe (Write t d).1 /\ panicked (Write t d).2 = false;
  safe_ping t : safe t -> safe (Ping t).1 /\ panicked (Ping t).2 = false;
  safe_sendClose t : safe t -> safe (SendClose t).1 /\ panicked (SendClose t).2 = false;
  safe_close t : safe t -> safe (Close t).1 /\ SigPanic ∉ (Close t).2
}.

(** ** The native transport *)

(** [nt_ahead] bytes of the stream are in the connection's [bufio.Reader] when
    the transport is closed: how many is up to the network, so any number. *)
Record nativeTransport := mkNative {
  conn : nativews.Conn;
  nt_ahead : nat;
  nt_closed : bool
}.

(** Reads that come to the end of the bytes find the peer gone, or the network
    connection closed by us. *)
Definition conn_error (closed : bool) (f : nativews.fault) : terror :=
  match f with
  | nativews.Fail nativews.EOF => EOF
  | nativews.Fail e => ErrConn e
  | nativews.Ended partial =>
      if closed then ErrClosed else if partial then ErrConn nativews.ErrUnexpectedEOF else EOF
  | nativews.PanicMakeSlice | nativews.OutOfFuel => RuntimePanic
  end.

Definition with_conn (t : nativeTransport) (c : nativews.Conn) : nativeTransport :=
  mkNative c (nt_ahead t) (nt_closed t).

(** [ReadMessage] knows nothing of [Close]. *)
Definition native_message (t : nativeTransport) (rest : list wakeup) : read_outcome nativeTransport :=
  let '(c, r) := nativews.ReadMessage (conn t) in
  let pongs := (length (nativews.c_pongs c) - length (nativews.c_pongs (conn t)))%nat in
  Some (with_conn t c, repeat SigPong pongs,
        match r with Ok (_, data) => Ok data | Err f => Err (conn_error (nt_closed t) f) end, rest).

(** On a closed connection no read blocks: the bytes read ahead are served, and
    then it fails. *)
Definition native_read (t : nativeTransport) (sched : list wakeup) : read_outcome nativeTransport :=
  if nt_closed t then native_message t sched
  else match sched with
  | WakeData :: rest => native_message t rest
  | WakeTimer n :: rest =>
      let c := nativews.set_br (conn t) (drop n (nativews.c_br (conn t))) in
      Some (with_conn t c, [], Err ErrTimeout, rest)
  | [] | WakeUpgrade :: _ => None
  end.

Definition native_send (t : nativeTransport)
    (send : nativews.Conn -> result nativews.fault nativews.Conn)
  : nativeTransport * result terror unit :=
  if nt_closed t then (t, Err ErrClosed)
  else match send (conn t) with
       | Ok c => (with_conn t c, Ok tt)
       | Err f => (t, Err (conn_error false f))
       end.

(** Closing the network connection: what was not read ahead is lost, and no
    write succeeds any more, the pongs of [ReadMessage] included. *)
Definition native_close (t : nativeTransport) : nativeTransport * list signal :=
  if nt_closed t then (t, [])
  else
    let c := conn t in
    (mkNative (nativews.mkConn (take (nt_ahead t) (nativews.c_br c)) (nativews.c_w c) (Some O)
                 (nativews.c_readLimit c) (nativews.c_onPong c) (nativews.c_pongs c))
       (nt_ahead t) true, []).

(** The status code of a normal closure, 1000. *)
Definition normal_closure : bytes := [x03; xe8].

#[export] Instance native_transport : Transport nativeTransport := {
  Name _ := engineio.TransportWebSocket;
  SetReadLimit t limit := with_conn t (nativews.SetReadLimit (conn t) limit);
  SetReadDeadline t _ := t;
  OnPong t := with_conn t (nativews.SetPongHandler (conn t));
  Read := native_read;
  Write t data := native_send t (fun c => nativews.WriteMessage c nativews.opcodeText data);
  Ping t := native_send t (fun c => nativews.WriteControl c nativews.opcodePing []);
  SendClose t := native_send t (fun c => nativews.WriteControl c nativews.opcodeClose normal_closure);
  Close := native_close
}.

Lemma native_message_backlog t rest t' sg r rest' :
  native_message t rest = Some (t', sg, r, rest') ->
  nt_closed t' = nt_closed t /\ SigPanic ∉ sg /\
  match r with
  | Ok _ => (length (nativews.c_br (conn t')) < length (nativews.c_br (conn t)))%nat
  | Err e => e <> ErrTimeout
  end.
Proof.
  unfold native_message. destruct (nativews.ReadMessage (conn t)) as [c [[op d]|f]] eqn:E;
    intros [= <- <- <- _]; (split; [done|]); (split; [by intros ?%list_elem_of_In%repeat_spec|]).
  - by apply nativews.read_loop_shrinks in E.
  - destruct f as [[]|[]| |], (nt_closed t); done.
Qed.

#[export] Instance native_closable : ClosableTransport nativeTransport.
Proof.
  refine {| is_closed t := nt_closed t = true; backlog t := length (nativews.c_br (conn t)) |}.
  - intros t. simpl. unfold native_close. by destruct (nt_closed t) eqn:E.
  - intros t Hc. simpl. unfold native_close. by rewrite Hc.
  - intros t w l Hc. cbn [Read native_transport]. unfold native_read. rewrite Hc.
    destruct (native_message t (w :: l)) as [[[[t' sg] r] rest]|] eqn:E.
    + exists t', sg, r, rest. apply native_message_backlog in E as (E & _ & H). by rewrite E.
    + unfold native_message in E. by destruct (nativews.ReadMessage _).
  - intros t d Hc. simpl. unfold native_send. rewrite Hc. by eexists.
  - intros t Hc. simpl. unfold native_send. rewrite Hc. by eexists.
  - intros t Hc. simpl. unfold native_send. by rewrite Hc.
  - by intros t tm Hc.
Defined.

Lemma native_send_safe t send :
  (forall c f, send c = Err f -> exists e, f = nativews.Fail e) ->
  panicked (native_send t send).2 = false.
Proof.
  intros Hs. unfold native_send. destruct (nt_closed t); [done|].
  destruct (send (conn t)) as [c|f] eqn:E; [done|]. destruct (Hs _ _ E) as [[] ->]; done.
Qed.

#[export] Instance native_safe : SafeTransport nativeTransport.
Proof.
  refine {| safe _ := True |}; [done..| | | | |]; cbn [Read Write Ping SendClose Close native_transport].
  - intros t sched t' sg r rest _. unfold native_read.
    assert (native_message t sched = Some (t', sg, r, rest) -> True /\ SigPanic ∉ sg)
      as Hm by (intros H%native_message_backlog; by split; [|apply H]).
    destruct (nt_closed t); [done|]. destruct sched as [|[| |n] l]; [done| |done|].
    + intros H%native_message_backlog. by split; [|apply H].
    + intros [= _ <- _ _]. by split; [|apply not_elem_of_nil].
  - intros t d _. split; [done|]. by apply native_send_safe, nativews.WriteMessage_fault.
  - intros t _. split; [done|]. by apply native_send_safe, nativews.WriteControl_fault.
  - intros t _. split; [done|]. by apply native_send_safe, nativews.WriteControl_fault.
  - intros t _. split; [done|]. unfold native_close. destruct (nt_closed t); apply not_elem_of_nil.
Defined.

(** ** Engine.IO packets over a transport *)

Section eio.
Context {R : Type} `{Transport R}.

Record eioWebSocketTransport := mkEio {
  raw : R;
  eio_readDeadline : Z;
  eio_onPong : bool;
  eio_closed : bool
}.

Definition newEIOWebSocketTransport (r : R) : eioWebSocketTransport := mkEio r 0 false false.

Definition with_raw (t : eioWebSocketTransport) (r : R) : eioWebSocketTransport :=
  mkEio r (eio_readDeadline t) (eio_onPong t) (eio_closed t).

Definition writePacket (t : eioWebSocketTransport) (p : engineio.Packet)
  : eioWebSocketTransport * result terror unit :=
  match engineio.Encode p with
  | Err e => (t, Err (ErrPacket e))
  | Ok wire => let '(r, res) := Write (raw t) wire in (with_raw t r, res)
  end.

Definition firePong (t : eioWebSocketTransport) : list signal :=
  if eio_onPong t then [SigPong] else [].

Definition eio_close (t : eioWebSocketTransport) : eioWebSocketTransport * list signal :=
  if eio_closed t then (t, [])
  else let '(r, sg) := Close (raw t) in (mkEio r (eio_readDeadline t) (eio_onPong t) true, sg).

(** The packets of one frame, until one of them makes [Read] return. *)
Fixpoint eio_packets (t : eioWebSocketTransport) (packets : list engineio.Packet)
  : eioWebSocketTransport * list signal * option (result terror bytes) :=
  match packets with
  | [] => (t, [], None)
  | p :: packets' =>
      let ty := engineio.Type_ p in
      if ty =? engineio.Message then (t, [], Some (Ok (engineio.Data p)))
      else if ty =? engineio.Ping then
        match writePacket t (engineio.mkPacket engineio.Pong (engineio.Data p)) with
        | (t, Err e) => (t, [], Some (Err e))
        | (t, Ok _) => eio_packets t packets'
        end
      else if ty =? engineio.Pong then
        let '(t', sg, r) := eio_packets t packets' in (t', firePong t ++ sg, r)
      else if ty =? engineio.Close then
        let '(t', sg) := eio_close t in (t', sg, Some (Err EOF))
      else eio_packets t packets'
  end.

Fixpoint eio_read_loop (fuel : nat) (t : eioWebSocketTransport) (sched : list wakeup)
  : read_outcome eioWebSocketTransport :=
  match fuel with
  | O => None
  | S fuel' =>
      '(r, sg, frame, rest) ← Read (raw t) sched;
      let t := with_raw t r in
      match frame with
      | Err e => Some (t, sg, Err e, rest)
      | Ok frame =>
          match engineio.DecodeBatch frame with
          | Err e => Some (t, sg, Err (ErrPacket e), rest)
          | Ok packets =>
              let '(t, sg', res) := eio_packets t packets in
              match res with
              | Some res => Some (t, sg ++ sg', res, rest)
              | None =>
                  '(t, sg'', res, rest) ← eio_read_loop fuel' t rest;
                  Some (t, sg ++ sg' ++ sg'', res, rest)
              end
          end
      end
  end.

Definition eio_read (t : eioWebSocketTransport) (sched : list wakeup)
  : read_outcome eioWebSocketTransport :=
  if eio_closed t then Some (t, [], Err EOF, sched)
  else eio_read_loop (length sched) t sched.

Definition eio_send (t : eioWebSocketTransport) (p : engineio.Packet)
  : eioWebSocketTransport * result terror unit :=
  if eio_closed t then (t, Err EOF) else writePacket t p.

#[export] Instance eio_transport : Transport eioWebSocketTransport := {
  Name _ := engineio.TransportWebSocket;
  SetReadLimit t limit := with_raw t (SetReadLimit (raw t) limit);
  SetReadDeadline t tm :=
    mkEio (SetReadDeadline (raw t) tm) tm (eio_onPong t) (eio_closed t);
  OnPong t := mkEio (OnPong (raw t)) (eio_readDeadline t) true (eio_closed t);
  Read := eio_read;
  Write t data := eio_send t (engineio.mkPacket engineio.Message data);
  Ping t := eio_send t (engineio.mkPacket engineio.Ping []);
  SendClose t :=
    if eio_closed t then (t, Ok tt) else writePacket t (engineio.mkPacket engineio.Close []);
  Close := eio_close
}.

#[export] Instance eio_closable : ClosableTransport eioWebSocketTransport.
Proof.
  refine {| is_closed t := eio_closed t = true; backlog _ := 0%nat |}.
  - intros t. simpl. unfold eio_close. destruct (eio_closed t) eqn:E; [done|].
    by destruct (Close (raw t)).
  - intros t Hc. simpl. unfold eio_close. by rewrite Hc.
  - intros t w l Hc. simpl. unfold eio_read. rewrite Hc. by eexists _, _, _, _.
  - intros t d Hc. simpl. unfold eio_send. rewrite Hc. by eexists.
  - intros t Hc. simpl. unfold eio_send. rewrite Hc. by eexists.
  - intros t Hc. simpl. by rewrite Hc.
  - by intros t tm Hc.
Defined.

Context `{!SafeTransport R}.
Implicit Types t : eioWebSocketTransport.

Lemma writePacket_safe t p : safe (raw t) ->
  safe (raw (writePacket t p).1) /\ panicked (writePacket t p).2 = false.
Proof.
  intros Hs. unfold writePacket. destruct (engineio.Encode p) as [wire|]; [|done].
  pose proof (safe_write (raw t) wire Hs). by destruct (Write (raw t) wire).
Qed.

Lemma eio_close_safe t : safe (raw t) ->
  safe (raw (eio_close t).1) /\ SigPanic ∉ (eio_close t).2.
Proof.
  intros Hs. unfold eio_close. destruct (eio_closed t); [by split; [|apply not_elem_of_nil]|].
  pose proof (safe_close (raw t) Hs). by destruct (Close (raw t)).
Qed.

Lemma eio_packets_safe t ps t' sg r : safe (raw t) -> eio_packets t ps = (t', sg, r) ->
  safe (raw t') /\ SigPanic ∉ sg.
Proof.
  revert t t' sg r. induction ps as [|p ps IH]; intros t t' sg r Hs; cbn [eio_packets];
    [intros [= <- <- _]; by split; [|apply not_elem_of_nil]|].
  destruct (_ =? engineio.Message); [intros [= <- <- _]; by split; [|apply not_elem_of_nil]|].
  destruct (_ =? engineio.Ping).
  { pose proof (writePacket_safe t (engineio.mkPacket engineio.Pong (engineio.Data p)) Hs) as [Hw _].
    destruct (writePacket _ _) as [t1 [u|e]]; [by apply IH|].
    intros [= <- <- _]. by split; [|apply not_elem_of_nil]. }
  destruct (_ =? engineio.Pong).
  { destruct (eio_packets t ps) as [[t1 sg1] r1] eqn:E. intros [= <- <- _].
    destruct (IH _ _ _ _ Hs E) as [H1 H2]. split; [done|].
    unfold firePong. destruct (eio_onPong t); [|done]. set_solver. }
  destruct (_ =? engineio.Close); [|by apply IH].
  pose proof (eio_close_safe t Hs). destruct (eio_close t). by intros [= <- <- _].
Qed.

Lemma eio_read_loop_safe fuel t sched t' sg r rest : safe (raw t) ->
  eio_read_loop fuel t sched = Some (t', sg, r, rest) -> safe (raw t') /\ SigPanic ∉ sg.
Proof.
  revert t sched sg r rest. induction fuel as [|fuel IH]; intros t sched sg r rest Hs; [done|].
  cbn [eio_read_loop].
  destruct (Read (raw t) sched) as [[[[t1 sg1] f] rest1]|] eqn:E; [|done]. cbn [mbind option_bind].
  destruct (safe_read _ _ _ _ _ _ Hs E) as [Hs1 Hp1].
  destruct f as [frame|e]; [|by intros [= <- <- _ _]].
  destruct (engineio.DecodeBatch frame) as [ps|e]; [|by intros [= <- <- _ _]].
  destruct (eio_packets (with_raw t t1) ps) as [[t2 sg2] res] eqn:E2.
  destruct (eio_packets_safe (with_raw t t1) _ _ _ _ Hs1 E2) as [Hs2 Hp2].
  destruct res as [res|]; [intros [= <- <- _ _]; split; [done|set_solver]|].
  destruct (eio_read_loop fuel t2 rest1) as [[[[t3 sg3] r3] rest3]|] eqn:E3; [|done].
  cbn [mbind option_bind]. intros [= <- <- _ _].
  destruct (IH _ _ _ _ _ Hs2 E3). split; [done|set_solver].
Qed.

#[export] Instance eio_safe : SafeTransport eioWebSocketTransport.
Proof.
  refine {| safe t := safe (raw t) |};
    cbn [SetReadLimit SetReadDeadline OnPong Read Write Ping SendClose Close eio_transport].
  - intros t n. by apply safe_limit.
  - intros t tm. by apply safe_deadline.
  - intros t. by apply safe_onPong.
  - intros t sched t' sg r rest Hs. unfold eio_read. destruct (eio_closed t).
    + intros [= <- <- _ _]. by split; [|apply not_elem_of_nil].
    + by apply eio_read_loop_safe.
  - intros t d Hs. unfold eio_send. destruct (eio_closed t); [done|by apply writePacket_safe].
  - intros t Hs. unfold eio_send. destruct (eio_closed t); [done|by apply writePacket_safe].
  - intros t Hs. destruct (eio_closed t); [done|by apply writePacket_safe].
  - intros t Hs. by apply eio_close_safe.
Defined.

End eio.
Arguments eioWebSocketTransport : clear implicits.

(** [writeEIOBatch]: the batch codec once more, over a string builder. *)
Fixpoint write_batch_loop (i : nat) (buf : bytes) (ps : list engineio.Packet)
  : result engineio.Error bytes :=
  match ps with
  | [] => Ok buf
  | p :: ps' =>
      wire ← engineio.Encode p;
      let buf := if (0 <? i)%nat then buf ++ [engineio.RecordSeparator] else buf in
      write_batch_loop (S i) (buf ++ wire) ps'
  end.
Definition writeEIOBatch (packets : list engineio.Packet) : result engineio.Error bytes :=
  match packets with [] => Ok [] | _ => write_batch_loop 0 [] packets end.

(** ** Lemmas *)

Lemma DecodeBatch_packets ps : Forall (fun p => engineio.valid (engineio.Type_ p)) ps ->
  Forall (fun p => engineio.RecordSeparator ∉ engineio.Data p) ps -> ps <> [] ->
  exists body, engineio.EncodeBatch ps = Ok body /\ engineio.DecodeBatch body = Ok ps.
Proof.
  intros Hv Hrs Hne. rewrite engineio.EncodeBatch_join, engineio.mapE_Encode_valid by done.
  cbn [mbind result_bind]. eexists. split; [done|].
  apply engineio.DecodeBatch_EncodeBatch; [done|].
  rewrite engineio.EncodeBatch_join, engineio.mapE_Encode_valid by done. done.
Qed.

(** The wire form of a message packet. *)
Definition message_wire (d : bytes) : bytes := x34 :: d.

Lemma Encode_message d : engineio.Encode (engineio.mkPacket engineio.Message d) = Ok (message_wire d).
Proof. done. Qed.

Lemma DecodeBatch_message d : engineio.RecordSeparator ∉ d ->
  engineio.DecodeBatch (message_wire d) = Ok [engineio.mkPacket engineio.Message d].
Proof.
  intros Hd. destruct (DecodeBatch_packets [engineio.mkPacket engineio.Message d]) as (body & He & Hdec).
  - by repeat constructor.
  - by repeat constructor.
  - done.
  - cbn in He. by injection He as <-.
Qed.

Lemma eio_read_message {R} `{Transport R} (t : eioWebSocketTransport R) w l r sg body p ps :
  eio_closed t = false -> Read (raw t) (w :: l) = Some (r, sg, Ok body, l) ->
  engineio.DecodeBatch body = Ok (p :: ps) -> engineio.Type_ p = engineio.Message ->
  eio_read t (w :: l) = Some (with_raw t r, sg, Ok (engineio.Data p), l).
Proof.
  intros Hc Hr Hd Hp. unfold eio_read. rewrite Hc. cbn [length eio_read_loop].
  rewrite Hr. cbn [mbind option_bind]. rewrite Hd. cbn [eio_packets]. rewrite Hp.
  change (engineio.Message =? engineio.Message) with true. cbv iota. by rewrite app_nil_r.
Qed.

Lemma write_batch_loop_engineio i buf ps :
  write_batch_loop i buf ps = engineio.encode_batch_loop i buf ps.
Proof.
  revert i buf. induction ps as [|p ps IH]; intros i buf; simpl; [done|].
  destruct (engineio.Encode p); [|done]. cbn [mbind result_bind]. apply IH.
Qed.

(** ** Properties *)

(** A batch builder of the upgraded transport is the batch codec of the
    polling transport: the two loops agree on every list of packets. *)
Theorem writeEIOBatch_EncodeBatch ps : writeEIOBatch ps = engineio.EncodeBatch ps.
Proof. destruct ps; [done|]. apply write_batch_loop_engineio. Qed.

(** C34: Engine.IO over the native WebSocket codec, inbound, on an open connection
    that can be written: whatever way the client fragments and masks the message
    packet carrying [d], and whatever pings and pongs it interleaves, the
    transport reads [d], answers the pings in order, reports the pongs, and
    leaves the rest of the stream. The packet has to respect the read limit and
    [d] must not hold the record separator, which would end the packet. *)
Theorem eio_native_reads t fs pings pongs d rest :
  let c := conn (raw t) in
  eio_closed t = false -> nt_closed (raw t) = false ->
  nativews.fragments 0 fs (message_wire d) pings pongs -> Forall nativews.frame_ok fs ->
  nativews.c_budget c = None ->
  nativews.c_readLimit c <= 0 \/ len (message_wire d) <= nativews.c_readLimit c ->
  nativews.c_br c = concat (map nativews.frame_bytes fs) ++ rest ->
  engineio.RecordSeparator ∉ d ->
  Read t [WakeData] =
    Some (with_raw t (with_conn (raw t) (nativews.read_state c rest pings pongs)),
          repeat SigPong (if nativews.c_onPong c then length pongs else 0),
          Ok d, []).
Proof.
  intros c Hc Hn Hf Hok Hb Hl Hbr Hd.
  assert (nativews.ReadMessage c = (nativews.read_state c rest pings pongs,
            Ok (nativews.msg_opcode 0 fs, message_wire d))) as Hrm.
  { unfold nativews.ReadMessage. rewrite (nativews.read_loop_fragments 0 fs _ pings pongs Hf _ c [] rest);
      [done|by left|done| |done|done|done].
    rewrite Hbr, length_app. pose proof (nativews.length_frames fs Hok). lia. }
  apply (eio_read_message t WakeData [] _ _ (message_wire d) (engineio.mkPacket engineio.Message d) []).
  - done.
  - cbn [Read native_transport]. unfold native_read, native_message. rewrite Hn. fold c. rewrite Hrm.
    cbn [nativews.read_state nativews.c_pongs]. rewrite length_app. do 5 f_equal.
    destruct (nativews.c_onPong c); simpl; lia.
  - by apply DecodeBatch_message.
  - done.
Qed.

Definition demo_eio : eioWebSocketTransport nativeTransport :=
  mkEio (mkNative (nativews.mkConn
    (concat (map nativews.frame_bytes [nativews.mkFrame true 9 (bs "p") [x05; x06; x07; x08];
       nativews.mkFrame true 1 (message_wire (bs "hi")) [x01; x02; x03; x04]]) ++ [x88])
    [] None 100 true []) 0 false) 0 false false.

Lemma eio_native_reads_witness :
  Read demo_eio [WakeData] =
    Some (with_raw demo_eio (with_conn (raw demo_eio)
            (nativews.read_state (conn (raw demo_eio)) [x88] [bs "p"] [])),
          repeat SigPong 0, Ok (bs "hi"), []).
Proof.
  apply (eio_native_reads demo_eio [nativews.mkFrame true 9 (bs "p") [x05; x06; x07; x08];
    nativews.mkFrame true 1 (message_wire (bs "hi")) [x01; x02; x03; x04]] [bs "p"] []).
  - done.
  - done.
  - apply (nativews.frag_ping 0 (nativews.mkFrame true 9 (bs "p") _)); [done|].
    apply (nativews.frag_last 0 (nativews.mkFrame true 1 _ _)); [done|by left|done].
  - repeat constructor; by vm_compute.
  - done.
  - right. by vm_compute.
  - done.
  - apply (bool_decide_eq_true_1 _). by vm_compute.
Defined.

(** Outbound, a write puts on the wire exactly one unmasked RFC 6455 text
    frame whose payload is the message packet. *)
Theorem eio_native_writes t d :
  let c := conn (raw t) in
  eio_closed t = false -> nt_closed (raw t) = false -> nativews.c_budget c = None ->
  len d + 1 < 2 ^ 32 ->
  exists ws, Write t d =
      (with_raw t (with_conn (raw t) (nativews.add_writes c ws)), Ok tt) /\
    concat ws = nativews.rfc_header false true nativews.opcodeText (len d + 1) ++ message_wire d.
Proof.
  intros c Hc Hn Hb Hl. pose proof (len_nonneg d).
  exists (nativews.sent_frame true nativews.opcodeText (message_wire d)). split.
  - cbn [Write eio_transport]. unfold eio_send. rewrite Hc. unfold writePacket.
    rewrite Encode_message. cbn [Write native_transport]. unfold native_send. rewrite Hn.
    unfold nativews.WriteMessage. fold c. by rewrite nativews.writeFrame_ok.
  - rewrite nativews.concat_sent_frame. unfold message_wire. rewrite len_cons, (Z.add_comm 1).
    rewrite nativews.frame_header_rfc by (unfold nativews.opcodeText; lia). done.
Qed.

Lemma eio_native_writes_witness :
  exists ws, Write demo_eio (bs "hi") =
      (with_raw demo_eio (with_conn (raw demo_eio) (nativews.add_writes (conn (raw demo_eio)) ws)),
       Ok tt) /\
    concat ws = nativews.rfc_header false true nativews.opcodeText (len (bs "hi") + 1)
                  ++ message_wire (bs "hi").
Proof. apply (eio_native_writes demo_eio); [done|done|done|by vm_compute]. Defined.

(** A frame that carries a batch loses everything after its first message:
    the read returns the first message and nothing of the others is kept,
    whatever they are. *)
Theorem eio_read_drops_batch (t : eioWebSocketTransport nativeTransport) w l r sg d ps body :
  eio_closed t = false -> Read (raw t) (w :: l) = Some (r, sg, Ok body, l) ->
  engineio.EncodeBatch (engineio.mkPacket engineio.Message d :: ps) = Ok body ->
  Forall (fun p => engineio.RecordSeparator ∉ engineio.Data p)
    (engineio.mkPacket engineio.Message d :: ps) ->
  Read t (w :: l) = Some (with_raw t r, sg, Ok d, l).
Proof.
  intros Hc Hr He Hrs.
  apply (eio_read_message t w l r sg body (engineio.mkPacket engineio.Message d) ps Hc Hr); [|done].
  by apply engineio.DecodeBatch_EncodeBatch.
Qed.

(** Two messages in one text frame. *)
Definition demo_batch : eioWebSocketTransport nativeTransport :=
  mkEio (mkNative (nativews.mkConn
    (nativews.client_frame true 1 [x01; x02; x03; x04]
       (message_wire (bs "a") ++ [engineio.RecordSeparator] ++ message_wire (bs "b")))
    [] None 100 false []) 0 false) 0 false false.

Lemma eio_read_drops_batch_witness :
  Read demo_batch [WakeData] =
    Some (with_raw demo_batch (mkNative (nativews.mkConn [] [] None 100 false []) 0 false), [],
          Ok (bs "a"), []).
Proof.
  apply (eio_read_drops_batch demo_batch WakeData [] _ _ (bs "a")
           [engineio.mkPacket engineio.Message (bs "b")]
           (message_wire (bs "a") ++ [engineio.RecordSeparator] ++ message_wire (bs "b"))).
  - done.
  - by vm_compute.
  - by vm_compute.
  - repeat constructor; apply (bool_decide_eq_true_1 _); by vm_compute.
Defined.

End transport.
