(* ===== verification/Polling.v ===== *)
(** * HTTP long-polling ([internal/polling_transport.go])

    The transport a polling client talks through: messages POSTed by the client
    wait in [inbox] for the read pump, packets written by the write pump wait
    in [outbox] for the next GET. Every method is one atomic step; a [select]
    is told which of its ready cases the scheduler picked. *)
From S2P Require Import Prelude.
From S2P Require Import GoStd.
From S2P Require Import EngineIO.
From S2P Require Import Transport.

Module polling.
Import transport.

Record pollingTransport := mkPolling {
  sess : engineio.Session;
  inbox : chan bytes;
  outbox : chan bytes;
  wake : chan unit;
  upgrade : chan unit;
  onPong : bool;
  readDeadline : option Z;     (* None: the zero time *)
  closed : bool
}.

Definition newPollingTransport (s : engineio.Session) : pollingTransport :=
  mkPolling s (make_chan 64) (make_chan 64) (make_chan 1) (make_chan 1) false None false.

Definition set_inbox (t : pollingTransport) (ch : chan bytes) : pollingTransport :=
  mkPolling (sess t) ch (outbox t) (wake t) (upgrade t) (onPong t) (readDeadline t) (closed t).
Definition set_outbox (t : pollingTransport) (ch : chan bytes) : pollingTransport :=
  mkPolling (sess t) (inbox t) ch (wake t) (upgrade t) (onPong t) (readDeadline t) (closed t).
Definition set_wake (t : pollingTransport) (ch : chan unit) : pollingTransport :=
  mkPolling (sess t) (inbox t) (outbox t) ch (upgrade t) (onPong t) (readDeadline t) (closed t).
Definition set_upgrade (t : pollingTransport) (ch : chan unit) : pollingTransport :=
  mkPolling (sess t) (inbox t) (outbox t) (wake t) ch (onPong t) (readDeadline t) (closed t).

(** ** The outbound side *)

(** A send with a [default] case that does nothing. *)
Definition nudge (ch : chan unit) : chan unit :=
  match try_send ch tt with Sent ch' => ch' | WouldBlock | SendPanic => ch end.

Definition signalPoll (t : pollingTransport) : pollingTransport := set_wake t (nudge (wake t)).
Definition signalUpgrade (t : pollingTransport) : pollingTransport :=
  set_upgrade t (nudge (upgrade t)).

Definition enqueueOutbound (t : pollingTransport) (wire : bytes)
  : pollingTransport * result terror unit :=
  if closed t then (t, Err EOF)
  else match try_send (outbox t) wire with
       | Sent ch => (signalPoll (set_outbox t ch), Ok tt)
       | WouldBlock => (t, Err ErrOutboxFull)
       | SendPanic => (t, Err RuntimePanic)
       end.

(** [Write], [Ping] and [SendClose]: a packet, unless the transport is closed. *)
Definition send_packet (t : pollingTransport) (p : engineio.Packet)
  : pollingTransport * result terror unit :=
  match engineio.Encode p with
  | Err e => (t, Err (ErrPacket e))
  | Ok wire => enqueueOutbound t wire
  end.
Definition poll_write (t : pollingTransport) (data : bytes) :=
  if closed t then (t, Err EOF) else send_packet t (engineio.mkPacket engineio.Message data).
Definition poll_ping (t : pollingTransport) :=
  if closed t then (t, Err EOF) else send_packet t (engineio.mkPacket engineio.Ping []).
Definition poll_sendClose (t : pollingTransport) :=
  if closed t then (t, Ok tt) else send_packet t (engineio.mkPacket engineio.Close []).

(** [collectBatch]: whatever is in the outbox, joined by separators. *)
Fixpoint collect_loop (fuel : nat) (t : pollingTransport) (buf : bytes) : pollingTransport * bytes :=
  match fuel with
  | O => (t, buf)
  | S fuel' =>
      match recv (outbox t) with
      | Received wire ch =>
          collect_loop fuel' (set_outbox t ch) ((buf ++ [engineio.RecordSeparator]) ++ wire)
      | RecvClosed | RecvBlocks => (t, buf)
      end
  end.
Definition collectBatch (t : pollingTransport) (first : bytes) : pollingTransport * bytes :=
  collect_loop (S (length (ch_buf (outbox t)))) t first.

(** The case picked by the [select] of [poll]. *)
Inductive poll_case := PickOutbox | PickTimer | PickWake.

(** [None]: the case that was picked is not ready. *)
Definition poll (t : pollingTransport) (pick : poll_case)
  : option (pollingTransport * result terror bytes) :=
  if closed t then Some (t, Err EOF)
  else match pick with
       | PickOutbox =>
           match recv (outbox t) with
           | Received wire ch =>
               let '(t, body) := collectBatch (set_outbox t ch) wire in Some (t, Ok body)
           | RecvClosed | RecvBlocks => None
           end
       | PickTimer =>
           Some (t, map_err ErrPacket (engineio.Encode (engineio.mkPacket engineio.Ping [])))
       | PickWake =>
           match recv (wake t) with
           | Received _ wk =>
               let t := set_wake t wk in
               match recv (outbox t) with
               | Received wire ch =>
                   let '(t, body) := collectBatch (set_outbox t ch) wire in Some (t, Ok body)
               | RecvClosed | RecvBlocks => Some (t, Ok [])
               end
           | RecvClosed | RecvBlocks => None
           end
       end.

(** ** The inbound side *)

(** A message is copied before it is queued; queueing on the closed channel
    panics, which the check of [closed] rules out as long as nothing closes the
    transport in between. *)
Definition deliver_send (t : pollingTransport) (data : bytes)
  : pollingTransport * result terror unit :=
  match try_send (inbox t) data with
  | Sent ch => (set_inbox t ch, Ok tt)
  | WouldBlock => (t, Err ErrInboxFull)
  | SendPanic => (t, Err RuntimePanic)
  end.
Definition deliverInbound (t : pollingTransport) (data : bytes)
  : pollingTransport * result terror unit :=
  if closed t then (t, Err EOF) else deliver_send t data.

(** Closing the inbox a second time panics: [onClose] is then not reached. *)
Definition poll_close (t : pollingTransport) : pollingTransport * list signal :=
  if closed t then (t, [])
  else
    let swapped ch := mkPolling (sess t) ch (outbox t) (wake t) (upgrade t) (onPong t)
                        (readDeadline t) true in
    match close_chan (inbox t) with
    | Some ch => (swapped ch, [SigClose])
    | None => (swapped (inbox t), [SigPanic])
    end.

Definition probe (data : bytes) : list signal :=
  if engineio.IsProbe data then [SigProbe] else [].

Definition handleOne (t : pollingTransport) (p : engineio.Packet)
  : pollingTransport * list signal * result terror unit :=
  let ty := engineio.Type_ p in
  if ty =? engineio.Ping then
    let '(t, r) := send_packet t (engineio.mkPacket engineio.Pong (engineio.Data p)) in
    (t, probe (engineio.Data p), r)
  else if ty =? engineio.Pong then
    (t, probe (engineio.Data p) ++ (if onPong t then [SigPong] else []), Ok tt)
  else if ty =? engineio.Message then
    let '(t, r) := deliverInbound t (engineio.Data p) in (t, [], r)
  else if ty =? engineio.Upgrade then (t, [SigUpgradePacket], Ok tt)
  else if ty =? engineio.Close then
    let '(t, sg) := poll_close t in (t, sg, Err EOF)
  else (t, [], Ok tt).

Fixpoint handleInbound (t : pollingTransport) (packets : list engineio.Packet)
  : pollingTransport * list signal * result terror unit :=
  match packets with
  | [] => (t, [], Ok tt)
  | p :: packets' =>
      let '(t, sg, r) := handleOne t p in
      match r with
      | Err e => (t, sg, Err e)
      | Ok _ => let '(t, sg', r) := handleInbound t packets' in (t, sg ++ sg', r)
      end
  end.

Definition poll_read (t : pollingTransport) (sched : list wakeup) : read_outcome pollingTransport :=
  if closed t then Some (t, [], Err EOF, sched)
  else match sched with
       | [] => None
       | WakeData :: rest =>
           match recv (inbox t) with
           | Received msg ch => Some (set_inbox t ch, [], Ok msg, rest)
           | RecvClosed => Some (t, [], Err EOF, rest)
           | RecvBlocks => None
           end
       | WakeUpgrade :: rest =>
           match recv (upgrade t) with
           | Received _ ch => Some (set_upgrade t ch, [], Err errTransportUpgraded, rest)
           | RecvClosed | RecvBlocks => None
           end
       | WakeTimer _ :: rest => Some (t, [], Err ErrTimeout, rest)
       end.

(** When the timer of a read that starts at [now] fires. *)
Definition read_timer (t : pollingTransport) (now : Z) : Z :=
  match readDeadline t with Some d => d | None => now + engineio.s_PingTimeout (sess t) end.

#[export] Instance polling_transport : Transport pollingTransport := {
  Name _ := engineio.TransportPolling;
  SetReadLimit t _ := t;
  SetReadDeadline t tm :=
    mkPolling (sess t) (inbox t) (outbox t) (wake t) (upgrade t) (onPong t) (Some tm) (closed t);
  OnPong t :=
    mkPolling (sess t) (inbox t) (outbox t) (wake t) (upgrade t) true (readDeadline t) (closed t);
  Read := poll_read;
  Write := poll_write;
  Ping := poll_ping;
  SendClose := poll_sendClose;
  Close := poll_close
}.

#[export] Instance polling_closable : ClosableTransport pollingTransport.
Proof.
  refine {| is_closed t := closed t = true; backlog _ := 0%nat |}.
  - intros t. simpl. unfold poll_close. destruct (closed t) eqn:E; [done|]. by destruct (close_chan _).
  - intros t Hc. simpl. unfold poll_close. by rewrite Hc.
  - intros t w l Hc. simpl. unfold poll_read. rewrite Hc. by eexists _, _, _, _.
  - intros t d Hc. simpl. unfold poll_write. rewrite Hc. by eexists.
  - intros t Hc. simpl. unfold poll_ping. rewrite Hc. by eexists.
  - intros t Hc. simpl. unfold poll_sendClose. by rewrite Hc.
  - by intros t tm Hc.
Defined.

(** ** Well-formed transports *)

Record wf (t : pollingTransport) : Prop := {
  wf_inbox : chan_wf (inbox t) /\ ch_cap (inbox t) = 64%nat /\ ch_closed (inbox t) = closed t;
  wf_outbox : chan_wf (outbox t) /\ ch_cap (outbox t) = 64%nat /\ ch_closed (outbox t) = false;
  wf_wake : chan_wf (wake t) /\ ch_cap (wake t) = 1%nat /\ ch_closed (wake t) = false;
  wf_upgrade : chan_wf (upgrade t) /\ ch_cap (upgrade t) = 1%nat /\ ch_closed (upgrade t) = false
}.

Definition chan_ok {A} (n : nat) (b : bool) (ch : chan A) : Prop :=
  chan_wf ch /\ ch_cap ch = n /\ ch_closed ch = b.

Lemma chan_ok_send {A} n b (ch ch' : chan A) a : try_send ch a = Sent ch' ->
  chan_ok n b ch -> chan_ok n b ch' /\ ch_buf ch' = ch_buf ch ++ [a] /\ b = false.
Proof.
  intros Hs (H1 & H2 & H3). apply try_send_wf in Hs as (Hw & Hb & Hc & Ho & Ho').
  split; [|split; [done|congruence]]. split; [done|]. split; congruence.
Qed.

Lemma chan_ok_recv {A} n b (ch ch' : chan A) a : recv ch = Received a ch' ->
  chan_ok n b ch -> chan_ok n b ch' /\ ch_buf ch = a :: ch_buf ch'.
Proof.
  unfold recv. destruct (ch_buf ch) as [|a' l] eqn:Hb; [by destruct (ch_closed ch)|].
  intros [= -> <-] (H1 & H2 & H3). unfold chan_ok, chan_wf in *. rewrite Hb in H1. simpl in *.
  split; [split; [lia|done]|done].
Qed.

Lemma nudge_ok b ch : chan_ok 1 b ch -> chan_ok 1 b (nudge ch).
Proof. intros H. unfold nudge. destruct (try_send ch tt) eqn:E; [|done..]. by eapply chan_ok_send. Qed.

Lemma new_wf s : wf (newPollingTransport s).
Proof. by constructor; unfold chan_wf; simpl; repeat split; lia. Qed.

Lemma nudge_full ch : chan_ok 1 false ch -> ch_buf (nudge ch) = [tt].
Proof.
  intros (H1 & H2 & H3). unfold nudge, try_send, chan_wf in *. rewrite H2, H3 in *.
  destruct (ch_buf ch) as [|[] [|? l]] eqn:E; simpl in *; [done|by rewrite E|lia].
Qed.

(** ** The outbox as a queue of packets *)

Definition carries (t : pollingTransport) (ps : list engineio.Packet) : Prop :=
  mapE engineio.Encode ps = Ok (ch_buf (outbox t)).

(** Sending a packet of a known kind: it is queued last, or the box is full. *)
Lemma send_packet_spec t p : wf t -> closed t = false -> engineio.valid (engineio.Type_ p) = true ->
  let wire := digit_byte (engineio.Type_ p) :: engineio.Data p in
  wf (send_packet t p).1 /\ closed (send_packet t p).1 = false /\
  inbox (send_packet t p).1 = inbox t /\
  if (length (ch_buf (outbox t)) <? 64)%nat
  then (send_packet t p).2 = Ok tt /\
       ch_buf (outbox (send_packet t p).1) = ch_buf (outbox t) ++ [wire] /\
       ch_buf (wake (send_packet t p).1) = [tt]
  else send_packet t p = (t, Err ErrOutboxFull).
Proof.
  intros [H1 H2 H3 H4] Hc Hv wire. unfold send_packet, engineio.Encode. rewrite Hv. cbn [negb].
  fold wire. unfold enqueueOutbound. rewrite Hc.
  assert (chan_ok 64 false (outbox t)) as Hok by done.
  destruct (try_send (outbox t) wire) as [ch| |] eqn:Hs.
  - pose proof (chan_ok_send _ _ _ _ _ Hs Hok) as (Hok' & Hb & _).
    assert ((length (ch_buf (outbox t)) <? 64)%nat = true) as ->.
    { destruct Hok' as (Hw & Hcap & _). unfold chan_wf in Hw. rewrite Hb, Hcap, length_app in Hw.
      simpl in Hw. apply Nat.ltb_lt. lia. }
    split; [constructor; [done|done|by apply nudge_ok|done]|].
    split; [done|]. split; [done|]. split; [done|]. split; [done|]. by apply nudge_full.
  - apply try_send_blocks in Hs as [_ Hfull]. destruct H2 as (_ & Hcap & _). rewrite Hcap in Hfull.
    rewrite (proj2 (Nat.ltb_ge _ _)) by lia. by split; [constructor|].
  - apply try_send_panic in Hs. destruct H2 as (_ & _ & H2). congruence.
Qed.

Lemma carries_send t p ps : wf t -> closed t = false ->
  engineio.valid (engineio.Type_ p) = true -> carries t ps -> (length ps < 64)%nat ->
  (send_packet t p).2 = Ok tt /\ carries (send_packet t p).1 (ps ++ [p]).
Proof.
  intros Hw Hc Hv Hps Hl. pose proof (send_packet_spec t p Hw Hc Hv) as (_ & _ & _ & Hs).
  assert (length (ch_buf (outbox t)) = length ps) as Hlen.
  { unfold carries in Hps. apply mapE_Ok in Hps. symmetry. by eapply Forall2_length. }
  rewrite Hlen, (proj2 (Nat.ltb_lt _ _)) in Hs by done. destruct Hs as (-> & Hb & _).
  split; [done|]. unfold carries in *. rewrite Hb. apply mapE_Ok. apply mapE_Ok in Hps.
  apply Forall2_app; [done|]. constructor; [|done]. unfold engineio.Encode. by rewrite Hv.
Qed.

(** ** Draining the outbox *)

Lemma join_sep_snoc sep l w : l <> [] -> join_sep sep (l ++ [w]) = join_sep sep l ++ sep :: w.
Proof.
  induction l as [|x l IH]; [done|]. intros _. destruct l as [|y l]; [done|].
  change (join_sep sep ((x :: y :: l) ++ [w])) with (x ++ sep :: join_sep sep ((y :: l) ++ [w])).
  rewrite IH by done.
  change (join_sep sep (x :: y :: l)) with (x ++ sep :: join_sep sep (y :: l)).
  by rewrite <- app_assoc.
Qed.

Lemma collect_loop_spec fuel t buf l : wf t -> (length (ch_buf (outbox t)) < fuel)%nat ->
  l <> [] -> buf = join_sep engineio.RecordSeparator l ->
  (collect_loop fuel t buf).2 = join_sep engineio.RecordSeparator (l ++ ch_buf (outbox t)) /\
  wf (collect_loop fuel t buf).1 /\ ch_buf (outbox (collect_loop fuel t buf).1) = [] /\
  closed (collect_loop fuel t buf).1 = closed t /\ inbox (collect_loop fuel t buf).1 = inbox t /\
  wake (collect_loop fuel t buf).1 = wake t.
Proof.
  revert t buf l. induction fuel as [|fuel IH]; intros t buf l Hw Hf Hl ->; [lia|].
  cbn [collect_loop]. destruct (recv (outbox t)) as [wire ch| |] eqn:Hr.
  - destruct Hw as [H1 H2 H3 H4].
    pose proof (chan_ok_recv _ _ _ _ _ Hr H2) as [Hok Hb].
    destruct (IH (set_outbox t ch)
      ((join_sep engineio.RecordSeparator l ++ [engineio.RecordSeparator]) ++ wire) (l ++ [wire]))
      as (E1 & E2 & E3 & E4 & E5 & E6).
    + by constructor.
    + rewrite Hb in Hf. simpl in Hf |- *. lia.
    + by destruct l.
    + rewrite join_sep_snoc by done. by rewrite <- app_assoc.
    + rewrite E1, E4, E5, E6. split; [|done]. rewrite Hb, <- app_assoc. done.
  - unfold recv in Hr. destruct (ch_buf (outbox t)) eqn:E; [|done].
    destruct (ch_closed (outbox t)); [|done]. rewrite app_nil_r. by split_and!.
  - unfold recv in Hr. destruct (ch_buf (outbox t)) eqn:E; [|done].
    destruct (ch_closed (outbox t)); [done|]. rewrite app_nil_r. by split_and!.
Qed.

Lemma poll_outbox t w ws : wf t -> closed t = false -> ch_buf (outbox t) = w :: ws ->
  exists t', poll t PickOutbox = Some (t', Ok (join_sep engineio.RecordSeparator (w :: ws))) /\
    wf t' /\ ch_buf (outbox t') = [] /\ closed t' = false /\ inbox t' = inbox t /\ wake t' = wake t.
Proof.
  intros Hw Hc Hb. unfold poll. rewrite Hc. unfold recv. rewrite Hb. destruct Hw as [H1 H2 H3 H4].
  set (ch := Chan _ _ _). unfold collectBatch.
  assert (wf (set_outbox t ch)) as Hw'.
  { constructor; [done| |done|done]. destruct H2 as (A & B & C). unfold ch, chan_wf in *.
    rewrite Hb in A. simpl in *. split; [lia|done]. }
  destruct (collect_loop_spec (S (length (ch_buf (outbox (set_outbox t ch))))) (set_outbox t ch) w [w])
    as (E1 & E2 & E3 & E4 & E5 & E6); [done|lia|done|done|].
  destruct (collect_loop _ _ _) as [t' body]. cbn [fst snd] in *. subst body.
  exists t'. split; [done|]. split; [done|]. split; [done|]. split; [by rewrite E4|]. by split.
Qed.

(** ** Everything a transport can be asked to do *)

Inductive poll_op :=
  | PWrite (d : bytes) | PPing | PSendClose | PClose | PSignalUpgrade | PSetDeadline (tm : Z) | POnPong
  | PHandle (ps : list engineio.Packet) | PPoll (pick : poll_case) | PRead (sched : list wakeup).

(** The state after the operation and whether the goroutine panicked; an
    operation that is still blocked changes nothing. *)
Definition poll_exec (t : pollingTransport) (o : poll_op) : pollingTransport * bool :=
  match o with
  | PWrite d => let '(t, r) := poll_write t d in (t, panicked r)
  | PPing => let '(t, r) := poll_ping t in (t, panicked r)
  | PSendClose => let '(t, r) := poll_sendClose t in (t, panicked r)
  | PClose => let '(t, sg) := poll_close t in (t, bool_decide (SigPanic ∈ sg))
  | PSignalUpgrade => (signalUpgrade t, false)
  | PSetDeadline tm => (SetReadDeadline t tm, false)
  | POnPong => (OnPong t, false)
  | PHandle ps =>
      let '(t, sg, r) := handleInbound t ps in (t, panicked r || bool_decide (SigPanic ∈ sg))
  | PPoll pick => match poll t pick with Some (t, r) => (t, panicked r) | None => (t, false) end
  | PRead sched =>
      match poll_read t sched with Some (t, _, r, _) => (t, panicked r) | None => (t, false) end
  end.

Fixpoint poll_run (t : pollingTransport) (l : list poll_op) : pollingTransport * bool :=
  match l with
  | [] => (t, false)
  | o :: l' =>
      let '(t, b) := poll_exec t o in
      if b then (t, true) else poll_run t l'
  end.

Lemma send_packet_wf t p : wf t -> closed t = false -> engineio.valid (engineio.Type_ p) = true ->
  wf (send_packet t p).1 /\ closed (send_packet t p).1 = false /\
  panicked (send_packet t p).2 = false.
Proof.
  intros Hw Hc Hv. destruct (send_packet_spec t p Hw Hc Hv) as (H1 & H2 & _ & H3).
  split; [done|]. split; [done|]. destruct (_ <? _)%nat; [by destruct H3 as [-> _]|by rewrite H3].
Qed.

Lemma poll_close_spec t : wf t ->
  wf (poll_close t).1 /\ (poll_close t).2 = (if closed t then [] else [SigClose]).
Proof.
  intros Hw. unfold poll_close. destruct (closed t) eqn:Hc; [done|].
  destruct Hw as [(A & B & C) H2 H3 H4]. unfold close_chan. rewrite C, Hc.
  by split; [constructor|].
Qed.

Lemma poll_close_wf t : wf t -> wf (poll_close t).1.
Proof. intros Hw. by apply poll_close_spec. Qed.

Lemma poll_close_safe t : wf t -> SigPanic ∉ (poll_close t).2.
Proof. intros Hw. rewrite (proj2 (poll_close_spec t Hw)). destruct (closed t); set_solver. Qed.

Lemma deliverInbound_spec t d : wf t -> closed t = false ->
  if (length (ch_buf (inbox t)) <? 64)%nat
  then (deliverInbound t d).2 = Ok tt /\ wf (deliverInbound t d).1 /\
       ch_buf (inbox (deliverInbound t d).1) = ch_buf (inbox t) ++ [d] /\
       outbox (deliverInbound t d).1 = outbox t /\ closed (deliverInbound t d).1 = false
  else deliverInbound t d = (t, Err ErrInboxFull).
Proof.
  intros [H1 H2 H3 H4] Hc. unfold deliverInbound, deliver_send. rewrite Hc. rewrite Hc in H1.
  destruct (try_send (inbox t) d) as [ch| |] eqn:Hs.
  - pose proof (chan_ok_send 64 false _ _ _ Hs H1) as (Hok' & Hb & _).
    assert ((length (ch_buf (inbox t)) <? 64)%nat = true) as ->.
    { destruct Hok' as (Hw & Hcap & _). unfold chan_wf in Hw. rewrite Hb, Hcap, length_app in Hw.
      simpl in Hw. apply Nat.ltb_lt. lia. }
    split; [done|]. split; [constructor; [cbn; by rewrite Hc|done..]|]. split; [done|]. by split.
  - apply try_send_blocks in Hs as [_ Hfull]. destruct H1 as (_ & Hcap & _). rewrite Hcap in Hfull.
    by rewrite (proj2 (Nat.ltb_ge _ _)) by lia.
  - apply try_send_panic in Hs. destruct H1 as (_ & _ & H1). congruence.
Qed.

Lemma handleOne_wf t p : wf t ->
  wf (handleOne t p).1.1 /\ panicked (handleOne t p).2 = false /\ SigPanic ∉ (handleOne t p).1.2.
Proof.
  intros Hw. assert (forall d, SigPanic ∉ probe d) as Hprobe.
  { intros d. unfold probe. destruct (engineio.IsProbe d); set_solver. }
  unfold handleOne. destruct (_ =? engineio.Ping).
  { destruct (closed t) eqn:Hc.
    - unfold send_packet. cbn. unfold enqueueOutbound. rewrite Hc. by specialize (Hprobe (engineio.Data p)).
    - destruct (send_packet_wf t (engineio.mkPacket engineio.Pong (engineio.Data p)) Hw Hc)
        as (H1 & _ & H3); [done|]. specialize (Hprobe (engineio.Data p)).
      by destruct (send_packet t _) as [t' r]. }
  destruct (_ =? engineio.Pong).
  { split; [done|]. split; [done|]. cbn [fst snd].
    specialize (Hprobe (engineio.Data p)). destruct (onPong t); set_solver. }
  destruct (_ =? engineio.Message).
  { destruct (closed t) eqn:Hc.
    - unfold deliverInbound, deliver_send. rewrite Hc. split; [done|]. split; [done|apply not_elem_of_nil].
    - pose proof (deliverInbound_spec t (engineio.Data p) Hw Hc) as H.
      pose proof (not_elem_of_nil SigPanic). destruct (deliverInbound t _) as [t' r]. cbn [fst snd] in *.
      destruct (_ <? _)%nat; [by destruct H as (-> & ? & _)|by injection H as -> ->]. }
  destruct (_ =? engineio.Upgrade); [split; [done|]; split; [done|set_solver]|].
  destruct (_ =? engineio.Close); [|split; [done|]; split; [done|apply not_elem_of_nil]].
  pose proof (poll_close_wf t Hw). pose proof (poll_close_safe t Hw). by destruct (poll_close t).
Qed.

Lemma handleInbound_wf t ps : wf t ->
  wf (handleInbound t ps).1.1 /\ panicked (handleInbound t ps).2 = false /\
  SigPanic ∉ (handleInbound t ps).1.2.
Proof.
  revert t. induction ps as [|p ps IH]; intros t Hw; cbn [handleInbound].
  { split; [done|]. split; [done|apply not_elem_of_nil]. }
  pose proof (handleOne_wf t p Hw) as (H1 & H2 & H3). destruct (handleOne t p) as [[t1 sg] r].
  cbn [fst snd] in *. destruct r as [u|e]; [|done].
  specialize (IH t1 H1). destruct (handleInbound t1 ps) as [[t2 sg'] r]. cbn [fst snd] in *.
  destruct IH as (H4 & H5 & H6). split; [done|]. split; [done|]. set_solver.
Qed.

(** A poll that is woken up takes the outbox like one that found it filled. *)
Lemma poll_wake t u ch w ws : closed t = false -> recv (wake t) = Received u ch ->
  ch_buf (outbox t) = w :: ws -> poll t PickWake = poll (set_wake t ch) PickOutbox.
Proof.
  intros Hc Hk Hb. unfold poll. cbn [closed set_wake outbox]. rewrite Hc, Hk.
  unfold recv. by rewrite Hb.
Qed.

Lemma set_wake_wf t u ch : wf t -> recv (wake t) = Received u ch -> wf (set_wake t ch).
Proof.
  intros [H1 H2 H3 H4] Hk. constructor; [done|done| |done].
  by apply (chan_ok_recv 1 false (wake t) _ u).
Qed.

Lemma poll_wf t pick t' r : wf t -> poll t pick = Some (t', r) -> wf t' /\ panicked r = false.
Proof.
  intros Hw. destruct (closed t) eqn:Hc; [unfold poll; rewrite Hc; by intros [= <- <-]|].
  destruct (ch_buf (outbox t)) as [|w ws] eqn:Hb.
  - unfold poll. rewrite Hc. unfold recv. rewrite Hb. destruct Hw as [H1 H2 H3 H4].
    assert (ch_closed (outbox t) = false) as Ho by by destruct H2 as (_ & _ & ?).
    rewrite Ho. destruct pick; [done|by intros [= <- <-]|].
    destruct (ch_buf (wake t)) as [|u l] eqn:Hk; [by destruct (ch_closed (wake t))|].
    cbn [set_wake outbox]. rewrite Hb, Ho. intros [= <- <-]. split; [|done].
    constructor; [done|done| |done]. apply (chan_ok_recv 1 false (wake t) _ u); [|done].
    unfold recv. by rewrite Hk.
  - destruct pick.
    + destruct (poll_outbox t w ws Hw Hc Hb) as (t1 & -> & Hw1 & _). by intros [= <- <-].
    + unfold poll. rewrite Hc. by intros [= <- <-].
    + destruct (recv (wake t)) as [u ch| |] eqn:Hk; [|unfold poll; by rewrite Hc, Hk..].
      rewrite (poll_wake t u ch w ws Hc Hk Hb).
      destruct (poll_outbox (set_wake t ch) w ws) as (t1 & -> & Hw1 & _);
        [by apply (set_wake_wf t u)|done|done|]. by intros [= <- <-].
Qed.

Lemma poll_exec_wf t o : wf t -> wf (poll_exec t o).1 /\ (poll_exec t o).2 = false.
Proof.
  intros Hw. destruct o as [d| | | | |tm| |ps|pick|sched]; cbn [poll_exec].
  - unfold poll_write. destruct (closed t) eqn:Hc; [done|].
    pose proof (send_packet_wf t (engineio.mkPacket engineio.Message d) Hw Hc eq_refl) as (? & _ & ?).
    by destruct (send_packet t _).
  - unfold poll_ping. destruct (closed t) eqn:Hc; [done|].
    pose proof (send_packet_wf t (engineio.mkPacket engineio.Ping []) Hw Hc eq_refl) as (? & _ & ?).
    by destruct (send_packet t _).
  - unfold poll_sendClose. destruct (closed t) eqn:Hc; [done|].
    pose proof (send_packet_wf t (engineio.mkPacket engineio.Close []) Hw Hc eq_refl) as (? & _ & ?).
    by destruct (send_packet t _).
  - pose proof (poll_close_wf t Hw) as Hc. pose proof (poll_close_safe t Hw) as Hp.
    destruct (poll_close t). split; [done|]. by apply bool_decide_eq_false.
  - split; [|done]. destruct Hw as [H1 H2 H3 H4]. constructor; [done|done|done|by apply nudge_ok].
  - split; [|done]. by destruct Hw; constructor.
  - split; [|done]. by destruct Hw; constructor.
  - pose proof (handleInbound_wf t ps Hw) as (Hw' & Hr & Hp).
    destruct (handleInbound t ps) as [[t' sg] r]. cbn [fst snd] in *. split; [done|].
    rewrite Hr. by apply bool_decide_eq_false.
  - destruct (poll t pick) as [[t' r]|] eqn:Hp; [|done]. by eapply poll_wf.
  - unfold poll_read. destruct (closed t) eqn:Hc; [done|].
    destruct sched as [|[| |n] rest]; [done| | |done].
    + destruct (recv (inbox t)) as [m ch| |] eqn:Hr; [|done..]. split; [|done].
      destruct Hw as [H1 H2 H3 H4]. constructor; [|done..].
      by apply (chan_ok_recv 64 (closed t) (inbox t) ch m).
    + destruct (recv (upgrade t)) as [m ch| |] eqn:Hr; [|done..]. split; [|done].
      destruct Hw as [H1 H2 H3 H4]. constructor; [done|done|done|].
      by apply (chan_ok_recv 1 false (upgrade t) ch m).
Qed.

Lemma poll_run_wf t l : wf t -> wf (poll_run t l).1 /\ (poll_run t l).2 = false.
Proof.
  revert t. induction l as [|o l IH]; intros t Hw; cbn [poll_run]; [done|].
  pose proof (poll_exec_wf t o Hw) as [H1 H2]. destruct (poll_exec t o) as [t1 b].
  cbn [fst snd] in *. subst b. by apply IH.
Qed.

(** The panic contract of the pumps: all of it, and no read panics either. *)
#[export] Instance polling_safe_transport : SafeTransport pollingTransport.
Proof.
  refine {| safe := wf |}; cbn [SetReadLimit SetReadDeadline OnPong Read Write Ping SendClose Close
    polling_transport]; [done| | | | | | |].
  - intros t tm Hw. by apply (poll_exec_wf t (PSetDeadline tm)).
  - intros t Hw. by apply (poll_exec_wf t POnPong).
  - intros t sched t' sg r rest Hw Hr. pose proof (poll_exec_wf t (PRead sched) Hw) as H.
    cbn [poll_exec] in H. rewrite Hr in H. split; [apply H|]. unfold poll_read in Hr.
    pose proof (not_elem_of_nil SigPanic). destruct (closed t); [by injection Hr as <- <- <- <-|].
    destruct sched as [|[| |n] l]; [done|destruct (recv _)..|]; try done; by injection Hr as <- <- <- <-.
  - intros t d Hw. pose proof (poll_exec_wf t (PWrite d) Hw) as H. cbn [poll_exec] in H.
    by destruct (poll_write t d).
  - intros t Hw. pose proof (poll_exec_wf t PPing Hw) as H. cbn [poll_exec] in H.
    by destruct (poll_ping t).
  - intros t Hw. pose proof (poll_exec_wf t PSendClose Hw) as H. cbn [poll_exec] in H.
    by destruct (poll_sendClose t).
  - intros t Hw. split; [by apply poll_close_wf|by apply poll_close_safe].
Defined.

(** No operation changes the session a transport belongs to. *)
Lemma send_packet_sess t p : sess (send_packet t p).1 = sess t.
Proof.
  unfold send_packet, enqueueOutbound. destruct (engineio.Encode p); [|done].
  destruct (closed t); [done|]. by destruct (try_send _ _).
Qed.

Lemma handleOne_sess t p : sess (handleOne t p).1.1 = sess t.
Proof.
  unfold handleOne. destruct (_ =? engineio.Ping).
  { pose proof (send_packet_sess t (engineio.mkPacket engineio.Pong (engineio.Data p))) as H.
    by destruct (send_packet t _). }
  destruct (_ =? engineio.Pong); [done|]. destruct (_ =? engineio.Message).
  { unfold deliverInbound, deliver_send. destruct (closed t); [done|]. by destruct (try_send _ _). }
  destruct (_ =? engineio.Upgrade); [done|]. destruct (_ =? engineio.Close); [|done].
  unfold poll_close. destruct (closed t); [done|]. by destruct (close_chan _).
Qed.

Lemma handleInbound_sess t ps : sess (handleInbound t ps).1.1 = sess t.
Proof.
  revert t. induction ps as [|p ps IH]; intros t; cbn [handleInbound]; [done|].
  pose proof (handleOne_sess t p) as H. destruct (handleOne t p) as [[t1 sg] [u|e]]; [|done].
  specialize (IH t1). destruct (handleInbound t1 ps) as [[t2 sg'] r]. cbn [fst snd] in *. congruence.
Qed.

Lemma collect_loop_sess fuel t buf : sess (collect_loop fuel t buf).1 = sess t.
Proof.
  revert t buf. induction fuel as [|fuel IH]; intros t buf; [done|]. cbn [collect_loop].
  destruct (recv _); [by rewrite IH|done..].
Qed.

Lemma poll_sess t pick t' r : poll t pick = Some (t', r) -> sess t' = sess t.
Proof.
  assert (forall u wire, sess (collectBatch u wire).1 = sess u) as Hc
    by (intros; apply collect_loop_sess).
  unfold poll. destruct (closed t); [by intros [= <- <-]|]. destruct pick.
  - destruct (recv _) as [wire ch| |]; [|done..]. specialize (Hc (set_outbox t ch) wire).
    destruct (collectBatch _ _). by intros [= <- <-].
  - by intros [= <- <-].
  - destruct (recv (wake t)) as [u wk| |]; [|done..]. destruct (recv _) as [wire ch| |].
    + specialize (Hc (set_outbox (set_wake t wk) ch) wire). destruct (collectBatch _ _).
      by intros [= <- <-].
    + by intros [= <- <-].
    + by intros [= <- <-].
Qed.

Lemma poll_exec_sess t o : sess (poll_exec t o).1 = sess t.
Proof.
  destruct o as [d| | | | |tm| |ps|pick|sched]; cbn [poll_exec]; try done.
  - unfold poll_write. destruct (closed t); [done|].
    pose proof (send_packet_sess t (engineio.mkPacket engineio.Message d)) as H.
    by destruct (send_packet t _).
  - unfold poll_ping. destruct (closed t); [done|].
    pose proof (send_packet_sess t (engineio.mkPacket engineio.Ping [])) as H.
    by destruct (send_packet t _).
  - unfold poll_sendClose. destruct (closed t); [done|].
    pose proof (send_packet_sess t (engineio.mkPacket engineio.Close [])) as H.
    by destruct (send_packet t _).
  - unfold poll_close. destruct (closed t); [done|]. by destruct (close_chan _).
  - pose proof (handleInbound_sess t ps). by destruct (handleInbound t ps) as [[? ?] ?].
  - destruct (poll t pick) as [[t' r]|] eqn:Hp; [|done]. by eapply poll_sess.
  - unfold poll_read. destruct (closed t); [done|]. destruct sched as [|[| |n] rest]; [done|..|done].
    + by destruct (recv (inbox t)).
    + by destruct (recv (upgrade t)).
Qed.

(** The packets that make a transport call its handlers. *)
Lemma handleInbound_signals t ps s : s ∈ (handleInbound t ps).1.2 ->
  match s with
  | SigProbe => exists p, p ∈ ps /\ (engineio.Type_ p = engineio.Ping \/ engineio.Type_ p = engineio.Pong) /\
                  engineio.IsProbe (engineio.Data p) = true
  | SigUpgradePacket => exists p, p ∈ ps /\ engineio.Type_ p = engineio.Upgrade
  | SigPong => exists p, p ∈ ps /\ engineio.Type_ p = engineio.Pong
  | SigClose | SigPanic => exists p, p ∈ ps /\ engineio.Type_ p = engineio.Close
  end.
Proof.
  assert (forall d, s ∈ probe d -> s = SigProbe /\ engineio.IsProbe d = true) as Hprobe.
  { intros d. unfold probe. destruct (engineio.IsProbe d); [|by intros ?%not_elem_of_nil].
    by intros ->%list_elem_of_singleton. }
  revert t. induction ps as [|p ps IH]; intros t; cbn [handleInbound]; [by intros ?%not_elem_of_nil|].
  assert (s ∈ (handleOne t p).1.2 -> match s with
    | SigProbe => (engineio.Type_ p = engineio.Ping \/ engineio.Type_ p = engineio.Pong) /\
                  engineio.IsProbe (engineio.Data p) = true
    | SigUpgradePacket => engineio.Type_ p = engineio.Upgrade
    | SigPong => engineio.Type_ p = engineio.Pong
    | SigClose | SigPanic => engineio.Type_ p = engineio.Close end) as Hone.
  { unfold handleOne. destruct (Z.eqb_spec (engineio.Type_ p) engineio.Ping).
    { destruct (send_packet t _) as [t1 r]. intros [-> ?]%Hprobe. by split; [left|]. }
    destruct (Z.eqb_spec (engineio.Type_ p) engineio.Pong).
    { cbn [fst snd]. intros [[-> ?]%Hprobe|Hs]%elem_of_app; [by split; [right|]|].
      destruct (onPong t); [|by apply not_elem_of_nil in Hs].
      by apply list_elem_of_singleton in Hs as ->. }
    destruct (Z.eqb_spec (engineio.Type_ p) engineio.Message).
    { destruct (deliverInbound t _). by intros ?%not_elem_of_nil. }
    destruct (Z.eqb_spec (engineio.Type_ p) engineio.Upgrade).
    { by intros ->%list_elem_of_singleton. }
    destruct (Z.eqb_spec (engineio.Type_ p) engineio.Close); [|by intros ?%not_elem_of_nil].
    unfold poll_close. destruct (closed t); [by intros ?%not_elem_of_nil|].
    destruct (close_chan _); by intros ->%list_elem_of_singleton. }
  assert (forall P : engineio.Packet -> Prop, P p -> exists q, q ∈ p :: ps /\ P q) as Hhere.
  { intros P HP. exists p. split; [by left|done]. }
  destruct (handleOne t p) as [[t1 sg] [u|e]]; cbn [fst snd] in Hone.
  - specialize (IH t1). destruct (handleInbound t1 ps) as [[t2 sg'] r]. cbn [fst snd] in *.
    intros [Hs|Hs]%elem_of_app.
    + specialize (Hone Hs). destruct s; by apply Hhere.
    + specialize (IH Hs). destruct s; destruct IH as (q & Hq & HP); exists q; by split; [right|].
  - intros Hs. specialize (Hone Hs). destruct s; by apply Hhere.
Qed.

(** ** Properties *)

Definition message (d : bytes) : engineio.Packet := engineio.mkPacket engineio.Message d.

Fixpoint write_all (t : pollingTransport) (ms : list bytes) : pollingTransport * bool :=
  match ms with
  | [] => (t, true)
  | d :: ms' =>
      let '(t, r) := poll_write t d in
      let '(t, ok) := write_all t ms' in (t, match r with Ok _ => ok | Err _ => false end)
  end.

Lemma write_all_spec t ps ms : wf t -> closed t = false -> carries t ps ->
  (length ps + length ms <= 64)%nat ->
  exists t', write_all t ms = (t', true) /\ wf t' /\ closed t' = false /\
    carries t' (ps ++ map message ms) /\ (ms <> [] \/ ch_buf (wake t) = [tt] -> ch_buf (wake t') = [tt]).
Proof.
  revert t ps. induction ms as [|d ms IH]; intros t ps Hw Hc Hps Hl; cbn [write_all map].
  - exists t. rewrite app_nil_r. split_and!; [done..|]. by intros [].
  - unfold poll_write. rewrite Hc. simpl in Hl.
    pose proof (send_packet_spec t (message d) Hw Hc eq_refl) as (Hw1 & Hc1 & _ & Hk).
    destruct (carries_send t (message d) ps Hw Hc eq_refl Hps) as [Hr Hps1]; [lia|].
    destruct (send_packet t (message d)) as [t1 r] eqn:Hs.
    change (engineio.mkPacket engineio.Message d) with (message d). rewrite Hs.
    cbn [fst snd] in *. subst r.
    destruct (_ <? _)%nat; [|done]. destruct Hk as (_ & _ & Hk).
    destruct (IH t1 (ps ++ [message d])) as (t2 & -> & Hw2 & Hc2 & Hps2 & Hk2);
      [done|done|done|rewrite length_app; simpl; lia|].
    exists t2. rewrite <- app_assoc in Hps2. split_and!; [done..|]. intros _. apply Hk2. by right.
Qed.

(** A poll of a transport with something queued: its timer may fire first, and
    then it answers a ping and takes nothing; otherwise, however the [select]
    picks, it takes all there is. *)
Lemma poll_answers t ps pick t' r : wf t -> closed t = false -> carries t ps -> ps <> [] ->
  Forall (fun p => engineio.RecordSeparator ∉ engineio.Data p) ps ->
  poll t pick = Some (t', r) ->
  match pick with
  | PickTimer => t' = t /\ r = Ok (bs "2")
  | PickOutbox | PickWake => exists body, r = Ok body /\ engineio.DecodeBatch body = Ok ps /\
      carries t' [] /\ wf t'
  end.
Proof.
  intros Hw Hc Hps Hne Hrs. destruct (ch_buf (outbox t)) as [|w ws] eqn:Hb.
  { unfold carries in Hps. rewrite Hb in Hps. apply mapE_Ok in Hps. by inv Hps. }
  assert (forall t1, wf t1 -> closed t1 = false -> ch_buf (outbox t1) = w :: ws ->
    poll t1 PickOutbox = Some (t', r) -> exists body, r = Ok body /\ engineio.DecodeBatch body = Ok ps /\
      carries t' [] /\ wf t') as Htake.
  { intros t1 Hw1 Hc1 Hb1. destruct (poll_outbox t1 w ws Hw1 Hc1 Hb1) as (t2 & -> & Hw2 & Hb2 & _).
    intros [= <- <-]. eexists. split; [done|]. split; [|by unfold carries; rewrite Hb2].
    apply engineio.DecodeBatch_EncodeBatch; [done|]. unfold carries in Hps.
    rewrite engineio.EncodeBatch_join, Hps, Hb. done. }
  destruct pick; [by apply Htake| |].
  - unfold poll. rewrite Hc. by intros [= <- <-].
  - destruct (recv (wake t)) as [u ch| |] eqn:Hk; [|unfold poll; by rewrite Hc, Hk..].
    rewrite (poll_wake t u ch w ws Hc Hk Hb). apply Htake; [by apply (set_wake_wf t u)|done|done].
Qed.

(** C39: what is written is what the client polls. After any sequence of writes
    for which the outbox has room (with what is queued already, at most 64
    packets), every write has succeeded, and a poll need not wait for its
    timer. Whichever of its cases the [select] of that poll picks, either it
    answers with one body from which the batch codec reads back the packets
    queued before and the messages written, in order and unchanged, provided
    none of them contains the record separator, and the outbox is empty again;
    or its timer fired first, it answers a ping and takes nothing. *)
Theorem write_poll_roundtrip t ps ms :
  wf t -> closed t = false -> carries t ps ->
  (length ps + length ms <= 64)%nat -> ps ++ map message ms <> [] ->
  Forall (fun p => engineio.RecordSeparator ∉ engineio.Data p) (ps ++ map message ms) ->
  exists t1, write_all t ms = (t1, true) /\ is_Some (poll t1 PickOutbox) /\
    (ms <> [] -> is_Some (poll t1 PickWake)) /\
    forall pick t2 r, poll t1 pick = Some (t2, r) ->
      match pick with
      | PickTimer => t2 = t1 /\ r = Ok (bs "2")
      | PickOutbox | PickWake => exists body, r = Ok body /\
          engineio.DecodeBatch body = Ok (ps ++ map message ms) /\ carries t2 [] /\ wf t2
      end.
Proof.
  intros Hw Hc Hps Hl Hne Hrs.
  destruct (write_all_spec t ps ms Hw Hc Hps Hl) as (t1 & -> & Hw1 & Hc1 & Hps1 & Hk1).
  destruct (ch_buf (outbox t1)) as [|w ws] eqn:Hb.
  { unfold carries in Hps1. rewrite Hb in Hps1. apply mapE_Ok in Hps1. by inv Hps1. }
  destruct (poll_outbox t1 w ws Hw1 Hc1 Hb) as (t2 & Hp & _).
  exists t1. split; [done|]. split; [by rewrite Hp|]. split.
  - intros Hms. specialize (Hk1 (or_introl Hms)).
    assert (recv (wake t1) = Received tt (Chan (ch_cap (wake t1)) [] (ch_closed (wake t1)))) as Hk
      by (unfold recv; by rewrite Hk1).
    rewrite (poll_wake t1 _ _ w ws Hc1 Hk Hb).
    destruct (poll_outbox (set_wake t1 (Chan (ch_cap (wake t1)) [] (ch_closed (wake t1)))) w ws)
      as (t3 & -> & _); [by apply (set_wake_wf t1 tt)|done..].
  - intros pick t3 r. by apply poll_answers.
Qed.

Definition demo_session : engineio.Session := engineio.mkSession "s" 25 20 100 0.
Definition demo_polling : pollingTransport := newPollingTransport demo_session.

Lemma write_poll_roundtrip_witness :
  exists t1, write_all demo_polling [bs "a"; bs "b"] = (t1, true) /\ is_Some (poll t1 PickOutbox) /\
    ([bs "a"; bs "b"] <> [] -> is_Some (poll t1 PickWake)) /\
    forall pick t2 r, poll t1 pick = Some (t2, r) ->
      match pick with
      | PickTimer => t2 = t1 /\ r = Ok (bs "2")
      | PickOutbox | PickWake => exists body, r = Ok body /\
          engineio.DecodeBatch body = Ok ([] ++ map message [bs "a"; bs "b"]) /\ carries t2 [] /\ wf t2
      end.
Proof.
  apply (write_poll_roundtrip demo_polling []); [apply new_wf|done|done|simpl; lia|done|].
  repeat constructor; apply (bool_decide_eq_true_1 _); by vm_compute.
Defined.

(** A POST of messages is queued for the reader in order, as far as the
    inbox has room: the messages that fit are delivered even when the request
    as a whole is then refused for lack of room. *)
Theorem post_delivers t ds :
  wf t -> closed t = false ->
  let room := (64 - length (ch_buf (inbox t)))%nat in
  let '(t', sg, r) := handleInbound t (map message ds) in
  wf t' /\ sg = [] /\ ch_buf (inbox t') = ch_buf (inbox t) ++ take room ds /\
  r = if (length ds <=? room)%nat then Ok tt else Err ErrInboxFull.
Proof.
  revert t. induction ds as [|d ds IH]; intros t Hw Hc; cbn [map handleInbound].
  - rewrite take_nil, app_nil_r. done.
  - change (handleOne t (message d)) with
      (let '(t, r) := deliverInbound t d in (t, @nil signal, r)).
    pose proof (deliverInbound_spec t d Hw Hc) as H.
    destruct (deliverInbound t d) as [t1 r] eqn:Hd. cbn [fst snd] in H.
    destruct (Nat.ltb_spec (length (ch_buf (inbox t))) 64) as [Hlt|Hge].
    + destruct H as (-> & Hw1 & Hb & Ho & Hc1). specialize (IH t1 Hw1 Hc1). cbv zeta in IH.
      destruct (handleInbound t1 (map message ds)) as [[t2 sg] r].
      destruct IH as (Hw2 & -> & Hb2 & ->). split; [done|]. split; [done|].
      rewrite Hb, length_app in *. simpl in *.
      replace (64 - length (ch_buf (inbox t)))%nat
        with (S (64 - (length (ch_buf (inbox t)) + 1)))%nat by lia.
      split; [by rewrite Hb2, <- app_assoc|done].
    + injection H as -> ->. replace (64 - length (ch_buf (inbox t)))%nat with 0%nat by lia.
      by rewrite take_0, app_nil_r.
Qed.

Lemma post_delivers_witness :
  let room := (64 - length (ch_buf (inbox demo_polling)))%nat in
  let '(t', sg, r) := handleInbound demo_polling (map message [bs "x"; bs "y"]) in
  wf t' /\ sg = [] /\ ch_buf (inbox t') = ch_buf (inbox demo_polling) ++ take room [bs "x"; bs "y"] /\
  r = if (length [bs "x"; bs "y"] <=? room)%nat then Ok tt else Err ErrInboxFull.
Proof. apply (post_delivers demo_polling [bs "x"; bs "y"]); [apply new_wf|done]. Defined.

(** C37: whatever is done to a polling transport, in whatever order, one
    operation after the other, no operation panics (nothing is sent on the
    closed inbox, and a [Close] or a close packet after a [Close] does not
    close it again), and the queues stay within their capacities. *)
Theorem polling_safe s l :
  (poll_run (newPollingTransport s) l).2 = false /\ wf (poll_run (newPollingTransport s) l).1.
Proof. destruct (poll_run_wf (newPollingTransport s) l (new_wf s)). by split. Qed.

(** A poll can answer with an empty body although nothing was waiting: the
    token that announced a write is still there after the poll that took the
    frame, and wakes the next poll at once. *)
Theorem poll_stale_wake t d :
  wf t -> closed t = false -> ch_buf (outbox t) = [] ->
  exists t1 t2 t3 body,
    poll_write t d = (t1, Ok tt) /\ poll t1 PickOutbox = Some (t2, Ok body) /\
    poll t2 PickWake = Some (t3, Ok []).
Proof.
  intros Hw Hc Hb. unfold poll_write. rewrite Hc.
  destruct (send_packet_spec t (message d) Hw Hc eq_refl) as (Hw1 & Hc1 & _ & Hs).
  change (engineio.mkPacket engineio.Message d) with (message d).
  destruct (send_packet t (message d)) as [t1 r]. cbn [fst snd] in *.
  rewrite Hb in Hs. cbn [length Nat.ltb Nat.leb] in Hs. destruct Hs as (-> & Hb1 & Hk1).
  rewrite app_nil_l in Hb1.
  destruct (poll_outbox t1 _ [] Hw1 Hc1 Hb1) as (t2 & Hp & Hw2 & Hb2 & Hc2 & _ & Hk2).
  exists t1, t2, (set_wake t2 (Chan (ch_cap (wake t2)) [] (ch_closed (wake t2)))),
    (join_sep engineio.RecordSeparator [digit_byte (engineio.Type_ (message d)) :: engineio.Data (message d)]).
  split; [done|]. split; [done|]. unfold poll. rewrite Hc2, Hk2. unfold recv at 1. rewrite Hk1.
  unfold recv. cbn [set_wake outbox]. rewrite Hb2.
  destruct Hw2 as [_ (_ & _ & ->) _ _]. done.
Qed.

Lemma poll_stale_wake_witness :
  exists t1 t2 t3 body,
    poll_write demo_polling (bs "a") = (t1, Ok tt) /\ poll t1 PickOutbox = Some (t2, Ok body) /\
    poll t2 PickWake = Some (t3, Ok []).
Proof. apply poll_stale_wake; [apply new_wf|done|done]. Defined.

(** Operations of different goroutines can interleave, though: the check of
    [closed] and the send of a POST are not one step, and a [Close] in between
    makes the send panic. *)
Theorem close_race_panics t d :
  wf t -> closed t = false -> (deliver_send (poll_close t).1 d).2 = Err RuntimePanic.
Proof.
  intros Hw Hc. destruct (wf_inbox _ (poll_close_wf t Hw)) as (_ & _ & E).
  unfold deliver_send, try_send. rewrite E. unfold poll_close. rewrite Hc. by destruct (close_chan _).
Qed.

Lemma close_race_panics_witness :
  (deliver_send (poll_close demo_polling).1 (bs "a")).2 = Err RuntimePanic.
Proof. apply close_race_panics; [apply new_wf|done]. Defined.

End polling.
