(* ===== verification/PollManager.v ===== *)
(** * Engine.IO sessions and their HTTP handler ([internal/poll_manager.go],
    [internal/session_transport.go], [internal/engineio_handler.go])

    The table of polling sessions, the transport of a session, which can be
    swapped from polling to WebSocket under the running pumps, and the handler
    that routes requests to them. Polling transports and session transports
    are reached through pointers and live in two heaps next to the table. The
    raw WebSocket is any transport. *)
From S2P Require Import Prelude.
From S2P Require Import GoStd.
From S2P Require Import Json.
From S2P Require Import EngineIO.
From S2P Require Import NativeWS.
From S2P Require Import Transport.
From S2P Require Import Polling.

Module manager.
Import transport.
#[local] Existing Instance polling.polling_transport.

Section manager.
Context {R : Type} `{Transport R}.

(** ** State *)

Definition ptr := nat.

Record pollSession := mkPollSession {
  Session : engineio.Session;
  ps_polling : ptr;
  sessionT : ptr;
  probed : bool;
  upgradeOK : bool;
  upgraded : bool
}.

(** [sessionTransport]: the transport that is active. *)
Inductive current :=
  | CurPolling (p : ptr)
  | CurWebSocket (t : eioWebSocketTransport R).

Record pollManager := mkManager {
  sessions : gmap string pollSession;
  cfg : engineio.Config;
  pts : gmap ptr polling.pollingTransport;
  sts : gmap ptr current;
  next : nat                                (* allocation of both kinds *)
}.

#[export] Instance polling_inhabited : Inhabited polling.pollingTransport :=
  populate (polling.newPollingTransport (engineio.mkSession "" 0 0 0 0)).
#[export] Instance current_inhabited : Inhabited current := populate (CurPolling 0%nat).

Definition newPollManager (pingInterval pingTimeout maxPayload : Z) : pollManager :=
  mkManager ∅ (engineio.mkConfig pingInterval pingTimeout maxPayload) ∅ ∅ 0%nat.

Definition set_sessions (m : pollManager) (s : gmap string pollSession) : pollManager :=
  mkManager s (cfg m) (pts m) (sts m) (next m).
Definition set_pt (m : pollManager) (p : ptr) (t : polling.pollingTransport) : pollManager :=
  mkManager (sessions m) (cfg m) (<[p := t]> (pts m)) (sts m) (next m).
Definition set_st (m : pollManager) (s : ptr) (c : current) : pollManager :=
  mkManager (sessions m) (cfg m) (pts m) (<[s := c]> (sts m)) (next m).

(** ** The session table *)

(** [create]; [sid] is what [randomPollSID] returns. *)
Definition create (m : pollManager) (sid : string) (now : Z) : pollManager * engineio.Session * ptr :=
  let sess := engineio.mkSession sid (engineio.cfg_PingInterval (cfg m))
                (engineio.cfg_PingTimeout (cfg m)) (engineio.cfg_MaxPayload (cfg m)) now in
  let p := next m in
  (mkManager (<[sid := mkPollSession sess p p false false false]> (sessions m)) (cfg m)
     (<[p := polling.newPollingTransport sess]> (pts m)) (<[p := CurPolling p]> (sts m)) (S p),
   sess, p).

Definition getPolling (m : pollManager) (sid : string) : option ptr :=
  match sessions m !! sid with
  | Some ps => if upgraded ps then None else Some (ps_polling ps)
  | None => None
  end.

Definition markProbed (m : pollManager) (sid : string) : pollManager :=
  match sessions m !! sid with
  | Some ps => set_sessions m (<[sid := mkPollSession (Session ps) (ps_polling ps) (sessionT ps)
                                   true (upgradeOK ps) (upgraded ps)]> (sessions m))
  | None => m
  end.
Definition markUpgrade (m : pollManager) (sid : string) : pollManager :=
  match sessions m !! sid with
  | Some ps => set_sessions m (<[sid := mkPollSession (Session ps) (ps_polling ps) (sessionT ps)
                                   (probed ps) true (upgraded ps)]> (sessions m))
  | None => m
  end.
Definition remove (m : pollManager) (sid : string) : pollManager :=
  set_sessions m (delete sid (sessions m)).
Definition count (m : pollManager) : nat := size (sessions m).

Definition readyForUpgrade (m : pollManager) (sid : string) : bool :=
  match sessions m !! sid with
  | Some ps => probed ps && upgradeOK ps && negb (upgraded ps)
  | None => false
  end.

(** The transport is swapped, the waiting poll is answered with a noop, and
    the reader is told to read again. *)
Definition applyUpgrade (m : pollManager) (sid : string) (ws : R) : pollManager * option ptr :=
  match sessions m !! sid with
  | Some ps =>
      if probed ps && upgradeOK ps && negb (upgraded ps) then
        let m := set_sessions m (<[sid := mkPollSession (Session ps) (ps_polling ps) (sessionT ps)
                                       (probed ps) (upgradeOK ps) true]> (sessions m)) in
        let m := set_st m (sessionT ps) (CurWebSocket (newEIOWebSocketTransport ws)) in
        let pt := pts m !!! ps_polling ps in
        let pt := match engineio.Encode (engineio.mkPacket engineio.Noop []) with
                  | Ok noop => (polling.enqueueOutbound pt noop).1
                  | Err _ => pt
                  end in
        (set_pt m (ps_polling ps) (polling.signalUpgrade pt), Some (sessionT ps))
      else (m, None)
  | None => (m, None)
  end.

(** ** Callbacks of a polling transport *)

Definition on_signal (sid : string) (m : pollManager) (s : signal) : pollManager :=
  match s with
  | SigClose => remove m sid
  | SigProbe => markProbed m sid
  | SigUpgradePacket => markUpgrade m sid
  | SigPong | SigPanic => m
  end.
Definition on_signals (m : pollManager) (sid : string) (l : list signal) : pollManager :=
  fold_left (on_signal sid) l m.

(** Stores a polling transport back and runs the callbacks it called. *)
Definition put_pt (m : pollManager) (p : ptr) (t : polling.pollingTransport) (l : list signal)
  : pollManager :=
  on_signals (set_pt m p t) (engineio.s_ID (polling.sess t)) l.

(** ** The session transport *)

Record sessionTransport := mkST { st_manager : pollManager; st_self : ptr }.

Definition active (t : sessionTransport) : current := sts (st_manager t) !!! st_self t.

Definition Swap (t : sessionTransport) (next : current) : sessionTransport :=
  mkST (set_st (st_manager t) (st_self t) next) (st_self t).

(** A method of the active transport. *)
Definition on_active {A} (t : sessionTransport)
    (fp : polling.pollingTransport -> polling.pollingTransport * list signal * A)
    (fw : eioWebSocketTransport R -> eioWebSocketTransport R * list signal * A)
  : sessionTransport * list signal * A :=
  match active t with
  | CurPolling p =>
      let '(pt, sg, a) := fp (pts (st_manager t) !!! p) in
      (mkST (put_pt (st_manager t) p pt sg) (st_self t), sg, a)
  | CurWebSocket ws =>
      let '(ws, sg, a) := fw ws in (Swap t (CurWebSocket ws), sg, a)
  end.

Definition no_signal {T A} (r : T * A) : T * list signal * A := (r.1, [], r.2).
Definition no_result {T} (t : T) : T * list signal * unit := (t, [], tt).

Definition st_read_once (t : sessionTransport) (sched : list wakeup)
  : read_outcome sessionTransport :=
  match active t with
  | CurPolling p =>
      match Read (pts (st_manager t) !!! p) sched with
      | Some (pt, sg, r, rest) =>
          Some (mkST (put_pt (st_manager t) p pt sg) (st_self t), sg, r, rest)
      | None => None
      end
  | CurWebSocket ws =>
      match Read ws sched with
      | Some (ws, sg, r, rest) => Some (Swap t (CurWebSocket ws), sg, r, rest)
      | None => None
      end
  end.

(** [Read] retries when the transport it was reading was replaced. *)
Fixpoint st_read_loop (fuel : nat) (t : sessionTransport) (sched : list wakeup)
  : read_outcome sessionTransport :=
  match fuel with
  | O => None
  | S fuel' =>
      match st_read_once t sched with
      | Some (t, sg, Err errTransportUpgraded, rest) =>
          match st_read_loop fuel' t rest with
          | Some (t, sg', r, rest) => Some (t, sg ++ sg', r, rest)
          | None => None
          end
      | outcome => outcome
      end
  end.

Definition st_name (t : sessionTransport) : string :=
  match active t with
  | CurPolling p => Name (pts (st_manager t) !!! p)
  | CurWebSocket ws => Name ws
  end.

#[export] Instance session_transport : Transport sessionTransport := {
  Name := st_name;
  SetReadLimit t n := (on_active t (fun pt => no_result (SetReadLimit pt n))
                         (fun ws => no_result (SetReadLimit ws n))).1.1;
  SetReadDeadline t n := (on_active t (fun pt => no_result (SetReadDeadline pt n))
                            (fun ws => no_result (SetReadDeadline ws n))).1.1;
  OnPong t := (on_active t (fun pt => no_result (OnPong pt)) (fun ws => no_result (OnPong ws))).1.1;
  Read t sched := st_read_loop (S (length sched)) t sched;
  Write t d := let '(t, _, r) := on_active t (fun pt => no_signal (Write pt d))
                                   (fun ws => no_signal (Write ws d)) in (t, r);
  Ping t := let '(t, _, r) := on_active t (fun pt => no_signal (Ping pt))
                                (fun ws => no_signal (Ping ws)) in (t, r);
  SendClose t := let '(t, _, r) := on_active t (fun pt => no_signal (SendClose pt))
                                     (fun ws => no_signal (SendClose ws)) in (t, r);
  Close t := (on_active t (fun pt => (Close pt, tt)) (fun ws => (Close ws, tt))).1
}.

(** ** The HTTP handler *)

Record Request := mkRequest {
  r_EIO : string; r_transport : string; r_sid : string; r_Method : string; r_Body : bytes
}.

Inductive Response :=
  | HttpError (msg : string) (code : Z)
  | HttpBody (body : bytes)
  | SwitchedProtocols          (* the connection is now a WebSocket *)
  | UpgraderAnswered.          (* the upgrader wrote the error itself *)

(** What the environment supplies to one request. *)
Record Env := mkEnv {
  e_closed : bool;             (* the server was shut down *)
  e_sid : string;              (* a random session id *)
  e_now : Z;
  e_pick : polling.poll_case;  (* the case a waiting poll picks *)
  e_upgrade : option R         (* what the upgrader returns *)
}.

(** How long a poll waits for data. *)
Definition poll_wait (s : engineio.Session) : Z :=
  if engineio.s_PingTimeout s <=? 0 then 20 * 1000000000 else engineio.s_PingTimeout s.

Definition servePoll (m : pollManager) (p : ptr) (pick : polling.poll_case)
  : option (pollManager * Response) :=
  '(pt, r) ← polling.poll (pts m !!! p) pick;
  let m := set_pt m p pt in
  Some (m, match r with
           | Ok body => HttpBody body
           | Err EOF => HttpError "session closed" 400
           | Err _ => HttpError "poll failed" 500
           end).

Definition servePost (m : pollManager) (p : ptr) (body : bytes) : pollManager * Response :=
  let pt := pts m !!! p in
  let max := engineio.s_MaxPayload (polling.sess pt) in
  let raw := take (Z.to_nat (max + 1)) body in
  if max <? len raw then (m, HttpError "payload too large" 413)
  else match engineio.DecodeBatch raw with
       | Err _ => (m, HttpError "bad packet batch" 400)
       | Ok packets =>
           let '(pt, sg, r) := polling.handleInbound pt packets in
           (put_pt m p pt sg,
            match r with
            | Ok _ => HttpBody (bs "ok")
            | Err EOF => HttpError "session closed" 400
            | Err _ => HttpError "handle packets" 400
            end)
       end.

(** The session transport for which the application is started comes last. *)
Definition serveHandshake (m : pollManager) (e : Env) : pollManager * Response * option ptr :=
  let '(m, s, st) := create m (e_sid e) (e_now e) in
  match engineio.MarshalOpenPacket
          (engineio.NewHandshake (engineio.s_ID s) (engineio.s_PingInterval s)
             (engineio.s_PingTimeout s) (engineio.s_MaxPayload s)) with
  | Err _ => (m, HttpError "handshake failed" 500, None)
  | Ok openWire => (m, HttpBody openWire, Some st)
  end.

Definition servePolling (m : pollManager) (r : Request) (e : Env)
  : option (pollManager * Response * option ptr) :=
  if bool_decide (r_sid r = ""%string) then Some (serveHandshake m e)
  else match getPolling m (r_sid r) with
       | None => Some (m, HttpError "unknown sid" 400, None)
       | Some p =>
           if bool_decide (r_Method r = "GET"%string) then
             '(m, resp) ← servePoll m p (e_pick e); Some (m, resp, None)
           else if bool_decide (r_Method r = "POST"%string) then
             let '(m, resp) := servePost m p (r_Body r) in Some (m, resp, None)
           else Some (m, HttpError "method not allowed" 405, None)
       end.

Definition serveWebSocketUpgrade (m : pollManager) (r : Request) (e : Env) : pollManager * Response :=
  if negb (bool_decide (r_Method r = "GET"%string)) then (m, HttpError "method not allowed" 405)
  else if bool_decide (r_sid r = ""%string) then (m, HttpError "sid required" 400)
  else if negb (readyForUpgrade m (r_sid r)) then (m, HttpError "upgrade not ready" 400)
  else match e_upgrade e with
       | None => (m, UpgraderAnswered)
       | Some raw =>
           match applyUpgrade m (r_sid r) raw with
           | (m, Some _) => (m, SwitchedProtocols)
           | (m, None) => (m, SwitchedProtocols)   (* the new connection is closed again *)
           end
       end.

(** [None]: the poll is still waiting. *)
Definition ServeHTTP (m : pollManager) (r : Request) (e : Env)
  : option (pollManager * Response * option ptr) :=
  if e_closed e then Some (m, HttpError "server closed" 503, None)
  else if negb (bool_decide (r_EIO r = engineio.Version))
  then Some (m, HttpError "unsupported EIO version" 400, None)
  else if bool_decide (r_transport r = engineio.TransportPolling) then servePolling m r e
  else if bool_decide (r_transport r = engineio.TransportWebSocket) then
    let '(m, resp) := serveWebSocketUpgrade m r e in Some (m, resp, None)
  else Some (m, HttpError "unsupported transport" 400, None).

(** ** Steps: requests, and the pumps using a session transport *)

Inductive mop :=
  | MRequest (r : Request) (e : Env)
  | MPoll (p : ptr) (pick : polling.poll_case)      (* a GET that was waiting goes on *)
  | MRead (st : ptr) (sched : list wakeup)
  | MWrite (st : ptr) (d : bytes)
  | MPing (st : ptr) | MSendClose (st : ptr) | MClose (st : ptr)
  | MSetReadLimit (st : ptr) (n : Z) | MSetReadDeadline (st : ptr) (n : Z) | MOnPong (st : ptr).

Definition mexec (m : pollManager) (o : mop) : pollManager :=
  match o with
  | MRequest r e => match ServeHTTP m r e with Some (m', _, _) => m' | None => m end
  | MPoll p pick => match servePoll m p pick with Some (m', _) => m' | None => m end
  | MRead st sched =>
      match Read (mkST m st) sched with Some (t, _, _, _) => st_manager t | None => m end
  | MWrite st d => st_manager (Write (mkST m st) d).1
  | MPing st => st_manager (Ping (mkST m st)).1
  | MSendClose st => st_manager (SendClose (mkST m st)).1
  | MClose st => st_manager (Close (mkST m st)).1
  | MSetReadLimit st n => st_manager (SetReadLimit (mkST m st) n)
  | MSetReadDeadline st n => st_manager (SetReadDeadline (mkST m st) n)
  | MOnPong st => st_manager (OnPong (mkST m st))
  end.

(** A step by a pump is by one that has a session transport; the random id of
    a handshake is one that was never used. *)
Definition mvalid (m : pollManager) (o : mop) : Prop :=
  match o with
  | MRequest r e => r_sid r = ""%string ->
      forall p pt, pts m !! p = Some pt -> engineio.s_ID (polling.sess pt) <> e_sid e
  | MPoll p _ => is_Some (pts m !! p)
  | MRead st _ | MWrite st _ | MPing st | MSendClose st | MClose st
  | MSetReadLimit st _ | MSetReadDeadline st _ | MOnPong st => is_Some (sts m !! st)
  end.

Definition mrun (m : pollManager) (ops : list mop) : pollManager := fold_left mexec ops m.
Fixpoint mvalids (m : pollManager) (ops : list mop) : Prop :=
  match ops with
  | [] => True
  | o :: ops' => mvalid m o /\ mvalids (mexec m o) ops'
  end.

Lemma mrun_snoc m ops o : mrun m (ops ++ [o]) = mexec (mrun m ops) o.
Proof. unfold mrun. by rewrite fold_left_app. Qed.
Lemma mvalids_snoc m ops o : mvalids m (ops ++ [o]) <-> mvalids m ops /\ mvalid (mrun m ops) o.
Proof.
  revert m. induction ops as [|o' ops IH]; intros m; simpl; [tauto|]. rewrite IH. simpl. tauto.
Qed.

(** ** Well-formed managers *)

Record session_ok (m : pollManager) (sid : string) (ps : pollSession) : Prop := {
  so_same : sessionT ps = ps_polling ps;
  so_id : exists pt, pts m !! ps_polling ps = Some pt /\ engineio.s_ID (polling.sess pt) = sid;
  so_polling : upgraded ps = false -> sts m !! sessionT ps = Some (CurPolling (ps_polling ps));
  so_websocket : upgraded ps = true -> exists ws, sts m !! sessionT ps = Some (CurWebSocket ws)
}.

Record mwf (m : pollManager) : Prop := {
  mw_pts : forall p pt, pts m !! p = Some pt -> (p < next m)%nat /\ polling.wf pt;
  mw_sts : forall s c, sts m !! s = Some c ->
    (s < next m)%nat /\ forall p, c = CurPolling p -> p = s /\ is_Some (pts m !! p);
  mw_ids : forall p q pt qt, pts m !! p = Some pt -> pts m !! q = Some qt ->
    engineio.s_ID (polling.sess pt) = engineio.s_ID (polling.sess qt) -> p = q;
  mw_sessions : forall sid ps, sessions m !! sid = Some ps -> session_ok m sid ps
}.

(** Sessions that were upgraded stay, upgraded. *)
Definition keeps (m m' : pollManager) : Prop :=
  forall sid ps, sessions m !! sid = Some ps -> upgraded ps = true ->
  exists ps', sessions m' !! sid = Some ps' /\ upgraded ps' = true /\ sessionT ps' = sessionT ps.

(** The session with this id, if there is one, still polls. *)
Definition polls (m : pollManager) (sid : string) : Prop :=
  forall ps, sessions m !! sid = Some ps -> upgraded ps = false.

Lemma keeps_refl m : keeps m m.
Proof. intros sid ps H1 H2. by exists ps. Qed.

Lemma keeps_trans m1 m2 m3 : keeps m1 m2 -> keeps m2 m3 -> keeps m1 m3.
Proof.
  intros H1 H2 sid ps Hs Hu. destruct (H1 sid ps Hs Hu) as (ps2 & Hs2 & Hu2 & <-).
  by apply H2.
Qed.

Lemma new_mwf i t p : mwf (newPollManager i t p).
Proof.
  constructor; simpl.
  - by intros ? ? ?%lookup_empty_Some.
  - by intros ? ? ?%lookup_empty_Some.
  - by intros ? ? ? ? ?%lookup_empty_Some.
  - by intros ? ? ?%lookup_empty_Some.
Qed.

(** Writing back the flags of a session. *)
Lemma set_flags_mwf m sid ps ps' : mwf m -> sessions m !! sid = Some ps ->
  ps_polling ps' = ps_polling ps -> sessionT ps' = sessionT ps -> upgraded ps' = upgraded ps ->
  mwf (set_sessions m (<[sid := ps']> (sessions m))) /\
  keeps m (set_sessions m (<[sid := ps']> (sessions m))).
Proof.
  intros [H1 H2 H3 H4] Hs E1 E2 E3. split.
  - constructor; [done|done|done|]. cbn [sessions set_sessions].
    intros i q [[<- <-]|[Hne Hq]]%lookup_insert_Some.
    + destruct (H4 sid ps Hs) as [A B C D]. constructor; rewrite ?E1, ?E2, ?E3; done.
    + by destruct (H4 i q Hq); constructor.
  - intros i q Hq Hu. cbn [sessions set_sessions]. destruct (decide (i = sid)) as [->|Hne].
    + exists ps'. rewrite lookup_insert_eq. split; [done|]. split; congruence.
    + exists q. by rewrite lookup_insert_ne.
Qed.

Lemma on_signal_ok sid m s : mwf m -> polls m sid ->
  mwf (on_signal sid m s) /\ keeps m (on_signal sid m s) /\ polls (on_signal sid m s) sid.
Proof.
  intros Hm Hp. destruct s; cbn [on_signal].
  - split_and!; [done|apply keeps_refl|done].
  - unfold remove. split_and!.
    + destruct Hm as [H1 H2 H3 H4]. constructor; [done|done|done|]. cbn [sessions set_sessions].
      intros i q [_ Hq]%lookup_delete_Some. by destruct (H4 i q Hq); constructor.
    + intros i q Hq Hu. exists q. cbn [sessions set_sessions]. rewrite lookup_delete_ne; [done|].
      intros <-. specialize (Hp q Hq). congruence.
    + intros q. cbn [sessions set_sessions]. by rewrite lookup_delete_eq.
  - unfold markProbed. destruct (sessions m !! sid) as [ps|] eqn:E;
      [|split_and!; [done|apply keeps_refl|done]].
    destruct (set_flags_mwf m sid ps (mkPollSession (Session ps) (ps_polling ps) (sessionT ps)
      true (upgradeOK ps) (upgraded ps))) as [H1 H2]; [done..|]. split_and!; [done|done|].
    intros q. cbn [sessions set_sessions]. rewrite lookup_insert_eq. intros [= <-]. exact (Hp ps E).
  - unfold markUpgrade. destruct (sessions m !! sid) as [ps|] eqn:E;
      [|split_and!; [done|apply keeps_refl|done]].
    destruct (set_flags_mwf m sid ps (mkPollSession (Session ps) (ps_polling ps) (sessionT ps)
      (probed ps) true (upgraded ps))) as [H1 H2]; [done..|]. split_and!; [done|done|].
    intros q. cbn [sessions set_sessions]. rewrite lookup_insert_eq. intros [= <-]. exact (Hp ps E).
  - split_and!; [done|apply keeps_refl|done].
Qed.

Lemma on_signals_ok sid l m : mwf m -> polls m sid ->
  mwf (on_signals m sid l) /\ keeps m (on_signals m sid l).
Proof.
  unfold on_signals. revert m. induction l as [|s l IH]; intros m Hm Hp; simpl.
  - split; [done|apply keeps_refl].
  - destruct (on_signal_ok sid m s Hm Hp) as (H1 & H2 & H3). destruct (IH _ H1 H3) as [H4 H5].
    split; [done|]. by eapply keeps_trans.
Qed.

(** Storing a polling transport back. *)
Lemma set_pt_mwf m p pt pt' : mwf m -> pts m !! p = Some pt ->
  polling.sess pt' = polling.sess pt -> polling.wf pt' -> mwf (set_pt m p pt').
Proof.
  intros [H1 H2 H3 H4] Hp Hs Hw.
  assert (forall q qt, pts (set_pt m p pt') !! q = Some qt ->
    exists qt0, pts m !! q = Some qt0 /\ polling.sess qt = polling.sess qt0 /\
      (polling.wf qt0 -> polling.wf qt)) as Hback.
  { intros q qt. cbn [pts set_pt]. intros [[<- <-]|[Hne Hq]]%lookup_insert_Some; [by exists pt|].
    by exists qt. }
  assert (forall q, is_Some (pts m !! q) -> is_Some (pts (set_pt m p pt') !! q)) as Hdom.
  { intros q Hq. cbn [pts set_pt]. apply lookup_insert_is_Some. destruct (decide (p = q)); eauto. }
  constructor.
  - intros q qt Hq. destruct (Hback q qt Hq) as (qt0 & Hq0 & _ & Hw').
    destruct (H1 q qt0 Hq0) as [A B]. split; [done|]. by apply Hw'.
  - intros s c Hc. destruct (H2 s c Hc) as [A B]. split; [done|]. intros q ->.
    destruct (B q eq_refl) as [-> Hq]. split; [done|]. by apply Hdom.
  - intros q r qt rt Hq Hr E. destruct (Hback q qt Hq) as (qt0 & Hq0 & E1 & _).
    destruct (Hback r rt Hr) as (rt0 & Hr0 & E2 & _). eapply H3; [done|done|congruence].
  - intros sid ps Hps. destruct (H4 sid ps Hps) as [A (qt & B1 & B2) C D]. constructor; [done| |done|done].
    cbn [pts set_pt]. destruct (decide (p = ps_polling ps)) as [->|Hne].
    + exists pt'. rewrite lookup_insert_eq. split; [done|]. congruence.
    + exists qt. by rewrite lookup_insert_ne.
Qed.

Lemma put_pt_ok m p pt pt' l : mwf m -> pts m !! p = Some pt ->
  polling.sess pt' = polling.sess pt -> polling.wf pt' ->
  polls m (engineio.s_ID (polling.sess pt)) ->
  mwf (put_pt m p pt' l) /\ keeps m (put_pt m p pt' l).
Proof.
  intros Hm Hp Hs Hw Hl. unfold put_pt. rewrite Hs.
  apply (on_signals_ok (engineio.s_ID (polling.sess pt)) l (set_pt m p pt')); [|done].
  by eapply set_pt_mwf.
Qed.

(** A polling transport that can be reached through a session transport or
    through the table belongs to a session that still polls. *)
Lemma active_polls m s p : mwf m -> sts m !! s = Some (CurPolling p) ->
  exists pt, pts m !! p = Some pt /\ polling.wf pt /\ polls m (engineio.s_ID (polling.sess pt)).
Proof.
  intros [H1 H2 H3 H4] Hs. destruct (H2 s _ Hs) as [_ Hp]. destruct (Hp p eq_refl) as [-> [pt Hpt]].
  exists pt. split; [done|]. split; [by apply (H1 s)|]. intros ps Hps.
  destruct (H4 _ ps Hps) as [A (qt & B1 & B2) C D].
  pose proof (H3 _ _ _ _ B1 Hpt B2) as E. destruct (upgraded ps); [|done].
  destruct (D eq_refl) as [ws Hws]. rewrite A, E in Hws. congruence.
Qed.

Lemma getPolling_polls m sid p : mwf m -> getPolling m sid = Some p ->
  exists pt, pts m !! p = Some pt /\ polling.wf pt /\ engineio.s_ID (polling.sess pt) = sid /\
    polls m sid.
Proof.
  intros Hm. unfold getPolling. destruct (sessions m !! sid) as [ps|] eqn:E; [|done].
  destruct (upgraded ps) eqn:Hu; [done|]. intros [= <-].
  destruct (mw_sessions m Hm sid ps E) as [A (pt & B1 & B2) C D]. exists pt. split_and!; [done| |done|].
  - by apply (mw_pts m Hm (ps_polling ps)).
  - intros q Hq. congruence.
Qed.

(** The state of a WebSocket transport changes. *)
Lemma set_ws_ok m s ws ws' : mwf m -> sts m !! s = Some (CurWebSocket ws) ->
  mwf (set_st m s (CurWebSocket ws')) /\ keeps m (set_st m s (CurWebSocket ws')).
Proof.
  intros [H1 H2 H3 H4] Hs. split; [|intros sid ps Hps Hu; by exists ps].
  constructor; [done| |done|].
  - intros s' c. cbn [sts set_st]. intros [[<- <-]|[Hne Hc]]%lookup_insert_Some; [|by apply H2].
    split; [by apply (H2 s (CurWebSocket ws))|done].
  - intros sid ps Hps. destruct (H4 sid ps Hps) as [A B C D]. constructor; [done|done|..].
    + intros Hu. cbn [sts set_st]. rewrite lookup_insert_ne; [by apply C|]. intros E.
      specialize (C Hu). rewrite <- E in C. congruence.
    + intros Hu. cbn [sts set_st]. destruct (decide (s = sessionT ps)) as [->|Hne].
      * exists ws'. by rewrite lookup_insert_eq.
      * rewrite lookup_insert_ne by done. by apply D.
Qed.

(** ** Steps keep managers well-formed and upgrades in place *)

Definition step_ok (m m' : pollManager) : Prop := mwf m' /\ keeps m m'.

Lemma on_active_ok {A} m s fp fw : mwf m -> is_Some (sts m !! s) ->
  (forall pt, polling.wf pt -> polling.wf (fp pt).1.1 /\ polling.sess (fp pt).1.1 = polling.sess pt) ->
  step_ok m (st_manager (@on_active A (mkST m s) fp fw).1.1).
Proof.
  intros Hm [c Hc] Hfp. unfold on_active, active. cbn [st_manager st_self].
  rewrite (lookup_total_correct _ _ _ Hc). destruct c as [p|ws].
  - destruct (active_polls m s p Hm Hc) as (pt & Hpt & Hw & Hl).
    rewrite (lookup_total_correct _ _ _ Hpt). destruct (Hfp pt Hw) as [H1 H2].
    destruct (fp pt) as [[pt' sg] a]. cbn [fst snd st_manager] in *. by apply (put_pt_ok m p pt).
  - destruct (fw ws) as [[ws' sg] a]. by apply (set_ws_ok m s ws).
Qed.

(** What a polling operation of the model of polling transports keeps. *)
Lemma poll_op_ok o pt pt' : pt' = (polling.poll_exec pt o).1 -> polling.wf pt ->
  polling.wf pt' /\ polling.sess pt' = polling.sess pt.
Proof.
  intros -> Hw. split; [by apply polling.poll_exec_wf|apply polling.poll_exec_sess].
Qed.

Lemma Swap_dom m s c : is_Some (sts m !! s) -> is_Some (sts (set_st m s c) !! s).
Proof. intros _. cbn [sts set_st]. rewrite lookup_insert_eq. by eexists. Qed.

Lemma on_signals_sts sid l m : sts (on_signals m sid l) = sts m.
Proof.
  unfold on_signals. revert m. induction l as [|s l IH]; intros m; simpl; [done|]. rewrite IH.
  destruct s; [done|done|..|done]; cbn [on_signal]; unfold markProbed, markUpgrade; by destruct (_ !! _).
Qed.

Lemma on_signals_pts sid l m : pts (on_signals m sid l) = pts m.
Proof.
  revert m. induction l as [|s l IH]; intros m; [done|]. simpl. rewrite IH.
  destruct s; try done; simpl; unfold markProbed, markUpgrade; by destruct (_ !! _).
Qed.

(** ** The panic contract of the pumps *)

Section safe.
#[local] Existing Instance polling.polling_safe_transport.
Context `{!SafeTransport R}.

Definition current_safe (t : sessionTransport) : Prop :=
  match active t with
  | CurPolling p => safe (pts (st_manager t) !!! p)
  | CurWebSocket ws => safe ws
  end.

Lemma put_pt_safe m s p pt l : sts m !!! s = CurPolling p -> safe pt ->
  current_safe (mkST (put_pt m p pt l) s).
Proof.
  intros Hs Hw. unfold current_safe, active, put_pt. cbn [st_manager st_self].
  rewrite on_signals_sts. cbn [set_pt sts]. rewrite Hs, on_signals_pts. cbn [set_pt pts].
  by rewrite lookup_total_insert_eq.
Qed.

Lemma Swap_safe t ws : safe ws -> current_safe (Swap t (CurWebSocket ws)).
Proof.
  intros Hs. unfold current_safe, active, Swap. cbn [st_manager st_self set_st sts].
  by rewrite lookup_total_insert_eq.
Qed.

(** A method keeps the contract when both transports do. *)
Lemma on_active_safe {A} t fp fw (ok : list signal -> A -> Prop) : current_safe t ->
  (forall pt, safe pt -> safe (fp pt).1.1 /\ ok (fp pt).1.2 (fp pt).2) ->
  (forall ws, safe ws -> safe (fw ws).1.1 /\ ok (fw ws).1.2 (fw ws).2) ->
  let '(t', sg, r) := on_active (A := A) t fp fw in current_safe t' /\ ok sg r.
Proof.
  unfold current_safe at 1, on_active. intros Hs Hp Hw. destruct (active t) as [p|ws] eqn:Ea.
  - apply Hp in Hs. destruct (fp _) as [[pt sg] r]. cbn [fst snd] in Hs.
    split; [|apply Hs]. apply put_pt_safe; [done|apply Hs].
  - apply Hw in Hs. destruct (fw ws) as [[ws' sg] r]. cbn [fst snd] in Hs.
    split; [|apply Hs]. apply Swap_safe, Hs.
Qed.

Lemma st_read_once_safe t sched t' sg r rest : current_safe t ->
  st_read_once t sched = Some (t', sg, r, rest) -> current_safe t' /\ SigPanic ∉ sg.
Proof.
  unfold current_safe at 1, st_read_once. intros Hs. destruct (active t) as [p|ws] eqn:Ea.
  - destruct (Read _ _) as [[[[pt sg1] r1] rest1]|] eqn:E; [|done]. intros [= <- <- <- <-].
    apply safe_read in E as [E1 E2]; [|done]. split; [|done]. by apply put_pt_safe.
  - destruct (Read _ _) as [[[[ws' sg1] r1] rest1]|] eqn:E; [|done]. intros [= <- <- <- <-].
    apply safe_read in E as [E1 E2]; [|done]. split; [|done]. by apply Swap_safe.
Qed.

Lemma st_read_loop_safe fuel t sched t' sg r rest : current_safe t ->
  st_read_loop fuel t sched = Some (t', sg, r, rest) -> current_safe t' /\ SigPanic ∉ sg.
Proof.
  revert t sched t' sg r rest. induction fuel as [|fuel IH]; intros t sched t' sg r rest Hs; [done|].
  cbn [st_read_loop]. destruct (st_read_once t sched) as [[[[t1 sg1] r1] rest1]|] eqn:E; [|done].
  apply st_read_once_safe in E as [H1 H2]; [|done].
  destruct r1 as [d|[]]; try (by intros [= <- <- <- <-]).
  destruct (st_read_loop fuel t1 rest1) as [[[[t2 sg2] r2] rest2]|] eqn:E2; [|done].
  intros [= <- <- <- <-]. apply IH in E2 as [H3 H4]; [|done]. split; [done|].
  rewrite elem_of_app. by intros [?|?].
Qed.

#[export] Instance session_safe : SafeTransport sessionTransport.
Proof.
  pose proof (not_elem_of_nil SigPanic) as Hn.
  refine {| safe := current_safe |}; cbn [SetReadLimit SetReadDeadline OnPong Read Write Ping SendClose
    Close session_transport].
  - intros t n Hs. pose proof (on_active_safe t (fun pt => no_result (SetReadLimit pt n))
      (fun ws => no_result (SetReadLimit ws n)) (fun _ _ => True) Hs) as H1.
    destruct (on_active _ _ _) as [[t' sg] r]. apply H1; intros ? ?; (split; [by apply safe_limit|done]).
  - intros t n Hs. pose proof (on_active_safe t (fun pt => no_result (SetReadDeadline pt n))
      (fun ws => no_result (SetReadDeadline ws n)) (fun _ _ => True) Hs) as H1.
    destruct (on_active _ _ _) as [[t' sg] r]. apply H1; intros ? ?; (split; [by apply safe_deadline|done]).
  - intros t Hs. pose proof (on_active_safe t (fun pt => no_result (OnPong pt))
      (fun ws => no_result (OnPong ws)) (fun _ _ => True) Hs) as H1.
    destruct (on_active _ _ _) as [[t' sg] r]. apply H1; intros ? ?; (split; [by apply safe_onPong|done]).
  - intros t sched t' sg r rest. apply st_read_loop_safe.
  - intros t d Hs. pose proof (on_active_safe t (fun pt => no_signal (Write pt d))
      (fun ws => no_signal (Write ws d)) (fun _ r => panicked r = false) Hs) as H1.
    destruct (on_active _ _ _) as [[t' sg] r]. apply H1; intros ? ?; by apply safe_write.
  - intros t Hs. pose proof (on_active_safe t (fun pt => no_signal (Ping pt))
      (fun ws => no_signal (Ping ws)) (fun _ r => panicked r = false) Hs) as H1.
    destruct (on_active _ _ _) as [[t' sg] r]. apply H1; intros ? ?; by apply safe_ping.
  - intros t Hs. pose proof (on_active_safe t (fun pt => no_signal (SendClose pt))
      (fun ws => no_signal (SendClose ws)) (fun _ r => panicked r = false) Hs) as H1.
    destruct (on_active _ _ _) as [[t' sg] r]. apply H1; intros ? ?; by apply safe_sendClose.
  - intros t Hs. pose proof (on_active_safe t (fun pt => (Close pt, tt))
      (fun ws => (Close ws, tt)) (fun sg _ => SigPanic ∉ sg) Hs) as H1.
    destruct (on_active _ _ _) as [[t' sg] r]. apply H1; intros ? ?; by apply safe_close.
Defined.

End safe.

Lemma st_read_once_ok m s sched t' sg r rest : mwf m -> is_Some (sts m !! s) ->
  st_read_once (mkST m s) sched = Some (t', sg, r, rest) ->
  step_ok m (st_manager t') /\ st_self t' = s /\ is_Some (sts (st_manager t') !! s).
Proof.
  intros Hm [c Hc]. unfold st_read_once, active. cbn [st_manager st_self].
  rewrite (lookup_total_correct _ _ _ Hc). destruct c as [p|ws].
  - destruct (active_polls m s p Hm Hc) as (pt & Hpt & Hw & Hl).
    rewrite (lookup_total_correct _ _ _ Hpt).
    destruct (Read pt sched) as [[[[pt' sg'] r'] rest']|] eqn:E; [|done]. intros [= <- _ _ _].
    destruct (poll_op_ok (polling.PRead sched) pt pt') as [H1 H2]; [|done|].
    + cbn [polling.poll_exec]. change (Read pt sched) with (polling.poll_read pt sched) in E.
      by rewrite E.
    + split; [by apply (put_pt_ok m p pt)|]. split; [done|]. cbn [st_manager]. unfold put_pt.
      rewrite on_signals_sts. by exists (CurPolling p).
  - destruct (Read ws sched) as [[[[ws' sg'] r'] rest']|]; [|done]. intros [= <- _ _ _].
    split; [by apply (set_ws_ok m s ws)|]. split; [done|]. apply Swap_dom. by eexists.
Qed.

Lemma st_read_loop_ok fuel m s sched t' sg r rest : mwf m -> is_Some (sts m !! s) ->
  st_read_loop fuel (mkST m s) sched = Some (t', sg, r, rest) -> step_ok m (st_manager t').
Proof.
  revert m sched t' sg r rest. induction fuel as [|fuel IH]; intros m sched t' sg r rest Hm Hs; [done|].
  cbn [st_read_loop].
  destruct (st_read_once (mkST m s) sched) as [[[[t1 sg1] r1] rest1]|] eqn:E; [|done].
  destruct (st_read_once_ok m s sched t1 sg1 r1 rest1 Hm Hs E) as ([Hm1 Hk] & Hself & Hs1).
  destruct r1 as [d|[]]; try (intros [= <- _ _ _]; by split).
  destruct t1 as [m1 s1]. cbn [st_manager st_self] in *. subst s1.
  destruct (st_read_loop fuel (mkST m1 s) rest1) as [[[[t2 sg2] r2] rest2]|] eqn:E2; [|done].
  intros [= <- _ _ _]. destruct (IH _ _ _ _ _ _ Hm1 Hs1 E2) as [Hm2 Hk2].
  split; [done|by eapply keeps_trans].
Qed.

Lemma create_ok m sid now : mwf m ->
  (forall p pt, pts m !! p = Some pt -> engineio.s_ID (polling.sess pt) <> sid) ->
  step_ok m (create m sid now).1.1.
Proof.
  intros [H1 H2 H3 H4] Hfresh. unfold create. cbn [fst].
  assert (sessions m !! sid = None) as Hnone.
  { apply eq_None_not_Some. intros [ps Hps]. destruct (H4 sid ps Hps) as [_ (pt & A & B) _ _].
    by apply (Hfresh _ pt A). }
  assert (pts m !! next m = None) as Hpn.
  { apply eq_None_not_Some. intros [pt Hpt]. destruct (H1 _ _ Hpt). lia. }
  assert (sts m !! next m = None) as Hsn.
  { apply eq_None_not_Some. intros [c Hc]. destruct (H2 _ _ Hc). lia. }
  split.
  - constructor; cbn [pts sts next sessions].
    + intros p pt [[<- <-]|[Hne Hp]]%lookup_insert_Some; [split; [lia|apply polling.new_wf]|].
      destruct (H1 p pt Hp). split; [lia|done].
    + intros s c [[<- <-]|[Hne Hc]]%lookup_insert_Some.
      * split; [lia|]. intros p [= <-]. split; [done|]. rewrite lookup_insert_eq. by eexists.
      * destruct (H2 s c Hc) as [A B]. split; [lia|]. intros p ->.
        destruct (B p eq_refl) as [-> Hp]. split; [done|]. by rewrite lookup_insert_ne.
    + intros p q pt qt [[<- <-]|[Hne Hp]]%lookup_insert_Some [[<- <-]|[Hne' Hq]]%lookup_insert_Some E.
      * done.
      * exfalso. cbn in E. by apply (Hfresh q qt Hq).
      * exfalso. cbn in E. by apply (Hfresh p pt Hp).
      * by eapply H3.
    + intros i ps [[<- <-]|[Hne Hps]]%lookup_insert_Some.
      * constructor; cbn; [done| |by rewrite lookup_insert_eq|done]. eexists. by rewrite lookup_insert_eq.
      * destruct (H4 i ps Hps) as [A (pt & B1 & B2) C D].
        assert (ps_polling ps <> next m) as Hnp by (destruct (H1 _ _ B1); lia).
        constructor; cbn; [done|..].
        -- exists pt. by rewrite lookup_insert_ne.
        -- intros Hu. rewrite lookup_insert_ne; [by apply C|]. rewrite A. intros Heq. by apply Hnp.
        -- intros Hu. rewrite lookup_insert_ne; [by apply D|]. rewrite A. intros Heq. by apply Hnp.
  - intros i ps Hps Hu. exists ps. cbn [sessions]. rewrite lookup_insert_ne; [done|]. congruence.
Qed.

(** What a successful upgrade does. *)
Definition upgrade_signal (pt : polling.pollingTransport) : polling.pollingTransport :=
  polling.signalUpgrade (polling.send_packet pt (engineio.mkPacket engineio.Noop [])).1.

Lemma upgrade_signal_ok pt : polling.wf pt ->
  polling.wf (upgrade_signal pt) /\ polling.sess (upgrade_signal pt) = polling.sess pt /\
  polling.closed (upgrade_signal pt) = polling.closed pt /\
  ch_buf (polling.upgrade (upgrade_signal pt)) = [tt].
Proof.
  intros Hw. set (pt1 := (polling.send_packet pt (engineio.mkPacket engineio.Noop [])).1).
  assert (polling.wf pt1 /\ polling.closed pt1 = polling.closed pt) as [Hw1 Hc1].
  { unfold pt1. destruct (polling.closed pt) eqn:Hc.
    - unfold polling.send_packet. cbn. unfold polling.enqueueOutbound. by rewrite Hc.
    - by destruct (polling.send_packet_wf pt (engineio.mkPacket engineio.Noop []) Hw Hc)
        as (? & ? & _). }
  split; [|split; [|split; [exact Hc1|]]].
  - exact (proj1 (polling.poll_exec_wf pt1 polling.PSignalUpgrade Hw1)).
  - exact (polling.send_packet_sess pt (engineio.mkPacket engineio.Noop [])).
  - apply polling.nudge_full. by destruct Hw1.
Qed.

Lemma applyUpgrade_spec m sid ws m' st : mwf m -> applyUpgrade m sid ws = (m', Some st) ->
  exists ps pt, sessions m !! sid = Some ps /\ st = ps_polling ps /\ probed ps = true /\
    upgradeOK ps = true /\ upgraded ps = false /\ pts m !! st = Some pt /\ polling.wf pt /\
    engineio.s_ID (polling.sess pt) = sid /\
    m' = mkManager (<[sid := mkPollSession (Session ps) st st true true true]> (sessions m)) (cfg m)
           (<[st := upgrade_signal pt]> (pts m))
           (<[st := CurWebSocket (newEIOWebSocketTransport ws)]> (sts m)) (next m).
Proof.
  intros Hm. unfold applyUpgrade. destruct (sessions m !! sid) as [ps|] eqn:E; [|done].
  destruct (mw_sessions m Hm sid ps E) as [A (pt & B1 & B2) C D].
  destruct (probed ps) eqn:E1, (upgradeOK ps) eqn:E2, (upgraded ps) eqn:E3; cbn [andb negb]; try done.
  intros [= <- <-]. exists ps, pt. rewrite A. split_and!; try done.
  - by apply (mw_pts m Hm (ps_polling ps)).
  - cbn. by rewrite (lookup_total_correct _ _ _ B1).
Qed.

Lemma applyUpgrade_none m sid ws m' : applyUpgrade m sid ws = (m', None) -> m' = m.
Proof.
  unfold applyUpgrade. destruct (_ !! _) as [ps|]; [|by intros [= <-]].
  by destruct (_ && _); intros [= <-].
Qed.

Lemma applyUpgrade_ok m sid ws : mwf m -> step_ok m (applyUpgrade m sid ws).1.
Proof.
  intros Hm. destruct (applyUpgrade m sid ws) as [m' [st|]] eqn:E; cbn [fst].
  2: { apply applyUpgrade_none in E as ->. split; [done|apply keeps_refl]. }
  destruct (applyUpgrade_spec m sid ws m' st Hm E)
    as (ps & pt & Hps & -> & _ & _ & Hu & Hpt & Hw & Hid & ->).
  destruct (upgrade_signal_ok pt Hw) as (Hw' & Hs' & _).
  pose proof (set_pt_mwf m (ps_polling ps) pt _ Hm Hpt Hs' Hw') as [P1 P2 P3 P4].
  cbn [pts sts next sessions set_pt] in P1, P2, P3, P4.
  destruct (mw_sessions m Hm sid ps Hps) as [A B C D]. split.
  - constructor; cbn [pts sts next sessions]; [done| |done|].
    + intros s c [[<- <-]|[Hne Hc]]%lookup_insert_Some; [|by apply P2].
      split; [|done]. by destruct (mw_pts m Hm _ _ Hpt).
    + intros i q [[<- <-]|[Hne Hq]]%lookup_insert_Some.
      * constructor; cbn; [done| |done|].
        -- exists (upgrade_signal pt). rewrite lookup_insert_eq. split; [done|]. congruence.
        -- intros _. eexists. by rewrite lookup_insert_eq.
      * destruct (P4 i q Hq) as [A' B' C' D'].
        assert (sessionT q <> ps_polling ps) as Hns.
        { intros Heq. destruct (mw_sessions m Hm i q Hq) as [A'' (qt & B1 & B2) _ _].
          assert (ps_polling q = ps_polling ps) as Hqp by (rewrite <- A''; exact Heq).
          rewrite Hqp, Hpt in B1. injection B1 as <-. congruence. }
        constructor; [done|done|..]; cbn; intros Hq'; rewrite lookup_insert_ne by congruence; auto.
  - intros i q Hq Hqu. exists q. cbn [sessions]. rewrite lookup_insert_ne; [done|].
    intros <-. congruence.
Qed.

Lemma servePoll_ok m p pick m' resp : mwf m -> is_Some (pts m !! p) ->
  servePoll m p pick = Some (m', resp) -> step_ok m m' /\ sessions m' = sessions m.
Proof.
  intros Hm [pt Hpt]. unfold servePoll. rewrite (lookup_total_correct _ _ _ Hpt).
  destruct (polling.poll pt pick) as [[pt' res]|] eqn:Hp; [|done]. intros [= <- _].
  split; [|done]. split; [|intros sid ps Hps Hu; by exists ps].
  apply (set_pt_mwf m p pt); [done|done|by eapply polling.poll_sess|].
  apply (polling.poll_wf pt pick pt' res); [|done]. by apply (mw_pts m Hm p).
Qed.

Lemma request_ok m r e : mwf m -> mvalid m (MRequest r e) -> step_ok m (mexec m (MRequest r e)).
Proof.
  intros Hm Hv. assert (step_ok m m) as Hrefl by (split; [done|apply keeps_refl]).
  cbn [mexec]. unfold ServeHTTP. destruct (e_closed e); [done|]. destruct (negb _); [done|].
  destruct (bool_decide (r_transport r = engineio.TransportPolling)); [|destruct (bool_decide _); [|done]].
  - unfold servePolling. destruct (bool_decide (r_sid r = _)) eqn:Hnew.
    + apply bool_decide_eq_true_1 in Hnew.
      pose proof (create_ok m (e_sid e) (e_now e) Hm (Hv Hnew)) as Hc. unfold serveHandshake.
      destruct (create m _ _) as [[m' s] st].
      destruct (engineio.MarshalOpenPacket _); exact Hc.
    + destruct (getPolling m (r_sid r)) as [p|] eqn:Hg; [|done].
      destruct (getPolling_polls m _ p Hm Hg) as (pt & Hpt & Hw & Hid & Hpl).
      clear Hnew Hv.
      destruct (bool_decide _); [|destruct (bool_decide _); [|done]].
      * destruct (servePoll m p (e_pick e)) as [[m' resp]|] eqn:Hp; [|done].
        apply (servePoll_ok m p (e_pick e) m' resp Hm); [by exists pt|done].
      * unfold servePost. rewrite (lookup_total_correct _ _ _ Hpt). destruct (_ <? len _); [done|].
        destruct (engineio.DecodeBatch _) as [packets|]; [|done].
        pose proof (polling.handleInbound_wf pt packets Hw) as [Hw' _].
        pose proof (polling.handleInbound_sess pt packets) as Hs'.
        destruct (polling.handleInbound pt packets) as [[pt' sg] res]. cbn [fst snd] in *.
        apply (put_pt_ok m p pt); [done..|by rewrite Hid].
  - unfold serveWebSocketUpgrade. destruct (negb _); [done|]. destruct (bool_decide _); [done|].
    destruct (negb _); [done|]. destruct (e_upgrade e) as [raw|]; [|done].
    pose proof (applyUpgrade_ok m (r_sid r) raw Hm) as Hle.
    destruct (applyUpgrade m (r_sid r) raw) as [m' [st|]]; exact Hle.
Qed.

Ltac active_step :=
  match goal with
  | Hm : mwf ?m, Hv : is_Some (sts ?m !! ?s) |- context [@on_active ?A _ ?fp ?fw] =>
      pose proof (@on_active_ok A m s fp fw Hm Hv) as Hok;
      destruct (@on_active A (mkST m s) fp fw) as [[t' sg] a]; cbn [fst snd] in *;
      apply Hok; clear Hok; intros pt Hw
  end.

Lemma mexec_ok m o : mwf m -> mvalid m o -> step_ok m (mexec m o).
Proof.
  intros Hm Hv. destruct o as [r e|p pick|s sched|s d|s|s|s|s n|s n|s].
  { by apply request_ok. }
  { cbn [mexec mvalid] in *. destruct (servePoll m p pick) as [[m' resp]|] eqn:E.
    - by apply (servePoll_ok m p pick m' resp).
    - split; [done|apply keeps_refl]. }
  { cbn [mexec mvalid] in *. destruct (Read (mkST m s) sched) as [[[[t' sg] r] rest]|] eqn:E.
    - by apply (st_read_loop_ok (S (length sched)) m s sched t' sg r rest).
    - split; [done|apply keeps_refl]. }
  all: cbn [mexec mvalid Write Ping SendClose Close SetReadLimit SetReadDeadline OnPong
            session_transport] in *; active_step.
  - by apply (poll_op_ok (polling.PWrite d)); [|done]; cbn; destruct (polling.poll_write pt d).
  - by apply (poll_op_ok polling.PPing); [|done]; cbn; destruct (polling.poll_ping pt).
  - by apply (poll_op_ok polling.PSendClose); [|done]; cbn; destruct (polling.poll_sendClose pt).
  - by apply (poll_op_ok polling.PClose); [|done]; cbn; destruct (polling.poll_close pt).
  - done.
  - by apply (poll_op_ok (polling.PSetDeadline n)).
  - by apply (poll_op_ok polling.POnPong).
Qed.

(** ** Where the flags of a session come from *)

(** The sessions of [m'] have the flags they have in [m], except those that
    [new] accounts for. *)
Definition flags_from (new : string -> signal -> Prop) (m m' : pollManager) : Prop :=
  forall sid ps', sessions m' !! sid = Some ps' ->
    (probed ps' = true ->
       new sid SigProbe \/ exists ps, sessions m !! sid = Some ps /\ probed ps = true) /\
    (upgradeOK ps' = true ->
       new sid SigUpgradePacket \/ exists ps, sessions m !! sid = Some ps /\ upgradeOK ps = true).

Lemma flags_refl new m : flags_from new m m.
Proof. intros sid ps Hps. split; intros Hf; right; by exists ps. Qed.

Lemma flags_trans new m1 m2 m3 : flags_from new m1 m2 -> flags_from new m2 m3 -> flags_from new m1 m3.
Proof.
  intros H1 H2 sid ps3 H3. destruct (H2 sid ps3 H3) as [A B].
  split; intros Hf; [destruct (A Hf) as [?|(ps2 & E & F)]|destruct (B Hf) as [?|(ps2 & E & F)]];
    try (by left); destruct (H1 sid ps2 E) as [A' B']; auto.
Qed.

Lemma flags_same new m m' : sessions m' = sessions m -> flags_from new m m'.
Proof. intros E sid ps. rewrite E. apply flags_refl. Qed.

Lemma on_signal_flags new sid m s : new sid s -> flags_from new m (on_signal sid m s).
Proof.
  intros Hn. destruct s; cbn [on_signal]; [apply flags_refl| |..].
  - intros i ps. cbn [remove set_sessions sessions]. intros [_ Hi]%lookup_delete_Some.
    by apply (flags_refl new m i ps).
  - unfold markProbed. destruct (sessions m !! sid) as [ps|] eqn:E; [|apply flags_refl].
    intros i q. cbn [set_sessions sessions]. intros [[<- <-]|[Hne Hq]]%lookup_insert_Some.
    + split; intros Hf; [by left|]. right. by exists ps.
    + by apply (flags_refl new m i q).
  - unfold markUpgrade. destruct (sessions m !! sid) as [ps|] eqn:E; [|apply flags_refl].
    intros i q. cbn [set_sessions sessions]. intros [[<- <-]|[Hne Hq]]%lookup_insert_Some.
    + split; intros Hf; [|by left]. right. by exists ps.
    + by apply (flags_refl new m i q).
  - apply flags_refl.
Qed.

Lemma put_pt_flags new m p pt l : Forall (new (engineio.s_ID (polling.sess pt))) l ->
  flags_from new m (put_pt m p pt l).
Proof.
  unfold put_pt, on_signals. set (sid := engineio.s_ID _). intros Hl.
  apply (flags_trans new m (set_pt m p pt)); [by apply flags_same|].
  generalize (set_pt m p pt). induction Hl as [|s l Hs Hl IH]; intros m'; simpl; [apply flags_refl|].
  by eapply flags_trans; [apply on_signal_flags|apply IH].
Qed.

Definition closes (sid : string) (s : signal) : Prop := s = SigClose \/ s = SigPanic.

Lemma on_active_flags {A} t fp fw : (forall pt, Forall (closes "") (fp pt).1.2) ->
  flags_from closes (st_manager t) (st_manager (@on_active A t fp fw).1.1).
Proof.
  intros Hfp. unfold on_active. destruct (active t) as [p|ws].
  - specialize (Hfp (pts (st_manager t) !!! p)). destruct (fp _) as [[pt sg] a]. apply put_pt_flags.
    by eapply Forall_impl; [exact Hfp|].
  - destruct (fw ws) as [[ws' sg] a]. by apply flags_same.
Qed.

Lemma st_read_once_flags t sched t' sg r rest : st_read_once t sched = Some (t', sg, r, rest) ->
  flags_from closes (st_manager t) (st_manager t').
Proof.
  unfold st_read_once. destruct (active t) as [p|ws].
  - destruct (Read (pts (st_manager t) !!! p) sched) as [[[[pt sg'] r'] rest']|] eqn:E; [|done].
    intros [= <- _ _ _]. apply put_pt_flags.
    assert (sg' = []) as ->; [|done]. cbn in E. unfold polling.poll_read in E.
    destruct (polling.closed _); [by simplify_eq|]. destruct sched as [|[| |n] l]; [done|..|by simplify_eq].
    + by destruct (recv _); simplify_eq.
    + by destruct (recv _); simplify_eq.
  - destruct (Read ws sched) as [[[[ws' sg'] r'] rest']|]; [|done]. intros [= <- _ _ _].
    by apply flags_same.
Qed.

Lemma st_read_loop_flags fuel t sched t' sg r rest :
  st_read_loop fuel t sched = Some (t', sg, r, rest) ->
  flags_from closes (st_manager t) (st_manager t').
Proof.
  revert t sched t' sg r rest. induction fuel as [|fuel IH]; intros t sched t' sg r rest; [done|].
  cbn [st_read_loop].
  destruct (st_read_once t sched) as [[[[t1 sg1] r1] rest1]|] eqn:E; [|done].
  pose proof (st_read_once_flags _ _ _ _ _ _ E) as Hle.
  destruct r1 as [d|[]]; try (intros [= <- _ _ _]; exact Hle).
  destruct (st_read_loop fuel t1 rest1) as [[[[t2 sg2] r2] rest2]|] eqn:E2; [|done].
  intros [= <- _ _ _]. eapply flags_trans; [exact Hle|by eapply IH].
Qed.

(** A POST to [sid] whose batch has a packet with [P]. *)
Definition posted (P : engineio.Packet -> Prop) (sid : string) (o : mop) : Prop :=
  match o with
  | MRequest r e =>
      r_sid r = sid /\ r_Method r = "POST"%string /\
      exists packets p, engineio.DecodeBatch (r_Body r) = Ok packets /\ p ∈ packets /\ P p
  | _ => False
  end.

Definition probes (p : engineio.Packet) : Prop :=
  (engineio.Type_ p = engineio.Ping \/ engineio.Type_ p = engineio.Pong) /\
  engineio.IsProbe (engineio.Data p) = true.
Definition upgrades (p : engineio.Packet) : Prop := engineio.Type_ p = engineio.Upgrade.

Definition announced (o : mop) (sid : string) (s : signal) : Prop :=
  match s with
  | SigProbe => posted probes sid o
  | SigUpgradePacket => posted upgrades sid o
  | SigPong | SigClose | SigPanic => True
  end.

Lemma flags_impl (new new' : string -> signal -> Prop) m m' :
  (forall sid s, new sid s -> new' sid s) -> flags_from new m m' -> flags_from new' m m'.
Proof.
  intros Hi Hff sid ps Hps. destruct (Hff sid ps Hps) as [A B].
  split; intros Hf; [destruct (A Hf)|destruct (B Hf)]; auto.
Qed.

(** A body that is not too large is decoded whole. *)
Lemma post_body max (body : bytes) : (max <? len (take (Z.to_nat (max + 1)) body)) = false ->
  take (Z.to_nat (max + 1)) body = body.
Proof.
  intros Hl%Z.ltb_ge. apply take_ge. unfold len in Hl. rewrite length_take in Hl. lia.
Qed.

Lemma request_flags m r e : mwf m ->
  flags_from (announced (MRequest r e)) m (mexec m (MRequest r e)).
Proof.
  intros Hm. cbn [mexec]. unfold ServeHTTP. destruct (e_closed e); [apply flags_refl|].
  destruct (negb _); [apply flags_refl|].
  destruct (bool_decide (r_transport r = engineio.TransportPolling));
    [|destruct (bool_decide _); [|apply flags_refl]].
  - unfold servePolling. destruct (bool_decide _).
    + unfold serveHandshake. cbn [create].
      assert (forall m', sessions m' = <[e_sid e := mkPollSession (engineio.mkSession (e_sid e)
          (engineio.cfg_PingInterval (cfg m)) (engineio.cfg_PingTimeout (cfg m))
          (engineio.cfg_MaxPayload (cfg m)) (e_now e)) (next m) (next m) false false false]> (sessions m)
        -> flags_from (announced (MRequest r e)) m m') as Hnew.
      { intros m' E i ps. rewrite E. intros [[<- <-]|[Hne Hq]]%lookup_insert_Some; [done|].
        by apply (flags_refl _ m i ps). }
      by destruct (engineio.MarshalOpenPacket _); apply Hnew.
    + destruct (getPolling m (r_sid r)) as [p|] eqn:Hg; [|apply flags_refl].
      destruct (getPolling_polls m _ p Hm Hg) as (pt & Hpt & _ & Hid & _).
      destruct (bool_decide _); [|destruct (bool_decide (r_Method r = _)) eqn:Hpost; [|apply flags_refl]].
      * unfold servePoll. destruct (polling.poll _ _) as [[pt' res]|]; [|apply flags_refl].
        by apply flags_same.
      * unfold servePost. destruct (_ <? len _) eqn:Hl; [apply flags_refl|].
        apply post_body in Hl. rewrite Hl.
        destruct (engineio.DecodeBatch (r_Body r)) as [packets|] eqn:Hd; [|apply flags_refl].
        rewrite (lookup_total_correct _ _ _ Hpt).
        pose proof (polling.handleInbound_sess pt packets) as Hs'.
        pose proof (polling.handleInbound_signals pt packets) as Hsg.
        destruct (polling.handleInbound pt packets) as [[pt' sg] res]. cbn [fst snd] in *.
        apply put_pt_flags. rewrite Hs', Hid. apply Forall_forall. intros s Hin.
        apply bool_decide_eq_true_1 in Hpost. specialize (Hsg s Hin).
        destruct s; [done|done|..|done]; destruct Hsg as (q & Hq & HP); cbn; split; [done| |done|];
          (split; [done|]); by exists packets, q.
  - unfold serveWebSocketUpgrade. destruct (negb _); [apply flags_refl|].
    destruct (bool_decide _); [apply flags_refl|]. destruct (negb _); [apply flags_refl|].
    destruct (e_upgrade e) as [raw|]; [|apply flags_refl].
    assert (flags_from (announced (MRequest r e)) m (applyUpgrade m (r_sid r) raw).1) as Hle.
    { unfold applyUpgrade. destruct (sessions m !! r_sid r) as [ps|] eqn:E; [|apply flags_refl].
      destruct (_ && _); [|apply flags_refl]. cbn [fst].
      intros i q. cbn [set_pt set_st set_sessions sessions].
      intros [[<- <-]|[Hne Hq]]%lookup_insert_Some; [|by apply (flags_refl _ m i q)].
      split; intros Hf; right; by exists ps. }
    destruct (applyUpgrade m (r_sid r) raw) as [m' [st|]]; exact Hle.
Qed.

Lemma mexec_flags m o : mwf m -> flags_from (announced o) m (mexec m o).
Proof.
  intros Hm. destruct o as [r e|p pick|s sched|s d|s|s|s|s n|s n|s]; [by apply request_flags|..];
    apply (flags_impl closes); try (by intros sid ? [->| ->]); cbn [mexec].
  { unfold servePoll. destruct (polling.poll _ _) as [[pt' res]|]; [|apply flags_refl].
    by apply flags_same. }
  { destruct (Read (mkST m s) sched) as [[[[t' sg] r] rest]|] eqn:E; [|apply flags_refl].
    by apply (st_read_loop_flags (S (length sched)) (mkST m s) sched t' sg r rest). }
  all: cbn [Write Ping SendClose Close SetReadLimit SetReadDeadline OnPong session_transport];
    match goal with |- context [@on_active ?A ?t ?fp ?fw] =>
      pose proof (@on_active_flags A t fp fw) as Hok;
      destruct (@on_active A t fp fw) as [[t' sg] a]; cbn [fst snd] in *; apply Hok; intros pt end;
    try done.
  cbn. unfold polling.poll_close. destruct (polling.closed pt); [constructor|].
  destruct (close_chan _); constructor; [by left|done|by right|done].
Qed.

Lemma mrun_ok m ops : mwf m -> mvalids m ops -> step_ok m (mrun m ops).
Proof.
  induction ops as [|o ops IH] using rev_ind; intros Hm Hv; [split; [done|apply keeps_refl]|].
  apply mvalids_snoc in Hv as [Hv Ho]. rewrite mrun_snoc. destruct (IH Hm Hv) as [H1 H2].
  destruct (mexec_ok _ o H1 Ho) as [H3 H4]. split; [done|by eapply keeps_trans].
Qed.

Lemma mrun_flags i t p ops sid ps :
  let m := newPollManager i t p in
  mvalids m ops -> sessions (mrun m ops) !! sid = Some ps ->
  (probed ps = true -> Exists (posted probes sid) ops) /\
  (upgradeOK ps = true -> Exists (posted upgrades sid) ops).
Proof.
  intros m. revert ps. induction ops as [|o ops IH] using rev_ind; intros ps Hv.
  - cbn. by intros ?%lookup_empty_Some.
  - apply mvalids_snoc in Hv as [Hv Ho]. rewrite mrun_snoc. intros Hps.
    destruct (mrun_ok m ops (new_mwf i t p) Hv) as [Hw _].
    destruct (mexec_flags _ o Hw sid ps Hps) as [A B].
    split; intros Hf; apply Exists_app.
    + destruct (A Hf) as [Hn|(ps0 & Hps0 & Hf0)]; [right; by constructor|left].
      by apply (IH ps0 Hv).
    + destruct (B Hf) as [Hn|(ps0 & Hps0 & Hf0)]; [right; by constructor|left].
      by apply (IH ps0 Hv).
Qed.

Lemma on_active_ws {A} t fp fw w : active t = CurWebSocket w ->
  @on_active A t fp fw =
  let '(w', sg, a) := fw w in (Swap t (CurWebSocket w'), sg, a).
Proof. unfold on_active. by intros ->. Qed.

(** ** Properties *)

(** C40: an upgrade happens once and for good: after a session has been moved to
    a WebSocket, whatever requests and transport operations follow, it is
    still in the table, its session transport is the WebSocket one, polling
    requests for it are refused and it is never upgraded again. (In particular
    closing its transport does not take it out of the table.) *)
Theorem upgrade_permanent i t p before m sid ws m1 st after :
  mvalids (newPollManager i t p) before -> m = mrun (newPollManager i t p) before ->
  applyUpgrade m sid ws = (m1, Some st) -> mvalids m1 after ->
  let m2 := mrun m1 after in
  is_Some (sessions m2 !! sid) /\ getPolling m2 sid = None /\ readyForUpgrade m2 sid = false /\
  (forall ws', applyUpgrade m2 sid ws' = (m2, None)) /\
  exists w, active (mkST m2 st) = CurWebSocket w.
Proof.
  intros Hv -> Hu Hv'. destruct (mrun_ok _ before (new_mwf i t p) Hv) as [Hm _].
  pose proof (applyUpgrade_ok _ sid ws Hm) as [Hm1 _]. rewrite Hu in Hm1. cbn [fst] in Hm1.
  destruct (applyUpgrade_spec _ _ _ _ _ Hm Hu) as (ps & pt & _ & _ & _ & _ & _ & _ & _ & _ & E).
  destruct (mrun_ok m1 after Hm1 Hv') as [Hm2 Hk].
  destruct (Hk sid (mkPollSession (Session ps) st st true true true)) as (ps2 & Hps2 & Hu2 & Hst2).
  { rewrite E. cbn. by rewrite lookup_insert_eq. }
  { done. }
  cbv zeta. unfold getPolling, readyForUpgrade, applyUpgrade. rewrite Hps2, Hu2.
  rewrite !andb_false_r. split_and!; [by eexists|done|done|done|].
  destruct (so_websocket _ _ _ (mw_sessions _ Hm2 sid ps2 Hps2) Hu2) as [w Hw].
  rewrite Hst2 in Hw. cbn [sessionT] in Hw. exists w. by apply lookup_total_correct.
Qed.

(** C30: a session is only ever upgraded after its client has asked for it: the
    requests so far contain a POST to this session with a probe packet and a
    POST to it with an upgrade packet. *)
Theorem upgrade_needs_probe i t p ops sid ws m1 st :
  mvalids (newPollManager i t p) ops ->
  applyUpgrade (mrun (newPollManager i t p) ops) sid ws = (m1, Some st) ->
  Exists (posted probes sid) ops /\ Exists (posted upgrades sid) ops.
Proof.
  intros Hv Hu. destruct (mrun_ok _ ops (new_mwf i t p) Hv) as [Hm _].
  destruct (applyUpgrade_spec _ _ _ _ _ Hm Hu) as (ps & pt & Hps & _ & Hp & Hk & _).
  destruct (mrun_flags i t p ops sid ps Hv Hps). auto.
Qed.

(** The pumps go on over the WebSocket: the read that was blocked on the
    polling transport is woken up and told to read again, what is written goes
    to the WebSocket as a message packet, and reads come from it; the packets
    that were queued for a poll stay in the old outbox, followed by a noop if
    there is room. *)
Theorem upgrade_hands_over i t p ops sid ws m m1 st :
  mvalids (newPollManager i t p) ops -> m = mrun (newPollManager i t p) ops ->
  applyUpgrade m sid ws = (m1, Some st) -> polling.closed (pts m !!! st) = false ->
  let old := pts m1 !!! st in
  let w := newEIOWebSocketTransport ws in
  (forall sched, exists pt', Read old (WakeUpgrade :: sched) = Some (pt', [], Err errTransportUpgraded, sched)) /\
  (forall d, (Write (mkST m1 st) d).2 = (Write w d).2) /\
  (forall sched w' sg r rest, Read w sched = Some (w', sg, r, rest) -> r <> Err errTransportUpgraded ->
     exists t', Read (mkST m1 st) sched = Some (t', sg, r, rest)) /\
  ch_buf (polling.outbox old) = ch_buf (polling.outbox (pts m !!! st)) ++
    (if (length (ch_buf (polling.outbox (pts m !!! st))) <? 64)%nat
     then [[digit_byte engineio.Noop]] else []).
Proof.
  intros Hv -> Hu Hc. destruct (mrun_ok _ ops (new_mwf i t p) Hv) as [Hm _].
  set (m := mrun _ ops) in *.
  destruct (applyUpgrade_spec _ _ _ _ _ Hm Hu) as (ps & pt & _ & _ & _ & _ & _ & Hpt & Hw & _ & E).
  rewrite (lookup_total_correct _ _ _ Hpt) in *.
  assert (pts m1 !!! st = upgrade_signal pt) as ->.
  { rewrite E. cbn [pts]. apply lookup_total_insert_eq. }
  assert (active (mkST m1 st) = CurWebSocket (newEIOWebSocketTransport ws)) as Ha.
  { rewrite E. unfold active. cbn [st_manager st_self sts]. apply lookup_total_insert_eq. }
  destruct (upgrade_signal_ok pt Hw) as (Hw' & _ & Hc' & Hb). rewrite Hc in Hc'.
  cbv zeta. split_and!.
  - intros sched. eexists. cbn [Read polling.polling_transport]. unfold polling.poll_read, recv.
    rewrite Hc', Hb. done.
  - intros d. cbn [Write session_transport]. rewrite (on_active_ws _ _ _ _ Ha). unfold no_signal.
    by destruct (Write (newEIOWebSocketTransport ws) d).
  - intros sched w' sg r rest Hr Hne. cbn [Read session_transport st_read_loop].
    unfold st_read_once. rewrite Ha, Hr. destruct r as [d|[]]; done || by eexists.
  - unfold upgrade_signal. cbn [polling.signalUpgrade polling.set_upgrade polling.outbox].
    destruct (polling.send_packet_spec pt (engineio.mkPacket engineio.Noop []) Hw Hc eq_refl)
      as (_ & _ & _ & Hs).
    destruct (_ <? 64)%nat; [by destruct Hs as (_ & -> & _)|]. rewrite Hs. by rewrite app_nil_r.
Qed.

End manager.

(** ** Witnesses *)

Definition demo_ws : nativeTransport := mkNative (nativews.mkConn [] [] None 0 false []) 0 false.
Definition demo_env : Env (R := nativeTransport) :=
  mkEnv false "s1" 0 polling.PickTimer (Some demo_ws).
Definition demo_post (body : bytes) : mop (R := nativeTransport) :=
  MRequest (mkRequest "4" "polling" "s1" "POST" body) demo_env.
(** A handshake, the probe, a message, and the upgrade packet. *)
Definition demo_before : list (mop (R := nativeTransport)) :=
  [MRequest (mkRequest "4" "polling" "" "GET" []) demo_env;
   demo_post (bs "2probe"); MWrite 0%nat (bs "hi"); demo_post (bs "5")].
Definition demo_manager := mrun (newPollManager 25 20 100) demo_before.
Definition demo_upgraded := (applyUpgrade demo_manager "s1" demo_ws).1.
Definition demo_after : list (mop (R := nativeTransport)) := [demo_post (bs "4x"); MClose 0%nat].

Lemma demo_valid : mvalids (newPollManager 25 20 100) demo_before.
Proof.
  cbn [mvalids demo_before mvalid demo_post].
  split; [by cbn [newPollManager pts]; intros _ p pt ?%lookup_empty_Some|].
  split; [intros Hs; cbn in Hs; discriminate Hs|]. split; [|by split]. apply (bool_decide_unpack _). by vm_compute.
Qed.
Lemma demo_upgrade :
  applyUpgrade demo_manager "s1" demo_ws = (demo_upgraded, Some 0%nat).
Proof. by vm_compute. Qed.
Lemma demo_after_valid : mvalids demo_upgraded demo_after.
Proof.
  cbn [mvalids demo_after mvalid demo_post]. split; [intros Hs; cbn in Hs; discriminate Hs|]. split; [|done].
  apply (bool_decide_unpack _). by vm_compute.
Qed.

Lemma upgrade_permanent_witness :
  let m2 := mrun demo_upgraded demo_after in
  is_Some (sessions m2 !! "s1"%string) /\ getPolling m2 "s1" = None /\
  readyForUpgrade m2 "s1" = false /\
  (forall ws', applyUpgrade m2 "s1" ws' = (m2, None)) /\
  exists w, active (mkST m2 0%nat) = CurWebSocket w.
Proof.
  exact (upgrade_permanent 25 20 100 demo_before demo_manager "s1" demo_ws demo_upgraded 0%nat
           demo_after demo_valid eq_refl demo_upgrade demo_after_valid).
Defined.

Lemma upgrade_needs_probe_witness :
  Exists (posted probes "s1") demo_before /\ Exists (posted upgrades "s1") demo_before.
Proof.
  exact (upgrade_needs_probe 25 20 100 demo_before "s1" demo_ws demo_upgraded 0%nat demo_valid demo_upgrade).
Defined.

Lemma upgrade_hands_over_witness :
  ch_buf (polling.outbox (pts demo_upgraded !!! 0%nat)) =
    ch_buf (polling.outbox (pts demo_manager !!! 0%nat)) ++ [[digit_byte engineio.Noop]].
Proof.
  assert (polling.closed (pts demo_manager !!! 0%nat) = false) as Hc by by vm_compute.
  destruct (upgrade_hands_over 25 20 100 demo_before "s1" demo_ws demo_manager demo_upgraded 0%nat
              demo_valid eq_refl demo_upgrade Hc) as (_ & _ & _ & Hbuf).
  exact Hbuf.
Defined.

End manager.
