(* ===== verification/Pumps.v ===== *)
(** * The pumps of a connection ([internal/client.go], [ReadPump] and [WritePump])

    One connection: its client object, its transport, and what its two pumps
    have done so far. A pump is a loop around a blocking call, so one turn of
    its loop is a step, interleaved with the steps of the other pump and with
    the sends and shutdowns of other goroutines. A pump whose call blocks, or
    that has ended, makes a step that changes nothing; [None] is a panic, which
    no pump recovers from: the process dies. [retire], which the read pump
    runs when it ends, works on the session store and is in [Server.v]. *)
From S2P Require Import Prelude.
From S2P Require Import GoStd.
From S2P Require Import Client.
From S2P Require Import Hash.
From S2P Require Import EngineIO.
From S2P Require Import NativeWS.
From S2P Require Import Transport.
From S2P Require Import Polling.

Module pumps.
Import client transport.

Section pumps.
Context {T : Type} `{Transport T}.

(** [received] lists the calls of [onMessage]; [seen] and [written] record
    what the transport answered: the handlers it called and the result, for
    each read, and the frames it took. *)
Record Conn := mkConn {
  transport : T;
  self : Client;
  reading : bool;
  writing : bool;
  received : list bytes;
  heartbeats : nat;                (* calls of onHeartbeatTimeout *)
  dones : nat;                     (* calls of onDone *)
  seen : list (list signal * result terror bytes);
  written : list bytes
}.

Definition set_transport (p : Conn) (t : T) : Conn :=
  mkConn t (self p) (reading p) (writing p) (received p) (heartbeats p) (dones p) (seen p) (written p).
Definition set_self (p : Conn) (c : Client) : Conn :=
  mkConn (transport p) c (reading p) (writing p) (received p) (heartbeats p) (dones p) (seen p) (written p).
Definition set_deadline (p : Conn) (now : Z) : Conn :=
  set_transport p (SetReadDeadline (transport p) (now + pongWait (self p))).

(** [closeRaw]: the transport first, then the queue, once. *)
Definition pump_closeRaw (p : Conn) : option Conn :=
  c ← closeRaw (self p);
  if shutdownDone (self p) then Some p
  else
    let '(t, sg) := Close (transport p) in
    if bool_decide (SigPanic ∈ sg) then None else Some (set_self (set_transport p t) c).

(** ** The read pump *)

(** What [ReadPump] does before its loop. *)
Definition read_start (now : Z) (p : Conn) : Conn :=
  let p := set_transport p (SetReadLimit (transport p) (maxMessageSize (self p))) in
  let p := set_deadline p now in
  set_transport p (OnPong (transport p)).

(** The handler it registers. *)
Definition on_pong (now : Z) (p : Conn) : Conn :=
  let p := set_deadline p now in set_self p (set_missedPongs (self p) 0).
Definition on_signals (now : Z) (p : Conn) (sg : list signal) : Conn :=
  fold_left (fun p s => match s with SigPong => on_pong now p | _ => p end) sg p.

(** The deferred calls (but [retire]). *)
Definition read_exit (beat : bool) (p : Conn) : option Conn :=
  p ← pump_closeRaw p;
  Some (mkConn (transport p) (self p) false (writing p) (received p)
          (heartbeats p + (if beat then 1 else 0)) (S (dones p)) (seen p) (written p)).

(** One turn of the loop. *)
Definition read_step (now : Z) (p : Conn) (sched : list wakeup) : option Conn :=
  if negb (reading p) then Some p
  else match Read (transport p) sched with
  | None => Some p
  | Some (t, sg, r, _) =>
      if bool_decide (SigPanic ∈ sg) || panicked r then None
      else
      let p := on_signals now (set_transport p t) sg in
      let p := mkConn (transport p) (self p) (reading p) (writing p) (received p) (heartbeats p)
                 (dones p) (seen p ++ [(sg, r)]) (written p) in
      match r with
      | Err ErrTimeout =>
          let '(c, zombie) := IncrementMissedPongs (self p) in
          let p := set_self p c in
          if zombie then read_exit true p else Some (set_deadline p now)
      | Err _ => read_exit false p
      | Ok message =>
          let p := set_deadline p now in
          let c := recordMessageReceived (recordBytesReceived (self p) (len message) now) in
          Some (mkConn (transport p) c (reading p) (writing p) (received p ++ [message])
                  (heartbeats p) (dones p) (seen p) (written p))
      end
  end.

(** ** The write pump *)

Inductive write_case := PickFrame | PickTick.

(** [defer c.writeCloseFrame()] *)
Definition write_exit (p : Conn) : option Conn :=
  let '(t, r) := SendClose (transport p) in
  if panicked r then None
  else Some (mkConn t (self p) (reading p) false (received p) (heartbeats p) (dones p) (seen p)
               (written p)).

Definition write_frame (now : Z) (p : Conn) (msg : bytes) : option Conn :=
  let '(t, r) := Write (transport p) msg in
  if panicked r then None
  else match r with
  | Err _ => write_exit (set_transport p t)
  | Ok _ =>
      Some (mkConn t (recordMessageSent (recordBytesSent (self p) (len msg) now)) (reading p) (writing p)
              (received p) (heartbeats p) (dones p) (seen p) (written p ++ [msg]))
  end.

Definition write_ping (p : Conn) : option Conn :=
  let '(t, r) := Ping (transport p) in
  if panicked r then None
  else match r with Err _ => write_exit (set_transport p t) | Ok _ => Some (set_transport p t) end.

(** One turn: a frame of the pre-queue while there is one, then the case the
    [select] picked; a case that is not ready blocks. *)
Definition write_step (now : Z) (p : Conn) (pick : write_case) : option Conn :=
  if negb (writing p) then Some p
  else match replay (self p), pick with
  | [], PickTick => write_ping p
  | _ :: _, PickTick => Some p
  | _, PickFrame =>
      match next_frame (self p) with
      | Some (msg, c) => write_frame now (set_self p c) msg
      | None => if ch_closed (send (self p)) then write_exit p else Some p
      end
  end.

(** ** Interleavings *)

Inductive pump_op :=
  | OpRead (now : Z) (w : wakeup) (sched : list wakeup)
  | OpWrite (now : Z) (pick : write_case)
  | OpEnqueue (frame : bytes)          (* a send by another goroutine *)
  | OpShutdown.                        (* a disconnect by another goroutine *)

(** The connection after the step and the frame the queue accepted. *)
Definition pump_exec (p : Conn) (o : pump_op) : option (Conn * list bytes) :=
  match o with
  | OpRead now w sched => p ← read_step now p (w :: sched); Some (p, [])
  | OpWrite now pick => p ← write_step now p pick; Some (p, [])
  | OpEnqueue f =>
      let '(c, r) := enqueue (self p) f in
      Some (set_self p c, match r with enqOK => [f] | _ => [] end)
  | OpShutdown => p ← pump_closeRaw p; Some (p, [])
  end.

Fixpoint pump_run (p : Conn) (ops : list pump_op) : option (Conn * list bytes) :=
  match ops with
  | [] => Some (p, [])
  | o :: ops' =>
      '(p, l) ← pump_exec p o; '(p, l') ← pump_run p ops'; Some (p, l ++ l')
  end.

Lemma pump_run_app p a b :
  pump_run p (a ++ b) = '(q, l) ← pump_run p a; '(q', l') ← pump_run q b; Some (q', l ++ l').
Proof.
  revert p. induction a as [|o a IH]; intros p; cbn [app pump_run mbind option_bind].
  - by destruct (pump_run p b) as [[q l]|].
  - destruct (pump_exec p o) as [[p1 l1]|]; [|done]. cbn [mbind option_bind]. rewrite IH.
    destruct (pump_run p1 a) as [[p2 l2]|]; [|done]. cbn [mbind option_bind].
    destruct (pump_run p2 b) as [[p3 l3]|]; [|done]. cbn [mbind option_bind]. by rewrite app_assoc.
Qed.

(** A connection whose pumps are about to start. *)
Definition start (t : T) (c : Client) : Conn := mkConn t c true true [] 0 0 [] [].

(** ** What each step does to a client *)

(** The fields the pumps read and write, apart from counters and times. *)
Definition same_queue (c c' : Client) : Prop :=
  send c' = send c /\ replay c' = replay c /\ shutdownDone c' = shutdownDone c /\
  transportClosed c' = transportClosed c.

Lemma same_queue_wf c c' : same_queue c c' -> wf c -> wf c'.
Proof. intros (E1 & E2 & E3 & E4) [H1 H2 H3]. constructor; congruence. Qed.

Lemma same_queue_unwritten c c' : same_queue c c' -> unwritten c' = unwritten c.
Proof. intros (E1 & E2 & _). unfold unwritten. congruence. Qed.

Lemma on_signals_keep now p sg :
  let p' := on_signals now p sg in
  same_queue (self p) (self p') /\ reading p' = reading p /\ writing p' = writing p /\
  received p' = received p /\ heartbeats p' = heartbeats p /\ dones p' = dones p /\
  seen p' = seen p /\ written p' = written p /\
  missedPongs (self p') = (if decide (SigPong ∈ sg) then 0 else missedPongs (self p)) /\
  messagesRcvd (self p') = messagesRcvd (self p) /\ bytesReceived (self p') = bytesReceived (self p).
Proof.
  unfold on_signals. revert p. induction sg as [|s sg IH]; intros p; cbn [fold_left].
  - rewrite decide_False by apply not_elem_of_nil. by split_and!.
  - destruct (IH (match s with SigPong => on_pong now p | _ => p end))
      as (E1 & E2 & E3 & E4 & E5 & E6 & E7 & E8 & E9 & E10 & E11). cbv zeta.
    rewrite E2, E3, E4, E5, E6, E7, E8, E9, E10, E11.
    destruct (decide (SigPong ∈ sg)) as [Hin|Hin].
    + rewrite (decide_True (P := SigPong ∈ s :: sg)) by by right. by destruct s.
    + destruct s; [rewrite decide_True by left|rewrite decide_False by set_solver..]; by split_and!.
Qed.

(** ** The state of a connection, from what its transport answered *)

(** Timeouts since the last pong. *)
Definition missed_step (n : Z) (r : list signal * result terror bytes) : Z :=
  let n := if decide (SigPong ∈ r.1) then 0 else n in
  match r.2 with Err ErrTimeout => n + 1 | _ => n end.
Definition missed (l : list (list signal * result terror bytes)) : Z := fold_left missed_step l 0.

Definition payloads (l : list (list signal * result terror bytes)) : list bytes :=
  omap (fun r => match r.2 with Ok d => Some d | Err _ => None end) l.

(** [frames] were waiting when the pumps started; [accepted] were queued since. *)
Record pinv (frames accepted : list bytes) (p : Conn) : Prop := {
  pi_wf : wf (self p);
  pi_order : exists lost, frames ++ accepted = written p ++ lost ++ unwritten (self p) /\
    (length lost <= 1)%nat /\ (writing p = true -> lost = []);
  pi_received : received p = payloads (seen p);
  pi_missed : missedPongs (self p) = missed (seen p) /\ 0 <= missed (seen p) <= 3;
  pi_reading : reading p = true -> missed (seen p) < 3;
  pi_heartbeats : heartbeats p = (if decide (missed (seen p) = 3%Z) then 1 else 0)%nat;
  pi_dones : dones p = (if reading p then 0 else 1)%nat
}.

Ltac conn_fields :=
  cbn [transport self reading writing received heartbeats dones seen written set_transport
       set_self start] in *.

Lemma missed_snoc l r : missed (l ++ [r]) = missed_step (missed l) r.
Proof. unfold missed. by rewrite fold_left_app. Qed.

Lemma payloads_snoc l r : payloads (l ++ [r]) = payloads l ++ payloads [r].
Proof. apply omap_app. Qed.

Lemma closeRaw_keeps (c c' : Client) : closeRaw c = Some c' -> wf c ->
  wf c' /\ unwritten c' = unwritten c /\ missedPongs c' = missedPongs c.
Proof.
  intros Hc Hw. destruct (closeRaw_wf c Hw) as (c2 & Hc2 & Hw2 & _ & Hb & _ & Hr & _).
  assert (c2 = c') as <- by congruence. split; [done|]. split; [unfold unwritten; congruence|].
  unfold closeRaw in Hc2. destruct (shutdownDone c); [by injection Hc2 as <-|].
  destruct (close_chan _); [|done]. by injection Hc2 as <-.
Qed.

Lemma pump_closeRaw_inv frames acc p p' : pinv frames acc p -> pump_closeRaw p = Some p' ->
  pinv frames acc p' /\ reading p' = reading p /\ shutdownDone (self p') = true /\ seen p' = seen p.
Proof.
  intros [H1 H2 H3 H4 H5 H6 H7]. destruct (closeRaw_wf (self p) H1) as (c & Hc & _ & Hd & _).
  destruct (closeRaw_keeps _ _ Hc H1) as (Hw & Hu & Hm).
  unfold pump_closeRaw. rewrite Hc. cbn [mbind option_bind].
  destruct (shutdownDone (self p)) eqn:E; [intros [= <-]; by split; [constructor|]|].
  destruct (Close (transport p)) as [t sg]. destruct (bool_decide _); [done|]. intros [= <-].
  split; [|done]. constructor; conn_fields; [done| |done| |done|done|done]; by rewrite ?Hu, ?Hm.
Qed.

Lemma read_exit_inv frames acc (beat : bool) p p' : pinv frames acc (mkConn (transport p) (self p) false (writing p)
    (received p) (heartbeats p + (if beat then 1 else 0)) (S (dones p)) (seen p) (written p)) ->
  read_exit beat p = Some p' -> pinv frames acc p' /\ reading p' = false /\ seen p' = seen p.
Proof.
  intros Hi Hp. set (q := mkConn _ _ _ _ _ _ _ _ _) in Hi.
  enough (pump_closeRaw q = Some p') as Hq.
  { destruct (pump_closeRaw_inv _ _ _ _ Hi Hq) as (Hi' & Hr & _ & Hs). by split_and!. }
  unfold read_exit in Hp. unfold pump_closeRaw in *. subst q. conn_fields.
  destruct (closeRaw (self p)) as [c|]; [|done]. cbn [mbind option_bind] in *.
  destruct (shutdownDone (self p)); [exact Hp|]. destruct (Close (transport p)) as [t sg].
  destruct (bool_decide _); [done|]. exact Hp.
Qed.

Lemma set_deadline_inv frames acc now p : pinv frames acc p -> pinv frames acc (set_deadline p now).
Proof. by intros []; constructor. Qed.

Lemma missed_step_bounds n r : 0 <= n < 3 -> 0 <= missed_step n r <= 3.
Proof.
  intros Hn. unfold missed_step. destruct (decide _), r.2 as [d|[]]; lia.
Qed.

Lemma counters_inv frames acc p c : pinv frames acc p -> same_queue (self p) c ->
  missedPongs c = missedPongs (self p) -> pinv frames acc (set_self p c).
Proof.
  intros [H1 H2 H3 H4 H5 H6 H7] Hq Hm. constructor; conn_fields; [by eapply same_queue_wf| |done| |done..].
  - by rewrite (same_queue_unwritten _ _ Hq).
  - by rewrite Hm.
Qed.

(** The missed pongs after a read: a pong received in it clears them, a
timeout then counts one. *)
Lemma missed_turn l sg r n : missed l = n ->
  missed (l ++ [(sg, r)]) =
  (if decide (SigPong ∈ sg) then 0 else n) + match r with Err ErrTimeout => 1 | _ => 0 end.
Proof.
  intros <-. rewrite missed_snoc. unfold missed_step. cbn [fst snd].
  destruct r as [|[]]; lia.
Qed.

(** What a turn of the read loop may leave behind. *)
Lemma turn_inv frames acc p sg r t c (b : bool) m : pinv frames acc p -> reading p = true ->
  same_queue (self p) c -> missedPongs c = missed (seen p ++ [(sg, r)]) ->
  (b = true -> missed (seen p ++ [(sg, r)]) < 3) -> m = payloads [(sg, r)] ->
  pinv frames acc (mkConn t c b (writing p) (received p ++ m)
    (if decide (missed (seen p ++ [(sg, r)]) = 3%Z) then 1 else 0)%nat
    (if b then 0 else 1)%nat (seen p ++ [(sg, r)]) (written p)).
Proof.
  intros [H1 (lost & H2 & H2') H3 [H4 H4'] H5 H6 H7] Hr Hq Hc Hb ->. specialize (H5 Hr).
  constructor; conn_fields; [by eapply same_queue_wf| | | |done..].
  - exists lost. by rewrite (same_queue_unwritten _ _ Hq).
  - by rewrite H3, payloads_snoc.
  - split; [done|]. rewrite missed_snoc. apply missed_step_bounds. lia.
Qed.

(** A turn of the read loop that reads something. *)
Lemma read_turn_inv frames acc now p p' sched t sg r rest : pinv frames acc p -> reading p = true ->
  Read (transport p) sched = Some (t, sg, r, rest) -> read_step now p sched = Some p' ->
  pinv frames acc p' /\ seen p' = seen p ++ [(sg, r)].
Proof.
  intros Hi Hr HR. unfold read_step. rewrite Hr, HR. cbn [negb].
  destruct (_ || _); [done|].
  destruct (on_signals_keep now (set_transport p t) sg)
    as (E1 & E2 & E3 & E4 & E5 & E6 & E7 & E8 & E9 & _ & _).
  set (p1 := on_signals now (set_transport p t) sg) in *. conn_fields.
  pose proof Hi as [_ _ _ [H4 H4'] H5 H6 H7]. specialize (H5 Hr). rewrite Hr in H7.
  pose proof (missed_turn (seen p) sg r _ (eq_sym H4)) as Hm.
  set (n := if decide (SigPong ∈ sg) then 0 else missedPongs (self p)) in *.
  assert (0 <= n < 3) as Hn by (unfold n; destruct (decide (SigPong ∈ sg)); lia).
  assert (heartbeats p = 0%nat) as Hb by (rewrite H6, decide_False by lia; done).
  assert (forall e (beat : bool) c, r = Err e -> same_queue (self p) c ->
    missedPongs c = missed (seen p ++ [(sg, r)]) ->
    (if beat then 1 else 0)%nat = (if decide (missed (seen p ++ [(sg, r)]) = 3%Z) then 1 else 0)%nat ->
    read_exit beat (mkConn (transport p1) c (reading p1) (writing p1) (received p1)
      (heartbeats p1) (dones p1) (seen p1 ++ [(sg, r)]) (written p1)) = Some p' ->
      pinv frames acc p' /\ seen p' = seen p ++ [(sg, r)]) as Hexit.
  { intros e beat c -> Hq Hc Hbt.
    pose proof (turn_inv frames acc p sg _ (transport p1) c false [] Hi Hr Hq Hc ltac:(done) eq_refl) as Ht.
    intros Hp'. apply (read_exit_inv frames acc) in Hp' as (Hi' & _ & Hs').
    - split; [done|]. by rewrite Hs'; cbn; rewrite E7.
    - conn_fields. rewrite E3, E4, E5, E6, E7, E8, Hb, H7, Hbt. by rewrite app_nil_r in Ht. }
  assert (forall c m, same_queue (self p) c -> missedPongs c = missed (seen p ++ [(sg, r)]) ->
    missed (seen p ++ [(sg, r)]) < 3 -> m = payloads [(sg, r)] -> forall t',
    pinv frames acc (mkConn t' c (reading p1) (writing p1) (received p1 ++ m) (heartbeats p1)
      (dones p1) (seen p1 ++ [(sg, r)]) (written p1))) as Hstay.
  { intros c m Hq Hc Hlt Hp t'. pose proof (turn_inv frames acc p sg r t' c true m Hi Hr Hq Hc ltac:(done) Hp) as Ht.
    rewrite decide_False in Ht by lia. by rewrite E2, E3, E4, E5, E6, E7, E8, Hr, Hb, H7. }
  destruct r as [msg|e].
  - intros [= <-]. cbn [seen]. rewrite E7. split; [|done].
    rewrite <- E7. unfold set_deadline. conn_fields.
    apply Hstay; [exact E1|cbn; rewrite E9; lia|lia|done].
  - destruct e; try (apply (Hexit _ false _ eq_refl); [done|rewrite E9; lia|];
      by rewrite decide_False by lia).
    unfold IncrementMissedPongs. cbn [self]. rewrite E9.
    assert (i32 (n + 1) = n + 1) as -> by (unfold i32; rewrite Z.mod_small; lia).
    destruct (Z.ltb_spec 2 (n + 1)).
    + apply (Hexit _ true _ eq_refl); [done|by rewrite Hm|by rewrite decide_True by lia].
    + intros [= <-]. split; [|by cbn; rewrite E7]. apply set_deadline_inv.
      conn_fields. rewrite <- (app_nil_r (received p1)).
      apply Hstay; [done|by rewrite Hm|lia|done].
Qed.

Lemma read_step_inv frames acc now p p' sched : pinv frames acc p ->
  read_step now p sched = Some p' -> pinv frames acc p'.
Proof.
  intros Hi Hp. destruct (reading p) eqn:Hr; [|unfold read_step in Hp; rewrite Hr in Hp; by injection Hp as <-].
  destruct (Read (transport p) sched) as [[[[t sg] r] rest]|] eqn:HR.
  - by apply (read_turn_inv _ _ _ _ _ _ _ _ _ _ Hi Hr HR Hp).
  - unfold read_step in Hp. rewrite Hr, HR in Hp. by injection Hp as <-.
Qed.

(** A turn of the write loop. *)
Lemma write_exit_inv frames acc p p' : pinv frames acc p -> write_exit p = Some p' -> pinv frames acc p'.
Proof.
  intros [H1 (lost & H2 & H2' & _) H3 H4 H5 H6 H7]. unfold write_exit.
  destruct (SendClose _) as [t r]. destruct (panicked r); [done|]. intros [= <-].
  constructor; conn_fields; [done| |done..]. by exists lost.
Qed.

Lemma set_transport_inv frames acc p t : pinv frames acc p -> pinv frames acc (set_transport p t).
Proof. by intros []; constructor. Qed.

Lemma next_frame_keeps c msg c' : next_frame c = Some (msg, c') ->
  missedPongs c' = missedPongs c /\ shutdownDone c' = shutdownDone c.
Proof.
  unfold next_frame. destruct (replay c); [|by intros [= _ <-]]. destruct (recv _); [by intros [= _ <-]|done..].
Qed.

Lemma write_frame_inv frames acc now p c msg p' : pinv frames acc p -> writing p = true ->
  next_frame (self p) = Some (msg, c) -> write_frame now (set_self p c) msg = Some p' ->
  pinv frames acc p'.
Proof.
  intros [H1 (lost & H2 & H2' & H2'') H3 H4 H5 H6 H7] Hw Hn. rewrite (H2'' Hw) in H2.
  destruct (next_frame_unwritten _ _ _ Hn) as [Hu _]. destruct (next_frame_keeps _ _ _ Hn) as [Hmp _].
  assert (wf c) as Hwc by by eapply next_frame_wf.
  unfold write_frame. conn_fields.
  destruct (Write (transport p) msg) as [t r]. destruct (panicked r); [done|]. destruct r as [u|e].
  - intros [= <-]. constructor; conn_fields; [by destruct Hwc; constructor| |done| |done|done|done].
    + exists []. rewrite H2, Hu. cbn. rewrite <- app_assoc. split_and!; [done|lia|done].
    + split; [exact (eq_trans Hmp (proj1 H4))|apply H4].
  - unfold write_exit. conn_fields. destruct (SendClose t) as [t' r]. destruct (panicked r); [done|].
    intros [= <-]. constructor; conn_fields; [done| |done| |done|done|done].
    + exists [msg]. rewrite H2, Hu. split_and!; [done|done|done].
    + split; [exact (eq_trans Hmp (proj1 H4))|apply H4].
Qed.

Lemma write_step_inv frames acc now p pick p' : pinv frames acc p ->
  write_step now p pick = Some p' -> pinv frames acc p'.
Proof.
  intros Hi. unfold write_step. destruct (writing p) eqn:Hw; [|by intros [= <-]]. cbn [negb].
  assert (match next_frame (self p) with
    | Some (msg, c) => write_frame now (set_self p c) msg
    | None => if ch_closed (send (self p)) then write_exit p else Some p end = Some p' ->
    pinv frames acc p') as Hframe.
  { destruct (next_frame (self p)) as [[msg c]|] eqn:Hn; [by apply write_frame_inv|].
    destruct (ch_closed _); [by apply write_exit_inv|by intros [= <-]]. }
  destruct (replay (self p)), pick; [exact Hframe| |exact Hframe|by intros [= <-]].
  unfold write_ping. destruct (Ping (transport p)) as [t r]. destruct (panicked r); [done|].
  destruct r as [u|e]; [intros [= <-]|apply write_exit_inv]; by apply set_transport_inv.
Qed.

Lemma pump_exec_inv frames acc p o p' l : pinv frames acc p -> pump_exec p o = Some (p', l) ->
  pinv frames (acc ++ l) p'.
Proof.
  intros Hi. destruct o as [now w sched|now pick|f|]; cbn [pump_exec].
  - destruct (read_step now p (w :: sched)) eqn:E; [|done]. intros [= <- <-]. rewrite app_nil_r.
    by apply (read_step_inv _ _ _ _ _ _ Hi E).
  - destruct (write_step now p pick) eqn:E; [|done]. intros [= <- <-]. rewrite app_nil_r.
    by apply (write_step_inv _ _ _ _ _ _ Hi E).
  - destruct Hi as [H1 (lost & H2 & H2') H3 H4 H5 H6 H7].
    pose proof (enqueue_wf (self p) f H1) as Hw. pose proof (enqueue_replay (self p) f) as Hr.
    pose proof (enqueue_buf (self p) f) as Hb.
    assert (missedPongs (enqueue (self p) f).1 = missedPongs (self p)) as Hm.
    { unfold enqueue. by destruct (try_send _ _). }
    destruct (enqueue (self p) f) as [c r]. cbn [fst snd] in *. intros [= <- <-].
    constructor; conn_fields; [done| |done|by rewrite Hm|done..]. exists lost. split; [|done].
    unfold unwritten in *. rewrite Hr, Hb, app_assoc, H2, <- !app_assoc. done.
  - destruct (pump_closeRaw p) eqn:E; [|done]. intros [= <- <-]. rewrite app_nil_r.
    by apply (pump_closeRaw_inv _ _ _ _ Hi E).
Qed.

Lemma pump_run_inv frames acc p ops p' l : pinv frames acc p -> pump_run p ops = Some (p', l) ->
  pinv frames (acc ++ l) p'.
Proof.
  revert acc p l. induction ops as [|o ops IH]; intros acc p l Hi; cbn [pump_run].
  - intros [= <- <-]. by rewrite app_nil_r.
  - destruct (pump_exec p o) as [[p1 l1]|] eqn:E1; [|done]. cbn [mbind option_bind].
    destruct (pump_run p1 ops) as [[p2 l2]|] eqn:E2; [|done]. intros [= <- <-].
    rewrite app_assoc. apply (IH _ p1); [by eapply pump_exec_inv|done].
Qed.

Lemma start_inv t c : wf c -> missedPongs c = 0 -> pinv (unwritten c) [] (start t c).
Proof.
  intros Hw Hm. constructor; conn_fields; [done| |done|done|done|done|done].
  exists []. rewrite app_nil_r. split; [done|]. split; [simpl; lia|done].
Qed.

(** ** Panics *)

(** The read pump's next turn reads a panic. *)
Definition read_panics (p : Conn) (sched : list wakeup) : Prop :=
  reading p = true /\ exists t sg rest, Read (transport p) sched = Some (t, sg, Err RuntimePanic, rest).

(** The process dies of a turn of the read pump. *)
Definition dies (p : Conn) (ops : list pump_op) : Prop :=
  exists before now w sched after q acc, ops = before ++ OpRead now w sched :: after /\
    pump_run p before = Some (q, acc) /\ read_panics q (w :: sched).

(** The read turns of a run. *)
Definition is_read (o : pump_op) : bool := match o with OpRead _ _ _ => true | _ => false end.
Definition read_turns (ops : list pump_op) : nat := length (filter is_read ops).

Section safety.
Context `{!SafeTransport T}.

Lemma pump_closeRaw_safe p : wf (self p) -> safe (transport p) ->
  exists p', pump_closeRaw p = Some p' /\ safe (transport p').
Proof.
  intros Hw Hs. destruct (closeRaw_wf (self p) Hw) as (c & Hc & _).
  unfold pump_closeRaw. rewrite Hc. cbn [mbind option_bind].
  destruct (shutdownDone (self p)); [by eexists|].
  destruct (safe_close (transport p) Hs) as [Hs' Hp]. destruct (Close (transport p)) as [t sg].
  rewrite bool_decide_eq_false_2 by done. by eexists.
Qed.

Lemma read_exit_safe beat p : wf (self p) -> safe (transport p) ->
  exists p', read_exit beat p = Some p' /\ safe (transport p').
Proof.
  intros Hw Hs. unfold read_exit. destruct (pump_closeRaw_safe p Hw Hs) as (q & -> & Hq). by eexists.
Qed.

Lemma on_signals_safe now p sg : safe (transport p) -> safe (transport (on_signals now p sg)).
Proof.
  unfold on_signals. revert p. induction sg as [|s sg IH]; intros p Hs; [done|]. cbn [fold_left].
  apply IH. destruct s; [by apply safe_deadline|done..].
Qed.

(** A turn of the read pump, unless the transport reports a panic. *)
Lemma read_step_safe now p sched : wf (self p) -> safe (transport p) ->
  match read_step now p sched with
  | Some p' => safe (transport p')
  | None => read_panics p sched
  end.
Proof.
  intros Hw Hs. unfold read_step, read_panics. destruct (reading p); [|done]. cbn [negb].
  destruct (Read (transport p) sched) as [[[[t sg] r] rest]|] eqn:HR; [|done].
  destruct (safe_read _ _ _ _ _ _ Hs HR) as [Hst Hsg]. rewrite bool_decide_eq_false_2 by done.
  cbn [orb]. destruct (panicked r) eqn:Hr; [split; [done|]; exists t, sg, rest; by destruct r as [|[]]|].
  apply (on_signals_safe now (set_transport p t) sg) in Hst.
  destruct (on_signals_keep now (set_transport p t) sg) as (Hq & _).
  set (p1 := on_signals now (set_transport p t) sg) in *. conn_fields.
  assert (wf (self p1)) as Hw1 by by eapply same_queue_wf.
  assert (forall beat c, wf c -> is_Some (read_exit beat (mkConn (transport p1) c (reading p1) (writing p1)
      (received p1) (heartbeats p1) (dones p1) (seen p1 ++ [(sg, r)]) (written p1))) /\
    forall q, read_exit beat (mkConn (transport p1) c (reading p1) (writing p1)
      (received p1) (heartbeats p1) (dones p1) (seen p1 ++ [(sg, r)]) (written p1)) = Some q ->
      safe (transport q)) as Hexit.
  { intros beat c Hc. edestruct (read_exit_safe beat) as (q & -> & Hq'); [exact Hc|exact Hst|].
    split; [done|]. by intros q' [= <-]. }
  destruct r as [msg|e]; [by apply safe_deadline|].
  destruct e; try done; try (destruct (Hexit false (self p1) Hw1) as [[q ->] H']; by apply H').
  unfold IncrementMissedPongs. destruct (_ <? _); [|by apply safe_deadline].
  unfold set_self. conn_fields.
  destruct (Hexit true (set_missedPongs (self p1) (i32 (missedPongs (self p1) + 1)))) as [[q Hq'] H'];
    [by destruct Hw1; constructor|]. rewrite Hq'. by apply H'.
Qed.

Lemma write_exit_safe p : safe (transport p) ->
  exists p', write_exit p = Some p' /\ safe (transport p').
Proof.
  intros Hs. unfold write_exit. destruct (safe_sendClose _ Hs) as [Hs' Hp].
  destruct (SendClose (transport p)) as [t r]. cbn [fst snd] in *. rewrite Hp. by eexists.
Qed.

Lemma write_frame_safe now p msg : safe (transport p) ->
  exists p', write_frame now p msg = Some p' /\ safe (transport p').
Proof.
  intros Hs. unfold write_frame. destruct (safe_write (transport p) msg Hs) as [Hs' Hp].
  destruct (Write (transport p) msg) as [t [u|e]]; cbn [fst snd] in *; rewrite Hp; [by eexists|].
  by apply write_exit_safe.
Qed.

Lemma write_step_safe now p pick : safe (transport p) ->
  exists p', write_step now p pick = Some p' /\ safe (transport p').
Proof.
  intros Hs. unfold write_step. destruct (writing p); [|by eexists]. cbn [negb].
  assert (exists p', match next_frame (self p) with
    | Some (msg, c) => write_frame now (set_self p c) msg
    | None => if ch_closed (send (self p)) then write_exit p else Some p end = Some p' /\
    safe (transport p')) as Hframe.
  { destruct (next_frame (self p)) as [[msg c]|]; [by apply write_frame_safe|].
    destruct (ch_closed _); [by apply write_exit_safe|by eexists]. }
  destruct (replay (self p)), pick; [exact Hframe| |exact Hframe|by eexists].
  unfold write_ping. destruct (safe_ping (transport p) Hs) as [Hs' Hp].
  destruct (Ping (transport p)) as [t [u|e]]; cbn [fst snd] in *; rewrite Hp; [by eexists|].
  by apply write_exit_safe.
Qed.

Lemma pump_exec_safe p o : wf (self p) -> safe (transport p) ->
  match pump_exec p o with
  | Some (p', _) => safe (transport p')
  | None => exists now w sched, o = OpRead now w sched /\ read_panics p (w :: sched)
  end.
Proof.
  intros Hw Hs. destruct o as [now w sched|now pick|f|]; cbn [pump_exec].
  - pose proof (read_step_safe now p (w :: sched) Hw Hs) as H'.
    destruct (read_step now p (w :: sched)); [done|]. by exists now, w, sched.
  - by destruct (write_step_safe now p pick Hs) as (q & -> & Hq).
  - by destruct (enqueue (self p) f) as [c r].
  - by destruct (pump_closeRaw_safe p Hw Hs) as (q & -> & Hq).
Qed.

(** A run panics in no other way than at a read. *)
Lemma pump_run_safe frames acc p ops : pinv frames acc p -> safe (transport p) ->
  match pump_run p ops with
  | Some (p', _) => safe (transport p')
  | None => dies p ops
  end.
Proof.
  revert acc p. induction ops as [|o ops IH]; intros acc p Hi Hs; cbn [pump_run]; [done|].
  pose proof (pump_exec_safe p o (pi_wf _ _ _ Hi) Hs) as Ho.
  destruct (pump_exec p o) as [[p1 l1]|] eqn:E1; cbn [mbind option_bind].
  - specialize (IH _ p1 (pump_exec_inv _ _ _ _ _ _ Hi E1) Ho).
    destruct (pump_run p1 ops) as [[p2 l2]|]; cbn [mbind option_bind]; [done|].
    destruct IH as (before & now & w & sched & after & q & acc' & -> & Hb & Hq).
    exists (o :: before), now, w, sched, after, q, (l1 ++ acc'). split; [done|]. split; [|done].
    cbn [pump_run]. rewrite E1. cbn [mbind option_bind]. by rewrite Hb.
  - destruct Ho as (now & w & sched & -> & Hp). exists [], now, w, sched, ops, p, []. by split_and!.
Qed.

End safety.

(** ** Closing *)

Section closing.
Context `{!ClosableTransport T}.

(** The transport of a connection that was shut down is closed. *)
Definition shut (p : Conn) : Prop := shutdownDone (self p) = true -> is_closed (transport p).

Lemma pump_closeRaw_shut p p' : pump_closeRaw p = Some p' -> shut p -> shut p' /\
  written p' = written p /\ received p' = received p /\ reading p' = reading p /\
  writing p' = writing p /\ (shutdownDone (self p) = true -> p' = p).
Proof.
  unfold pump_closeRaw, shut. destruct (closeRaw (self p)) as [c|]; [|done]. cbn [mbind option_bind].
  destruct (shutdownDone (self p)) eqn:Hd; [intros [= <-] Hs; split_and!; try done; auto|].
  pose proof (Close_closed (transport p)) as Hc. destruct (Close (transport p)) as [t sg].
  destruct (bool_decide _); [done|]. intros [= <-] Hs. conn_fields. by split_and!.
Qed.

(** What a turn of the write pump leaves of a connection that was shut down. *)
Definition written_off (p p' : Conn) : Prop :=
  shut p' /\ received p' = received p /\ reading p' = reading p /\
  shutdownDone (self p') = shutdownDone (self p) /\
  (shutdownDone (self p) = true -> written p' = written p /\
     (backlog (transport p') <= backlog (transport p))%nat).

Lemma write_exit_off p q p' : shut q -> write_exit q = Some p' -> received q = received p ->
  reading q = reading p -> shutdownDone (self q) = shutdownDone (self p) ->
  (shutdownDone (self p) = true -> written q = written p /\ transport q = transport p) ->
  written_off p p' /\ writing p' = false.
Proof.
  unfold write_exit, shut. intros Hs. pose proof (SendClose_closed (transport q)) as Hc.
  destruct (SendClose (transport q)) as [t r]. destruct (panicked r); [done|]. intros [= <-] E1 E2 E3 E4.
  split; [|done]. unfold written_off, shut. conn_fields. rewrite E3 in *. split_and!; try done.
  - intros Hd. by apply Hc, Hs.
  - intros Hd. destruct (E4 Hd) as [E5 <-]. split; [done|]. by apply Hc, Hs.
Qed.

Lemma write_frame_off now p c msg p' : shut p -> shutdownDone c = shutdownDone (self p) ->
  write_frame now (set_self p c) msg = Some p' ->
  written_off p p' /\ (shutdownDone (self p) = true -> writing p' = false).
Proof.
  intros Hs Hc. unfold write_frame. conn_fields. destruct (shutdownDone (self p)) eqn:Hd.
  - destruct (Write_closed (transport p) msg (Hs Hd)) as [e ->]. destruct (panicked _); [done|].
    intros H'. apply (write_exit_off p) in H' as [H1 H2]; [by split| |by conn_fields..|by conn_fields; rewrite Hc|done].
    unfold shut. conn_fields. intros _. by apply Hs.
  - destruct (Write (transport p) msg) as [t r]. destruct (panicked r); [done|]. destruct r as [u|e].
    + intros [= <-]. unfold written_off, shut. conn_fields.
      cbn [shutdownDone recordMessageSent recordBytesSent with_counters]. rewrite Hc, Hd. by split_and!.
    + intros H'. apply (write_exit_off p) in H' as [H1 H2]; [by split| |done..| |].
      * unfold shut. conn_fields. by rewrite Hc.
      * conn_fields. by rewrite Hc, Hd.
      * by rewrite Hd.
Qed.

Lemma write_ping_off p p' : shut p -> write_ping p = Some p' -> written_off p p'.
Proof.
  intros Hs. unfold write_ping. destruct (shutdownDone (self p)) eqn:Hd.
  - destruct (Ping_closed (transport p) (Hs Hd)) as [e ->]. destruct (panicked _); [done|].
    intros H'. by apply (write_exit_off p) in H' as [H1 _]; conn_fields.
  - destruct (Ping (transport p)) as [t r]. destruct (panicked r); [done|]. destruct r as [u|e].
    + intros [= <-]. unfold written_off, shut. conn_fields. rewrite Hd. by split_and!.
    + intros H'. apply (write_exit_off p) in H' as [H1 _]; conn_fields; [done| |done..|by rewrite Hd].
      unfold shut. conn_fields. by rewrite Hd.
Qed.

Lemma write_step_shut now pick p p' : write_step now p pick = Some p' -> shut p ->
  written_off p p' /\
  (shutdownDone (self p) = true -> pick = PickFrame -> next_frame (self p) <> None \/ ch_closed (send (self p)) = true ->
     writing p' = false).
Proof.
  intros Hp Hs. assert (written_off p p) as Hrefl by by split_and!. unfold write_step in Hp.
  destruct (writing p) eqn:Hw; cbn [negb] in Hp; [|injection Hp as <-; by split].
  assert (match next_frame (self p) with
    | Some (msg, c) => write_frame now (set_self p c) msg
    | None => if ch_closed (send (self p)) then write_exit p else Some p end = Some p' ->
    written_off p p' /\ (shutdownDone (self p) = true -> pick = PickFrame ->
      next_frame (self p) <> None \/ ch_closed (send (self p)) = true -> writing p' = false)) as Hframe.
  { destruct (next_frame (self p)) as [[msg c]|] eqn:Hn.
    - intros H'. apply write_frame_off in H' as [H1 H2]; [by split; auto|done|].
      by apply next_frame_keeps in Hn as [_ ?].
    - destruct (ch_closed _); [|intros [= <-]; split; [done|]; by intros _ _ [?|?]].
      intros H'. by apply (write_exit_off p) in H' as [H1 H2]; [split|..]. }
  destruct (replay (self p)), pick; [exact (Hframe Hp)| |exact (Hframe Hp)|injection Hp as <-; by split].
  split; [by apply write_ping_off|done].
Qed.

(** A turn of the read pump after a shutdown serves a message that was read
    ahead, or ends the pump. *)
Definition served (p p' : Conn) : Prop :=
  if reading p then
    if reading p' then exists m, received p' = received p ++ [m] /\
      (backlog (transport p') < backlog (transport p))%nat
    else received p' = received p
  else p' = p.

Lemma on_signals_closed now p sg : is_closed (transport p) ->
  is_closed (transport (on_signals now p sg)) /\
  (backlog (transport (on_signals now p sg)) <= backlog (transport p))%nat.
Proof.
  unfold on_signals. revert p. induction sg as [|s sg IH]; intros p Hs; [done|]. cbn [fold_left].
  destruct s; [|by apply IH..]. destruct (Deadline_closed _ (now + pongWait (self p)) Hs) as [H1 H2].
  destruct (IH (on_pong now p) H1) as [H3 H4]. split; [exact H3|]. by etrans; [exact H4|].
Qed.

Lemma read_exit_shut beat p p' : read_exit beat p = Some p' -> shut p ->
  shut p' /\ written p' = written p /\ received p' = received p /\ reading p' = false /\
  (shutdownDone (self p) = true -> shutdownDone (self p') = true).
Proof.
  unfold read_exit. destruct (pump_closeRaw p) as [q|] eqn:Hq; [|done]. cbn [mbind option_bind].
  intros [= <-] Hs. destruct (pump_closeRaw_shut _ _ Hq Hs) as (H1 & H2 & H3 & _ & _ & H4).
  unfold shut in *. conn_fields. split_and!; try done. intros Hd. by rewrite (H4 Hd).
Qed.

Lemma read_step_served now p w sched p' : read_step now p (w :: sched) = Some p' -> shut p ->
  shutdownDone (self p) = true ->
  shut p' /\ shutdownDone (self p') = true /\ written p' = written p /\ served p p'.
Proof.
  unfold read_step, served. destruct (reading p) eqn:Hr; cbn [negb]; [|by intros [= <-]]. intros Hp Hs Hd.
  destruct (Read_closed (transport p) w sched (Hs Hd)) as (t & sg & r & rest & HR & Hcl & Hm).
  rewrite HR in Hp. destruct (_ || _); [done|].
  destruct (on_signals_closed now (set_transport p t) sg Hcl) as [Hcl' Hbl].
  destruct (on_signals_keep now (set_transport p t) sg)
    as ((_ & _ & E1 & _) & E2 & _ & E4 & _ & _ & _ & E8 & _).
  set (p1 := on_signals now (set_transport p t) sg) in *. conn_fields. rewrite Hd in E1.
  assert (forall q e, r = Err e -> read_exit false (mkConn (transport p1) (self p1) (reading p1) (writing p1)
    (received p1) (heartbeats p1) (dones p1) (seen p1 ++ [(sg, r)]) (written p1)) = Some q ->
    shut q /\ shutdownDone (self q) = true /\ written q = written p /\
    if reading q then exists m, received q = received p ++ [m] /\
      (backlog (transport q) < backlog (transport p))%nat else received q = received p) as Hexit.
  { intros q e _ Hq. apply read_exit_shut in Hq as (A1 & A2 & A3 & A4 & A5); [|by intros _].
    rewrite A4. conn_fields. split_and!; [exact A1|exact (A5 E1)|congruence..]. }
  destruct r as [msg|e]; [|destruct e; try done; by eapply Hexit].
  injection Hp as <-. destruct (Deadline_closed (transport p1) (now + pongWait (self p1)) Hcl') as [H1 H2].
  unfold shut. conn_fields. rewrite E2, Hr. split_and!; [done|done|done|].
  exists msg. rewrite E4. split; [done|]. cbn [transport set_deadline set_transport]. lia.
Qed.

Lemma read_step_shut now p w sched p' : read_step now p (w :: sched) = Some p' -> shut p -> shut p'.
Proof.
  intros Hp Hs. destruct (shutdownDone (self p)) eqn:Hd; [by eapply read_step_served|].
  unfold read_step in Hp. destruct (reading p); cbn [negb] in Hp; [|by injection Hp as <-].
  destruct (Read (transport p) (w :: sched)) as [[[[t sg] r] rest]|]; [|by injection Hp as <-].
  destruct (_ || _); [done|].
  destruct (on_signals_keep now (set_transport p t) sg) as ((_ & _ & E1 & _) & _).
  set (p1 := on_signals now (set_transport p t) sg) in *. conn_fields. rewrite Hd in E1.
  assert (forall beat q c, shutdownDone c = false -> read_exit beat (mkConn (transport p1) c
    (reading p1) (writing p1) (received p1) (heartbeats p1) (dones p1) (seen p1 ++ [(sg, r)])
    (written p1)) = Some q -> shut q) as Hexit.
  { intros beat q c Hc Hq. apply read_exit_shut in Hq as (A1 & _); [done|].
    unfold shut. conn_fields. congruence. }
  destruct r as [msg|e].
  - injection Hp as <-. unfold shut. conn_fields.
    cbn [shutdownDone recordMessageReceived recordBytesReceived with_counters set_deadline set_transport self].
    by rewrite E1.
  - destruct e; try exact (Hexit false _ (self p1) E1 Hp).
    destruct (IncrementMissedPongs (self p1)) as [c z] eqn:Hz.
    assert (shutdownDone c = false) as Hc by (by unfold IncrementMissedPongs in Hz; simplify_eq).
    destruct z; [exact (Hexit true _ c Hc Hp)|]. injection Hp as <-. unfold shut, set_deadline.
    conn_fields. by rewrite Hc.
Qed.

(** A connection some steps after its shutdown, [turns] of them turns of the
    read pump: what was read ahead may have been served, nothing else. *)
Definition stopped (p0 p : Conn) (turns : nat) : Prop :=
  shut p /\ shutdownDone (self p) = true /\ written p = written p0 /\
  exists ms, received p = received p0 ++ ms /\
    if reading p then length ms = turns /\ (turns + backlog (transport p) <= backlog (transport p0))%nat
    else (length ms <= backlog (transport p0))%nat.

Lemma pump_exec_stopped frames acc p0 p n o p' l : pinv frames acc p -> stopped p0 p n ->
  pump_exec p o = Some (p', l) -> l = [] /\ stopped p0 p' (n + read_turns [o]).
Proof.
  intros Hi (Hs & Hd & Hwr & ms & Hrc & Hms).
  destruct o as [now w sched|now pick|f|]; cbn [pump_exec]; unfold read_turns; cbn [filter_cons].
  - destruct (read_step now p (w :: sched)) as [q|] eqn:Hq; [|done]. intros [= <- <-]. split; [done|].
    destruct (read_step_served _ _ _ _ _ Hq Hs Hd) as (H1 & H2 & H3 & H4). unfold served in H4.
    split; [done|]. split; [done|]. split; [congruence|]. cbn.
    destruct (reading p) eqn:Hr; [|subst q; rewrite Hr; by exists ms].
    destruct Hms as [<- Hbl]. destruct (reading q).
    + destruct H4 as (m & -> & Hlt). exists (ms ++ [m]). rewrite Hrc, <- app_assoc, length_app. simpl. split; [done|lia].
    + exists ms. split; [congruence|lia].
  - destruct (write_step now p pick) as [q|] eqn:Hq; [|done]. intros [= <- <-]. split; [done|].
    destruct (write_step_shut _ _ _ _ Hq Hs) as [(H1 & H2 & H3 & H4 & H5) _].
    destruct (H5 Hd) as [H6 H7]. rewrite Nat.add_0_r. split; [done|]. split; [congruence|].
    split; [congruence|]. exists ms. rewrite H2, H3. split; [done|]. destruct (reading p); [|done].
    destruct Hms as [E1 E2]. split; [done|]. lia.
  - destruct Hi as [[_ Hc _] _ _ _ _ _ _]. unfold enqueue, try_send. rewrite Hc, Hd.
    intros [= <- <-]. rewrite Nat.add_0_r. split; [done|]. by split_and!; [..|exists ms].
  - destruct (pump_closeRaw p) as [q|] eqn:Hq; [|done]. intros [= <- <-]. rewrite Nat.add_0_r.
    destruct (pump_closeRaw_shut _ _ Hq Hs) as (_ & _ & _ & _ & _ & H4). rewrite (H4 Hd).
    split; [done|]. by split_and!; [..|exists ms].
Qed.

Lemma pump_run_stopped frames acc p0 p n ops p' l : pinv frames acc p -> stopped p0 p n ->
  pump_run p ops = Some (p', l) -> l = [] /\ stopped p0 p' (n + read_turns ops).
Proof.
  revert acc p n l. induction ops as [|o ops IH]; intros acc p n l Hi Hst; cbn [pump_run].
  - intros [= <- <-]. split; [done|]. by rewrite Nat.add_0_r.
  - destruct (pump_exec p o) as [[p1 l1]|] eqn:E1; [|done]. cbn [mbind option_bind].
    destruct (pump_exec_stopped _ _ _ _ _ _ _ _ Hi Hst E1) as [-> Hst1].
    destruct (pump_run p1 ops) as [[p2 l2]|] eqn:E2; [|done]. intros [= <- <-].
    destruct (IH _ p1 _ l2 (pump_exec_inv _ _ _ _ _ _ Hi E1) Hst1 E2) as [-> Hst2]. split; [done|].
    change (o :: ops) with ([o] ++ ops). unfold read_turns in *. by rewrite filter_app, length_app, Nat.add_assoc.
Qed.

Lemma pump_exec_shut p o p' l : shut p -> pump_exec p o = Some (p', l) -> shut p'.
Proof.
  intros Hs. destruct o as [now w sched|now pick|f|]; cbn [pump_exec].
  - destruct (read_step now p (w :: sched)) eqn:E; [|done]. intros [= <- <-]. by eapply read_step_shut.
  - destruct (write_step now p pick) eqn:E; [|done]. intros [= <- <-]. by eapply write_step_shut.
  - assert (shutdownDone (enqueue (self p) f).1 = shutdownDone (self p)) as Hd.
    { unfold enqueue. by destruct (try_send _ _). }
    destruct (enqueue (self p) f) as [c r]. intros [= <- <-]. unfold shut in *. conn_fields.
    cbn [fst] in Hd. by rewrite Hd.
  - destruct (pump_closeRaw p) eqn:E; [|done]. intros [= <- <-]. by eapply pump_closeRaw_shut.
Qed.

Lemma pump_run_shut p ops p' l : shut p -> pump_run p ops = Some (p', l) -> shut p'.
Proof.
  revert p l. induction ops as [|o ops IH]; intros p l Hs; cbn [pump_run]; [by intros [= <- <-]|].
  destruct (pump_exec p o) as [[p1 l1]|] eqn:E1; [|done]. cbn [mbind option_bind].
  destruct (pump_run p1 ops) as [[p2 l2]|] eqn:E2; [|done]. intros [= <- <-].
  eapply IH; [|done]. by eapply pump_exec_shut.
Qed.

(** The write pump of a connection that was shut down finds its queue closed. *)
Lemma write_ends `{!SafeTransport T} frames acc p now : pinv frames acc p -> safe (transport p) ->
  shut p -> shutdownDone (self p) = true ->
  exists q, write_step now p PickFrame = Some q /\ writing q = false.
Proof.
  intros Hi Hs Hsh Hd. destruct (write_step_safe now p PickFrame Hs) as (q & Hq & _).
  exists q. split; [done|]. destruct (write_step_shut _ _ _ _ Hq Hsh) as [_ He]. apply He; [done|done|].
  right. by rewrite (wf_closed _ (pi_wf _ _ _ Hi)).
Qed.

End closing.

(** ** Properties *)

(** C14: over a transport that keeps the panic contract (the native one, the
    polling one, the Engine.IO one over either and the one of a session that may
    be upgraded are proved to), whatever the
    turns of the pumps, the sends and the disconnects, and in whatever order,
    frames go out in order: the frames the transport took, then the frames
    still queued, are the frames that waited at the start followed by the ones
    the queue accepted since; at most one frame is missing in between, the one
    a failed write lost, and none while the write pump runs. The pumps
    themselves never panic: a run that dies does so at a turn of the read pump
    in which the transport's [Read] panicked. *)
Theorem frames_in_order `{!SafeTransport T} t c ops :
  wf c -> missedPongs c = 0 -> safe t ->
  match pump_run (start t c) ops with
  | Some (p, accepted) =>
      exists lost, unwritten c ++ accepted = written p ++ lost ++ unwritten (self p) /\
        (length lost <= 1)%nat /\ (writing p = true -> lost = [])
  | None => dies (start t c) ops
  end.
Proof.
  intros Hw Hm Hs. pose proof (pump_run_safe _ _ _ ops (start_inv t c Hw Hm) Hs) as Hp.
  destruct (pump_run (start t c) ops) as [[p l]|] eqn:E; [|done].
  destruct (pump_run_inv _ _ _ _ _ _ (start_inv t c Hw Hm) E) as [_ Ho _ _ _ _ _]. exact Ho.
Qed.



End pumps.

(** C29: one frame of a client ends the process when the native backend is used.
    Once the next bytes of the stream are a masked frame header whose 64-bit
    length has its top bit set, the next turn of the read pump panics, whatever
    the read limit and whatever the connection did before. *)
Theorem negative_length_kills (t : nativeTransport) c before now sched after p acc b1 ext key rest :
  pump_run (start t c) before = Some (p, acc) -> reading p = true ->
  nt_closed (transport p) = false ->
  nativews.c_br (conn (transport p)) = b1 :: xff :: ext ++ key ++ rest ->
  length ext = 8%nat -> length key = 4%nat -> 2 ^ 63 <= be_combine ext ->
  pump_run (start t c) (before ++ OpRead now WakeData sched :: after) = None.
Proof.
  intros Hp Hr Hc Hb He Hk Hl. rewrite pump_run_app, Hp. cbn [mbind option_bind pump_run pump_exec].
  enough (read_step now p (WakeData :: sched) = None) as -> by done.
  unfold read_step. rewrite Hr. cbn [negb Read native_transport].
  unfold native_read, native_message, nativews.ReadMessage. rewrite Hc. cbn [nativews.read_loop].
  rewrite Hb, nativews.readFrame_negative_length by done. cbn [conn_error panicked]. by rewrite orb_true_r.
Qed.

(** ** Witnesses *)

#[local] Existing Instance polling.polling_transport.
#[local] Existing Instance polling.polling_closable.
#[local] Existing Instance polling.polling_safe_transport.

Definition demo_client : Client := NewClient 0 (mkOptions "c" 100 10 30 60 4).
Definition demo_ops : list pump_op :=
  [OpEnqueue (bs "a"); OpWrite 1 PickFrame; OpRead 60 (WakeTimer 0) []; OpEnqueue (bs "b");
   OpRead 120 (WakeTimer 0) []; OpRead 180 (WakeTimer 0) []; OpEnqueue (bs "c")].
Definition demo_run : Conn * list bytes :=
  default (start polling.demo_polling demo_client, [])
    (pump_run (start polling.demo_polling demo_client) demo_ops).

Lemma demo_run_eq : pump_run (start polling.demo_polling demo_client) demo_ops
  = Some (demo_run.1, demo_run.2).
Proof. by vm_compute. Qed.

Lemma frames_in_order_witness :
  match pump_run (start polling.demo_polling demo_client) demo_ops with
  | Some (p, accepted) =>
      exists lost, unwritten demo_client ++ accepted = written p ++ lost ++ unwritten (self p) /\
        (length lost <= 1)%nat /\ (writing p = true -> lost = [])
  | None => dies (start polling.demo_polling demo_client) demo_ops
  end.
Proof. apply frames_in_order; [apply NewClient_wf|done|apply polling.new_wf]. Defined.


(** A native connection with two messages sent by the peer, both read ahead
    when it is shut down. *)
Definition demo_native : nativeTransport :=
  mkNative (nativews.mkConn
    (nativews.client_frame true 1 [x01; x02; x03; x04] (bs "a") ++
     nativews.client_frame true 1 [x01; x02; x03; x04] (bs "b")) [] None 100 false []) 100 false.

(** The message read ahead is still received, the frame queued afterwards is not sent. *)
Definition demo_after : list pump_op :=
  [OpRead 2 WakeData []; OpEnqueue (bs "d"); OpWrite 2 PickFrame].


(** The peer's first message, then the frame. *)
Definition demo_attack : nativeTransport :=
  mkNative (nativews.mkConn
    (nativews.client_frame true 1 [x01; x02; x03; x04] (bs "a") ++
     (x81 :: xff :: replicate 8 xff ++ replicate 4 x00 ++ [])) [] None 100 false []) 0 false.

Lemma negative_length_kills_witness :
  pump_run (start demo_attack demo_client) ([OpRead 1 WakeData []] ++ [OpRead 2 WakeData []]) = None.
Proof.
  destruct (pump_run (start demo_attack demo_client) [OpRead 1 WakeData []]) as [[p acc]|] eqn:E;
    [|vm_compute in E; discriminate E].
  apply (negative_length_kills demo_attack demo_client [OpRead 1 WakeData []] 2 [] [] p acc
    x81 (replicate 8 xff) (replicate 4 x00) []); [exact E| | | |done|done|by vm_compute];
    vm_compute in E; injection E as <- <-; vm_compute; reflexivity.
Defined.

End pumps.
