(* ===== verification/Upgraders.v ===== *)
(** * WebSocket backends ([internal/transport.go], [internal/upgrader.go])

    The transport over a gorilla connection and the choice of a backend. The
    gorilla package is not part of the repository: its connections are a class
    of operations, with what its documentation promises as laws, and a small
    instance shows that the laws can be met. *)
From S2P Require Import Prelude.
From S2P Require Import GoStd.
From S2P Require Import EngineIO.
From S2P Require Import NativeWS.
From S2P Require Import Transport.
From S2P Require Import Client.
From S2P Require Import Pumps.

Module upgraders.
Import transport.

(** ** gorilla/websocket *)

(** [*websocket.Conn]; a read takes the wake-ups as [Transport] does. The
    deadline of a write is left to the connection. *)
Class GorillaConn (G : Type) := {
  g_SetReadLimit : G -> Z -> G;
  g_SetReadDeadline : G -> Z -> G;
  g_SetPongHandler : G -> G;
  g_ReadMessage : G -> list wakeup -> option (G * list signal * result terror (Z * bytes) * list wakeup);
  g_WriteMessage : G -> Z -> bytes -> G * result terror unit;
  g_Close : G -> G;
  TextMessage : Z;
  CloseMessage : Z;
  PingMessage : Z;
  CloseNormalClosure : Z;
  FormatCloseMessage : Z -> string -> bytes
}.

(** [websocket.Upgrader], the fields the code sets. *)
Record Upgrader := mkUpgrader {
  ReadBufferSize : Z;
  WriteBufferSize : Z;
  CheckOrigin : nativews.Request -> bool
}.

(** Its method; the outcome is that of [nativews.Upgrade]. *)
Class GorillaUpgrade (G E : Type) := {
  g_Upgrade : Upgrader -> nativews.Request -> nativews.Hijack -> option Z * result E (bytes * G)
}.

(** ** The transport *)

Record wsTransport (G : Type) := mkWS { ws_conn : G }.
Arguments mkWS {G} _.
Arguments ws_conn {G} _.

Section ws.
Context {G : Type} `{GorillaConn G}.

Definition ws_read (t : wsTransport G) (sched : list wakeup) : read_outcome (wsTransport G) :=
  '(c, sg, r, rest) ← g_ReadMessage (ws_conn t) sched;
  Some (mkWS c, sg, match r with Ok (_, data) => Ok data | Err e => Err e end, rest).

Definition ws_write (t : wsTransport G) (messageType : Z) (data : bytes)
  : wsTransport G * result terror unit :=
  let '(c, r) := g_WriteMessage (ws_conn t) messageType data in (mkWS c, r).

#[export] Instance ws_transport : Transport (wsTransport G) := {
  Name _ := "websocket"%string;
  SetReadLimit t limit := mkWS (g_SetReadLimit (ws_conn t) limit);
  SetReadDeadline t tm := mkWS (g_SetReadDeadline (ws_conn t) tm);
  OnPong t := mkWS (g_SetPongHandler (ws_conn t));
  Read := ws_read;
  Write t data := ws_write t TextMessage data;
  Ping t := ws_write t PingMessage [];
  SendClose t := ws_write t CloseMessage (FormatCloseMessage CloseNormalClosure "");
  Close t := (mkWS (g_Close (ws_conn t)), [])
}.

(** ** Upgraders *)

Definition WebSocketBackend : Type := Z.
Definition WebSocketBackendGorilla : WebSocketBackend := 0.
Definition WebSocketBackendNative : WebSocketBackend := 1.

Definition any_origin (checkOrigin : option (nativews.Request -> bool)) : nativews.Request -> bool :=
  match checkOrigin with Some f => f | None => fun _ => true end.

Record WSUpgrader := mkWSUpgrader { upgrader : Upgrader }.

Definition NewWSUpgrader (readBufferSize writeBufferSize : Z)
    (checkOrigin : option (nativews.Request -> bool)) : WSUpgrader :=
  mkWSUpgrader (mkUpgrader readBufferSize writeBufferSize (any_origin checkOrigin)).

Record nativeUpgrader := mkNativeUpgrader { checkOrigin : nativews.Request -> bool }.

Definition NewNativeUpgrader (check : option (nativews.Request -> bool)) : nativeUpgrader :=
  mkNativeUpgrader (any_origin check).

Inductive TransportUpgrader :=
  | GorillaUpgrader (u : WSUpgrader)
  | NativeUpgrader (u : nativeUpgrader).

Definition NewTransportUpgrader (backend : WebSocketBackend) (readBufferSize writeBufferSize : Z)
    (check : option (nativews.Request -> bool)) : TransportUpgrader :=
  if backend =? WebSocketBackendNative then NativeUpgrader (NewNativeUpgrader check)
  else GorillaUpgrader (NewWSUpgrader readBufferSize writeBufferSize check).

Context {E : Type} `{GorillaUpgrade G E}.

(** What an upgrade wrote to the response, and its transport or its error.
    [ahead]: what a native connection will have read ahead when it is closed. *)
Definition native_Upgrade (u : nativeUpgrader) (ahead : nat) (r : nativews.Request) (hj : nativews.Hijack)
  : option Z * result nativews.Error (bytes * nativeTransport) :=
  let '(status, res) := nativews.Upgrade r hj (Some (checkOrigin u)) in
  (status, match res with Ok (resp, c) => Ok (resp, mkNative c ahead false) | Err e => Err e end).

Definition ws_Upgrade (u : WSUpgrader) (r : nativews.Request) (hj : nativews.Hijack)
  : option Z * result E (bytes * wsTransport G) :=
  let '(status, res) := g_Upgrade (upgrader u) r hj in
  (status, match res with Ok (resp, c) => Ok (resp, mkWS c) | Err e => Err e end).

Definition Upgrade (u : TransportUpgrader) (ahead : nat) (r : nativews.Request) (hj : nativews.Hijack)
  : option Z * result (E + nativews.Error) (bytes * (wsTransport G + nativeTransport)) :=
  match u with
  | GorillaUpgrader u =>
      let '(status, res) := ws_Upgrade u r hj in
      (status, match res with Ok (resp, t) => Ok (resp, inl t) | Err e => Err (inl e) end)
  | NativeUpgrader u =>
      let '(status, res) := native_Upgrade u ahead r hj in
      (status, match res with Ok (resp, t) => Ok (resp, inr t) | Err e => Err (inr e) end)
  end.

End ws.

(** ** What gorilla documents *)

(** A message on the wire: frames of RFC 6455, unmasked as a server sends them. *)
Definition server_frame (f : bool * Z * bytes) : bytes :=
  nativews.rfc_header false f.1.1 f.1.2 (len f.2) ++ f.2.

Inductive message_frames : Z -> bytes -> list (bool * Z * bytes) -> Prop :=
  | message_last op d : message_frames op d [(true, op, d)]
  | message_more op d fs d' : message_frames nativews.opcodeContinuation d' fs ->
      message_frames op (d ++ d') ((false, op, d) :: fs).

(** [g_sent]: the bytes sent so far. [g_failed g e]: a read of [g] has returned
    [e]; errors of a read are permanent, and a new deadline does not cure one
    that timed out. *)
Class GorillaLaws (G : Type) `{GorillaConn G} := {
  g_sent : G -> bytes;
  g_failed : G -> terror -> Prop;
  g_read_fails g sched g' sg e rest :
    g_ReadMessage g sched = Some (g', sg, Err e, rest) -> g_failed g' e;
  g_read_failed g e sched :
    g_failed g e -> exists g', g_ReadMessage g sched = Some (g', [], Err e, sched) /\ g_failed g' e;
  g_deadline_failed g e tm : g_failed g e -> g_failed (g_SetReadDeadline g tm) e;
  g_types : TextMessage = nativews.opcodeText /\ CloseMessage = nativews.opcodeClose /\
    PingMessage = nativews.opcodePing;
  g_close_message : FormatCloseMessage CloseNormalClosure "" = normal_closure;
  g_write_frames g op d g' :
    op = TextMessage \/ op = CloseMessage \/ op = PingMessage ->
    g_WriteMessage g op d = (g', Ok tt) ->
    exists fs, message_frames op d fs /\ g_sent g' = g_sent g ++ concat (map server_frame fs)
}.

Section laws.
Context {G : Type} `{GorillaLaws G}.

(** The three things a pump sends. *)
Inductive outgoing := Data (d : bytes) | Heartbeat | Goodbye.
Definition send_on {T} `{Transport T} (t : T) (o : outgoing) : T * result terror unit :=
  match o with
  | Data d => Write t d
  | Heartbeat => Ping t
  | Goodbye => SendClose t
  end.
(** The opcode and the payload that RFC 6455 gives them. *)
Definition rfc_message (o : outgoing) : Z * bytes :=
  match o with
  | Data d => (nativews.opcodeText, d)
  | Heartbeat => (nativews.opcodePing, [])
  | Goodbye => (nativews.opcodeClose, normal_closure)
  end.

Lemma ws_send t o t' : send_on t o = (t', Ok tt) ->
  exists fs, message_frames (rfc_message o).1 (rfc_message o).2 fs /\
    g_sent (ws_conn t') = g_sent (ws_conn t) ++ concat (map server_frame fs).
Proof.
  destruct g_types as (E1 & E2 & E3). intros Hs.
  assert (exists op, op = (rfc_message o).1 /\ (op = TextMessage \/ op = CloseMessage \/ op = PingMessage) /\
    ws_write t op (rfc_message o).2 = (t', Ok tt)) as (op & <- & Hop & Hw).
  { destruct o; cbn [send_on rfc_message fst snd Write Ping SendClose ws_transport] in *.
    - exists TextMessage. split; [exact E1|]. split; [by left|exact Hs].
    - exists PingMessage. split; [exact E3|]. split; [by right; right|exact Hs].
    - exists CloseMessage. split; [exact E2|]. split; [by right; left|]. rewrite <- g_close_message. exact Hs. }
  unfold ws_write in Hw. destruct (g_WriteMessage _ _ _) as [g' r] eqn:E. injection Hw as <- ->.
  exact (g_write_frames _ _ _ _ Hop E).
Qed.

Lemma native_send_on n o : nt_closed n = false -> nativews.c_budget (conn n) = None ->
  send_on n o = (with_conn n (nativews.add_writes (conn n)
    (nativews.sent_frame true (rfc_message o).1 (rfc_message o).2)), Ok tt).
Proof.
  intros Hc Hb. destruct o; cbn [send_on rfc_message fst snd Write Ping SendClose native_transport];
    unfold native_send, nativews.WriteMessage, nativews.WriteControl; rewrite Hc;
    by rewrite ?(nativews.writeFrame_ok _ _ _ _ Hb).
Qed.

(** ** Timeouts *)

Import client pumps.

Ltac fields := cbn [transport self reading writing received heartbeats dones seen written set_transport
  set_self] in *.

Definition stuck (p : Conn (T := wsTransport G)) : Prop := g_failed (ws_conn (transport p)) ErrTimeout.

Lemma ws_closeRaw (p : Conn (T := wsTransport G)) : wf (self p) -> is_Some (pump_closeRaw p).
Proof.
  intros Hw. destruct (closeRaw_wf (self p) Hw) as (c & Hc & _). unfold pump_closeRaw. rewrite Hc.
  cbn [mbind option_bind]. destruct (shutdownDone (self p)); [done|]. cbn [Close ws_transport].
  by rewrite bool_decide_eq_false_2 by apply not_elem_of_nil.
Qed.

Lemma stuck_step frames acc now p : pinv frames acc p -> reading p = true -> stuck p ->
  exists p', read_step now p [] = Some p' /\ pinv frames acc p' /\
    missed (seen p') = missed (seen p) + 1 /\
    (reading p' = true /\ stuck p' \/ reading p' = false /\ missed (seen p') = 3).
Proof.
  intros Hi Hr Hst. destruct (g_read_failed _ _ [] Hst) as (g' & HR & Hf).
  assert (Read (transport p) [] = Some (mkWS g', [], Err ErrTimeout, [])) as HR'.
  { cbn [Read ws_transport]. unfold ws_read. by rewrite HR. }
  enough (exists p', read_step now p [] = Some p' /\
    (reading p' = true /\ stuck p' \/ reading p' = false /\ missed (seen p) + 1 = 3)) as (p' & Hp & Hor).
  { destruct (read_turn_inv _ _ now p p' _ _ _ _ _ Hi Hr HR' Hp) as (Hi' & Hs).
    assert (missed (seen p') = missed (seen p) + 1) as Hm.
    { rewrite Hs, missed_snoc. unfold missed_step. cbn [fst snd]. by rewrite decide_False by apply not_elem_of_nil. }
    exists p'. rewrite Hm. by split_and!. }
  pose proof (pi_reading _ _ _ Hi Hr) as Hlt. destruct (pi_missed _ _ _ Hi) as [Hmp Hb].
  unfold read_step. rewrite Hr, HR'. rewrite bool_decide_eq_false_2 by apply not_elem_of_nil.
  cbn [negb orb panicked on_signals fold_left]. fields. unfold IncrementMissedPongs.
  assert (i32 (missed (seen p) + 1) = missed (seen p) + 1) as Ei by (unfold i32; rewrite Z.mod_small; lia).
  rewrite Hmp, Ei. destruct (Z.ltb_spec 2 (missed (seen p) + 1)).
  - unfold read_exit. match goal with |- context [pump_closeRaw ?q] => destruct (ws_closeRaw q) as [q' ->] end.
    { destruct (pi_wf _ _ _ Hi). by constructor. }
    cbn [mbind option_bind]. eexists. split; [done|]. right. split; [done|lia].
  - eexists. split; [done|]. left. split; [done|]. by apply g_deadline_failed.
Qed.

(** At most [n] further turns of the read loop, with nothing to wake it up. *)
Fixpoint read_again (n : nat) (now : Z) (p : Conn (T := wsTransport G)) : option (Conn (T := wsTransport G)) :=
  match n with
  | O => Some p
  | S n' => if reading p then p ← read_step now p []; read_again n' now p else Some p
  end.

Lemma stuck_ends frames acc now n p : pinv frames acc p -> reading p = true -> stuck p ->
  3 - Z.of_nat n <= missed (seen p) ->
  exists p', read_again n now p = Some p' /\ reading p' = false /\ heartbeats p' = 1%nat /\ dones p' = 1%nat.
Proof.
  revert p. induction n as [|n IH]; intros p Hi Hr Hst Hn.
  - pose proof (pi_reading _ _ _ Hi Hr). lia.
  - cbn [read_again]. rewrite Hr. destruct (stuck_step _ _ now p Hi Hr Hst) as (p' & -> & Hi' & Hm & [[Hr' Hst']|[Hr' H3]]);
      cbn [mbind option_bind]; [apply IH; auto; lia|].
    exists p'. split; [destruct n; cbn [read_again]; by rewrite ?Hr'|]. split; [done|].
    rewrite (pi_heartbeats _ _ _ Hi'), (pi_dones _ _ _ Hi'), Hr'. by rewrite decide_True.
Qed.

Lemma on_signals_failed now q sg e : g_failed (ws_conn (transport q)) e ->
  g_failed (ws_conn (transport (on_signals now q sg))) e.
Proof.
  unfold on_signals. revert q. induction sg as [|s sg IH]; intros q Hq; [done|]. cbn [fold_left].
  apply IH. destruct s; [by apply g_deadline_failed|done..].
Qed.

(** A read that timed out leaves the connection stuck, unless it was the last. *)
Lemma timed_out_stuck frames acc now p sched p1 sg : pinv frames acc p -> read_step now p sched = Some p1 ->
  seen p1 = seen p ++ [(sg, Err ErrTimeout)] -> reading p1 = true -> pinv frames acc p1 /\ stuck p1.
Proof.
  intros Hi Hp Hs Hr1.
  assert (p1 <> p) as Hne by (intros ->; apply (f_equal length) in Hs; rewrite length_app in Hs; simpl in Hs; lia).
  destruct (reading p) eqn:Hr; [|unfold read_step in Hp; rewrite Hr in Hp; by injection Hp as <-].
  destruct (Read (transport p) sched) as [[[[t sg'] r] rest]|] eqn:HR;
    [|unfold read_step in Hp; rewrite Hr, HR in Hp; by injection Hp as <-].
  destruct (read_turn_inv _ _ now p p1 _ _ _ _ _ Hi Hr HR Hp) as (Hi' & Hs'). split; [done|].
  rewrite Hs in Hs'. apply app_inv_head in Hs'. injection Hs' as _ <-.
  assert (g_failed (ws_conn t) ErrTimeout) as Hf.
  { cbn [Read ws_transport] in HR. unfold ws_read in HR.
    destruct (g_ReadMessage _ _) as [[[[g' sg0] r0] rest0]|] eqn:E; [|done]. cbn [mbind option_bind] in HR.
    injection HR as <- _ Hr0 _. destruct r0 as [[? ?]|e0]; [done|]. injection Hr0 as ->.
    by apply (g_read_fails _ _ _ _ _ _ E). }
  apply (on_signals_failed now (set_transport p t) sg') in Hf. unfold read_step in Hp. rewrite Hr, HR in Hp.
  cbn [negb] in Hp. destruct (_ || _); [done|]. fields. destruct (IncrementMissedPongs _) as [c []].
  - unfold read_exit in Hp. destruct (pump_closeRaw _); [|done]. by injection Hp as <-.
  - injection Hp as <-. by apply g_deadline_failed.
Qed.

End laws.

Import client pumps.

(** ** A connection that keeps the laws *)

(** The peer's messages, and what was sent; a time-out is for ever. *)
Record tape := mkTape { t_in : list bytes; t_err : option terror; t_out : bytes }.

#[export] Instance tape_conn : GorillaConn tape := {
  g_SetReadLimit g _ := g;
  g_SetReadDeadline g _ := g;
  g_SetPongHandler g := g;
  g_ReadMessage g sched :=
    match t_err g, sched, t_in g with
    | Some e, _, _ => Some (g, [], Err e, sched)
    | None, WakeData :: rest, d :: l => Some (mkTape l None (t_out g), [], Ok (1, d), rest)
    | None, WakeTimer _ :: rest, _ => Some (mkTape (t_in g) (Some ErrTimeout) (t_out g), [], Err ErrTimeout, rest)
    | None, WakeData :: rest, [] => Some (mkTape [] (Some EOF) (t_out g), [], Err EOF, rest)
    | None, _, _ => None
    end;
  g_WriteMessage g op d := (mkTape (t_in g) (t_err g) (t_out g ++ server_frame (true, op, d)), Ok tt);
  g_Close g := mkTape (t_in g) (Some ErrClosed) (t_out g);
  TextMessage := 1; CloseMessage := 8; PingMessage := 9;
  CloseNormalClosure := 1000;
  FormatCloseMessage code text := [Z_byte (code / 256); Z_byte code] ++ bs text
}.

#[export] Instance tape_laws : GorillaLaws tape.
Proof.
  refine {| g_sent := t_out; g_failed g e := t_err g = Some e |}.
  - intros [l [e0|] o] sched g' sg e rest; cbn; [by intros [= <- _ <- _]|].
    destruct sched as [|[| |] sched]; [done| |done|by intros [= <- _ <- _]].
    destruct l; [by intros [= <- _ <- _]|done].
  - intros [l ? o] e sched E. cbn in *. subst. by eexists.
  - done.
  - done.
  - reflexivity.
  - intros [l e o] op d g' _ [= <-]. exists [(true, op, d)]. split; [constructor|].
    cbn [g_sent t_out map concat]. by rewrite app_nil_r.
Defined.

(** ** The theorems *)

(** The two backends say the same things to a peer: data of less than 4 GiB, a
    heartbeat or a goodbye, which the native transport puts on the wire as one
    message of RFC 6455, is the message gorilla promises to send, whatever way it
    fragments it. *)
Theorem backends_agree {G} `{GorillaLaws G} (t t' : wsTransport G) (n : nativeTransport) o :
  let m := rfc_message o in
  send_on t o = (t', Ok tt) ->
  nt_closed n = false -> nativews.c_budget (conn n) = None -> len m.2 < 2 ^ 32 ->
  exists fs n' ws,
    message_frames m.1 m.2 fs /\
    g_sent (ws_conn t') = g_sent (ws_conn t) ++ concat (map server_frame fs) /\
    send_on n o = (n', Ok tt) /\ nativews.c_w (conn n') = nativews.c_w (conn n) ++ ws /\
    concat ws = server_frame (true, m.1, m.2).
Proof.
  intros m Hs Hc Hb Hl. destruct (ws_send t o t' Hs) as (fs & Hf & Hg). exists fs. do 2 eexists.
  split; [done|]. split; [done|]. split; [by apply native_send_on|]. split; [done|].
  pose proof (len_nonneg m.2). rewrite nativews.concat_sent_frame. subst m. unfold server_frame. cbn [fst snd].
  rewrite nativews.frame_header_rfc; [done| |lia]. destruct o; by vm_compute.
Qed.

Lemma backends_agree_witness :
  exists fs, message_frames 1 (bs "hi") fs /\
    g_sent (ws_conn (Write (mkWS (mkTape [] None [])) (bs "hi")).1) = concat (map server_frame fs).
Proof.
  destruct (backends_agree (mkWS (mkTape [] None [])) (Write (mkWS (mkTape [] None [])) (bs "hi")).1
    (mkNative (nativews.mkConn [] [] None 0 false []) 0 false) (Data (bs "hi"))) as (fs & _ & _ & H1 & H2 & _);
    [reflexivity|reflexivity|reflexivity|vm_compute; reflexivity|].
  exists fs. split; [exact H1|exact H2].
Defined.

(** Over gorilla, whose read errors are permanent, a connection that
    survives a read that timed out is given up in the next two turns of the read
    loop, at once and whatever the peer sends: renewing the deadline does not
    give it the two further chances the loop counts. *)
Theorem gorilla_timeout_is_final {G} `{GorillaLaws G} (t : wsTransport G) c ops p acc now sched p1 sg :
  wf c -> missedPongs c = 0 -> pump_run (start t c) ops = Some (p, acc) ->
  read_step now p sched = Some p1 -> seen p1 = seen p ++ [(sg, Err ErrTimeout)] -> reading p1 = true ->
  exists p2, read_again 2 now p1 = Some p2 /\ reading p2 = false /\ heartbeats p2 = 1%nat /\ dones p2 = 1%nat.
Proof.
  intros Hw Hm Hp Hs1 Hseen Hr. pose proof (pump_run_inv _ _ _ _ _ _ (start_inv t c Hw Hm) Hp) as Hi.
  destruct (timed_out_stuck _ _ now p sched p1 sg Hi Hs1 Hseen Hr) as [Hi1 Hst].
  apply (stuck_ends _ _ now 2 p1 Hi1 Hr Hst). rewrite Hseen, missed_snoc. unfold missed_step. cbn [fst snd].
  destruct (decide _); [lia|]. pose proof (proj2 (pi_missed _ _ _ Hi)). lia.
Qed.

Definition demo_tape : wsTransport tape := mkWS (mkTape [bs "a"; bs "b"] None []).
Definition demo_started : Conn (T := wsTransport tape) := start demo_tape (NewClient 0 (mkOptions "c" 100 10 30 60 4)).

Lemma gorilla_timeout_is_final_witness :
  exists p1 p2, read_step 60 demo_started [WakeTimer 0] = Some p1 /\ reading p1 = true /\
    read_again 2 60 p1 = Some p2 /\ reading p2 = false /\ heartbeats p2 = 1%nat.
Proof.
  destruct (read_step 60 demo_started [WakeTimer 0]) as [p1|] eqn:E; [|vm_compute in E; discriminate E].
  destruct (gorilla_timeout_is_final demo_tape (NewClient 0 (mkOptions "c" 100 10 30 60 4)) [] demo_started []
    60 [WakeTimer 0] p1 []) as (p2 & H1 & H2 & H3 & _); [apply NewClient_wf|reflexivity|reflexivity|exact E|
    vm_compute in E; injection E as <-; reflexivity|vm_compute in E; injection E as <-; reflexivity|].
  exists p1, p2. split; [reflexivity|]. split; [vm_compute in E; injection E as <-; reflexivity|].
  split; [exact H1|]. split; [exact H2|exact H3].
Defined.

End upgraders.
