(* ===== verification/Config.v ===== *)
(** * Configuration, wire messages and resume requests
    ([types.go], [recovery.go], [context.go])

    The parts of the public package that do not touch the running server: the
    configuration and its defaults, the choice of a backpressure policy, the
    resume request read off the handshake, the frames the server sends, the
    messages it decodes, and the acknowledgement a context carries. *)
From S2P Require Import Prelude.
From S2P Require Import GoStd.
From S2P Require Import Json.
From S2P Require Import JsonDecode.
From S2P Require Import JsonCodec.
From S2P Require Import Replay.
From S2P Require Import Client.
From S2P Require Import Session.
From S2P Require Import SessionStore.

Module config.
Import session codec.

(** ** Configuration *)

Definition EventConnect : string := "$connect".
Definition EventDisconnect : string := "$disconnect".
Definition DefaultMaxConnections : Z := 10000.
Definition DefaultWriteBufferSize : Z := 256.
Definition DefaultReadBufferSize : Z := 4096.
Definition DefaultMaxMessageSize : Z := Z.shiftl 1 20.
Definition DefaultPingInterval : Z := 30 * store.Second.
Definition DefaultPongWait : Z := 60 * store.Second.
Definition DefaultWriteWait : Z := 10 * store.Second.
Definition DefaultHubEmitBufferSize : Z := 256.

Definition EventSession : string := "$session".
Definition EventAck : string := "$ack".
Definition QuerySession : string := "gs_session".
Definition QuerySeq : string := "gs_seq".
Definition HeaderSession : string := "X-GoSocket-Session".
Definition HeaderSeq : string := "X-GoSocket-Seq".
Definition DefaultReplayBufferMessages : Z := 256.
Definition DefaultReplayBufferBytes : Z := Z.shiftl 256 10.
Definition DefaultSessionTTL : Z := 2 * store.Minute.
Definition DefaultMaxParkedSessions : Z := 10000.
Definition DefaultIdempotencyWindow : Z := 1024.

(** [BackpressurePolicy] is an [int]; a value of none of the four names can be
    configured too. *)
Definition BackpressurePolicy : Type := Z.
Definition BackpressureDefault : BackpressurePolicy := 0.
Definition BackpressureDisconnect : BackpressurePolicy := 1.
Definition BackpressureDrop : BackpressurePolicy := 2.
Definition BackpressureVolatile : BackpressurePolicy := 3.

Record SessionRecoveryConfig := mkRecovery {
  Enabled : bool; ReplayBufferMessages : Z; ReplayBufferBytes : Z; SessionTTL : Z;
  MaxParkedSessions : Z; IdempotencyWindow : Z
}.

(** The fields that are functions or interfaces ([CheckOrigin], [Logger],
    [OwnerFunc]) are arguments of the operations that use them. *)
Record Config := mkConfig {
  IdentityKey : string; MaxConnections : Z; WriteBufferSize : Z; ReadBufferSize : Z;
  MaxMessageSize : Z; PingInterval : Z; PongWait : Z; WriteWait : Z; HubEmitBufferSize : Z;
  NativeWebSocket : bool; SessionRecovery : SessionRecoveryConfig;
  DefaultBackpressure : BackpressurePolicy
}.

Definition positive_or (d n : Z) : Z := if n <=? 0 then d else n.

Definition normalized (c : Config) : Config :=
  let rc := SessionRecovery c in
  let rc :=
    if Enabled rc then
      mkRecovery (Enabled rc) (positive_or DefaultReplayBufferMessages (ReplayBufferMessages rc))
        (positive_or DefaultReplayBufferBytes (ReplayBufferBytes rc))
        (positive_or DefaultSessionTTL (SessionTTL rc))
        (positive_or DefaultMaxParkedSessions (MaxParkedSessions rc))
        (positive_or DefaultIdempotencyWindow (IdempotencyWindow rc))
    else rc in
  mkConfig (IdentityKey c) (positive_or DefaultMaxConnections (MaxConnections c))
    (positive_or DefaultWriteBufferSize (WriteBufferSize c))
    (positive_or DefaultReadBufferSize (ReadBufferSize c))
    (positive_or DefaultMaxMessageSize (MaxMessageSize c))
    (positive_or DefaultPingInterval (PingInterval c)) (positive_or DefaultPongWait (PongWait c))
    (positive_or DefaultWriteWait (WriteWait c))
    (positive_or DefaultHubEmitBufferSize (HubEmitBufferSize c)) (NativeWebSocket c) rc
    (DefaultBackpressure c).

Definition newSessionStore (c : Config) : store.SessionStore :=
  let rc := SessionRecovery c in
  store.NewSessionStore (store.mkOptions (ReplayBufferMessages rc) (ReplayBufferBytes rc)
    (SessionTTL rc) (MaxParkedSessions rc) (IdempotencyWindow rc)).

(** ** Policies *)

Definition internal (p : BackpressurePolicy) : SendPolicy :=
  if p =? BackpressureDrop then PolicyDrop
  else if p =? BackpressureVolatile then PolicyVolatile
  else PolicyDisconnect.

Definition resolvePolicy (c : Config) (p : BackpressurePolicy) : SendPolicy :=
  internal (if p =? BackpressureDefault then DefaultBackpressure c else p).

(** ** Resume requests *)

(** What is read of an [http.Request]: [r.Header.Get] and
    [r.URL.Query().Get]. *)
Record HttpRequest := mkHttp { header : string -> string; query : string -> string }.

(** [owner]: the application's [OwnerFunc], which may panic ([None]). *)
Definition resumeRequest (owner : option (HttpRequest -> option string)) (r : option HttpRequest)
  : option ResumeRequest :=
  match r with
  | None => Some (mkRequest false false "" 0 "")
  | Some r =>
      own ← match owner with Some f => f r | None => Some ""%string end;
      let sid := if bool_decide (header r HeaderSession = ""%string) then query r QuerySession
                 else header r HeaderSession in
      if bool_decide (sid = ""%string) then Some (mkRequest false false "" 0 own)
      else
        let seq := if bool_decide (header r HeaderSeq = ""%string) then query r QuerySeq
                   else header r HeaderSeq in
        if bool_decide (seq = ""%string) then Some (mkRequest true false sid 0 own)
        else match ParseUint (bs seq) with
             | Err _ => Some (mkRequest true true sid 0 own)
             | Ok n => Some (mkRequest true false sid n own)
             end
  end.

(** ** Frames *)

Record EmitOptions := mkEmit { o_Policy : BackpressurePolicy; o_IdempotencyKey : string }.

Record ServerWireMessage := mkServerMessage {
  m_Event : string; m_Payload : jval; m_AckID : string; m_Seq : Z; m_IdempotencyKey : string
}.

(** [json.Marshal] of a message whose payload marshals to [m_Payload]. *)
Definition Marshal (m : ServerWireMessage) : bytes :=
  print (JObj ([("event"%string, JStr (m_Event m)); ("payload"%string, m_Payload m)]
    ++ omit_if (bool_decide (m_AckID m = ""%string)) "ackId" (JStr (m_AckID m))
    ++ omit_if (m_Seq m =? 0) "seq" (JInt (m_Seq m))
    ++ omit_if (bool_decide (m_IdempotencyKey m = ""%string)) "idempotencyKey"
         (JStr (m_IdempotencyKey m)))).

Record ClientWireMessage := mkClientMessage {
  Event : string; Room : string; Payload : bytes; ID : string; IdempotencyKey : string
}.

(** [json.Unmarshal] of a message from a client, and of the payload of an
    acknowledgement, a struct with the one field [Seq]. *)
Definition no_message : ClientWireMessage := mkClientMessage "" "" [] "" "".
Definition set_Event (v : string) (m : ClientWireMessage) :=
  mkClientMessage v (Room m) (Payload m) (ID m) (IdempotencyKey m).
Definition set_Room (v : string) (m : ClientWireMessage) :=
  mkClientMessage (Event m) v (Payload m) (ID m) (IdempotencyKey m).
Definition set_Payload (v : bytes) (m : ClientWireMessage) :=
  mkClientMessage (Event m) (Room m) v (ID m) (IdempotencyKey m).
Definition set_ID (v : string) (m : ClientWireMessage) :=
  mkClientMessage (Event m) (Room m) (Payload m) v (IdempotencyKey m).
Definition set_IdempotencyKey (v : string) (m : ClientWireMessage) :=
  mkClientMessage (Event m) (Room m) (Payload m) (ID m) v.
Definition client_fields : list (@json.field ClientWireMessage) :=
  [("event"%string, json.set_string set_Event); ("room"%string, json.set_string set_Room);
   ("payload"%string, json.set_raw set_Payload); ("id"%string, json.set_string set_ID);
   ("idempotencyKey"%string, json.set_string set_IdempotencyKey)].
Definition Unmarshal (raw : bytes) : option ClientWireMessage := json.Unmarshal client_fields raw no_message.
Definition seq_fields : list (@json.field Z) := [("seq"%string, json.set_uint (fun n _ => n))].
Definition UnmarshalSeq (payload : bytes) : option Z := json.Unmarshal seq_fields payload 0.

(** What a client that marshals a [ClientWireMessage] sends. [Payload] is the
    text the client's encoder gives the payload; a client in Go, whose
    [json.RawMessage] is compacted and escaped on the way, sends the message
    whose [Payload] is the compacted and escaped text. *)
Definition MarshalClient (m : ClientWireMessage) : bytes :=
  print (JObj ([("event"%string, JStr (Event m))]
    ++ omit_if (bool_decide (Room m = ""%string)) "room" (JStr (Room m))
    ++ [("payload"%string, if bool_decide (Payload m = []) then JNull else JRaw (Payload m))]
    ++ omit_if (bool_decide (ID m = ""%string)) "id" (JStr (ID m))
    ++ omit_if (bool_decide (IdempotencyKey m = ""%string)) "idempotencyKey" (JStr (IdempotencyKey m)))).

(** ** Contexts *)

Record Context := mkContext {
  ctx_client : option client.cptr;
  ctx_event : string;
  ctx_room : string;
  ctx_payload : bytes;
  pendingAck : string;
  ackUsed : bool
}.

Definition newContext (c : option client.cptr) (event : string) (payload : bytes)
    (room ack : string) : Context := mkContext c event room payload ack false.

Definition consumeAck (x : Context) : Context * string :=
  if bool_decide (pendingAck x = ""%string) || ackUsed x then (x, ""%string)
  else (mkContext (ctx_client x) (ctx_event x) (ctx_room x) (ctx_payload x) (pendingAck x) true,
        pendingAck x).

(** ** Lemmas *)

Lemma positive_or_pos d n : 0 < d -> 0 < positive_or d n.
Proof. unfold positive_or. destruct (Z.leb_spec n 0); lia. Qed.
Lemma positive_or_keep d n : 0 < n -> positive_or d n = n.
Proof. unfold positive_or. destruct (Z.leb_spec n 0); lia. Qed.

(** A frame the server builds is an event the session can number: an object
    whose first key is the event. *)
Lemma Marshal_event m : event_frame (Marshal m).
Proof.
  split.
  - do 2 eexists. split; [reflexivity|]. split; reflexivity || done.
  - reflexivity.
Qed.

(** ** Properties *)

(** The configuration a server runs with is complete and stable: every
    limit is positive (the recovery limits when recovery is on), a positive
    setting is kept, and normalising again changes nothing. *)
Theorem normalized_complete c :
  let n := normalized c in
  let rc := SessionRecovery n in
  Forall (fun z => 0 < z) [MaxConnections n; WriteBufferSize n; ReadBufferSize n; MaxMessageSize n;
    PingInterval n; PongWait n; WriteWait n; HubEmitBufferSize n] /\
  (Enabled (SessionRecovery c) = true ->
   Forall (fun z => 0 < z) [ReplayBufferMessages rc; ReplayBufferBytes rc; SessionTTL rc;
     MaxParkedSessions rc; IdempotencyWindow rc] /\
   store.opt (newSessionStore n) = store.mkOptions (ReplayBufferMessages rc) (ReplayBufferBytes rc)
     (SessionTTL rc) (MaxParkedSessions rc) (IdempotencyWindow rc)) /\
  (0 < MaxConnections c -> MaxConnections n = MaxConnections c) /\
  normalized n = n.
Proof.
  assert (forall d z, 0 < d -> positive_or d (positive_or d z) = positive_or d z) as Hidem.
  { intros d z Hd. apply positive_or_keep, positive_or_pos, Hd. }
  cbv zeta. split; [|split; [|split]].
  - repeat constructor; by apply positive_or_pos.
  - intros He. cbn [normalized SessionRecovery]. rewrite He.
    cbn [ReplayBufferMessages ReplayBufferBytes SessionTTL MaxParkedSessions IdempotencyWindow].
    split; [repeat constructor; by apply positive_or_pos|].
    unfold newSessionStore, store.NewSessionStore.
    cbn [store.opt store.ReplayMessages store.ReplayBytes store.TTL store.MaxParked store.KeyWindow
         SessionRecovery normalized ReplayBufferMessages].
    rewrite He. unfold store.or_default. f_equal; by apply (positive_or_keep _ (positive_or _ _)), positive_or_pos.
  - apply positive_or_keep.
  - unfold normalized. cbn. destruct (Enabled (SessionRecovery c)) eqn:He; cbn; rewrite ?He; cbn;
      by rewrite !Hidem.
Qed.

(** A reconnecting peer is understood: a handshake that carries the token of
    a session and a sequence number in decimal, in the headers or in the query
    of the URL, asks to resume that session after that number. *)
Theorem resume_request_understood owner hd qr token n :
  token <> ""%string -> 0 <= n < 2 ^ 64 ->
  let seq := str (FormatUint n) in
  (hd HeaderSession = token /\ hd HeaderSeq = seq) \/
  (hd HeaderSession = ""%string /\ hd HeaderSeq = ""%string /\
   qr QuerySession = token /\ qr QuerySeq = seq) ->
  resumeRequest owner (Some (mkHttp hd qr))
    = own ← match owner with Some f => f (mkHttp hd qr) | None => Some ""%string end;
      Some (mkRequest true false token n own).
Proof.
  intros Ht Hn seq Hr.
  assert (bs seq = FormatUint n) as Hseq by apply bs_str.
  assert (seq <> ""%string) as Hne.
  { intros He. pose proof (FormatUint_nonempty n) as Hf. rewrite He in Hseq. by rewrite <- Hseq in Hf. }
  unfold resumeRequest. cbn [header query].
  destruct (match owner with Some f => _ | None => _ end) as [own|]; [|done]. cbn [mbind option_bind].
  destruct Hr as [[E1 E2]|(E1 & E2 & E3 & E4)]; rewrite E1, E2, ?E3, ?E4.
  - rewrite (bool_decide_eq_false_2 _ Ht), (bool_decide_eq_false_2 _ Ht), !(bool_decide_eq_false_2 _ Hne).
    by rewrite Hseq, ParseUint_FormatUint.
  - rewrite !(bool_decide_eq_true_2 (""%string = ""%string) eq_refl), (bool_decide_eq_false_2 _ Ht),
      (bool_decide_eq_false_2 _ Hne). by rewrite Hseq, ParseUint_FormatUint.
Qed.

Lemma resume_request_understood_witness :
  let q k := if bool_decide (k = QuerySession) then "tok"%string
             else if bool_decide (k = QuerySeq) then "42"%string else ""%string in
  resumeRequest None (Some (mkHttp (fun _ => ""%string) q)) = Some (mkRequest true false "tok" 42 "").
Proof.
  intros q. apply (resume_request_understood None (fun _ => ""%string) q "tok" 42); [done|lia|].
  right. by split_and!.
Defined.

(** ** Messages from clients *)

Lemma set_members_omit {T} (fs : list (@json.field T)) (k : string) (f : string -> T -> T) v s :
  utf8 v -> json.unquote (quote k) = bs k -> json.find_field fs (bs k) = Some (json.set_string f) ->
  (v = ""%string -> f v s = s) ->
  json.set_members fs (map (fun m => (quote m.1, print m.2)) (omit_if (bool_decide (v = ""%string)) k (JStr v))) s
    = Some (f v s).
Proof.
  intros Hv Eu Hk He. case_bool_decide as E; cbn [omit_if map fst snd json.set_members]; [by rewrite He|].
  rewrite Eu, Hk. cbn [print]. by rewrite set_string_quote.
Qed.

Lemma unquote_event : json.unquote (quote "event") = bs "event".
Proof. by vm_compute. Qed.
Lemma unquote_payload : json.unquote (quote "payload") = bs "payload".
Proof. by vm_compute. Qed.
Lemma client_field_event : json.find_field client_fields (bs "event") = Some (json.set_string set_Event).
Proof. reflexivity. Qed.
Lemma client_field_payload : json.find_field client_fields (bs "payload") = Some (json.set_raw set_Payload).
Proof. reflexivity. Qed.

Lemma client_message_decoded m :
  utf8 (Event m) -> utf8 (Room m) -> utf8 (ID m) -> utf8 (IdempotencyKey m) ->
  json.value_text 1 (Payload m) -> Unmarshal (MarshalClient m) = Some m.
Proof.
  intros He Hr Hi Hk Hp. unfold Unmarshal, MarshalClient.
  pose proof Hp as [[Hne _] _]. rewrite (bool_decide_eq_false_2 _ Hne).
  rewrite Unmarshal_object.
  2: { split; [by apply Nat.ltb_lt|]. unfold omit_if. by repeat case_bool_decide. }
  rewrite !map_app. cbn [map fst snd app json.set_members print].
  rewrite unquote_event, client_field_event, set_string_quote by done. cbn [mbind option_bind].
  rewrite set_members_app, (set_members_omit client_fields "room" set_Room _ _ Hr eq_refl eq_refl)
    by (intros E; destruct m; cbn in E; by subst).
  cbn [mbind option_bind json.set_members]. rewrite unquote_payload, client_field_payload.
  unfold json.set_raw. cbn [mbind option_bind].
  rewrite set_members_app, (set_members_omit client_fields "id" set_ID _ _ Hi eq_refl eq_refl)
    by (intros E; destruct m; cbn in E; by subst).
  cbn [mbind option_bind].
  rewrite (set_members_omit client_fields "idempotencyKey" set_IdempotencyKey _ _ Hk eq_refl eq_refl)
    by (intros E; destruct m; cbn in E; by subst).
  by destruct m.
Qed.

(** C11: a message a client marshals is the message the server decodes, whatever
    text its fields hold and whatever JSON value its payload is. *)
Theorem client_message_understood m :
  utf8 (Event m) -> utf8 (Room m) -> utf8 (ID m) -> utf8 (IdempotencyKey m) ->
  json.value_text 1 (Payload m) -> Unmarshal (MarshalClient m) = Some m.
Proof. exact (client_message_decoded m). Qed.

Lemma client_message_understood_witness :
  let m := mkClientMessage "chat" "r" (print (JArr [JInt 1; JStr "x"])) "7" "k" in
  Unmarshal (MarshalClient m) = Some m.
Proof.
  intros m. apply client_message_understood; [by vm_compute..|].
  apply print_text. split; [by apply Nat.ltb_lt|]. by vm_compute.
Defined.

Lemma set_string_eq {T} (f : string -> T -> T) v s s' : json.set_string f v s = Some s' ->
  s' = s \/ exists x, s' = f x s.
Proof.
  unfold json.set_string. destruct (json.starts _ v); [intros [= <-]; right; by eexists|].
  destruct (json.starts _ v); [intros [= <-]; by left|done].
Qed.

(** Whatever bytes a client sends, the payload that reaches the handlers is
    absent or the text of one JSON value, without white space around it. *)
Theorem payload_is_value raw m :
  Unmarshal raw = Some m ->
  Payload m = [] \/ json.value_text 0 (Payload m) /\ json.top_value (Payload m) = Some (Payload m).
Proof.
  unfold Unmarshal. intros (ms & Hs & Hms)%Unmarshal_members.
  cut (Payload m = [] \/ json.value_text 0 (Payload m)).
  { intros [?|?]; [by left|right; split; [done|by apply top_value_text]]. }
  refine (set_members_inv client_fields (fun m => Payload m = [] \/ json.value_text 0 (Payload m)) ms no_message m _ Hms _ Hs); [|by left].
  clear.
  intros name set v s s' Hin Hv Hq E0. unfold client_fields in Hin. cbn [In] in Hin.
  destruct Hin as [E|[E|[E|[E|[E|[]]]]]]; injection E as _ <-.
  3: { injection E0 as <-. by right. }
  all: apply set_string_eq in E0 as [->|[x ->]]; exact Hq.
Qed.

Lemma payload_is_value_witness :
  let raw := bs " {" ++ quote "PAYLOAD" ++ bs " : [1, 2 ] }" in
  exists m, Unmarshal raw = Some m /\
    (Payload m = [] \/ json.value_text 0 (Payload m) /\ json.top_value (Payload m) = Some (Payload m)).
Proof.
  intros raw. exists (mkClientMessage "" "" (bs "[1, 2 ]") "" ""). split; [vm_compute; reflexivity|].
  apply (payload_is_value raw). vm_compute. reflexivity.
Defined.

(** The payload of an acknowledgement. *)
Definition ack_payload (n : Z) : bytes := print (JObj [("seq"%string, JInt n)]).

Lemma ack_payload_text n : 0 <= n < 2 ^ 64 -> json.value_text 1 (ack_payload n).
Proof. intros Hn. apply print_text. split; [by apply Nat.ltb_lt|]. cbn. lia. Qed.

Lemma UnmarshalSeq_ack n : 0 <= n < 2 ^ 64 -> UnmarshalSeq (ack_payload n) = Some n.
Proof.
  intros Hn. unfold UnmarshalSeq, ack_payload. rewrite Unmarshal_object.
  2: { split; [by apply Nat.ltb_lt|]. cbn. lia. }
  cbn [map fst snd json.set_members print].
  rewrite (eq_refl : json.unquote (quote "seq") = bs "seq").
  rewrite (eq_refl : json.find_field seq_fields (bs "seq") = Some (json.set_uint (fun n _ => n))).
  by rewrite set_uint_Itoa.
Qed.

End config.
