(* ===== verification/Server.v ===== *)
(** * The server ([server.go], [context.go], [middleware.go], [recover.go],
    [recovery.go])

    The handlers of the public package, over the registry of sessions and the
    hub: accepting a connection, dispatching a message, emitting, ending a
    connection, releasing sessions, shutting down. Application code
    (middleware, handlers, callbacks) is any finite program over the methods
    of a context. What happens to clients and sessions goes through the
    operations of [Registry.v]. [a_cfg] is the normalized configuration ([s.cfg]).
    A handler runs to its end before the next one starts; where the code
    depends on that, [ServerTables.v] says so. Requests to the hub are
    unbuffered, so they are served where they are made; jobs wait in the hub's
    queue. *)
From S2P Require Import Prelude.
From S2P Require Import GoStd.
From S2P Require Import Json.
From S2P Require Import Replay.
From S2P Require Import Client.
From S2P Require Import Session.
From S2P Require Import SessionStore.
From S2P Require Import SessionInv.
From S2P Require Import Registry.
From S2P Require Import Recovery.
From S2P Require Import Hub.
From S2P Require Import Config.

Module server.
Import client session store registry config.

(** ** State *)

(** A panic that no code of the library recovers from kills the process, in the
    goroutines the library starts (the read pump, the attachment of a polling
    session); in the goroutine of an HTTP handler [net/http] recovers it and
    the connection stays without its read pump. A run ends there. *)
Record SessionInfo := mkInfo { i_SessionID : string; i_ClientID : string; i_Owner : string }.

Record state := mkState {
  st_world : world;
  st_hub : hub.Hub;
  st_conns : Z;
  st_total : Z;                    (* totalMessages *)
  st_ever : Z;                     (* totalConnectionsEver *)
  st_closed : bool;
  st_byID : gmap string cptr;      (* clientsByID *)
  st_slow : list cptr;             (* goroutines about to call ShutdownResumable *)
  st_expired : list SessionInfo;   (* calls of the OnSessionExpire callbacks *)
  st_crashed : bool;               (* a panic escaped from the library: see above *)
  st_sends : Z;                    (* frames handed to clients so far *)
  st_admitted : nat                (* goroutines past the tests for a new connection,
                                      not yet in serveTransport *)
}.

Definition set_world (st : state) (w : world) (sends : Z) : state :=
  mkState w (st_hub st) (st_conns st) (st_total st) (st_ever st) (st_closed st)
    (st_byID st) (st_slow st) (st_expired st) (st_crashed st) (st_sends st + sends) (st_admitted st).
Definition set_hub (st : state) (h : hub.Hub) : state :=
  mkState (st_world st) h (st_conns st) (st_total st) (st_ever st) (st_closed st)
    (st_byID st) (st_slow st) (st_expired st) (st_crashed st) (st_sends st) (st_admitted st).
Definition set_conns (st : state) (n : Z) : state :=
  mkState (st_world st) (st_hub st) n (st_total st) (st_ever st) (st_closed st)
    (st_byID st) (st_slow st) (st_expired st) (st_crashed st) (st_sends st) (st_admitted st).
Definition set_counts (st : state) (total ever : Z) (byID : gmap string cptr) : state :=
  mkState (st_world st) (st_hub st) (st_conns st) total ever (st_closed st)
    byID (st_slow st) (st_expired st) (st_crashed st) (st_sends st) (st_admitted st).
Definition set_slow (st : state) (l : list cptr) : state :=
  mkState (st_world st) (st_hub st) (st_conns st) (st_total st) (st_ever st) (st_closed st)
    (st_byID st) l (st_expired st) (st_crashed st) (st_sends st) (st_admitted st).
Definition add_expired (st : state) (i : SessionInfo) : state :=
  mkState (st_world st) (st_hub st) (st_conns st) (st_total st) (st_ever st) (st_closed st)
    (st_byID st) (st_slow st) (st_expired st ++ [i]) (st_crashed st) (st_sends st) (st_admitted st).
Definition crash (st : state) : state :=
  mkState (st_world st) (st_hub st) (st_conns st) (st_total st) (st_ever st) (st_closed st)
    (st_byID st) (st_slow st) (st_expired st) true (st_sends st) (st_admitted st).
Definition set_closed (st : state) : state :=
  mkState (st_world st) (st_hub st) (st_conns st) (st_total st) (st_ever st) true
    (st_byID st) (st_slow st) (st_expired st) (st_crashed st) (st_sends st) (st_admitted st).
Definition set_admitted (st : state) (n : nat) : state :=
  mkState (st_world st) (st_hub st) (st_conns st) (st_total st) (st_ever st) (st_closed st)
    (st_byID st) (st_slow st) (st_expired st) (st_crashed st) (st_sends st) n.

(** ** Application code *)

(** The methods of a context that do something. [data] is the JSON value the
    payload marshals to; [None] when it does not marshal. *)
Inductive action :=
  | EmitWith (event : string) (data : option jval) (opts : EmitOptions)
  | EmitToRoomWith (room event : string) (data : option jval) (opts : EmitOptions)
  | BroadcastToRoomWith (room event : string) (data : option jval) (opts : EmitOptions)
  | JoinRoom (room : string) | LeaveRoom (room : string)
  | Get (key : string) | Set_ (key : string) (v : any)
  | SessionID_ | Resumed_ | Disconnect.
Inductive answer :=
  | AUnit | AError (failed : bool) | AValue (v : option any) | AString (s : string) | ABool (b : bool).

(** [Emit] and its like have no options. *)
Definition no_options : EmitOptions := mkEmit BackpressureDefault "".
Definition Emit (event : string) (data : option jval) : action := EmitWith event data no_options.

Inductive outcome := Returns | Fails | Panics.
Inductive prog := Done (o : outcome) | Act (a : action) (k : answer -> prog).

Inductive middleware :=
  | RecoverMiddleware
  | RateLimiter (interval : Z)
  | MiddlewareFunc (f : Context -> prog).
Definition isRecoverMiddleware (m : middleware) : bool :=
  match m with RecoverMiddleware => true | _ => false end.

(** What the application registered. *)
Record app := mkApp {
  a_cfg : Config;
  a_owner : option (HttpRequest -> option string);   (* OwnerFunc; [None]: it panics *)
  middlewares : list middleware;
  handlers : string -> option (Context -> prog);
  onConnect : list (Context -> prog);
  onDisconnect : list (Context -> prog);
  onHeartbeatTimeout : list (Context -> prog)
}.

Section server.
Variable a : app.

Definition hasRecover : bool := existsb isRecoverMiddleware (middlewares a).
Definition recovery_on : bool := Enabled (SessionRecovery (a_cfg a)).

Definition New : state :=
  mkState (mkWorld ∅ ∅ 0%nat (newSessionStore (a_cfg a)))
    (hub.NewHub (HubEmitBufferSize (a_cfg a))) 0 0 0 false ∅ [] [] false 0 0.

(** ** Registry and hub *)

Definition wop (o : op) (st : state) : option state :=
  w ← exec (st_world st) o; Some (set_world st w (if recovery.is_send o then 1 else 0)).

Definition hub_do (now : Z) (r : option hub.request) (st : state) : state :=
  match r with Some r => set_hub st (hub.serve (st_hub st) r now) | None => st end.

(** ** Emitting *)

Definition emitOne (ic : option cptr) (event : string) (data : option jval) (ack : string)
    (opts : EmitOptions) (st : state) : option (state * bool) :=
  match ic, data with
  | None, _ => Some (st, false)
  | _, None => Some (st, true)
  | Some c, Some v =>
      let b := Marshal (mkServerMessage event v ack 0 (o_IdempotencyKey opts)) in
      let pol := resolvePolicy (a_cfg a) (o_Policy opts) in
      '(_, ok) ← TrySendPolicy (w_clients (st_world st)) (w_sess (st_world st)) c b pol;
      st ← wop (OSend c b pol) st;
      Some (if ok : bool then st else set_slow st (st_slow st ++ [c]), false)
  end.

Definition emitRoom (room event : string) (data : option jval) (ack : string)
    (exclude : option cptr) (opts : EmitOptions) (st : state) : state * bool :=
  if bool_decide (room = ""%string) then (st, false)
  else match data with
       | None => (st, true)
       | Some v =>
           let b := Marshal (mkServerMessage event v ack 0 (o_IdempotencyKey opts)) in
           let job := hub.mkJob room event exclude None false b (resolvePolicy (a_cfg a) (o_Policy opts)) in
           (set_hub st (hub.Emit (st_hub st) job), false)
       end.

(** ** The methods of a context *)

Definition on_client (x : Context) (st : state) (f : cptr -> option (state * answer))
    (nobody : answer) : option (state * answer) :=
  match ctx_client x with Some c => f c | None => Some (st, nobody) end.

Definition run_action (now : Z) (act : action) (x : Context) (st : state)
  : option (Context * state * answer) :=
  match act with
  | EmitWith event data opts =>
      let '(x, ack) := consumeAck x in
      '(st, failed) ← emitOne (ctx_client x) event data ack opts st; Some (x, st, AError failed)
  | EmitToRoomWith room event data opts =>
      let '(x, ack) := consumeAck x in
      let '(st, failed) := emitRoom room event data ack None opts st in Some (x, st, AError failed)
  | BroadcastToRoomWith room event data opts =>
      let '(x, ack) := consumeAck x in
      let '(st, failed) := emitRoom room event data ack (ctx_client x) opts st in
      Some (x, st, AError failed)
  | JoinRoom room =>
      '(st, r) ← on_client x st (fun c =>
         Some (hub_do now (hub.Join (st_hub st) c room) st, AUnit)) AUnit; Some (x, st, r)
  | LeaveRoom room =>
      '(st, r) ← on_client x st (fun c =>
         Some (hub_do now (hub.Leave (st_hub st) c room) st, AUnit)) AUnit; Some (x, st, r)
  | Get key =>
      '(st, r) ← on_client x st (fun c =>
         Some (st, AValue (MetaGet (w_clients (st_world st) !!! c) key))) (AValue None); Some (x, st, r)
  | Set_ key v =>
      '(st, r) ← on_client x st (fun c =>
         st ← wop (ONote c (NMeta key v)) st; Some (st, AUnit)) AUnit; Some (x, st, r)
  | SessionID_ =>
      '(st, r) ← on_client x st (fun c =>
         Some (st, AString (match client.session (w_clients (st_world st) !!! c) with
                            | Some p => s_id (w_sess (st_world st) !!! p)
                            | None => ""%string
                            end))) (AString ""); Some (x, st, r)
  | Resumed_ =>
      '(st, r) ← on_client x st (fun c =>
         Some (st, ABool (client.resumed (w_clients (st_world st) !!! c)))) (ABool false); Some (x, st, r)
  | Disconnect =>
      '(st, r) ← on_client x st (fun c => st ← wop (OClose c true) st; Some (st, AUnit)) AUnit;
      Some (x, st, r)
  end.

Fixpoint run_prog (now : Z) (p : prog) (x : Context) (st : state) : option (Context * state * outcome) :=
  match p with
  | Done o => Some (x, st, o)
  | Act act k => '(x, st, r) ← run_action now act x st; run_prog now (k r) x st
  end.

(** ** Middleware *)

Definition RunMiddleware (now : Z) (m : middleware) (x : Context) (st : state)
  : option (Context * state * outcome) :=
  match m with
  | RecoverMiddleware => Some (x, st, Returns)
  | MiddlewareFunc f => run_prog now (f x) x st
  | RateLimiter interval =>
      match ctx_client x with
      | None => Some (x, st, Returns)
      | Some c =>
          if interval <=? 0 then Some (x, st, Returns)
          else if bool_decide (ctx_event x = EventConnect \/ ctx_event x = EventDisconnect)
          then Some (x, st, Returns)
          else
            let limited := (AllowEvent (w_clients (st_world st) !!! c) interval now).2 in
            st ← wop (ONote c (NAllow interval now)) st;
            Some (x, st, match limited with Some _ => Fails | None => Returns end)
      end
  end.

Fixpoint runMiddlewares_loop (now : Z) (l : list middleware) (x : Context) (st : state)
  : option (Context * state * outcome) :=
  match l with
  | [] => Some (x, st, Returns)
  | m :: l' =>
      if isRecoverMiddleware m then runMiddlewares_loop now l' x st
      else
        '(x, st, o) ← RunMiddleware now m x st;
        match o with Returns => runMiddlewares_loop now l' x st | _ => Some (x, st, o) end
  end.
Definition runMiddlewares (now : Z) (x : Context) (st : state) := runMiddlewares_loop now (middlewares a) x st.

(** The middleware of a new connection runs under it. *)
Definition withRecover (o : outcome) : outcome :=
  match o with Panics => if hasRecover then Fails else Panics | _ => o end.

(** [Server.LoggerMiddleware] only prints. *)
Definition LoggerMiddleware : middleware := MiddlewareFunc (fun _ => Done Returns).

(** Callbacks run one after the other, each with a [recover] of its own. *)
Fixpoint run_recovered (now : Z) (l : list (Context -> prog)) (x : Context) (st : state)
  : option (Context * state) :=
  match l with
  | [] => Some (x, st)
  | f :: l' => '(x, st, _) ← run_prog now (f x) x st; run_recovered now l' x st
  end.
Fixpoint middlewares_recovered (now : Z) (l : list middleware) (x : Context) (st : state)
  : option (Context * state) :=
  match l with
  | [] => Some (x, st)
  | m :: l' =>
      if isRecoverMiddleware m then middlewares_recovered now l' x st
      else '(x, st, _) ← RunMiddleware now m x st; middlewares_recovered now l' x st
  end.

(** Callbacks with no [recover]: a panic escapes. *)
Fixpoint run_callbacks (now : Z) (l : list (Context -> prog)) (x : Context) (st : state)
  : option (Context * state) :=
  match l with
  | [] => Some (x, st)
  | f :: l' =>
      '(x, st, o) ← run_prog now (f x) x st;
      match o with Panics => Some (x, crash st) | _ => run_callbacks now l' x st end
  end.

(** ** Dispatching a message *)

Inductive dispatched :=
  | Malformed | Acked | Rejected | NoEvent | Duplicate | Handled | NoHandler
  | Panicked               (* the handler did *)
  | MiddlewarePanicked.

Definition handleAck (p : sptr) (payload : bytes) (st : state) : option state :=
  match UnmarshalSeq payload with Some n => wop (OAck p n) st | None => Some st end.

(** [exec] of [dispatch], after the middleware. *)
Definition dispatch_event (now : Z) (sess : option sptr) (msg : ClientWireMessage) (x : Context)
    (st : state) : option (state * dispatched) :=
  let handle st :=
    match handlers a (Event msg) with
    | None => Some (st, NoHandler)
    | Some h =>
        '(_, st, o) ← run_prog now (h x) x st;
        Some (st, match o with Panics => Panicked | _ => Handled end)
    end in
  if bool_decide (Event msg = ""%string) then Some (st, NoEvent)
  else match sess with
       | Some p =>
           if bool_decide (IdempotencyKey msg = ""%string) then handle st
           else
             '(_, ok) ← ClaimKey (w_sess (st_world st) !!! p) (IdempotencyKey msg);
             st ← wop (OClaim p (IdempotencyKey msg)) st;
             if ok : bool then handle st
             else st ← wop ODuplicate st; Some (st, Duplicate)
       | None => handle st
       end.

Definition dispatch (now : Z) (c : cptr) (raw : bytes) (st : state) : option (state * dispatched) :=
  match Unmarshal raw with
  | None => Some (st, Malformed)
  | Some msg =>
      let sess := client.session (w_clients (st_world st) !!! c) in
      match sess, bool_decide (Event msg = EventAck) with
      | Some p, true => st ← handleAck p (Payload msg) st; Some (st, Acked)
      | _, _ =>
          let st := set_counts st (i64 (st_total st + 1)) (st_ever st) (st_byID st) in
          let x := newContext (Some c) (Event msg) (Payload msg) (Room msg) (ID msg) in
          '(x, st, o) ← runMiddlewares now x st;
          '(st, d) ← match o with
                     | Returns => dispatch_event now sess msg x st
                     | Fails => Some (st, Rejected)
                     | Panics => Some (st, MiddlewarePanicked)
                     end;
          match d with
          | Panicked | MiddlewarePanicked =>
              if hasRecover then st ← wop (OClose c true) st; Some (st, d) else Some (crash st, d)
          | _ => Some (st, d)
          end
      end
  end.

(** ** Sessions *)

Definition releaseSession (now : Z) (r : sptr * ReleaseReason) (st : state) : state :=
  let '(p, why) := r in
  let s := w_sess (st_world st) !!! p in
  let st := match s_member s with
            | Some m => hub_do now (hub.Unregister (st_hub st) m) st
            | None => st
            end in
  match why with
  | ReleaseReplaced => st
  | _ => add_expired st (mkInfo (s_id s)
           (match s_member s with Some m => client.id (w_clients (st_world st) !!! m) | None => ""%string end)
           (s_owner s))
  end.
Definition releases (now : Z) (l : list (sptr * ReleaseReason)) (st : state) : state :=
  fold_left (fun st r => releaseSession now r st) l st.

(** [OwnerFunc] is application code and runs first; nothing recovers its panic. *)
Definition openSession (now : Z) (c : cptr) (r : option HttpRequest) (newID : string) (st : state)
  : option (state * outcome) :=
  match resumeRequest (a_owner a) r with
  | None => Some (st, Panics)
  | Some req =>
      '(_, res, rel) ← Open (st_world st) c req now newID;
      st ← wop (OOpen c req now newID) st;
      let st := releases now rel st in
      st ← wop (ONote c (NResumed (r_Resumed res))) st;
      st ← match r_Prev res with
           | Some prev =>
               st ← wop (ONote c (NCopyMeta prev)) st;
               Some (hub_do now (hub.Transfer (st_hub st) (Some prev) (Some c)) st)
           | None => Some st
           end;
      st ← match r_Displaced res with
           | Some d => wop (OClose d false) st
           | None => Some st
           end;
      Some (st, Returns)
  end.

(** ** Connections *)

Definition client_options (id : string) : ClientOptions :=
  let cfg := a_cfg a in
  client.mkOptions id (MaxMessageSize cfg) (WriteWait cfg) (PingInterval cfg) (PongWait cfg)
    (WriteBufferSize cfg).

(** [c] is the object [NewClient] returns and [id] its random name. *)
Definition serveTransport (now : Z) (c : cptr) (id : string) (r : option HttpRequest)
    (newID : string) (st : state) : option state :=
  let st := set_conns st (i64 (st_conns st + 1)) in
  st ← wop (ONew c (client_options id) now) st;
  let st := hub_do now (hub.Register (st_hub st) c) st in
  let x := newContext (Some c) EventConnect [] "" "" in
  '(x, st, o) ← runMiddlewares now x st;
  match withRecover o with
  | Returns =>
      let st := set_counts st (st_total st) (i64 (st_ever st + 1)) (<[id := c]> (st_byID st)) in
      '(st, o) ← (if recovery_on then openSession now c r newID st else Some (st, Returns));
      match o with
      | Panics => Some (crash st)
      | _ => '(_, st) ← run_callbacks now (onConnect a) x st; Some st
      end
  | Fails =>
      let st := set_conns st (i64 (st_conns st - 1)) in
      wop (OClose c true) (hub_do now (hub.Unregister (st_hub st) c) st)
  | Panics => Some (crash st)
  end.

(** [serveWS] and [attachPollTransport] first test whether a new connection is
    welcome. Between the tests and [serveTransport], which for a WebSocket lie
    the handshake and the client's answer apart, other goroutines run: the
    admission is an event of its own. *)
Definition welcome (st : state) : state :=
  if st_closed st then st
  else if MaxConnections (a_cfg a) <=? st_conns st then st
  else set_admitted st (S (st_admitted st)).

(** An admitted connection is served, *)
Definition attach (now : Z) (c : cptr) (id : string) (r : option HttpRequest) (newID : string)
    (st : state) : option state :=
  match st_admitted st with
  | O => Some st
  | S n => serveTransport now c id r newID (set_admitted st n)
  end.

(** or its handshake fails. *)
Definition abandon (st : state) : state := set_admitted st (pred (st_admitted st)).

(** The end of the read pump: [retire], [closeRaw], [onDone]. *)
Definition retire (now : Z) (c : cptr) (st : state) : option state :=
  match client.session (w_clients (st_world st) !!! c) with
  | None => Some (hub_do now (hub.Unregister (st_hub st) c) st)
  | Some p =>
      '(_, res, rel) ← Leave (st_world st) p c (negb (noResume (w_clients (st_world st) !!! c))) now;
      st ← wop (OLeave p c now) st;
      let st := releases now rel st in
      Some (match res with
            | LeaveParked | LeaveDisplaced => st
            | LeaveGone => hub_do now (hub.Unregister (st_hub st) c) st
            end)
  end.

Definition fireDisconnect (now : Z) (c : cptr) (st : state) : option state :=
  let x := newContext (Some c) EventDisconnect [] "" "" in
  '(x, st) ← middlewares_recovered now (middlewares a) x st;
  '(_, st) ← run_recovered now (onDisconnect a) x st;
  Some st.
Definition fireHeartbeatTimeout (now : Z) (c : cptr) (st : state) : option state :=
  '(_, st) ← run_recovered now (onHeartbeatTimeout a) (newContext (Some c) "" [] "" "") st; Some st.

Definition read_end (now : Z) (c : cptr) (zombie : bool) (st : state) : option state :=
  st ← (if zombie then fireHeartbeatTimeout now c st else Some st);
  st ← retire now c st;
  st ← wop (OClose c false) st;
  let id := client.id (w_clients (st_world st) !!! c) in
  let st := set_conns st (i64 (st_conns st - 1)) in
  let st := set_counts st (st_total st) (st_ever st) (delete id (st_byID st)) in
  fireDisconnect now c st.

(** ** The other goroutines *)

(** The hub takes the oldest job; [order] is the order of its map iteration. *)
Definition hub_step (order : list cptr) (st : state) : option state :=
  match recv (hub.emit (st_hub st)) with
  | Received e ch =>
      let st := set_hub st (hub.set_emit (st_hub st) ch) in
      '(w, slow) ← hub.emitToTargets (st_world st) (st_hub st) e order;
      let st := set_world st w (len order) in
      Some (set_slow st (st_slow st ++ slow))
  | RecvClosed | RecvBlocks => Some st
  end.

(** A slow consumer is shut down. *)
Definition slow_step (st : state) : option state :=
  match st_slow st with
  | [] => Some st
  | c :: l => wop (OClose c false) (set_slow st l)
  end.

(** The write pump took a frame and the transport accepted it. *)
Definition write_step (now : Z) (c : cptr) (st : state) : option state :=
  match next_frame (w_clients (st_world st) !!! c) with
  | None => Some st
  | Some (f, _) => st ← wop (OPump c) st; wop (ONote c (NSent (len f) now)) st
  end.

Definition sweep_step (now : Z) (st : state) : option state :=
  '(_, rel) ← Sweep (st_world st) now;
  st ← wop (OSweep now) st;
  Some (releases now rel st).

(** [Shutdown]: no new connections, and the hub drains and closes. *)
Definition Shutdown (st : state) : option state :=
  let st := set_closed st in
  if hub.closed (st_hub st) then Some st
  else
    '(w, h) ← hub.drainAndCloseAll (st_world st) (st_hub st);
    Some (set_hub (set_world st w 0) h).

(** What [ShutdownWithMessage] does before it sleeps and shuts down. *)
Definition announce (event : string) (data : option jval) (st : state) : state :=
  let st := set_closed st in
  match data with
  | None => st
  | Some v =>
      let b := Marshal (mkServerMessage event v "" 0 "") in
      set_hub st (hub.Emit (st_hub st) (hub.mkJob "" event None None true b PolicyDisconnect))
  end.

(** ** Runs *)

Inductive event :=
  | EvAdmit
  | EvAbandon
  | EvConnect (now : Z) (c : cptr) (id : string) (r : option HttpRequest) (newID : string)
  | EvMessage (now : Z) (c : cptr) (raw : bytes)
  | EvReadEnd (now : Z) (c : cptr) (zombie : bool)
  | EvWrite (now : Z) (c : cptr)
  | EvHub (order : list cptr)
  | EvSlow
  | EvSweep (now : Z)
  | EvMissed (c : cptr) | EvPong (c : cptr)
  | EvAnnounce (event : string) (data : option jval)
  | EvShutdown.

Definition step (e : event) (st : state) : option state :=
  match e with
  | EvAdmit => Some (welcome st)
  | EvAbandon => Some (abandon st)
  | EvConnect now c id r newID => attach now c id r newID st
  | EvMessage now c raw =>
      st ← wop (ONote c (NReceived (len raw) now)) st;
      '(st, _) ← dispatch now c raw st; Some st
  | EvReadEnd now c zombie => read_end now c zombie st
  | EvWrite now c => write_step now c st
  | EvHub order => hub_step order st
  | EvSlow => slow_step st
  | EvSweep now => sweep_step now st
  | EvMissed c => wop (ONote c NMissedPong) st
  | EvPong c => wop (ONote c NPong) st
  | EvAnnounce event data => Some (announce event data st)
  | EvShutdown => Shutdown st
  end.

Fixpoint run (l : list event) (st : state) : option state :=
  match l with
  | [] => Some st
  | e :: l' => st ← step e st; if st_crashed st then Some st else run l' st
  end.

End server.
End server.
