(* ===== verification/Frame.v ===== *)
(** * What application code can do to the server

    Middleware, handlers and callbacks reach the server through the methods of
    a context, so what they do to its state is a sequence of a few steps. A
    relation between states that holds for each of these steps ([Frame]) holds
    for any program, any middleware chain and any message. *)
From S2P Require Import Prelude.
From S2P Require Import GoStd.
From S2P Require Import Json.
From S2P Require Import Replay.
From S2P Require Import Client.
From S2P Require Import Session.
From S2P Require Import SessionStore.
From S2P Require Import Registry.
From S2P Require Import Hub.
From S2P Require Import Config.
From S2P Require Import Server.

Module frame.
Import client session store registry config server.

(** The registry operations that neither open, end nor sweep a session. *)
Definition app_op (i : op) : bool :=
  match i with ONew _ _ _ | OOpen _ _ _ _ | OLeave _ _ _ | OSweep _ => false | _ => true end.

Class Frame (R : state -> state -> Prop) : Prop := {
  fr_pre :: PreOrder R;
  fr_wop i st st' : app_op i = true -> wop i st = Some st' -> R st st';
  fr_join now c room st : R st (hub_do now (hub.Join (st_hub st) c room) st);
  fr_leave now c room st : R st (hub_do now (hub.Leave (st_hub st) c room) st);
  fr_emit job st : R st (set_hub st (hub.Emit (st_hub st) job));
  fr_slow l st : R st (set_slow st l);
  fr_total n st : R st (set_counts st n (st_ever st) (st_byID st))
}.

(** [dispatch] of a message that is not an acknowledgement. *)
Definition process (a : app) (now : Z) (c : cptr) (sess : option sptr) (msg : ClientWireMessage) (st : state)
  : option (state * dispatched) :=
  '(x, st, o) ← runMiddlewares a now (newContext (Some c) (Event msg) (Payload msg) (Room msg) (ID msg))
    (set_counts st (i64 (st_total st + 1)) (st_ever st) (st_byID st));
  '(st, d) ← match o with
             | Returns => dispatch_event a now sess msg x st
             | Fails => Some (st, Rejected)
             | Panics => Some (st, MiddlewarePanicked)
             end;
  match d with
  | Panicked | MiddlewarePanicked =>
      if hasRecover a then st ← wop (OClose c true) st; Some (st, d) else Some (crash st, d)
  | _ => Some (st, d)
  end.

Lemma dispatch_eq a now c raw st : dispatch a now c raw st =
  match Unmarshal raw with
  | None => Some (st, Malformed)
  | Some msg =>
      let sess := client.session (w_clients (st_world st) !!! c) in
      match sess, bool_decide (Event msg = EventAck) with
      | Some p, true => st ← handleAck p (Payload msg) st; Some (st, Acked)
      | _, _ => process a now c sess msg st
      end
  end.
Proof. done. Qed.

Section frame.
Context {R : state -> state -> Prop} `{Frame R}.
Variable a : app.

Lemma emitOne_frame ic ev data ack opts st st' b : emitOne a ic ev data ack opts st = Some (st', b) ->
  R st st'.
Proof.
  unfold emitOne. destruct ic as [c|]; [|by intros [= <- _]]. destruct data as [v|]; [|by intros [= <- _]].
  destruct (TrySendPolicy _ _ _ _ _) as [[? ok]|]; [|done]. cbn [mbind option_bind].
  destruct (wop _ st) as [st1|] eqn:E; [|done]. apply fr_wop in E; [|done]. intros [= <- _].
  destruct ok; [done|]. etrans; [exact E|apply fr_slow].
Qed.

Lemma emitRoom_frame room ev data ack ex opts st : R st (emitRoom a room ev data ack ex opts st).1.
Proof. unfold emitRoom. destruct (bool_decide _); [done|]. destruct data; [apply fr_emit|done]. Qed.

Lemma run_action_frame now act x st x' st' r : run_action a now act x st = Some (x', st', r) -> R st st'.
Proof.
  destruct act as [ev data opts|room ev data opts|room ev data opts|room|room|key|key v| | |];
    cbn [run_action]; unfold on_client.
  - destruct (consumeAck x) as [y ack]. destruct (emitOne _ _ _ _ _ _ _) as [[st1 b]|] eqn:E; [|done].
    intros [= _ <- _]. by eapply emitOne_frame.
  - destruct (consumeAck x) as [y ack]. pose proof (emitRoom_frame room ev data ack None opts st).
    destruct (emitRoom _ _ _ _ _ _ _ _) as [st1 b]. by intros [= _ <- _].
  - destruct (consumeAck x) as [y ack]. pose proof (emitRoom_frame room ev data ack (ctx_client y) opts st).
    destruct (emitRoom _ _ _ _ _ _ _ _) as [st1 b]. by intros [= _ <- _].
  - destruct (ctx_client x) as [c|]; [|by intros [= _ <- _]]. pose proof (fr_join now c room st) as Hj. revert Hj.
    generalize (hub.Join (st_hub st) c room). by intros q Hq [= _ <- _].
  - destruct (ctx_client x) as [c|]; [|by intros [= _ <- _]]. pose proof (fr_leave now c room st) as Hj. revert Hj.
    generalize (hub.Leave (st_hub st) c room). by intros q Hq [= _ <- _].
  - by destruct (ctx_client x); intros [= _ <- _].
  - destruct (ctx_client x); [|by intros [= _ <- _]]. destruct (wop _ st) eqn:E; [|done].
    intros [= _ <- _]. by apply fr_wop in E.
  - by destruct (ctx_client x); intros [= _ <- _].
  - by destruct (ctx_client x); intros [= _ <- _].
  - destruct (ctx_client x); [|by intros [= _ <- _]]. destruct (wop _ st) eqn:E; [|done].
    intros [= _ <- _]. by apply fr_wop in E.
Qed.

Lemma run_prog_frame now p x st x' st' r : run_prog a now p x st = Some (x', st', r) -> R st st'.
Proof.
  revert x st. induction p as [r'|act k IH]; intros x st; cbn [run_prog]; [by intros [= _ <- _]|].
  destruct (run_action _ _ _ _ _) as [[[x1 st1] r1]|] eqn:E; [|done]. cbn [mbind option_bind].
  intros H1%IH. etrans; [by eapply run_action_frame|done].
Qed.

Lemma RunMiddleware_frame now m x st x' st' r : RunMiddleware a now m x st = Some (x', st', r) -> R st st'.
Proof.
  destruct m as [|interval|f]; cbn [RunMiddleware]; [by intros [= _ <- _]| |by apply run_prog_frame].
  destruct (ctx_client x) as [c|]; [|by intros [= _ <- _]]. destruct (_ <=? 0); [by intros [= _ <- _]|].
  destruct (bool_decide _); [by intros [= _ <- _]|]. destruct (wop _ st) eqn:E; [|done].
  intros [= _ <- _]. by apply fr_wop in E.
Qed.

Lemma runMiddlewares_loop_frame now l x st x' st' r :
  runMiddlewares_loop a now l x st = Some (x', st', r) -> R st st'.
Proof.
  revert x st. induction l as [|m l IH]; intros x st; cbn [runMiddlewares_loop]; [by intros [= _ <- _]|].
  destruct (isRecoverMiddleware m); [apply IH|].
  destruct (RunMiddleware _ _ _ _ _) as [[[x1 st1] r1]|] eqn:E; [|done]. apply RunMiddleware_frame in E.
  cbn [mbind option_bind]. destruct r1; [|by intros [= _ <- _]..]. intros H1%IH. by etrans.
Qed.

Lemma middlewares_recovered_frame now l x st x' st' :
  middlewares_recovered a now l x st = Some (x', st') -> R st st'.
Proof.
  revert x st. induction l as [|m l IH]; intros x st; cbn [middlewares_recovered]; [by intros [= _ <-]|].
  destruct (isRecoverMiddleware m); [apply IH|].
  destruct (RunMiddleware _ _ _ _ _) as [[[x1 st1] r1]|] eqn:E; [|done]. apply RunMiddleware_frame in E.
  cbn [mbind option_bind]. intros H1%IH. by etrans.
Qed.

Lemma run_recovered_frame now l x st x' st' : run_recovered a now l x st = Some (x', st') -> R st st'.
Proof.
  revert x st. induction l as [|f l IH]; intros x st; cbn [run_recovered]; [by intros [= _ <-]|].
  destruct (run_prog _ _ _ _ _) as [[[x1 st1] r1]|] eqn:E; [|done]. apply run_prog_frame in E.
  cbn [mbind option_bind]. intros H1%IH. by etrans.
Qed.

Lemma fireDisconnect_frame now c st st' : fireDisconnect a now c st = Some st' -> R st st'.
Proof.
  unfold fireDisconnect. destruct (middlewares_recovered _ _ _ _ _) as [[x1 st1]|] eqn:E1; [|done].
  cbn [mbind option_bind]. destruct (run_recovered _ _ _ _ _) as [[x2 st2]|] eqn:E2; [|done].
  intros [= <-]. etrans; [by eapply middlewares_recovered_frame|by eapply run_recovered_frame].
Qed.

Lemma fireHeartbeatTimeout_frame now c st st' : fireHeartbeatTimeout a now c st = Some st' -> R st st'.
Proof.
  unfold fireHeartbeatTimeout. destruct (run_recovered _ _ _ _ _) as [[x s]|] eqn:E; [|done].
  intros [= <-]. by eapply run_recovered_frame.
Qed.

Lemma heartbeat_frame now c (zombie : bool) st st' :
  (if zombie then fireHeartbeatTimeout a now c st else Some st) = Some st' -> R st st'.
Proof. destruct zombie; [apply fireHeartbeatTimeout_frame|by intros [= <-]]. Qed.

(** Callbacks without a [recover] may end in a panic. *)
Definition or_crash (st st' : state) : Prop := R st st' \/ exists st1, R st st1 /\ st' = crash st1.

Lemma run_callbacks_frame now l x st x' st' : run_callbacks a now l x st = Some (x', st') -> or_crash st st'.
Proof.
  revert x st. induction l as [|f l IH]; intros x st; cbn [run_callbacks]; [by intros [= _ <-]; left|].
  destruct (run_prog _ _ _ _ _) as [[[x1 st1] r1]|] eqn:E; [|done]. apply run_prog_frame in E.
  cbn [mbind option_bind]. intros Hc. destruct r1.
  1,2: apply IH in Hc as [Hc|(st2 & Hc & ->)]; [left; by etrans|right; exists st2; split; [by etrans|done]].
  injection Hc as _ <-. right. by exists st1.
Qed.

Lemma dispatch_event_frame now sess msg x st st' d :
  dispatch_event a now sess msg x st = Some (st', d) -> R st st'.
Proof.
  unfold dispatch_event. assert (forall st1, R st st1 ->
    match handlers a (Event msg) with
    | None => Some (st1, NoHandler)
    | Some h => '(_, st2, o) ← run_prog a now (h x) x st1;
        Some (st2, match o with Panics => Panicked | _ => Handled end)
    end = Some (st', d) -> R st st') as Hh.
  { intros st1 H1. destruct (handlers a (Event msg)) as [h|]; [|by intros [= <- _]].
    destruct (run_prog _ _ _ _ _) as [[[x2 st2] r]|] eqn:E; [|done]. intros [= <- _].
    etrans; [exact H1|by eapply run_prog_frame]. }
  destruct (bool_decide (Event msg = _)); [by intros [= <- _]|]. destruct sess as [p|]; [|by apply Hh].
  destruct (bool_decide _); [by apply Hh|]. destruct (ClaimKey _ _) as [[s ok]|]; [|done]. cbn [mbind option_bind].
  destruct (wop _ st) as [st1|] eqn:E1; [|done]. apply fr_wop in E1; [|done]. cbn [mbind option_bind].
  destruct ok; [by apply Hh|]. destruct (wop _ st1) as [st2|] eqn:E2; [|done]. intros [= <- _].
  etrans; [exact E1|by eapply fr_wop; [|exact E2]].
Qed.

(** A panic that nobody recovers escapes. *)
Definition or_unrecovered (st st' : state) : Prop :=
  R st st' \/ hasRecover a = false /\ exists st1, R st st1 /\ st' = crash st1.

Lemma process_frame now c sess msg st st' d : process a now c sess msg st = Some (st', d) ->
  or_unrecovered st st'.
Proof.
  unfold process. set (st0 := set_counts _ _ _ _). assert (R st st0) as H0 by apply fr_total.
  destruct (runMiddlewares _ _ _ _) as [[[x st1] o]|] eqn:E1; [|done]. cbn [mbind option_bind].
  apply runMiddlewares_loop_frame in E1.
  destruct (match o with Returns => _ | _ => _ end) as [[st2 d2]|] eqn:E2; [|done]. cbn [mbind option_bind].
  assert (R st st2) as H2.
  { do 2 (etrans; [eassumption|]). destruct o; [|by injection E2 as <- _..]. by eapply dispatch_event_frame. }
  destruct d2; try (intros [= <- _]; by left); destruct (hasRecover a) eqn:Hr.
  1,3: destruct (wop _ st2) as [st3|] eqn:E3; [|done]; intros [= <- _]; left;
    etrans; [exact H2|by eapply fr_wop; [|exact E3]].
  all: intros [= <- _]; right; split; [done|]; by exists st2.
Qed.

Lemma dispatch_frame now c raw st st' d : dispatch a now c raw st = Some (st', d) -> or_unrecovered st st'.
Proof.
  rewrite dispatch_eq. destruct (Unmarshal raw) as [msg|]; [|by intros [= <- _]; left].
  cbv zeta. destruct (client.session _) as [p|]; [|by apply process_frame].
  destruct (bool_decide _); [|by apply process_frame].
  unfold handleAck. destruct (UnmarshalSeq _); [|intros [= <- _]; by left].
  destruct (wop _ st) as [st1|] eqn:E1; [|done]. intros [= <- _]. left. by eapply fr_wop; [|exact E1].
Qed.

(** The events that are no more than that. *)
Lemma write_step_frame now c st st' : write_step now c st = Some st' -> R st st'.
Proof.
  unfold write_step. destruct (next_frame _) as [[f cl]|]; [|by intros [= <-]].
  destruct (wop (OPump c) st) as [st1|] eqn:E1; [|done]. apply fr_wop in E1; [|done].
  cbn [mbind option_bind]. intros E2. etrans; [exact E1|by eapply fr_wop; [|exact E2]].
Qed.

Lemma slow_step_frame st st' : slow_step st = Some st' -> R st st'.
Proof.
  unfold slow_step. destruct (st_slow st) as [|c l]; [by intros [= <-]|]. intros E.
  etrans; [apply (fr_slow l)|by eapply fr_wop; [|exact E]].
Qed.
End frame.

End frame.
