(* ===== verification/ServerTables.v ===== *)
(** * The server's own tables

    The connection counter, the table of connections by identity, and the
    panics of application code. These need nothing of the registry but that a
    client keeps its identity. *)
From S2P Require Import Prelude.
From S2P Require Import GoStd.
From S2P Require Import Json.
From S2P Require Import Replay.
From S2P Require Import Client.
From S2P Require Import Session.
From S2P Require Import SessionStore.
From S2P Require Import Registry.
From S2P Require Import Hub.
From S2P Require Import Config.
From S2P Require Import Server.
From S2P Require Import Frame.

Module tables.
Import client session store registry config server frame.

(** ** A client keeps its identity *)

Definition same_ids (cs cs' : gmap cptr Client) : Prop :=
  forall c, client.id (cs' !!! c) = client.id (cs !!! c).

Lemma same_ids_refl cs : same_ids cs cs.
Proof. by intros c. Qed.
Lemma same_ids_trans cs1 cs2 cs3 : same_ids cs1 cs2 -> same_ids cs2 cs3 -> same_ids cs1 cs3.
Proof. intros H1 H2 c. by rewrite H2. Qed.
Lemma same_ids_insert cs c cl : client.id cl = client.id (cs !!! c) -> same_ids cs (<[c := cl]> cs).
Proof.
  intros E c'. destruct (decide (c = c')) as [<-|Hne].
  - by rewrite lookup_total_insert_eq.
  - by rewrite lookup_total_insert_ne.
Qed.

Lemma enqueue_id cl d cl' r : enqueue cl d = (cl', r) -> client.id cl' = client.id cl.
Proof. unfold enqueue. by destruct (try_send _ _); intros [= <- _]. Qed.

Lemma closeRaw_id cl cl' : closeRaw cl = Some cl' -> client.id cl' = client.id cl.
Proof.
  unfold closeRaw. destruct (shutdownDone cl); [by intros [= <-]|].
  destruct (close_chan _); [|done]. by intros [= <-].
Qed.

Lemma next_frame_id cl f cl' : next_frame cl = Some (f, cl') -> client.id cl' = client.id cl.
Proof.
  unfold next_frame. destruct (client.replay cl); [|by intros [= _ <-]].
  destruct (recv _); by intros [= _ <-].
Qed.

Lemma noted_id w cl n : client.id (noted w cl n) = client.id cl.
Proof.
  destruct n; try done. cbn [noted]. unfold AllowEvent. destruct (_ <=? 0); [done|].
  destruct (lastEvent cl); [|done]. by destruct (_ <? _).
Qed.

Lemma deliver_ids cs s d pol cs' s' ok : deliver cs s d pol = Some (cs', s', ok) -> same_ids cs cs'.
Proof.
  unfold deliver, upd_client. destruct (decide _); [intros [= <- _ _]; apply same_ids_refl|].
  destruct (s_live s) as [c|], (s_stalled s).
  2: {
    destruct (decide (pol = PolicyVolatile)).
    - destruct (enqueue _ _) as [cl r] eqn:E. apply enqueue_id in E.
      destruct r; intros [= <- _ _]; by apply same_ids_insert.
    - destruct (enqueue _ _) as [cl r] eqn:E. apply enqueue_id in E.
      destruct r; [|destruct (decide (pol = PolicyDrop))|];
        try (destruct (commit _ _ _); [|done]); intros [= <- _ _]; by apply same_ids_insert. }
  all: destruct (decide (pol = PolicyVolatile)); [|destruct (commit _ _ _); [|done]];
    intros [= <- _ _]; apply same_ids_refl.
Qed.

Lemma unlink_clients w p : w_clients (unlink w p) = w_clients w.
Proof. unfold unlink. by destruct (s_elem _). Qed.
Lemma removeLocked_clients w p : w_clients (removeLocked w p) = w_clients w.
Proof. unfold removeLocked. by rewrite unlink_clients. Qed.

Lemma evict_loop_clients n w l w' l' : evict_loop n w l = Some (w', l') -> w_clients w' = w_clients w.
Proof.
  revert w l. induction n as [|n IH]; intros w l; cbn [evict_loop];
    (destruct (_ <? _); [|by intros [= <- _]]); [done|].
  destruct (store.parked _) as [|[e v] q]; [done|]. intros E%IH. by rewrite E, removeLocked_clients.
Qed.

Lemma sweep_loop_clients n w now l w' l' : sweep_loop n w now l = Some (w', l') ->
  w_clients w' = w_clients w.
Proof.
  revert w l. induction n as [|n IH]; intros w l; cbn [sweep_loop];
    (destruct (store.parked _) as [|[e v] q]; [by intros [= <- _]|]);
    (destruct (_ <? _); [|by intros [= <- _]]); [done|].
  intros E%IH. by rewrite E, removeLocked_clients.
Qed.

Lemma Leave_ids w p c r now w' res rel : Leave w p c r now = Some (w', res, rel) ->
  same_ids (w_clients w) (w_clients w').
Proof.
  unfold Leave. destruct (decide _); [intros [= <- _ _]; apply same_ids_refl|].
  destruct (decide _); [intros [= <- _ _]; apply same_ids_refl|].
  destruct (negb r).
  - intros [= <- _ _]. rewrite removeLocked_clients. apply same_ids_refl.
  - destruct (evict_loop _ _ _) as [[w1 l]|] eqn:E; [|done]. apply evict_loop_clients in E.
    intros [= <- _ _]. rewrite E. by apply same_ids_insert.
Qed.

Lemma open_fresh_ids w c owner newID reason w' res : open_fresh w c owner newID reason = (w', res) ->
  same_ids (w_clients w) (w_clients w').
Proof.
  unfold open_fresh. destruct (bool_decide _); intros [= <- _]; [apply same_ids_refl|].
  by apply same_ids_insert.
Qed.

Lemma Open_ids w c req now newID w' res rel : Open w c req now newID = Some (w', res, rel) ->
  same_ids (w_clients w) (w_clients w').
Proof.
  unfold Open. assert (forall w1 reason l, w_clients w1 = w_clients w ->
    (let '(w, res) := open_fresh w1 c (Owner req) newID reason in Some (w, res, l))
      = Some (w', res, rel) -> same_ids (w_clients w) (w_clients w')) as Hf.
  { intros w1 reason l E. destruct (open_fresh _ _ _ _ _) as [w2 res2] eqn:Ho.
    intros [= <- _ _]. rewrite <- E. by apply open_fresh_ids in Ho. }
  destruct (Invalid req); [by apply Hf|]. destruct (Requested req); [|by apply Hf].
  destruct (_ !! _) as [p|]; [|by apply Hf].
  destruct (verdict _ _ _ _) as [reason kill]. destruct (bool_decide _).
  - destruct (attachLocked _ _ _ _) as [[w1 res1]|] eqn:Ha; [|done]. intros [= <- _ _].
    unfold attachLocked in Ha. destruct (replay.ackUpTo _ _); [|done].
    cbn [mbind option_bind] in Ha. injection Ha as <- _. cbn [set_store w_clients set_clients].
    rewrite unlink_clients. by apply same_ids_insert.
  - destruct kill; [|by apply Hf]. apply Hf. by rewrite removeLocked_clients.
Qed.

Lemma exec_ids w i w' : exec w i = Some w' -> (forall c o now, i <> ONew c o now) ->
  same_ids (w_clients w) (w_clients w').
Proof.
  intros He Hn. destruct i as [c o now|c req now newID|c data pol|q n|q key|c|c tm|q c now|now|c n|];
    cbn [exec] in He.
  - by destruct (Hn c o now).
  - destruct (Open _ _ _ _ _) as [[[w2 res] rel]|] eqn:HO; [|done]. injection He as <-. by eapply Open_ids.
  - unfold TrySendPolicy in He. destruct (client.session _) as [p|].
    + destruct (deliver _ _ _ _) as [[[cs s'] ok]|] eqn:Hd; [|done]. injection He as <-. by eapply deliver_ids.
    + destruct (enqueue _ _) as [cl r] eqn:E. apply enqueue_id in E.
      destruct r; [|destruct (decide _)|]; injection He as <-; by apply same_ids_insert.
  - destruct (Ack _ _); [|done]. injection He as <-. apply same_ids_refl.
  - destruct (ClaimKey _ _) as [[? ?]|]; [|done]. injection He as <-. apply same_ids_refl.
  - destruct (next_frame _) as [[f cl]|] eqn:E; injection He as <-; [|apply same_ids_refl].
    apply same_ids_insert. by eapply next_frame_id.
  - destruct (shutdown_call _ _) as [cl|] eqn:E; [|done]. injection He as <-. apply same_ids_insert.
    by destruct tm; apply closeRaw_id in E.
  - destruct (Leave _ _ _ _ _) as [[[w2 res] rel]|] eqn:HL; [|done]. injection He as <-. by eapply Leave_ids.
  - unfold Sweep in He. destruct (sweep_loop _ _ _ _) as [[w2 l]|] eqn:E; [|done]. injection He as <-.
    rewrite (sweep_loop_clients _ _ _ _ _ _ E). apply same_ids_refl.
  - injection He as <-. apply same_ids_insert, noted_id.
  - injection He as <-. apply same_ids_refl.
Qed.

(** ** What application code cannot change *)

Record kept (st st' : state) : Prop := {
  kp_conns : st_conns st' = st_conns st;
  kp_byID : st_byID st' = st_byID st;
  kp_crashed : st_crashed st' = st_crashed st;
  kp_closed : st_closed st' = st_closed st;
  kp_admitted : st_admitted st' = st_admitted st;
  kp_ids : same_ids (w_clients (st_world st)) (w_clients (st_world st'))
}.

Lemma kept_refl st : kept st st.
Proof. constructor; try done. Qed.
Lemma kept_trans st1 st2 st3 : kept st1 st2 -> kept st2 st3 -> kept st1 st3.
Proof.
  intros [A1 A2 A3 A4 A5 A6] [B1 B2 B3 B4 B5 B6]. constructor; [congruence..|by eapply same_ids_trans].
Qed.
#[local] Hint Resolve kept_refl : core.

Lemma wop_kept i st st' : (forall c o now, i <> ONew c o now) -> wop i st = Some st' -> kept st st'.
Proof.
  intros Hn. unfold wop. destruct (exec _ _) as [w|] eqn:E; [|done]. intros [= <-].
  constructor; try done. by eapply exec_ids.
Qed.

Lemma hub_do_kept now r st : kept st (hub_do now r st).
Proof. destruct r; [|done]. constructor; try done. Qed.

Lemma releases_kept now l st : kept st (releases now l st).
Proof.
  unfold releases. revert st. induction l as [|[p why] l IH]; intros st; cbn [fold_left]; [done|].
  eapply kept_trans; [|apply IH]. unfold releaseSession.
  assert (forall m, kept st (match m with
    | Some m => hub_do now (hub.Unregister (st_hub st) m) st | None => st end)) as H.
  { intros [m|]; [apply hub_do_kept|done]. }
  set (m := s_member _). specialize (H m). destruct why; try exact H;
    (eapply kept_trans; [exact H|]); constructor; try done; apply same_ids_refl.
Qed.

#[export] Instance kept_frame : Frame kept.
Proof.
  split.
  - split; [exact kept_refl|exact kept_trans].
  - intros i st st' Hi. apply wop_kept. intros c o now ->. done.
  - intros. apply hub_do_kept.
  - intros. apply hub_do_kept.
  - by constructor.
  - by constructor.
  - by constructor.
Qed.

Section app.
Variable a : app.

(** ** Events *)

(** The tables stay as they are, or a panic escapes. *)
Definition still (st st' : state) : Prop :=
  st_conns st' = st_conns st /\ st_byID st' = st_byID st /\ st_admitted st' = st_admitted st /\
  same_ids (w_clients (st_world st)) (w_clients (st_world st')).

Lemma kept_still st st' : kept st st' -> still st st'.
Proof. intros []. done. Qed.
Lemma still_trans st1 st2 st3 : still st1 st2 -> still st2 st3 -> still st1 st3.
Proof.
  intros (A1 & A2 & A3 & A4) (B1 & B2 & B3 & B4). split_and!; [congruence..|by eapply same_ids_trans].
Qed.

(** No callback of this list panics. *)
Inductive calm_prog : prog -> Prop :=
  | calm_done r : r <> Panics -> calm_prog (Done r)
  | calm_act act k : (forall r, calm_prog (k r)) -> calm_prog (Act act k).

Lemma calm_prog_run now p x st x' st' r : calm_prog p -> run_prog a now p x st = Some (x', st', r) ->
  r <> Panics.
Proof.
  intros Hp. revert x st. induction Hp as [r' Hr|act k _ IH]; intros x st; cbn [run_prog];
    [by intros [= _ _ <-]|].
  destruct (run_action _ _ _ _ _) as [[[x1 st1] r1]|]; [|done]. cbn [mbind option_bind]. apply IH.
Qed.

Lemma run_callbacks_still now l x st x' st' : run_callbacks a now l x st = Some (x', st') ->
  still st st' /\ (Forall (fun f => forall x, calm_prog (f x)) l -> kept st st').
Proof.
  revert x st. induction l as [|f l IH]; intros x st; cbn [run_callbacks]; [by intros [= _ <-]|].
  destruct (run_prog _ _ _ _ _) as [[[x1 st1] r1]|] eqn:E; [|done]. pose proof (run_prog_frame (R := kept) _ _ _ _ _ _ _ _ E) as Hk.
  cbn [mbind option_bind]. intros H. destruct r1.
  1,2: apply IH in H as [H1 H2]; split; [eapply still_trans; [by apply kept_still|done]|];
    intros [_ Hl]%Forall_cons; apply (kept_trans _ st1); [done|by apply H2].
  injection H as _ <-. split; [by destruct Hk|]. intros [Hf _]%Forall_cons.
  by destruct (calm_prog_run _ _ _ _ _ _ _ (Hf x) E).
Qed.

(** [OwnerFunc] does not panic. *)
Definition calm_owner : Prop := forall f r, a_owner a = Some f -> is_Some (f r).

Lemma openSession_outcome now c r newID st st' o : openSession a now c r newID st = Some (st', o) ->
  match resumeRequest (a_owner a) r with None => st' = st /\ o = Panics | Some _ => o = Returns end.
Proof.
  unfold openSession. destruct (resumeRequest _ _) as [req|]; [|by intros [= <- <-]].
  destruct (Open _ _ _ _ _) as [[[w' res] rel]|]; [|done]. cbn [mbind option_bind].
  destruct (wop (OOpen _ _ _ _) st); [|done]. cbn [mbind option_bind].
  destruct (wop (ONote c _) _); [|done]. cbn [mbind option_bind].
  destruct (match r_Prev res with Some _ => _ | None => _ end); [|done]. cbn [mbind option_bind].
  destruct (match r_Displaced res with Some _ => _ | None => _ end); [|done]. by intros [= _ <-].
Qed.

Lemma calm_resumeRequest r : calm_owner -> is_Some (resumeRequest (a_owner a) r).
Proof.
  intros Hc. unfold resumeRequest. destruct r as [r|]; [|done]. unfold calm_owner in Hc.
  assert (is_Some (match a_owner a with Some f => f r | None => Some ""%string end)) as [own ->]
    by (destruct (a_owner a); [by apply Hc|done]).
  cbn [mbind option_bind]. by repeat case_match.
Qed.

Lemma openSession_kept now c r newID st st' o : openSession a now c r newID st = Some (st', o) -> kept st st'.
Proof.
  unfold openSession. destruct (resumeRequest _ _) as [req|]; [|by intros [= <- _]].
  destruct (Open _ _ _ _ _) as [[[w' res] rel]|]; [|done]. cbn [mbind option_bind].
  destruct (wop (OOpen _ _ _ _) st) as [st1|] eqn:E1; [|done]. cbn [mbind option_bind].
  apply wop_kept in E1; [|done]. pose proof (releases_kept now rel st1) as Hrel.
  destruct (wop (ONote c (NResumed _)) _) as [st2|] eqn:E2; [|done]. cbn [mbind option_bind].
  apply wop_kept in E2; [|done].
  assert (kept st st2) as H2 by (eapply kept_trans; [done|by eapply kept_trans]). clear E1 Hrel E2.
  assert (forall st3, match r_Prev res with
    | Some prev => st ← wop (ONote c (NCopyMeta prev)) st2;
        Some (hub_do now (hub.Transfer (st_hub st) (Some prev) (Some c)) st)
    | None => Some st2 end = Some st3 -> kept st2 st3) as Hprev.
  { intros st3. destruct (r_Prev res) as [prev|]; [|by intros [= <-]].
    destruct (wop (ONote c (NCopyMeta prev)) st2) as [s3|] eqn:E3; [|done]. cbn [mbind option_bind].
    generalize (hub.Transfer (st_hub s3) (Some prev) (Some c)). intros q [= <-].
    apply (kept_trans _ s3); [by eapply wop_kept; [|exact E3]|apply hub_do_kept]. }
  destruct (match r_Prev res with Some _ => _ | None => _ end) as [st3|] eqn:E3; [|done].
  cbn [mbind option_bind]. specialize (Hprev st3 eq_refl).
  assert (kept st st3) as H3 by by eapply kept_trans.
  destruct (r_Displaced res) as [d|]; [|by intros [= <- _]].
  destruct (wop (OClose d false) st3) as [st4|] eqn:E4; [|done]. intros [= <- _].
  apply wop_kept in E4; [|done]. by eapply kept_trans.
Qed.

(** The connection is in both tables, or in neither, or a panic escaped. *)
Definition joined (st st' : state) (id : string) (c : cptr) : Prop :=
  (st_conns st' = i64 (st_conns st + 1) /\ st_byID st' = <[id := c]> (st_byID st) /\
   client.id (w_clients (st_world st') !!! c) = id) \/
  (st_conns st' = i64 (i64 (st_conns st + 1) - 1) /\ st_byID st' = st_byID st).

Definition others_same (c : cptr) (st st' : state) : Prop :=
  forall c', c' <> c ->
    client.id (w_clients (st_world st') !!! c') = client.id (w_clients (st_world st) !!! c').

Lemma reject_tables now c st st' :
  wop (OClose c true) (hub_do now (hub.Unregister (st_hub (set_conns st (i64 (st_conns st - 1)))) c)
    (set_conns st (i64 (st_conns st - 1)))) = Some st' ->
  kept (set_conns st (i64 (st_conns st - 1))) st'.
Proof.
  intros E%wop_kept; [|done]. eapply kept_trans; [|exact E]. apply hub_do_kept.
Qed.

(** A new connection up to its middleware. *)
Lemma connecting now c id st st1 : 
  wop (ONew c (client_options a id) now) (set_conns st (i64 (st_conns st + 1))) = Some st1 ->
  st_conns st1 = i64 (st_conns st + 1) /\ st_byID st1 = st_byID st /\ st_crashed st1 = st_crashed st /\
  st_admitted st1 = st_admitted st /\
  client.id (w_clients (st_world st1) !!! c) = id /\ others_same c st st1.
Proof.
  unfold wop. cbn [exec mbind option_bind]. intros [= <-]. split; [done|]. split; [done|]. split; [done|]. split; [done|].
  unfold others_same. cbn [st_world set_world set_client set_clients w_clients]. split.
  - by rewrite lookup_total_insert_eq.
  - intros c' Hne. by rewrite lookup_total_insert_ne.
Qed.

Lemma serveTransport_tables now c id r newID st st' : serveTransport a now c id r newID st = Some st' ->
  (st_crashed st' = true \/
   joined st st' id c /\ others_same c st st' /\ st_admitted st' = st_admitted st) /\
  (hasRecover a = true -> Forall (fun f => forall x, calm_prog (f x)) (onConnect a) -> calm_owner ->
   st_crashed st' = st_crashed st).
Proof.
  unfold serveTransport. destruct (wop (ONew _ _ _) _) as [st1|] eqn:E1; [|done]. cbn [mbind option_bind].
  apply connecting in E1 as (A1 & A2 & A3 & A6 & A4 & A5).
  destruct (runMiddlewares _ _ _ _) as [[[x2 st2] o2]|] eqn:E2; [|done]. cbn [mbind option_bind].
  apply (runMiddlewares_loop_frame (R := kept)), (kept_trans st1) in E2; [|apply hub_do_kept].
  destruct E2 as [B1 B2 B3 _ B6 B5].
  assert (others_same c st st2) as Hoth by (intros c' Hc'; by rewrite B5, A5).
  assert (wop (OClose c true) (hub_do now (hub.Unregister (st_hub (set_conns st2 (i64 (st_conns st2 - 1)))) c)
    (set_conns st2 (i64 (st_conns st2 - 1)))) = Some st' ->
    (st_crashed st' = true \/ joined st st' id c /\ others_same c st st' /\ st_admitted st' = st_admitted st) /\
    st_crashed st' = st_crashed st) as Hrej.
  { intros [C1 C2 C3 _ C6 C5]%reject_tables.
    cbn [st_conns st_byID st_crashed st_world st_admitted set_conns] in *. split; [|congruence].
    right. split; [right; split; congruence|]. split; [|congruence]. intros c' Hc'. by rewrite C5, Hoth. }
  destruct o2; cbn [withRecover]; [|intros [H1 H2]%Hrej; done|].
  2: { destruct (hasRecover a); [intros [H1 H2]%Hrej; done|]. intros [= <-]. split; [by left|done]. }
  set (st3 := set_counts _ _ _ _).
  destruct (if recovery_on a then _ else _) as [[st4 o4]|] eqn:E4; [|done]. cbn [mbind option_bind].
  assert (kept st3 st4 /\ (calm_owner -> o4 = Returns)) as [[D1 D2 D3 _ D6 D5] D7].
  { destruct (recovery_on a); [|by injection E4 as <- <-]. split; [by eapply openSession_kept|].
    intros Ho. apply openSession_outcome in E4. by destruct (calm_resumeRequest r Ho) as [req Hq]; rewrite Hq in E4. }
  intros H. assert (o4 = Panics /\ st' = crash st4 \/
    exists x5, run_callbacks a now (onConnect a) x2 st4 = Some (x5, st')) as [[-> ->]|[x5 E5]].
  { destruct o4; [right..|left; by injection H as <-];
      (destruct (run_callbacks _ _ _ _ _) as [[x5 st5]|]; [|done]); injection H as <-; by eexists. }
  { split; [by left|]. intros _ _ Ho. by specialize (D7 Ho). }
  apply run_callbacks_still in E5 as [(F1 & F2 & F5 & F3) F4].
  subst st3. cbn [st_conns st_byID st_crashed st_world st_admitted set_counts] in *. split.
  - right. split; [left|split; [|congruence]].
    + split; [congruence|]. split; [congruence|]. by rewrite F3, D5, B5.
    + intros c' Hc'. by rewrite F3, D5, Hoth.
  - intros _ Hcalm _. destruct (F4 Hcalm). congruence.
Qed.

Lemma retire_kept now c st st' : retire now c st = Some st' -> kept st st'.
Proof.
  unfold retire. destruct (client.session _) as [p|].
  2: { generalize (hub.Unregister (st_hub st) c). intros q [= <-]. apply hub_do_kept. }
  destruct (Leave _ _ _ _ _) as [[[w res] rel]|]; [|done]. cbn [mbind option_bind].
  destruct (wop _ st) as [st1|] eqn:E1; [|done]. apply wop_kept in E1; [|done]. cbn [mbind option_bind].
  assert (kept st (releases now rel st1)) as H by (eapply kept_trans; [done|apply releases_kept]).
  destruct res; try by intros [= <-].
  generalize (hub.Unregister (st_hub (releases now rel st1)) c). intros q [= <-].
  eapply kept_trans; [exact H|apply hub_do_kept].
Qed.

(** A connection that ends, up to the tables. *)
Lemma ended_kept now c (zombie : bool) st st1 st2 st3 :
  (if zombie then fireHeartbeatTimeout a now c st else Some st) = Some st1 ->
  retire now c st1 = Some st2 -> wop (OClose c false) st2 = Some st3 -> kept st st3.
Proof.
  intros E1 E2 E3. apply (kept_trans _ st1); [by eapply heartbeat_frame|].
  apply (kept_trans _ st2); [by eapply retire_kept|by eapply wop_kept; [|exact E3]].
Qed.

Lemma read_end_tables now c zombie st st' : read_end a now c zombie st = Some st' ->
  st_conns st' = i64 (st_conns st - 1) /\
  st_byID st' = delete (client.id (w_clients (st_world st) !!! c)) (st_byID st) /\
  st_crashed st' = st_crashed st /\ st_admitted st' = st_admitted st /\
  same_ids (w_clients (st_world st)) (w_clients (st_world st')).
Proof.
  unfold read_end. destruct (if zombie then _ else _) as [st1|] eqn:E1; [|done]. cbn [mbind option_bind].
  destruct (retire now c st1) as [st2|] eqn:E2; [|done]. cbn [mbind option_bind].
  destruct (wop _ st2) as [st3|] eqn:E3; [|done]. cbn [mbind option_bind].
  destruct (ended_kept now c zombie st st1 st2 st3 E1 E2 E3) as [A1 A2 A3 A4 A6 A5].
  intros [B1 B2 B3 B4 B6 B5]%(fireDisconnect_frame (R := kept)).
  cbn [st_conns st_byID st_crashed st_world st_admitted set_counts set_conns] in *.
  split; [congruence|]. split; [by rewrite B2, A2, A5|]. split_and!; [congruence..|by eapply same_ids_trans].
Qed.

(** An event that neither opens nor ends a connection. *)
Definition quiet (st st' : state) : Prop :=
  still st st' /\ (hasRecover a = true -> st_crashed st' = st_crashed st).

Lemma kept_quiet st st' : kept st st' -> quiet st st'.
Proof. intros Hk. split; [by apply kept_still|]. intros _. apply Hk. Qed.

Lemma dispatch_quiet now c raw st st' d : dispatch a now c raw st = Some (st', d) -> quiet st st'.
Proof.
  intros [Hk|(Hr & st1 & Hk & ->)]%(dispatch_frame (R := kept)); [by apply kept_quiet|].
  split; [by destruct Hk|by rewrite Hr].
Qed.

Lemma deliver_all_ids w e l w' slow : hub.deliver_all w e l = Some (w', slow) ->
  same_ids (w_clients w) (w_clients w').
Proof.
  revert w slow. induction l as [|c l IH]; intros w slow; cbn [hub.deliver_all];
    [intros [= <- _]; apply same_ids_refl|].
  destruct (TrySendPolicy _ _ _ _ _) as [[[cs ss] ok]|] eqn:E; [|done]. cbn [mbind option_bind].
  destruct (hub.deliver_all _ _ _) as [[w1 sl]|] eqn:E1; [|done]. intros [= <- _]. apply IH in E1.
  eapply same_ids_trans; [|exact E1].
  apply (exec_ids w (OSend c (hub.Data e) (hub.Policy e))); [|done]. cbn [exec]. by rewrite E.
Qed.

Lemma shutdown_all_ids w l w' : hub.shutdown_all w l = Some w' -> same_ids (w_clients w) (w_clients w').
Proof.
  revert w. induction l as [|c l IH]; intros w; cbn [hub.shutdown_all];
    [intros [= <-]; apply same_ids_refl|].
  destruct (client.Shutdown _) as [cl|] eqn:E; [|done]. cbn [mbind option_bind]. intros H%IH.
  eapply same_ids_trans; [|exact H]. apply same_ids_insert. by apply closeRaw_id in E.
Qed.

Definition opens_or_ends (e : event) : bool :=
  match e with EvAdmit | EvAbandon | EvConnect _ _ _ _ _ | EvReadEnd _ _ _ => true | _ => false end.

Lemma step_quiet e st st' : opens_or_ends e = false -> step a e st = Some st' -> quiet st st'.
Proof.
  intros He Hs. destruct e as [| | |now c raw| |now c|order| |now|c|c|ev data|]; try done; cbn [step] in Hs.
  - destruct (wop _ st) as [st1|] eqn:E1; [|done]. apply wop_kept in E1; [|done]. cbn [mbind option_bind] in Hs.
    destruct (dispatch _ _ _ _ _) as [[st2 d]|] eqn:E2; [|done]. injection Hs as <-.
    apply dispatch_quiet in E2 as [H1 H2]. split; [eapply still_trans; [by apply kept_still|done]|].
    intros Hr. rewrite (H2 Hr). apply E1.
  - apply kept_quiet. by eapply write_step_frame.
  - unfold hub_step in Hs. destruct (recv _) as [e ch| |]; [|injection Hs as <-; by apply kept_quiet..].
    destruct (hub.emitToTargets _ _ _ _) as [[w sl]|] eqn:E; [|done]. injection Hs as <-.
    unfold hub.emitToTargets in E. destruct (decide _); [|done]. apply deliver_all_ids in E. done.
  - apply kept_quiet. by eapply slow_step_frame.
  - unfold sweep_step in Hs. destruct (Sweep _ _) as [[w rel]|]; [|done]. cbn [mbind option_bind] in Hs.
    destruct (wop _ st) as [st1|] eqn:E1; [|done]. apply wop_kept in E1; [|done]. injection Hs as <-.
    apply kept_quiet, (kept_trans _ st1); [done|apply releases_kept].
  - apply kept_quiet. by eapply wop_kept; [|exact Hs].
  - apply kept_quiet. by eapply wop_kept; [|exact Hs].
  - injection Hs as <-. unfold announce. by destruct data.
  - unfold Shutdown in Hs. destruct (hub.closed _); [by injection Hs as <-|].
    destruct (hub.drainAndCloseAll _ _) as [[w h]|] eqn:E; [|done]. injection Hs as <-.
    unfold hub.drainAndCloseAll in E. destruct (hub.shutdown_all _ _) as [w1|] eqn:E1; [|done].
    injection E as <- _. apply shutdown_all_ids in E1. done.
Qed.

(** ** Connections are counted *)

(** At most [M] handlers are between the tests and [serveTransport] at any
    moment. *)
Context (M : nat).

(** A new connection has a fresh object and a fresh name; the end of a read
    pump is that of a connection in the table. *)
Definition conn_ok (e : event) (st : state) : Prop :=
  match e with
  | EvAdmit => (st_admitted st < M)%nat
  | EvConnect _ c id _ _ => st_byID st !! id = None /\ forall id', st_byID st !! id' <> Some c
  | EvReadEnd _ c _ => exists id, st_byID st !! id = Some c
  | _ => True
  end.

Fixpoint conns_ok (l : list event) (st : state) : Prop :=
  match l with
  | [] => True
  | e :: l' => conn_ok e st /\
      match step a e st with Some st' => st_crashed st' = true \/ conns_ok l' st' | None => True end
  end.

(** The tests see the connections there are, not the ones that are being
    admitted: with [M] of those, the maximum can be exceeded by [M - 1]. *)
Record counted (st : state) : Prop := {
  ct_count : st_conns st = Z.of_nat (size (st_byID st));
  ct_max : st_conns st + Z.of_nat (st_admitted st) <= MaxConnections (a_cfg a) + (Z.of_nat M - 1);
  ct_ids id c : st_byID st !! id = Some c -> client.id (w_clients (st_world st) !!! c) = id
}.

Lemma still_counted st st' : still st st' -> counted st -> counted st'.
Proof.
  intros (E1 & E2 & E4 & E3) [H1 H2 H3]. constructor; rewrite ?E1, ?E2, ?E4; [done|done|].
  intros id c Hc. rewrite E3. by apply H3.
Qed.

Context (Hmax : MaxConnections (a_cfg a) + Z.of_nat M < 2 ^ 63).

Lemma admit_counted st : counted st -> (st_admitted st < M)%nat -> counted (welcome a st).
Proof.
  intros [H1 H2 H3] Hm. unfold welcome. destruct (st_closed st); [done|].
  destruct (Z.leb_spec (MaxConnections (a_cfg a)) (st_conns st)); [done|].
  constructor; cbn [st_conns st_byID st_admitted st_world set_admitted]; [done|lia|done].
Qed.

Lemma abandon_counted st : counted st -> counted (abandon st).
Proof.
  intros [H1 H2 H3]. unfold abandon.
  constructor; cbn [st_conns st_byID st_admitted st_world set_admitted]; [done|lia|done].
Qed.

Lemma connect_counted now c id r newID st st' : counted st ->
  conn_ok (EvConnect now c id r newID) st -> step a (EvConnect now c id r newID) st = Some st' ->
  st_crashed st' = true \/ counted st'.
Proof.
  intros Hct [Hid Hc]. cbn [step]. unfold attach. destruct (st_admitted st) as [|n] eqn:Hn;
    [intros [= <-]; by right|]. intros E.
  apply serveTransport_tables in E as [[E|(Hj & Ho & Ha)] _]; [by left|]. right.
  unfold joined, others_same in *. cbn [st_conns st_byID st_world st_admitted set_admitted] in *.
  destruct Hct as [H1 H2 H3].
  assert (forall id' c', st_byID st !! id' = Some c' ->
    client.id (w_clients (st_world st') !!! c') = id') as Hids.
  { intros id' c' Hc'. rewrite Ho; [by apply H3|]. intros ->. by apply (Hc id'). }
  rewrite !i64_small in Hj by lia.
  destruct Hj as [(E1 & E2 & E3)|(E1 & E2)]; constructor; rewrite ?E1, ?E2, ?Ha; try lia.
  - rewrite map_size_insert_None by done. lia.
  - intros id' c' [[<- <-]|[_ Hc']]%lookup_insert_Some; [done|by apply Hids].
  - done.
Qed.

Lemma end_counted now c zombie st st' : counted st -> conn_ok (EvReadEnd now c zombie) st ->
  step a (EvReadEnd now c zombie) st = Some st' -> counted st'.
Proof.
  intros [H1 H2 H3] [id Hid]. cbn [step]. intros (E1 & E2 & _ & E5 & E4)%read_end_tables.
  rewrite (H3 id c Hid) in E2.
  assert (0 < size (st_byID st))%nat as Hpos.
  { assert (size (st_byID st) <> 0%nat); [|lia]. intros Hz%map_size_empty_inv. by rewrite Hz, lookup_empty in Hid. }
  rewrite i64_small in E1 by lia. constructor; rewrite ?E1, ?E2, ?E5.
  - rewrite map_size_delete_Some by (by exists c). lia.
  - lia.
  - intros id' c' [_ Hc']%lookup_delete_Some. rewrite E4. by apply H3.
Qed.

Lemma step_counted e st st' : counted st -> conn_ok e st -> step a e st = Some st' ->
  st_crashed st' = true \/ counted st'.
Proof.
  intros Hct He E. destruct (opens_or_ends e) eqn:Ho.
  - destruct e; try done.
    + right. injection E as <-. by apply admit_counted.
    + right. injection E as <-. by apply abandon_counted.
    + by eapply connect_counted.
    + right. by eapply end_counted.
  - right. eapply still_counted; [|done]. by apply (step_quiet e st st' Ho).
Qed.

Lemma run_counted l st st' : counted st -> conns_ok l st -> run a l st = Some st' ->
  st_crashed st' = true \/ counted st'.
Proof.
  revert st. induction l as [|e l IH]; intros st Hct Hok; cbn [run conns_ok] in *; [intros [= <-]; by right|].
  destruct Hok as [He Hok]. destruct (step a e st) as [st1|] eqn:E; [|done]. cbn [mbind option_bind].
  pose proof (step_counted e st st1 Hct He E) as H1.
  destruct (st_crashed st1) eqn:Hcr; [intros [= <-]; by left|].
  destruct H1 as [|H1]; [done|]. destruct Hok as [|Hok]; [done|]. by apply IH.
Qed.

Lemma New_counted : 0 <= MaxConnections (a_cfg a) -> (1 <= M)%nat -> counted (New a).
Proof.
  constructor; [done|cbn; lia|]. intros id c Hc. cbn in Hc. by rewrite lookup_empty in Hc.
Qed.

End app.

(** ** A concrete application *)

Definition demo_cfg : Config :=
  normalized (mkConfig "" 2 0 0 0 0 0 0 4 true (mkRecovery true 8 0 100 1 4) BackpressureDefault).

(** [chat] answers, joins a room and emits to it. *)
Definition demo_handler (x : Context) : prog :=
  Act (Emit "reply" (Some (JInt 1))) (fun _ =>
  Act (JoinRoom "r") (fun _ =>
  Act (EmitToRoomWith "r" "said" (Some (JStr "hi")) no_options) (fun _ => Done Returns))).

Definition demo_app : app :=
  mkApp demo_cfg (Some (fun r => Some (header r "X-User"))) [RecoverMiddleware; RateLimiter 5]
    (fun ev => if bool_decide (ev = "chat"%string) then Some demo_handler else None)
    [fun _ => Done Returns] [fun _ => Done Panics] [].

Definition demo_message : ClientWireMessage := mkClientMessage "chat" "" (bs "[1]") "7" "k".
Definition demo_frame : bytes := MarshalClient demo_message.

Definition demo_request : HttpRequest :=
  mkHttp (fun k => if bool_decide (k = HeaderSession) then "s0"%string
                   else if bool_decide (k = HeaderSeq) then "1"%string else ""%string) (fun _ => ""%string).

(** A peer connects, is answered, sends its message twice, drops, resumes. *)
Definition demo_events : list event :=
  [EvAdmit; EvAdmit; EvConnect 0 0%nat "c0" None "s0"; EvAbandon; EvMessage 10 0%nat demo_frame; EvHub [0%nat]; EvWrite 11 0%nat;
   EvMessage 20 0%nat demo_frame; EvMissed 0%nat; EvPong 0%nat; EvReadEnd 30 0%nat true;
   EvAdmit; EvConnect 40 1%nat "c1" (Some demo_request) "s1"; EvWrite 41 1%nat; EvSlow; EvSweep 50;
   EvAnnounce "bye" (Some JNull); EvHub [1%nat]; EvShutdown].

Definition conn_okb (M : nat) (e : event) (st : state) : bool :=
  match e with
  | EvAdmit => (st_admitted st <? M)%nat
  | EvConnect _ c id _ _ => bool_decide (st_byID st !! id = None) &&
      bool_decide (map_Forall (fun _ c' => c' <> c) (st_byID st))
  | EvReadEnd _ c _ => bool_decide (st_byID st !! client.id (w_clients (st_world st) !!! c) = Some c)
  | _ => true
  end.

Fixpoint conns_okb (a : app) (M : nat) (l : list event) (st : state) : bool :=
  match l with
  | [] => true
  | e :: l' => conn_okb M e st &&
      match step a e st with Some st' => st_crashed st' || conns_okb a M l' st' | None => true end
  end.

Lemma conns_okb_sound a M l st : conns_okb a M l st = true -> conns_ok a M l st.
Proof.
  revert st. induction l as [|e l IH]; intros st; cbn [conns_okb conns_ok]; [done|].
  intros [He H]%andb_prop. split.
  - destruct e; try done; cbn [conn_okb conn_ok] in *.
    + by apply Nat.ltb_lt.
    + apply andb_prop in He as [H1%bool_decide_eq_true H2%bool_decide_eq_true]. split; [done|].
      intros id' Hc. by apply (H2 id' _ Hc).
    + apply bool_decide_eq_true in He. by eexists.
  - destruct (step a e st) as [st'|]; [|done]. apply orb_prop in H as [H|H]; [by left|right; by apply IH].
Qed.

(** ** The theorems *)

(** The server counts its connections exactly: after any sequence of events
    from which no panic escaped, the counter that is compared with
    [MaxConnections] is the number of connections in the table, so it never
    leaks, and the table maps every name to the client of that name. The
    counter exceeds the configured maximum by less than the number [M] of
    connections that are admitted at the same moment. *)
Theorem connections_counted a M l st :
  0 <= MaxConnections (a_cfg a) -> (1 <= M)%nat -> MaxConnections (a_cfg a) + Z.of_nat M < 2 ^ 63 ->
  conns_ok a M l (New a) -> run a l (New a) = Some st -> st_crashed st = false ->
  st_conns st = Z.of_nat (size (st_byID st)) /\
  st_conns st + Z.of_nat (st_admitted st) <= MaxConnections (a_cfg a) + (Z.of_nat M - 1) /\
  forall id c, st_byID st !! id = Some c -> client.id (w_clients (st_world st) !!! c) = id.
Proof.
  intros Hmin Hm Hmax Hok Hr Hcr.
  destruct (run_counted a M Hmax l (New a) st) as [|[]]; try done; [|congruence]. by apply New_counted.
Qed.

Lemma connections_counted_witness :
  exists st, run demo_app demo_events (New demo_app) = Some st /\
    st_conns st = Z.of_nat (size (st_byID st)) /\
    st_conns st + Z.of_nat (st_admitted st) <= MaxConnections demo_cfg + 1.
Proof.
  destruct (run demo_app demo_events (New demo_app)) as [st|] eqn:E;
    [|exfalso; revert E; vm_compute; discriminate].
  exists st. split; [reflexivity|].
  destruct (connections_counted demo_app 2 demo_events st) as (H1 & H2 & _);
    [discriminate|lia|reflexivity|apply conns_okb_sound; vm_compute; reflexivity|exact E| |].
  - assert (option_map st_crashed (Some st) = Some false) as Hc by (rewrite <- E; vm_compute; reflexivity).
    by injection Hc.
  - split; [exact H1|exact H2].
Defined.

(** C24: with the [Recover] middleware, no panic of middleware, handlers or
    callbacks escapes from the library, provided that the two kinds of
    application code it runs without a [recover], [OnConnect] callbacks and
    [OwnerFunc], do not panic. *)
Theorem panics_contained a l st :
  hasRecover a = true -> Forall (fun f => forall x, calm_prog (f x)) (onConnect a) -> calm_owner a ->
  run a l (New a) = Some st -> st_crashed st = false.
Proof.
  intros Hr Hcalm Ho. assert (forall l st st', st_crashed st = false -> run a l st = Some st' ->
    st_crashed st' = false) as H; [|by apply H].
  clear l st. induction l as [|e l IH]; intros st st' Hc; cbn [run]; [by intros [= <-]|].
  destruct (step a e st) as [st1|] eqn:E; [|done]. cbn [mbind option_bind].
  assert (st_crashed st1 = false) as H1.
  { destruct (opens_or_ends e) eqn:Hoe.
    - destruct e as [| |now c id r newID| |now c z| | | | | | | |]; try done; cbn [step] in E.
      + injection E as <-. unfold welcome. destruct (st_closed st); [done|]. by destruct (_ <=? _).
      + by injection E as <-.
      + unfold attach in E. destruct (st_admitted st); [by injection E as <-|].
        apply serveTransport_tables in E as [_ Hcr]. by rewrite Hcr.
      + apply read_end_tables in E as (_ & _ & Hcr & _). by rewrite Hcr.
    - apply step_quiet in E as [_ Hcr]; [|done]. by rewrite Hcr. }
  rewrite H1. by apply IH.
Qed.

Lemma panics_contained_witness :
  exists st, run demo_app demo_events (New demo_app) = Some st /\ st_crashed st = false.
Proof.
  destruct (run demo_app demo_events (New demo_app)) as [st|] eqn:E;
    [|exfalso; revert E; vm_compute; discriminate].
  exists st. split; [reflexivity|].
  apply (panics_contained demo_app demo_events); [reflexivity| | |exact E].
  - repeat constructor. discriminate.
  - intros f r. vm_compute. intros [= <-]. by eexists.
Defined.

(** An [OnConnect] callback that panics is recovered by nobody in the library,
    with the [Recover] middleware installed too: its connection stays counted and
    listed. *)
Theorem onConnect_panic_escapes :
  exists a, hasRecover a = true /\
    exists st, run a [EvAdmit; EvConnect 0 0%nat "c" None "s"] (New a) = Some st /\ st_crashed st = true /\
      st_conns st = 1 /\ st_byID st !! "c"%string = Some 0%nat /\
      shutdownDone (w_clients (st_world st) !!! 0%nat) = false.
Proof.
  exists (mkApp (normalized (mkConfig "" 0 0 0 0 0 0 0 0 false (mkRecovery false 0 0 0 0 0) 0)) None
    [RecoverMiddleware] (fun _ => None) [fun _ => Done Panics] [] []).
  split; [done|]. eexists. split; [vm_compute; reflexivity|]. by split_and!.
Qed.

(** [OwnerFunc] panics uncontained too, with the [Recover] middleware installed:
    its connection stays counted, listed and registered. *)
Theorem owner_panic_escapes :
  exists a, hasRecover a = true /\
    exists st, run a [EvAdmit; EvConnect 0 0%nat "c" (Some demo_request) "s"] (New a) = Some st /\
      st_crashed st = true /\ st_conns st = 1 /\ st_byID st !! "c"%string = Some 0%nat /\
      0%nat ∈ hub.clients (st_hub st) /\ shutdownDone (w_clients (st_world st) !!! 0%nat) = false.
Proof.
  exists (mkApp demo_cfg (Some (fun _ => None)) [RecoverMiddleware] (fun _ => None) [] [] []).
  split; [done|]. eexists. split; [vm_compute; reflexivity|]. split_and!; [done..| |done].
  apply (bool_decide_unpack _). by vm_compute.
Qed.

(** The tests are not atomic with what follows them: two connections admitted
    at the same moment exceed a maximum of one, and a connection admitted
    before a shutdown and attached after it is never closed by the shutdown. *)
Theorem admission_not_atomic :
  exists a, MaxConnections (a_cfg a) = 1 /\
    (exists st, run a [EvAdmit; EvAdmit; EvConnect 0 0%nat "c0" None "s0"; EvConnect 0 1%nat "c1" None "s1"]
       (New a) = Some st /\ st_conns st = 2) /\
    (exists st, run a [EvAdmit; EvShutdown; EvConnect 0 0%nat "c0" None "s0"] (New a) = Some st /\
       st_conns st = 1 /\ shutdownDone (w_clients (st_world st) !!! 0%nat) = false /\
       hub.clients (st_hub st) = ∅).
Proof.
  exists (mkApp (normalized (mkConfig "" 1 0 0 0 0 0 0 0 false (mkRecovery false 0 0 0 0 0) 0)) None
    [] (fun _ => None) [] [] []).
  split; [done|]. split; eexists; (split; [vm_compute; reflexivity|]); by split_and?.
Qed.

End tables.
