(* ===== verification/ServerInv.v ===== *)
(** * The server keeps the contracts of its parts

    Every event the server handles, with any application code, is a sequence of
    registry operations on well-formed events, so what [Registry.v] and
    [Recovery.v] prove holds for the server. The bound is the number of frames
    handed to clients: a session never numbers more. *)
From S2P Require Import Prelude.
From S2P Require Import GoStd.
From S2P Require Import Json.
From S2P Require Import Replay.
From S2P Require Import Client.
From S2P Require Import Session.
From S2P Require Import SessionStore.
From S2P Require Import SessionInv.
From S2P Require Import Registry.
From S2P Require Import Recovery.
From S2P Require Import Hub.
From S2P Require Import Config.
From S2P Require Import Server.
From S2P Require Import Frame.

Module serverinv.
Import client session store inv registry recovery config server frame.

(** ** Sequence numbers: a new session starts at 1, a send adds at most 1 *)

Definition at_most (w w' : world) (k : Z) : Prop :=
  forall p s', w_sess w' !! p = Some s' ->
    s_next s' = 1 \/ exists s, w_sess w !! p = Some s /\ s_next s' <= s_next s + k.

Lemma at_most_same w w' : w_sess w' = w_sess w -> at_most w w' 0.
Proof. intros E p s'. rewrite E. right. exists s'. split; [done|lia]. Qed.

Lemma at_most_insert w w' p s s' k : 0 <= k -> w_sess w' = <[p := s']> (w_sess w) ->
  w_sess w !! p = Some s -> s_next s' <= s_next s + k -> at_most w w' k.
Proof.
  intros Hk E Hp Hn q t. rewrite E. intros [[<- <-]|[Hne Ht]]%lookup_insert_Some; right.
  - by exists s.
  - exists t. split; [done|lia].
Qed.

Lemma at_most_front w w' vs : closed_front w w' vs -> at_most w w' 0.
Proof.
  intros [_ _ _ _ C5 C6 _] p s' Hs'. right. destruct (decide (p ∈ vs)) as [Hin|Hin].
  - destruct (C5 p Hin) as (s & Hs & _ & E). rewrite Hs' in E. injection E as ->.
    exists s. split; [done|]. cbn. lia.
  - rewrite C6 in Hs' by done. exists s'. split; [done|lia].
Qed.


Lemma open_next w c req now newID w' res rel : good w -> valid w (OOpen c req now newID) ->
  Open w c req now newID = Some (w', res, rel) -> at_most w w' 0.
Proof.
  intros [[Hw _] _] (Hun & Hq & Hnew) HO. pose proof (core_unbound w c Hw Hun) as Hc.
  destruct (resumable_dec_named w req now (TTL (opt (w_store w))) Hw Hq)
    as [(q & s & log & Hn & Hl & Hr)|Hno].
  - destruct (Open_resume w c req now newID q s log Hw Hc Hn Hl Hq Hr)
      as (w2 & b & HO' & _ & Hl' & E1 & _). rewrite HO in HO'. injection HO' as -> -> ->.
    apply (at_most_insert w w2 q s (attached s b c)); [lia|done|apply Hn|].
    rewrite (lg_next _ _ Hl), (lg_next _ _ Hl'). lia.
  - destruct (Open_refuse w c req now newID Hw Hno Hq) as (w1 & reason & rel' & Hrw & HO').
    rewrite HO in HO'. injection HO' as -> _ _.
    destruct (refused_core _ _ _ _ _ _ Hw Hrw) as (Hw1 & Ecl & _ & _ & Hnone & Hlive).
    assert (at_most w w1 0) as H1.
    { clear HO. destruct Hrw as [| | | |q s w1' rs Hn Ho Hrs ->]; try by apply at_most_same.
      destruct (named_open w req q s Hw Hn) as [Hst _]. destruct Hn as (_ & _ & _ & Hp).
      destruct (close_core w q s (set_state s stateClosed) Hw Hp Hst) as (_ & E & _);
        try done; [by left|by apply sess_ok_kill, (iv_sess w Hw q)|].
      eapply (at_most_insert w _ q s); [lia|exact E|done|cbn; lia]. }
    destruct (decide (newID = ""%string)) as [->|Hid]; [done|].
    destruct (open_fresh_core w1 c (Owner req) newID reason) as (_ & Hp & _ & E1 & _);
      [done| |done|by apply Hnone|].
    { intros q t Ht. destruct (Hlive q t Ht) as (t0 & Ht0 & ->). by eapply Hc. }
    intros p s'. rewrite E1. intros [[<- <-]|[Hne Ht]]%lookup_insert_Some; [by left|].
    by apply H1.
Qed.

Lemma leave_next w p c r now w' res rel : good w -> is_Some (w_sess w !! p) ->
  Leave w p c r now = Some (w', res, rel) -> at_most w w' 0.
Proof.
  intros [[Hw _] _] [s Hp] HL.
  destruct (Leave_effect w p c s r now Hw Hp) as (w1 & r1 & rel1 & HL' & Hlv).
  rewrite HL in HL'. injection HL' as <- <- <-.
  destruct Hlv as [| |w' Hst Hlv Hres Hw' E1 E2 E3 E4 E5|w' vs Hst Hlv Hres Hcf Hlen];
    [by apply at_most_same|by apply at_most_same| |].
  - eapply (at_most_insert w _ p s); [lia|exact E3|done|cbn; lia].
  - intros q t Ht. destruct (at_most_front _ _ _ Hcf q t Ht) as [?|(t1 & Ht1 & Hle)]; [by left|].
    unfold parked_world in Ht1. cbn [w_sess] in Ht1. rewrite (lookup_total_correct _ _ _ Hp) in Ht1.
    apply lookup_insert_Some in Ht1 as [[<- <-]|[_ Ht1]]; right; eexists; (split; [done|]); done.
Qed.

Lemma exec_next w i w' : good w -> valid w i -> exec w i = Some w' ->
  at_most w w' (if is_send i then 1 else 0).
Proof.
  intros Hg Hv He. pose proof Hg as [[Hw _] Hc].
  destruct i as [c o now|c req now newID|c data pol|q n|q key|c|c tm|q c now|now|c n|];
    cbn [exec is_send] in *.
  - injection He as <-. by apply at_most_same.
  - destruct (Open _ _ _ _ _) as [[[w2 res] rel]|] eqn:HO; [|done]. injection He as <-.
    by eapply open_next.
  - destruct (client.session (w_clients w !!! c)) as [q|] eqn:Hs.
    + destruct (proj2 (Hc c) q Hs) as [sq Hq]. destruct (so_log sq (iv_sess w Hw q sq Hq)) as [log Hl].
      destruct (send_bound w c data pol w' q sq log Hg Hv He Hs Hq Hl) as (sq' & logd & E & Hl' & Hd & _).
      apply (at_most_insert w w' q sq sq'); [lia|done|done|].
      rewrite (lg_next _ _ Hl), (lg_next _ _ Hl'), len_app.
      destruct Hd as [->| ->]; rewrite ?len_nil, ?len_cons, ?len_nil; lia.
    + destruct (send_unbound w c data pol w' He Hs) as [E _]. intros p s' Hp'. right. exists s'.
      rewrite E in Hp'. split; [done|lia].
  - destruct Hv as [sq Hq]. rewrite (lookup_total_correct _ _ _ Hq) in He.
    destruct (so_log sq (iv_sess w Hw q sq Hq)) as [log Hl].
    destruct (Ack_logged log sq n Hl) as (s' & Ha & Hl' & _). rewrite Ha in He. injection He as <-.
    eapply (at_most_insert w _ q sq s'); [lia|done|done|]. rewrite (lg_next _ _ Hl), (lg_next _ _ Hl'). lia.
  - destruct Hv as [sq Hq]. rewrite (lookup_total_correct _ _ _ Hq) in He. unfold ClaimKey in He.
    destruct (keys.claim _ _) as [[ok k]|]; [|done]. injection He as <-.
    eapply (at_most_insert w _ q sq); [lia|done|done|cbn; lia].
  - destruct (next_frame _) as [[f cl]|]; injection He as <-; by apply at_most_same.
  - destruct (shutdown_call _ _); [|done]. injection He as <-. by apply at_most_same.
  - destruct (Leave _ _ _ _ _) as [[[w2 res] rel]|] eqn:HL; [|done]. injection He as <-.
    by eapply leave_next.
  - unfold Sweep in He. destruct (sweep_loop_effect (length (parked (w_store w))) w now [] Hw)
      as (w2 & vs & Hsw & Hcf & _); [done|]. rewrite Hsw in He. injection He as <-.
    by eapply at_most_front.
  - injection He as <-. by apply at_most_same.
  - injection He as <-. by apply at_most_same.
Qed.

(** No operation removes a session object. *)
Lemma exec_keeps w i w' p : good w -> valid w i -> exec w i = Some w' ->
  is_Some (w_sess w !! p) -> is_Some (w_sess w' !! p).
Proof.
  intros Hg Hv He [s Hp]. destruct (is_send i) eqn:Hi.
  - destruct i as [| |c data pol| | | | | | | |]; try done. pose proof Hg as [[Hw _] Hc].
    destruct (client.session (w_clients w !!! c)) as [q|] eqn:Hs.
    + destruct (proj2 (Hc c) q Hs) as [sq Hq]. destruct (so_log sq (iv_sess w Hw q sq Hq)) as [log Hl].
      destruct (send_bound w c data pol w' q sq log Hg Hv He Hs Hq Hl) as (sq' & logd & E & _).
      rewrite E. apply insert_is_Some. by eexists.
    + destruct (send_unbound w c data pol w' He Hs) as [E _]. rewrite E. by eexists.
  - destruct (quiet_log w i w' p s Hg Hv He Hi Hp) as (s' & Hs' & _). by eexists.
Qed.

(** ** Worlds the server reaches *)

Definition limit : Z := 2 ^ 64 - 2.

(** What is known of the worlds of a run: that they are good, and something
    that every operation keeps that is called as it should be. Only some pumps
    may run ([may]): a peer that is part of the invariant takes its own frames. *)
Class Tracked (Inv : world -> Prop) (may : cptr -> Prop) : Prop := {
  tr_good w : Inv w -> good w;
  tr_step w i w' : Inv w -> (forall c, i = OPump c -> may c) -> valid_event w i -> exec w i = Some w' ->
    Inv w'
}.

(** The plain invariant: the world is one the registry can reach. *)
#[export] Instance wreach_tracked o : Tracked (wreach o) (fun _ => True).
Proof.
  split.
  - intros w H. exact (proj1 (wreach_inv o w H)).
  - intros w i w' H _ Hv He. by eapply wreach_step.
Qed.

Section safe.
Context {Inv : world -> Prop} {may : cptr -> Prop} {HI : Tracked Inv may}.

(** At most [n] frames have been sent so far. *)
Record wsafe (n : Z) (w : world) : Prop := {
  ws_inv : Inv w;
  ws_sent : 0 <= n;
  ws_next p s : w_sess w !! p = Some s -> s_next s <= n + 1
}.

Lemma wsafe_good n w : wsafe n w -> good w.
Proof using HI. intros [H _ _]. exact (tr_good w H). Qed.

Lemma wsafe_mono n m w : wsafe n w -> n <= m -> wsafe m w.
Proof.
  intros [H1 H2 H3] Hle. constructor; [done|lia|]. intros p s Hp. specialize (H3 p s Hp). lia.
Qed.

Definition cost (i : op) : Z := if is_send i then 1 else 0.

(** What the server has to know to call an operation. *)
Definition ok_op (w : world) (i : op) : Prop :=
  match i with OSend _ d _ => event_frame d | OPump c => may c | _ => valid w i end.

Definition sess_kept (w w' : world) : Prop :=
  forall p, is_Some (w_sess w !! p) -> is_Some (w_sess w' !! p).

Lemma ok_op_valid n w i : wsafe n w -> ok_op w i -> n + cost i < limit -> valid_event w i.
Proof.
  intros [_ _ Hn] Hok Hb. unfold cost, limit in Hb. split; [|by destruct i].
  destruct i as [| |c d pol| | | | | | | |]; try done. intros p s _ Hp. specialize (Hn p s Hp).
  cbn [is_send] in Hb. lia.
Qed.

Lemma exec_ok n w i : wsafe n w -> ok_op w i -> n + cost i < limit ->
  exists w', exec w i = Some w' /\ wsafe (n + cost i) w' /\ sess_kept w w'.
Proof.
  intros Hs Hok Hb. pose proof (ok_op_valid n w i Hs Hok Hb) as Hv. pose proof (wsafe_good n w Hs) as Hg.
  destruct (step_good w i Hg (proj1 Hv)) as (w' & He & Hg'). exists w'. split; [done|].
  destruct Hs as [H1 H2 H3]. split; [|intros p; by apply (exec_keeps w i w' p Hg (proj1 Hv) He)].
  constructor.
  - eapply tr_step; [exact H1| |exact Hv|exact He]. by intros c ->.
  - unfold cost. destruct (is_send i); lia.
  - intros p s' Hs'. unfold cost in *. destruct (exec_next w i w' Hg (proj1 Hv) He p s' Hs') as [->|(s & Hp & Hle)].
    + destruct (is_send i); lia.
    + specialize (H3 p s Hp). lia.
Qed.

(** A broadcast is one send per target, and draining the hub one shutdown per
    client. *)
Lemma deliver_all_ok e order n w : event_frame (hub.Data e) -> wsafe n w ->
  n + len order < limit ->
  exists w' slow, hub.deliver_all w e order = Some (w', slow) /\ wsafe (n + len order) w' /\
    sess_kept w w'.
Proof.
  intros He. revert n w. induction order as [|c order IH]; intros n w Hs Hb; cbn [hub.deliver_all].
  - exists w, []. rewrite len_nil, Z.add_0_r. split; [done|]. split; [done|by intros p].
  - rewrite len_cons in *. pose proof (len_nonneg order).
    destruct (exec_ok n w (OSend c (hub.Data e) (hub.Policy e)) Hs He) as (w1 & He1 & Hs1 & Hk1).
    { cbn. lia. }
    cbn [exec] in He1. destruct (TrySendPolicy _ _ _ _ _) as [[[cs ss] ok]|]; [|done].
    cbn [mbind option_bind] in *. injection He1 as <-.
    destruct (IH (n + 1) _ Hs1) as (w2 & slow & -> & Hs2 & Hk2); [lia|]. cbn [mbind option_bind].
    eexists _, _. split; [done|]. split; [|intros p Hp; by apply Hk2, Hk1].
    by replace (n + (1 + len order)) with (n + 1 + len order) by lia.
Qed.

Lemma shutdown_all_ok l n w : wsafe n w -> n < limit ->
  exists w', hub.shutdown_all w l = Some w' /\ wsafe n w' /\ sess_kept w w'.
Proof.
  revert w. induction l as [|c l IH]; intros w Hs Hb; cbn [hub.shutdown_all].
  - exists w. split; [done|]. split; [done|by intros p].
  - destruct (exec_ok n w (OClose c true) Hs I) as (w1 & He1 & Hs1 & Hk1); [cbn; lia|].
    cbn [exec shutdown_call] in He1.
    destruct (client.Shutdown (w_clients w !!! c)) as [cl|] eqn:Hsh; [|done].
    cbn [mbind option_bind] in *. injection He1 as <-. cbn [cost is_send] in Hs1.
    rewrite Z.add_0_r in Hs1. destruct (IH _ Hs1 Hb) as (w2 & -> & Hs2 & Hk2).
    exists w2. split; [done|]. split; [done|]. intros p Hp. by apply Hk2, Hk1.
Qed.

End safe.

(** ** States *)

Definition recovery_options (c : Config) : SessionOptions :=
  let rc := SessionRecovery c in
  store.mkOptions (ReplayBufferMessages rc) (ReplayBufferBytes rc) (SessionTTL rc)
    (MaxParkedSessions rc) (IdempotencyWindow rc).

Section server.
Context {Inv : world -> Prop} {may : cptr -> Prop} {HI : Tracked Inv may}.
Variable a : app.

(** The jobs that wait in the hub's queue carry well-formed events. *)
Definition jobs_ok (h : hub.Hub) : Prop :=
  Forall (fun e => event_frame (hub.Data e)) (ch_buf (hub.emit h)).

Record safe_for (st : state) : Prop := {
  sf_world : wsafe (Inv := Inv) (st_sends st) (st_world st);
  sf_jobs : jobs_ok (st_hub st)
}.

Abbreviation safe := safe_for.

(** What application code leaves alone: the registry, the bindings of clients,
    the keys of sessions, and the server's own tables. *)
Record calm (st st' : state) : Prop := {
  cm_store : w_store (st_world st') = w_store (st_world st);
  cm_bound c : client.session (w_clients (st_world st') !!! c)
    = client.session (w_clients (st_world st) !!! c);
  cm_keys p s : w_sess (st_world st) !! p = Some s ->
    exists s', w_sess (st_world st') !! p = Some s' /\ s_keys s' = s_keys s;
  cm_tables : st_byID st' = st_byID st /\ st_conns st' = st_conns st /\
    st_closed st' = st_closed st /\ st_total st' = st_total st
}.

(** [st'] follows [st] with at most [k] more frames sent. *)
Definition after (k : Z) (st st' : state) : Prop :=
  safe st' /\ st_sends st' <= st_sends st + k /\ sess_kept (st_world st) (st_world st').

Lemma after_trans k1 k2 st1 st2 st3 : after k1 st1 st2 -> after k2 st2 st3 -> after (k1 + k2) st1 st3.
Proof.
  intros (_ & A2 & A3) (B1 & B2 & B3). split; [done|]. split; [lia|]. intros p Hp. by apply B3, A3.
Qed.

Lemma after_refl st : safe st -> after 0 st st.
Proof. intros Hs. split; [done|]. split; [lia|by intros p]. Qed.

Lemma after_weaken k k' st st' : after k st st' -> k <= k' -> after k' st st'.
Proof. intros (A1 & A2 & A3) Hk. split; [done|]. split; [lia|done]. Qed.

Lemma calm_refl st : calm st st.
Proof. constructor; [done|done|by intros p s Hp; exists s|done]. Qed.

Lemma calm_trans st1 st2 st3 : calm st1 st2 -> calm st2 st3 -> calm st1 st3.
Proof.
  intros [A1 A2 A3 (A4 & A5 & A6 & A7)] [B1 B2 B3 (B4 & B5 & B6 & B7)]. constructor.
  - congruence.
  - intros c. by rewrite B2.
  - intros p s Hp. destruct (A3 p s Hp) as (s2 & Hp2 & <-). destruct (B3 p s2 Hp2) as (s3 & Hp3 & <-).
    by exists s3.
  - split_and!; congruence.
Qed.

(** A state with the same world and the same jobs. *)
Lemma after_same st st' : safe st -> st_world st' = st_world st -> st_sends st' = st_sends st ->
  hub.emit (st_hub st') = hub.emit (st_hub st) -> after 0 st st'.
Proof.
  intros [H1 H2] E1 E2 E3. split.
  - constructor; [by rewrite E1, E2|unfold jobs_ok; by rewrite E3].
  - rewrite E1, E2. split; [lia|by intros p].
Qed.

Lemma calm_same st st' : st_world st' = st_world st -> st_byID st' = st_byID st ->
  st_conns st' = st_conns st -> st_closed st' = st_closed st -> st_total st' = st_total st ->
  calm st st'.
Proof.
  intros E1 E2 E3 E4 E5. constructor; rewrite ?E1; [done|done| |by split_and!].
  intros p s Hp. by exists s.
Qed.

Lemma serve_emit h r now : hub.emit (hub.serve h r now) = hub.emit h.
Proof.
  destruct r; cbn [hub.serve]; try done; unfold hub.joinRoom, hub.leaveRoom;
    destruct (_ !! _); try done. by destruct (decide _).
Qed.

Lemma hub_do_ok now r st : safe st -> after 0 st (hub_do now r st) /\ calm st (hub_do now r st).
Proof.
  intros Hs. destruct r as [r|]; [|split; [by apply after_refl|apply calm_refl]].
  split; [apply after_same; try done; apply serve_emit|by apply calm_same].
Qed.

(** ** Operations on the registry *)

Lemma wop_ok i st : safe st -> ok_op (may := may) (st_world st) i -> st_sends st + cost i < limit ->
  exists w', exec (st_world st) i = Some w' /\ wop i st = Some (set_world st w' (cost i)) /\
    after (cost i) st (set_world st w' (cost i)).
Proof.
  intros [H1 H2] Hok Hb. destruct (exec_ok _ _ i H1 Hok Hb) as (w' & He & Hs & Hk).
  exists w'. split; [done|]. split; [unfold wop; by rewrite He|].
  split; [by constructor|]. split; [cbn; lia|done].
Qed.

(** The operations application code can reach. *)
Definition app_op (i : op) : Prop :=
  match i with OSend _ _ _ | ONote _ _ | OClose _ _ => True | _ => False end.

Lemma set_client_bound w c cl : client.session cl = client.session (w_clients w !!! c) ->
  forall c', client.session (w_clients (set_client w c cl) !!! c')
    = client.session (w_clients w !!! c').
Proof.
  intros E c'. cbn. destruct (decide (c = c')) as [<-|Hne].
  - by rewrite lookup_total_insert_eq.
  - by rewrite lookup_total_insert_ne.
Qed.

Lemma send_keys w c d pol w' p s : good w -> valid w (OSend c d pol) ->
  exec w (OSend c d pol) = Some w' -> w_sess w !! p = Some s ->
  exists s', w_sess w' !! p = Some s' /\ s_keys s' = s_keys s.
Proof.
  intros [[Hw _] Hc] Hv He Hp. cbn [exec] in He. unfold TrySendPolicy in He.
  destruct (client.session (w_clients w !!! c)) as [q|] eqn:Hs.
  - destruct (proj2 (Hc c) q Hs) as [sq Hq]. destruct (so_log sq (iv_sess w Hw q sq Hq)) as [log Hl].
    specialize (Hv q sq Hs Hq). pose proof (lg_next log sq Hl).
    destruct (deliver_contract (w_clients w) sq d pol log Hl ltac:(lia))
      as (cs' & sq' & ok & frames & logd & Hd & _ & _ & (_ & _ & _ & _ & _ & Ek & _) & _).
    rewrite (lookup_total_correct _ _ _ Hq), Hd in He. injection He as <-. cbn [w_sess].
    destruct (decide (q = p)) as [->|Hne].
    + exists sq'. rewrite lookup_insert_eq. split; [done|]. congruence.
    + exists s. by rewrite lookup_insert_ne.
  - exists s. destruct (enqueue _ _) as [cl [| |]]; try case_decide; by injection He as <-.
Qed.

Lemma app_op_calm i st w' : safe st -> app_op i -> ok_op (may := may) (st_world st) i ->
  st_sends st + cost i < limit -> exec (st_world st) i = Some w' -> calm st (set_world st w' (cost i)).
Proof.
  intros [Hs _] Ha Hok Hb He. pose proof (wsafe_good _ _ Hs) as Hg.
  destruct (ok_op_valid _ _ i Hs Hok Hb) as [Hv _].
  destruct i as [| |c d pol| | | |c tm| | |c n|]; try done.
  - constructor; cbn [st_world set_world]; [| |by intros p s; eapply send_keys|done].
    + cbn [exec] in He. destruct (TrySendPolicy _ _ _ _ _) as [[[cs ss] ok]|]; [|done].
      by injection He as <-.
    + intros c'. destruct (client.session (w_clients (st_world st) !!! c)) as [q|] eqn:Hq.
      * destruct (proj2 (g_clients _ Hg c) q Hq) as [sq Hsq].
        destruct (so_log sq (iv_sess _ (proj1 (g_inv _ Hg)) q sq Hsq)) as [log Hl].
        destruct (send_bound _ c d pol w' q sq log Hg Hv He Hq Hsq Hl) as (sq' & logd & _ & _ & _ & Hcl).
        apply Hcl.
      * destruct (send_unbound _ c d pol w' He Hq) as [_ Hcl]. apply Hcl.
  - cbn [exec] in He. destruct (shutdown_call tm (w_clients (st_world st) !!! c)) as [cl|] eqn:Hsh; [|done].
    injection He as <-. constructor; cbn [st_world set_world]; [done| |by intros p s Hp; exists s|done].
    apply set_client_bound. pose proof (proj1 (g_clients _ Hg c)) as Hwf. destruct tm; cbn [shutdown_call] in Hsh.
    + destruct (closeRaw_wf _ (with_noResume_wf _ Hwf)) as (cl' & E & _ & _ & _ & E' & _).
      unfold client.Shutdown in Hsh. rewrite Hsh in E. by injection E as ->.
    + destruct (closeRaw_wf _ Hwf) as (cl' & E & _ & _ & _ & E' & _).
      unfold ShutdownResumable in Hsh. rewrite Hsh in E. by injection E as ->.
  - injection He as <-. constructor; cbn [st_world set_world]; [done| |by intros p s Hp; exists s|done].
    apply set_client_bound. apply noted_same.
Qed.

Lemma app_wop i st : safe st -> app_op i -> ok_op (may := may) (st_world st) i -> st_sends st + cost i < limit ->
  exists st', wop i st = Some st' /\ after (cost i) st st' /\ calm st st'.
Proof.
  intros Hs Ha Hok Hb. destruct (wop_ok i st Hs Hok Hb) as (w' & He & Hw & Haf).
  eexists. split; [done|]. split; [done|]. by apply app_op_calm.
Qed.

(** ** Application code *)

(** [follows k st st']: what application code does, with at most [k] sends. *)
Definition follows (k : Z) (st st' : state) : Prop := after k st st' /\ calm st st'.

Lemma follows_refl st : safe st -> follows 0 st st.
Proof. split; [by apply after_refl|apply calm_refl]. Qed.

Lemma follows_trans k1 k2 st1 st2 st3 : follows k1 st1 st2 -> follows k2 st2 st3 ->
  follows (k1 + k2) st1 st3.
Proof. intros [A1 A2] [B1 B2]. split; [by eapply after_trans|by eapply calm_trans]. Qed.

Lemma follows_weaken k k' st st' : follows k st st' -> k <= k' -> follows k' st st'.
Proof. intros [A1 A2] Hk. split; [by eapply after_weaken|done]. Qed.

Lemma follows_safe k st st' : follows k st st' -> safe st' /\ st_sends st' <= st_sends st + k.
Proof. by intros [(? & ? & _) _]. Qed.

(** A field of the server that is none of the above. *)
Lemma follows_same st st' : safe st -> st_world st' = st_world st -> st_sends st' = st_sends st ->
  st_hub st' = st_hub st -> st_byID st' = st_byID st -> st_conns st' = st_conns st ->
  st_closed st' = st_closed st -> st_total st' = st_total st -> follows 0 st st'.
Proof.
  intros Hs E1 E2 E3 E4 E5 E6 E7. split; [|by apply calm_same].
  apply after_same; [done..|by rewrite E3].
Qed.

Lemma emitOne_ok ic event data ack opts st : safe st -> st_sends st + 1 < limit ->
  exists st' b, emitOne a ic event data ack opts st = Some (st', b) /\ follows 1 st st'.
Proof.
  intros Hs Hb. assert (follows 1 st st) as Hrefl.
  { eapply follows_weaken; [by apply follows_refl|lia]. }
  unfold emitOne. destruct ic as [c|]; [|by eexists _, _]. destruct data as [v|]; [|by eexists _, _].
  set (b := Marshal _). set (pol := resolvePolicy _ _).
  destruct (app_wop (OSend c b pol) st Hs I (Marshal_event _) Hb) as (st1 & Hw & Hf & Hc).
  assert (exists r, TrySendPolicy (w_clients (st_world st)) (w_sess (st_world st)) c b pol = Some r)
    as [[[cs ss] ok] Hr].
  { unfold wop in Hw. cbn [exec] in Hw. destruct (TrySendPolicy _ _ _ _ _); [by eexists|done]. }
  rewrite Hr. cbn [mbind option_bind]. rewrite Hw. cbn [mbind option_bind]. eexists _, _.
  split; [done|]. destruct ok; [by split|].
  destruct Hf as (Hs1 & Hf). change 1 with (cost (OSend c b pol) + 0). eapply follows_trans; [by split|].
  by apply follows_same.
Qed.

Lemma Emit_jobs h job : jobs_ok h -> event_frame (hub.Data job) -> jobs_ok (hub.Emit h job).
Proof.
  intros Hj He. unfold hub.Emit. destruct (hub.closed h); [done|].
  destruct (try_send (hub.emit h) job) as [ch| |] eqn:E; [|done..].
  apply try_send_wf in E as (_ & Hb & _). unfold jobs_ok. cbn [hub.set_emit hub.emit]. rewrite Hb.
  apply Forall_app. by split; [|constructor].
Qed.

Lemma Emit_follows st job : safe st -> event_frame (hub.Data job) ->
  follows 0 st (set_hub st (hub.Emit (st_hub st) job)).
Proof.
  intros [H1 H2] He. split; [|by apply calm_same].
  split; [constructor; [done|by apply Emit_jobs]|]. cbn. split; [lia|by intros p].
Qed.

Lemma emitRoom_ok room event data ack ex opts st : safe st ->
  follows 0 st (emitRoom a room event data ack ex opts st).1.
Proof.
  intros Hs. unfold emitRoom. destruct (bool_decide _); [by apply follows_refl|].
  destruct data as [v|]; [|by apply follows_refl]. apply Emit_follows; [done|apply Marshal_event].
Qed.

Lemma run_action_ok now act x st : safe st -> st_sends st + 1 < limit ->
  exists x' st' r, run_action a now act x st = Some (x', st', r) /\ follows 1 st st' /\
    ctx_client x' = ctx_client x.
Proof.
  intros Hs Hb.
  assert (forall st', follows 0 st st' -> follows 1 st st') as Hw.
  { intros st' Hf. eapply follows_weaken; [done|lia]. }
  assert (follows 1 st st) as Hrefl by by apply Hw, follows_refl.
  assert (forall r, follows 1 st (hub_do now r st)) as Hhub.
  { intros r. destruct (hub_do_ok now r st Hs). by apply Hw. }
  assert (forall i, app_op i -> is_send i = false -> ok_op (may := may) (st_world st) i ->
    exists st', wop i st = Some st' /\ follows 1 st st') as Hop.
  { intros i Ha Hi Hok. destruct (app_wop i st Hs Ha Hok) as (st' & Hst & Hf & Hc).
    - unfold cost. rewrite Hi. lia.
    - exists st'. split; [done|]. unfold cost in Hf. rewrite Hi in Hf. by apply Hw. }
  assert (forall y, ctx_client (consumeAck y).1 = ctx_client y) as Hack.
  { intros y. unfold consumeAck. by destruct (_ || _). }
  specialize (Hack x).
  destruct act as [event data opts|room event data opts|room event data opts|room|room|key|key v| | |];
    cbn [run_action]; unfold on_client.
  - destruct (consumeAck x) as [y ack]. destruct (emitOne_ok (ctx_client y) event data ack opts st Hs Hb)
      as (st' & b & -> & Hf). by eexists _, _, _.
  - destruct (consumeAck x) as [y ack].
    pose proof (emitRoom_ok room event data ack None opts st Hs) as Hf.
    destruct (emitRoom _ _ _ _ _ _ _ _) as [st' b]. eexists _, _, _. split; [done|]. split; [by apply Hw|done].
  - destruct (consumeAck x) as [y ack].
    pose proof (emitRoom_ok room event data ack (ctx_client y) opts st Hs) as Hf.
    destruct (emitRoom _ _ _ _ _ _ _ _) as [st' b]. eexists _, _, _. split; [done|]. split; [by apply Hw|done].
  - destruct (ctx_client x) eqn:Ex; eexists _, _, _; (split; [done|]); (split; [|done]); [apply Hhub|done].
  - destruct (ctx_client x) eqn:Ex; eexists _, _, _; (split; [done|]); (split; [|done]); [apply Hhub|done].
  - destruct (ctx_client x) eqn:Ex; eexists _, _, _; (split; [done|]); by split.
  - destruct (ctx_client x) as [c|] eqn:Ex; [|eexists _, _, _; by split].
    destruct (Hop (ONote c (NMeta key v))) as (st' & -> & Hf); [done..|]. eexists _, _, _. by split.
  - destruct (ctx_client x) eqn:Ex; eexists _, _, _; (split; [done|]); by split.
  - destruct (ctx_client x) eqn:Ex; eexists _, _, _; (split; [done|]); by split.
  - destruct (ctx_client x) as [c|] eqn:Ex; [|eexists _, _, _; by split].
    destruct (Hop (OClose c true)) as (st' & -> & Hf); [done..|]. eexists _, _, _. by split.
Qed.

(** Programs that call at most [n] methods. *)
Fixpoint short (n : nat) (p : prog) : Prop :=
  match p with
  | Done _ => True
  | Act _ k => match n with O => False | S n' => forall r, short n' (k r) end
  end.

Lemma run_prog_ok now n p x st : short n p -> safe st -> st_sends st + Z.of_nat n < limit ->
  exists x' st' r, run_prog a now p x st = Some (x', st', r) /\ follows (Z.of_nat n) st st'.
Proof.
  revert n x st. induction p as [r|act k IH]; intros n x st Hsh Hs Hb; cbn [run_prog].
  - exists x, st, r. split; [done|]. eapply follows_weaken; [by apply follows_refl|lia].
  - destruct n as [|n]; [done|]. cbn [short] in Hsh.
    destruct (run_action_ok now act x st Hs) as (x1 & st1 & r & -> & Hf & _); [lia|].
    cbn [mbind option_bind]. destruct (follows_safe _ _ _ Hf) as [Hs1 Hn1].
    destruct (IH r n x1 st1 (Hsh r) Hs1) as (x2 & st2 & r2 & -> & Hf2); [lia|].
    exists x2, st2, r2. split; [done|]. replace (Z.of_nat (S n)) with (1 + Z.of_nat n) by lia.
    by eapply follows_trans.
Qed.

(** An application whose programs call at most [N] methods. *)
Definition short_all (N : nat) (l : list (Context -> prog)) : Prop :=
  Forall (fun f => forall x, short N (f x)) l.
Definition short_middleware (N : nat) (l : list middleware) : Prop :=
  Forall (fun m => match m with MiddlewareFunc f => forall x, short N (f x) | _ => True end) l.

Record bounded (N : nat) : Prop := {
  bd_middlewares : short_middleware N (middlewares a);
  bd_handlers ev h : handlers a ev = Some h -> forall x, short N (h x);
  bd_onConnect : short_all N (onConnect a);
  bd_onDisconnect : short_all N (onDisconnect a);
  bd_onHeartbeat : short_all N (onHeartbeatTimeout a)
}.

Definition share {A} (N : nat) (l : list A) : Z := Z.of_nat N * len l.

Lemma share_cons {A} N (x : A) l : share N (x :: l) = Z.of_nat N + share N l.
Proof. unfold share. rewrite len_cons. lia. Qed.
Lemma share_nonneg {A} N (l : list A) : 0 <= share N l.
Proof. unfold share. pose proof (len_nonneg l). nia. Qed.

Lemma RunMiddleware_ok now N m x st :
  match m with MiddlewareFunc f => forall y, short N (f y) | _ => True end -> safe st ->
  st_sends st + Z.of_nat N < limit ->
  exists x' st' r, RunMiddleware a now m x st = Some (x', st', r) /\ follows (Z.of_nat N) st st'.
Proof.
  intros Hm Hs Hb. assert (follows (Z.of_nat N) st st) as Hrefl.
  { eapply follows_weaken; [by apply follows_refl|lia]. }
  destruct m as [|interval|f]; cbn [RunMiddleware].
  - by eexists _, _, _.
  - destruct (ctx_client x) as [c|]; [|by eexists _, _, _]. destruct (_ <=? 0); [by eexists _, _, _|].
    destruct (bool_decide _); [by eexists _, _, _|].
    destruct (app_wop (ONote c (NAllow interval now)) st Hs I I) as (st1 & -> & Hf & Hc); [cbn; lia|].
    eexists _, _, _. split; [done|]. eapply follows_weaken; [by split|cbn; lia].
  - by apply run_prog_ok.
Qed.

Lemma runMiddlewares_loop_ok now N l x st : short_middleware N l -> safe st ->
  st_sends st + share N l < limit ->
  exists x' st' r, runMiddlewares_loop a now l x st = Some (x', st', r) /\ follows (share N l) st st'.
Proof.
  intros Hl. revert x st. induction Hl as [|m l Hm Hl IH]; intros x st Hs Hb; cbn [runMiddlewares_loop].
  - eexists _, _, _. split; [done|]. unfold share. rewrite len_nil, Z.mul_0_r. by apply follows_refl.
  - rewrite share_cons in *. pose proof (share_nonneg N l).
    destruct (isRecoverMiddleware m).
    + destruct (IH x st Hs) as (x' & st' & r & -> & Hf); [lia|]. eexists _, _, _. split; [done|].
      eapply follows_weaken; [done|lia].
    + destruct (RunMiddleware_ok now N m x st Hm Hs) as (x1 & st1 & r1 & -> & Hf1); [lia|].
      cbn [mbind option_bind]. destruct (follows_safe _ _ _ Hf1) as [Hs1 Hn1].
      destruct r1; [|eexists _, _, _; split; [done|]; eapply follows_weaken; [done|lia]..].
      destruct (IH x1 st1 Hs1) as (x2 & st2 & r2 & -> & Hf2); [lia|]. eexists _, _, _. split; [done|].
      by eapply follows_trans.
Qed.

Lemma middlewares_recovered_ok now N l x st : short_middleware N l -> safe st ->
  st_sends st + share N l < limit ->
  exists x' st', middlewares_recovered a now l x st = Some (x', st') /\ follows (share N l) st st'.
Proof.
  intros Hl. revert x st. induction Hl as [|m l Hm Hl IH]; intros x st Hs Hb; cbn [middlewares_recovered].
  - eexists _, _. split; [done|]. unfold share. rewrite len_nil, Z.mul_0_r. by apply follows_refl.
  - rewrite share_cons in *. pose proof (share_nonneg N l).
    destruct (isRecoverMiddleware m).
    + destruct (IH x st Hs) as (x' & st' & -> & Hf); [lia|]. eexists _, _. split; [done|].
      eapply follows_weaken; [done|lia].
    + destruct (RunMiddleware_ok now N m x st Hm Hs) as (x1 & st1 & r1 & -> & Hf1); [lia|].
      cbn [mbind option_bind]. destruct (follows_safe _ _ _ Hf1) as [Hs1 Hn1].
      destruct (IH x1 st1 Hs1) as (x2 & st2 & -> & Hf2); [lia|]. eexists _, _. split; [done|].
      by eapply follows_trans.
Qed.

Lemma run_recovered_ok now N l x st : short_all N l -> safe st -> st_sends st + share N l < limit ->
  exists x' st', run_recovered a now l x st = Some (x', st') /\ follows (share N l) st st'.
Proof.
  intros Hl. revert x st. induction Hl as [|f l Hf Hl IH]; intros x st Hs Hb; cbn [run_recovered].
  - eexists _, _. split; [done|]. unfold share. rewrite len_nil, Z.mul_0_r. by apply follows_refl.
  - rewrite share_cons in *. pose proof (share_nonneg N l).
    destruct (run_prog_ok now N (f x) x st (Hf x) Hs) as (x1 & st1 & r1 & -> & Hf1); [lia|].
    cbn [mbind option_bind]. destruct (follows_safe _ _ _ Hf1) as [Hs1 Hn1].
    destruct (IH x1 st1 Hs1) as (x2 & st2 & -> & Hf2); [lia|]. eexists _, _. split; [done|].
    by eapply follows_trans.
Qed.

Lemma run_callbacks_ok now N l x st : short_all N l -> safe st -> st_sends st + share N l < limit ->
  exists x' st', run_callbacks a now l x st = Some (x', st') /\ follows (share N l) st st'.
Proof.
  intros Hl. revert x st. induction Hl as [|f l Hf Hl IH]; intros x st Hs Hb; cbn [run_callbacks].
  - eexists _, _. split; [done|]. unfold share. rewrite len_nil, Z.mul_0_r. by apply follows_refl.
  - rewrite share_cons in *. pose proof (share_nonneg N l).
    destruct (run_prog_ok now N (f x) x st (Hf x) Hs) as (x1 & st1 & r1 & -> & Hf1); [lia|].
    cbn [mbind option_bind]. destruct (follows_safe _ _ _ Hf1) as [Hs1 Hn1].
    assert (exists x2 st2, run_callbacks a now l x1 st1 = Some (x2, st2) /\ follows (share N l) st1 st2)
      as (x2 & st2 & E2 & Hf2) by (apply IH; [done|lia]).
    destruct r1.
    1,2: rewrite E2; eexists _, _; split; [done|]; by eapply follows_trans.
    eexists _, _. split; [done|]. apply (follows_weaken (Z.of_nat N + 0)); [|lia].
    eapply follows_trans; [done|by apply follows_same].
Qed.

(** ** Messages *)

Lemma quiet_wop i st : safe st -> is_send i = false -> ok_op (may := may) (st_world st) i -> st_sends st < limit ->
  exists st', wop i st = Some st' /\ after 0 st st'.
Proof.
  intros Hs Hi Hv Hb. destruct (wop_ok i st Hs) as (w' & _ & Hw & Ha).
  - done.
  - unfold cost. rewrite Hi. lia.
  - eexists. split; [done|]. unfold cost in Ha. rewrite Hi in Ha. by unfold cost; rewrite Hi.
Qed.

Lemma dispatch_event_ok now N sess msg x st : bounded N -> safe st ->
  (forall p, sess = Some p -> is_Some (w_sess (st_world st) !! p)) ->
  st_sends st + Z.of_nat N < limit ->
  exists st' d, dispatch_event a now sess msg x st = Some (st', d) /\ after (Z.of_nat N) st st'.
Proof.
  intros HN Hs Hp Hb.
  assert (forall st1, after 0 st st1 -> exists st' d,
    match handlers a (Event msg) with
    | None => Some (st1, NoHandler)
    | Some h => '(_, st2, r) ← run_prog a now (h x) x st1;
        Some (st2, match r with Panics => Panicked | _ => Handled end)
    end = Some (st', d) /\ after (Z.of_nat N) st st') as Hhandle.
  { intros st1 Ha. pose proof Ha as (Hs1 & Hn1 & _).
    destruct (handlers a (Event msg)) as [h|] eqn:Hh.
    - destruct (run_prog_ok now N (h x) x st1 (bd_handlers N HN _ h Hh x) Hs1) as (x2 & st2 & r & -> & Hf & _);
        [lia|]. eexists _, _. split; [done|]. by apply (after_trans 0 (Z.of_nat N) st st1).
    - eexists _, _. split; [done|]. eapply after_weaken; [done|lia]. }
  unfold dispatch_event. destruct (bool_decide (Event msg = ""%string)).
  { eexists _, _. split; [done|]. eapply after_weaken; [by apply after_refl|lia]. }
  destruct sess as [p|]; [|by apply Hhandle, after_refl].
  destruct (bool_decide _); [by apply Hhandle, after_refl|].
  destruct (quiet_wop (OClaim p (IdempotencyKey msg)) st Hs eq_refl (Hp p eq_refl)) as (st1 & Hw & Ha1); [lia|].
  assert (exists s ok, ClaimKey (w_sess (st_world st) !!! p) (IdempotencyKey msg) = Some (s, ok))
    as (s' & ok & Hc).
  { unfold wop in Hw. cbn [exec] in Hw. destruct (ClaimKey _ _) as [[s' ok]|]; [by eexists _, _|done]. }
  rewrite Hc. cbn [mbind option_bind]. rewrite Hw. cbn [mbind option_bind].
  destruct ok; [by apply Hhandle|]. pose proof Ha1 as (Hs1 & Hn1 & _).
  destruct (quiet_wop ODuplicate st1 Hs1 eq_refl I) as (st2 & -> & Ha2); [lia|].
  eexists _, _. split; [done|]. eapply after_weaken; [by eapply after_trans|lia].
Qed.

Lemma after_counts st total ever byID : safe st -> after 0 st (set_counts st total ever byID).
Proof. intros Hs. by apply after_same. Qed.

Lemma bound_session st c p : safe st -> client.session (w_clients (st_world st) !!! c) = Some p ->
  is_Some (w_sess (st_world st) !! p).
Proof. intros [Hs _] Hp. by apply (g_clients _ (wsafe_good _ _ Hs) c). Qed.

Lemma process_ok now N c sess msg st : bounded N -> safe st ->
  (forall p, sess = Some p -> is_Some (w_sess (st_world st) !! p)) ->
  st_sends st + (share N (middlewares a) + Z.of_nat N) < limit ->
  exists st' d, process a now c sess msg st = Some (st', d) /\
    after (share N (middlewares a) + Z.of_nat N) st st'.
Proof.
  intros HN Hs Hsess Hb. pose proof (share_nonneg N (middlewares a)) as Hsh. unfold process.
  set (st0 := set_counts _ _ _ _). assert (after 0 st st0) as Ha0 by by apply after_counts.
  pose proof Ha0 as (Hs0 & Hn0 & _).
  destruct (runMiddlewares_loop_ok now N (middlewares a)
    (newContext (Some c) (Event msg) (Payload msg) (Room msg) (ID msg)) st0 (bd_middlewares N HN) Hs0)
    as (x1 & st1 & r & Hr & [Ha1 _]); [lia|]. unfold runMiddlewares. rewrite Hr. cbn [mbind option_bind].
  pose proof Ha1 as (Hs1 & Hn1 & Hk1).
  assert (exists st2 d, match r with
      | Returns => dispatch_event a now sess msg x1 st1
      | Fails => Some (st1, Rejected)
      | Panics => Some (st1, MiddlewarePanicked) end = Some (st2, d) /\ after (Z.of_nat N) st1 st2)
    as (st2 & d & -> & Ha2).
  { destruct r; [|eexists _, _; split; [done|]; (eapply after_weaken; [by apply after_refl|lia])..].
    apply dispatch_event_ok; [done|done| |lia]. intros p Hp. by apply Hk1, Hsess. }
  cbn [mbind option_bind]. assert (after (share N (middlewares a) + Z.of_nat N) st st2) as Ha.
  { eapply (after_trans (0 + share N (middlewares a))); [by eapply after_trans|done]. }
  pose proof Ha2 as (Hs2 & Hn2 & _).
  assert (exists st' d', (if hasRecover a then st ← wop (OClose c true) st2; Some (st, d) else Some (crash st2, d))
    = Some (st', d') /\ after (share N (middlewares a) + Z.of_nat N) st st') as Hp.
  { destruct (hasRecover a).
    - destruct (quiet_wop (OClose c true) st2 Hs2 eq_refl I) as (st3 & -> & Ha3); [lia|].
      eexists _, _. split; [done|]. eapply after_weaken; [by eapply after_trans|lia].
    - eexists _, _. split; [done|].
      eapply after_weaken; [eapply after_trans; [exact Ha|]|]; [by apply (after_same st2 (crash st2))|lia]. }
  destruct d; [by eexists _, _..|exact Hp|exact Hp].
Qed.

Lemma dispatch_ok now N c raw st : bounded N -> safe st ->
  st_sends st + (share N (middlewares a) + Z.of_nat N) < limit ->
  exists st' d, dispatch a now c raw st = Some (st', d) /\
    after (share N (middlewares a) + Z.of_nat N) st st'.
Proof.
  intros HN Hs Hb. pose proof (share_nonneg N (middlewares a)) as Hsh.
  assert (forall st', after 0 st st' -> after (share N (middlewares a) + Z.of_nat N) st st') as Hw.
  { intros st' Ha. eapply after_weaken; [done|lia]. }
  rewrite dispatch_eq. destruct (Unmarshal raw) as [msg|]; [|eexists _, _; split; [done|]; by apply Hw, after_refl].
  cbv zeta. set (sess := client.session _).
  assert (forall p, sess = Some p -> is_Some (w_sess (st_world st) !! p)) as Hsess
    by (intros p; by apply bound_session).
  clearbody sess. destruct sess as [p|]; [|by apply process_ok]. destruct (bool_decide _); [|by apply process_ok].
  unfold handleAck. destruct (UnmarshalSeq (Payload msg)) as [n|].
  - destruct (quiet_wop (OAck p n) st Hs eq_refl (Hsess p eq_refl)) as (st1 & -> & Ha1); [lia|].
    eexists _, _. split; [done|]. by apply Hw.
  - eexists _, _. split; [done|]. by apply Hw, after_refl.
Qed.

(** ** Connections *)

Lemma releases_ok now l st : safe st -> follows 0 st (releases now l st).
Proof.
  unfold releases. revert st. induction l as [|[p why] l IH]; intros st Hs; cbn [fold_left];
    [by apply follows_refl|].
  assert (follows 0 st (releaseSession now (p, why) st)) as Hf.
  { unfold releaseSession. set (s := _ !!! p).
    assert (follows 0 st (match s_member s with
      | Some m => hub_do now (hub.Unregister (st_hub st) m) st | None => st end)) as H1.
    { destruct (s_member s); [by apply hub_do_ok|by apply follows_refl]. }
    destruct why; [|(done || idtac)..]; try exact H1; destruct (follows_safe _ _ _ H1) as [Hs1 _];
      apply (follows_trans 0 0 _ _ _ H1); by apply follows_same. }
  destruct (follows_safe _ _ _ Hf) as [Hs1 _]. by apply (follows_trans 0 0 _ _ _ Hf), IH.
Qed.

Lemma resumeRequest_seq owner r req : resumeRequest owner r = Some req -> 0 <= LastSeq req.
Proof.
  unfold resumeRequest. destruct r as [r|]; [|by intros [= <-]].
  destruct (match owner with Some f => _ | None => _ end) as [own|]; [|done]. cbn [mbind option_bind].
  generalize (if bool_decide (header r HeaderSession = ""%string) then query r QuerySession
              else header r HeaderSession)
    (if bool_decide (header r HeaderSeq = ""%string) then query r QuerySeq else header r HeaderSeq).
  intros sid seq. destruct (bool_decide (sid = _)); [by intros [= <-]|].
  destruct (bool_decide (seq = _)); [by intros [= <-]|].
  destruct (ParseUint _) as [n|] eqn:E; [|by intros [= <-]].
  apply ParseUint_range in E. intros [= <-]. cbn. lia.
Qed.

(** What [openSession] does once the registry has answered and the sessions it
    replaced have been released. *)
Definition introduce (now : Z) (c : cptr) (res : OpenResult) (st : state) : option state :=
  st ← wop (ONote c (NResumed (r_Resumed res))) st;
  st ← match r_Prev res with
       | Some prev =>
           st ← wop (ONote c (NCopyMeta prev)) st;
           Some (hub_do now (hub.Transfer (st_hub st) (Some prev) (Some c)) st)
       | None => Some st
       end;
  match r_Displaced res with
  | Some d => wop (OClose d false) st
  | None => Some st
  end.

Lemma openSession_eq now c r newID st : openSession a now c r newID st =
  match resumeRequest (a_owner a) r with
  | None => Some (st, Panics)
  | Some req =>
      '(_, res, rel) ← Open (st_world st) c req now newID;
      st ← wop (OOpen c req now newID) st;
      st ← introduce now c res (releases now rel st);
      Some (st, Returns)
  end.
Proof.
  unfold openSession. destruct (resumeRequest _ _) as [req|]; [|done].
  destruct (Open _ _ _ _ _) as [[[w res] rel]|]; [|done]. cbn [mbind option_bind].
  destruct (wop (OOpen _ _ _ _) st) as [st1|]; [|done]. cbn [mbind option_bind]. unfold introduce.
  destruct (wop (ONote c _) _) as [st2|]; [|done]. cbn [mbind option_bind].
  by destruct (match r_Prev res with Some _ => _ | None => _ end).
Qed.

Lemma introduce_ok now c res st : safe st -> st_sends st < limit ->
  exists st', introduce now c res st = Some st' /\ after 0 st st'.
Proof.
  intros Hs Hb. unfold introduce.
  destruct (quiet_wop (ONote c (NResumed (r_Resumed res))) st Hs eq_refl I) as (st1 & -> & Ha1); [lia|].
  cbn [mbind option_bind]. pose proof Ha1 as (Hs1 & Hn1 & _).
  assert (exists st2, match r_Prev res with
    | Some prev => st ← wop (ONote c (NCopyMeta prev)) st1;
        Some (hub_do now (hub.Transfer (st_hub st) (Some prev) (Some c)) st)
    | None => Some st1 end = Some st2 /\ after 0 st1 st2) as (st2 & -> & Ha2).
  { destruct (r_Prev res) as [prev|]; [|exists st1; split; [done|by apply after_refl]].
    destruct (quiet_wop (ONote c (NCopyMeta prev)) st1 Hs1 eq_refl I) as (st2 & -> & Ha2); [lia|].
    eexists. split; [done|]. pose proof Ha2 as (Hs2 & _ & _).
    apply (after_trans 0 0 _ _ _ Ha2). by apply hub_do_ok. }
  cbn [mbind option_bind]. pose proof Ha2 as (Hs2 & Hn2 & _).
  assert (after 0 st st2) as Ha by by apply (after_trans 0 0 _ _ _ Ha1).
  destruct (r_Displaced res) as [d|]; [|by eexists].
  destruct (quiet_wop (OClose d false) st2 Hs2 eq_refl I) as (st3 & -> & Ha3); [lia|].
  eexists. split; [done|]. by apply (after_trans 0 0 _ _ _ Ha).
Qed.

Lemma openSession_ok now c r newID st : safe st -> st_sends st < limit ->
  client.session (w_clients (st_world st) !!! c) = None ->
  sessions (w_store (st_world st)) !! newID = None ->
  exists st' o, openSession a now c r newID st = Some (st', o) /\ after 0 st st'.
Proof.
  intros Hs Hb Hc Hn. rewrite openSession_eq.
  destruct (resumeRequest _ _) as [req|] eqn:Hreq; [|eexists _, _; split; [done|by apply after_refl]].
  destruct (quiet_wop (OOpen c req now newID) st Hs eq_refl) as (st1 & Hw & Ha1); [|done|].
  { split; [done|]. split; [by eapply resumeRequest_seq|done]. }
  assert (exists w' res rel, Open (st_world st) c req now newID = Some (w', res, rel))
    as (w' & res & rel & ->).
  { unfold wop in Hw. cbn [exec] in Hw. destruct (Open _ _ _ _ _) as [[[? ?] ?]|]; [by eexists _, _, _|done]. }
  cbn [mbind option_bind]. rewrite Hw. cbn [mbind option_bind].
  pose proof Ha1 as (Hs1 & Hn1 & _). destruct (releases_ok now rel st1 Hs1) as [Ha2 _].
  pose proof Ha2 as (Hs2 & Hn2 & _). destruct (introduce_ok now c res _ Hs2) as (st3 & -> & Ha3); [lia|].
  eexists _, _. split; [done|]. by apply (after_trans 0 0 _ _ _ Ha1), (after_trans 0 0 _ _ _ Ha2).
Qed.

(** Refusing a connection after its middleware. *)
Lemma reject_ok now c st : safe st -> st_sends st < limit ->
  exists st', wop (OClose c true) (hub_do now (hub.Unregister (st_hub (set_conns st (i64 (st_conns st - 1)))) c)
    (set_conns st (i64 (st_conns st - 1)))) = Some st' /\ after 0 st st' /\
    st_conns st' = i64 (st_conns st - 1) /\ st_byID st' = st_byID st.
Proof.
  intros Hs Hb. set (st1 := set_conns _ _). assert (after 0 st st1) as Ha1 by by apply after_same.
  pose proof Ha1 as (Hs1 & Hn1 & _).
  destruct (hub_do_ok now (hub.Unregister (st_hub st1) c) st1 Hs1) as [Ha2 [_ _ _ (E1 & E2 & _)]].
  set (st2 := hub_do _ _ _) in *. pose proof Ha2 as (Hs2 & Hn2 & _).
  destruct (app_wop (OClose c true) st2 Hs2 I I) as (st3 & -> & Ha3 & [_ _ _ (E3 & E4 & _)]); [cbn; lia|].
  exists st3. split; [done|]. split; [|by rewrite E3, E4, E1, E2].
  apply (after_trans 0 0 _ _ _ Ha1), (after_trans 0 0 _ _ _ Ha2), Ha3.
Qed.

Definition connect_cost (N : nat) : Z := share N (middlewares a) + share N (onConnect a).

(** A new connection up to its middleware. *)
Lemma attaching_ok now N c id st : bounded N -> safe st -> w_clients (st_world st) !! c = None ->
  st_sends st + share N (middlewares a) < limit ->
  exists st1 x st2 r,
    wop (ONew c (client_options a id) now) (set_conns st (i64 (st_conns st + 1))) = Some st1 /\
    runMiddlewares a now (newContext (Some c) EventConnect [] "" "")
      (hub_do now (hub.Register (st_hub st1) c) st1) = Some (x, st2, r) /\
    after (share N (middlewares a)) st st2 /\
    client.session (w_clients (st_world st2) !!! c) = None /\
    w_store (st_world st2) = w_store (st_world st).
Proof.
  intros HN Hs Hc Hb. pose proof (share_nonneg N (middlewares a)).
  set (st0 := set_conns _ _). assert (after 0 st st0) as Ha0 by by apply after_same.
  pose proof Ha0 as (Hs0 & Hn0 & _).
  destruct (quiet_wop (ONew c (client_options a id) now) st0 Hs0 eq_refl Hc) as (st1 & Hw1 & Ha1); [lia|].
  rewrite Hw1. pose proof Ha1 as (Hs1 & Hn1 & _).
  destruct (hub_do_ok now (hub.Register (st_hub st1) c) st1 Hs1) as [Ha2 Hc2].
  set (st2 := hub_do _ _ _) in *. pose proof Ha2 as (Hs2 & Hn2 & _).
  destruct (runMiddlewares_loop_ok now N (middlewares a) (newContext (Some c) EventConnect [] "" "")
    st2 (bd_middlewares N HN) Hs2) as (x3 & st3 & r3 & Hr3 & [Ha3 Hc3]); [lia|].
  exists st1, x3, st3, r3. split; [done|]. split; [done|].
  split; [by apply (after_trans 0 _ _ _ _ Ha0), (after_trans 0 _ _ _ _ Ha1), (after_trans 0 _ _ _ _ Ha2)|].
  rewrite (cm_bound _ _ Hc3), (cm_store _ _ Hc3), (cm_bound _ _ Hc2), (cm_store _ _ Hc2).
  unfold wop in Hw1. cbn [exec mbind option_bind] in Hw1. injection Hw1 as <-.
  cbn [st_world set_world]. unfold set_client, set_clients. cbn [w_clients w_store].
  by rewrite lookup_total_insert_eq.
Qed.

Lemma serveTransport_ok now N c id r newID st : bounded N -> safe st ->
  w_clients (st_world st) !! c = None -> sessions (w_store (st_world st)) !! newID = None ->
  st_sends st + connect_cost N < limit ->
  exists st', serveTransport a now c id r newID st = Some st' /\ after (connect_cost N) st st'.
Proof.
  intros HN Hs Hc Hn Hb. unfold connect_cost in *. pose proof (share_nonneg N (middlewares a)).
  pose proof (share_nonneg N (onConnect a)). unfold serveTransport.
  destruct (attaching_ok now N c id st HN Hs Hc) as (st1 & x3 & st3 & r3 & -> & Hr3 & Ha & Hun & Hst); [lia|].
  cbn [mbind option_bind]. rewrite Hr3. cbn [mbind option_bind]. pose proof Ha as (Hs3 & Hn3 & _).
  assert (forall st', after 0 st3 st' -> after (share N (middlewares a) + share N (onConnect a)) st st') as Hfin.
  { intros st' Ha'. eapply (after_weaken (share N (middlewares a) + 0)); [by eapply after_trans|lia]. }
  assert (exists st', wop (OClose c true) (hub_do now (hub.Unregister
      (st_hub (set_conns st3 (i64 (st_conns st3 - 1)))) c) (set_conns st3 (i64 (st_conns st3 - 1)))) = Some st' /\
    after (share N (middlewares a) + share N (onConnect a)) st st') as Hrej.
  { destruct (reject_ok now c st3 Hs3) as (st' & -> & Ha' & _); [lia|]. exists st'. split; [done|]. by apply Hfin. }
  destruct r3; cbn [withRecover]; [|exact Hrej|destruct (hasRecover a); [exact Hrej|]].
  2: { eexists. split; [done|]. apply Hfin. by apply after_same. }
  set (st4 := set_counts _ _ _ _). assert (after 0 st3 st4) as Ha4 by by apply after_counts.
  pose proof Ha4 as (Hs4 & Hn4 & _).
  assert (exists st5 o, (if recovery_on a then openSession a now c r newID st4 else Some (st4, Returns))
    = Some (st5, o) /\ after 0 st4 st5) as (st5 & o & -> & Ha5).
  { destruct (recovery_on a).
    - apply openSession_ok; [done|lia|done|]. cbn [st_world st4 set_counts]. by rewrite Hst.
    - eexists _, _. split; [done|by apply after_refl]. }
  cbn [mbind option_bind]. pose proof Ha5 as (Hs5 & Hn5 & _).
  assert (forall st', after (share N (onConnect a)) st5 st' ->
    after (share N (middlewares a) + share N (onConnect a)) st st') as Hlast.
  { intros st' Ha'. eapply after_trans; [exact Ha|].
    by apply (after_trans 0 _ _ _ _ Ha4), (after_trans 0 _ _ _ _ Ha5). }
  destruct (run_callbacks_ok now N (onConnect a) x3 st5 (bd_onConnect N HN) Hs5) as (x6 & st6 & Hr6 & Ha6 & _); [lia|].
  destruct o; [rewrite Hr6; exists st6; split; [done|by apply Hlast]..|].
  eexists. split; [done|]. apply Hlast. eapply after_weaken; [by apply (after_same st5 (crash st5))|lia].
Qed.

Lemma retire_ok now c st : safe st -> st_sends st < limit ->
  exists st', retire now c st = Some st' /\ after 0 st st'.
Proof.
  intros Hs Hb. unfold retire. destruct (client.session _) as [p|] eqn:Hp.
  2: { eexists. split; [done|]. by apply hub_do_ok. }
  destruct (quiet_wop (OLeave p c now) st Hs eq_refl (bound_session st c p Hs Hp) Hb) as (st1 & Hw & Ha1).
  assert (exists w' res rel, Leave (st_world st) p c
    (negb (noResume (w_clients (st_world st) !!! c))) now = Some (w', res, rel)) as (w' & res & rel & HL).
  { unfold wop in Hw. cbn [exec] in Hw. destruct (Leave _ _ _ _ _) as [[[? ?] ?]|]; [by eexists _, _, _|done]. }
  rewrite HL. cbn [mbind option_bind]. rewrite Hw. cbn [mbind option_bind]. pose proof Ha1 as (Hs1 & _ & _).
  destruct (releases_ok now rel st1 Hs1) as [Ha2 _]. pose proof Ha2 as (Hs2 & _ & _).
  assert (after 0 st (releases now rel st1)) as Ha by by apply (after_trans 0 0 _ st1).
  eexists. split; [done|]. destruct res; try exact Ha.
  apply (after_trans 0 0 _ _ _ Ha). by apply hub_do_ok.
Qed.

Definition end_cost (N : nat) : Z :=
  share N (onHeartbeatTimeout a) + (share N (middlewares a) + share N (onDisconnect a)).

Lemma fireDisconnect_ok now N c st : bounded N -> safe st ->
  st_sends st + (share N (middlewares a) + share N (onDisconnect a)) < limit ->
  exists st', fireDisconnect a now c st = Some st' /\
    follows (share N (middlewares a) + share N (onDisconnect a)) st st'.
Proof.
  intros HN Hs Hb. pose proof (share_nonneg N (onDisconnect a)). unfold fireDisconnect.
  destruct (middlewares_recovered_ok now N (middlewares a) (newContext (Some c) EventDisconnect [] "" "") st
    (bd_middlewares N HN) Hs) as (x1 & st1 & -> & Hf1); [lia|]. cbn [mbind option_bind].
  destruct (follows_safe _ _ _ Hf1) as [Hs1 Hn1].
  destruct (run_recovered_ok now N (onDisconnect a) x1 st1 (bd_onDisconnect N HN) Hs1)
    as (x2 & st2 & -> & Hf2); [lia|]. eexists. split; [done|]. by eapply follows_trans.
Qed.

Lemma heartbeat_ok now N c (zombie : bool) st : bounded N -> safe st ->
  st_sends st + share N (onHeartbeatTimeout a) < limit ->
  exists st', (if zombie then fireHeartbeatTimeout a now c st else Some st) = Some st' /\
    follows (share N (onHeartbeatTimeout a)) st st'.
Proof.
  intros HN Hs Hb. pose proof (share_nonneg N (onHeartbeatTimeout a)).
  destruct zombie; [|exists st; split; [done|]; eapply follows_weaken; [by apply follows_refl|lia]].
  unfold fireHeartbeatTimeout.
  destruct (run_recovered_ok now N (onHeartbeatTimeout a) (newContext (Some c) "" [] "" "") st
    (bd_onHeartbeat N HN) Hs) as (x1 & st1 & -> & Hf); [lia|]. by exists st1.
Qed.

Lemma read_end_ok now N c zombie st : bounded N -> safe st -> st_sends st + end_cost N < limit ->
  exists st', read_end a now c zombie st = Some st' /\ after (end_cost N) st st'.
Proof.
  intros HN Hs Hb. unfold end_cost in *. pose proof (share_nonneg N (middlewares a)).
  pose proof (share_nonneg N (onDisconnect a)). pose proof (share_nonneg N (onHeartbeatTimeout a)).
  unfold read_end.
  destruct (heartbeat_ok now N c zombie st HN Hs) as (st1 & -> & Ha1 & _); [lia|].
  cbn [mbind option_bind]. pose proof Ha1 as (Hs1 & Hn1 & _).
  destruct (retire_ok now c st1 Hs1) as (st2 & -> & Ha2); [lia|]. cbn [mbind option_bind].
  pose proof Ha2 as (Hs2 & Hn2 & _).
  destruct (quiet_wop (OClose c false) st2 Hs2 eq_refl I) as (st3 & -> & Ha3); [lia|].
  cbn [mbind option_bind]. pose proof Ha3 as (Hs3 & Hn3 & _).
  set (st4 := set_counts _ _ _ _). assert (after 0 st3 st4) as Ha4 by by apply after_same.
  pose proof Ha4 as (Hs4 & Hn4 & _).
  destruct (fireDisconnect_ok now N c st4 HN Hs4) as (st5 & -> & Ha5 & _); [lia|].
  exists st5. split; [done|]. eapply after_trans; [exact Ha1|].
  by apply (after_trans 0 _ _ _ _ Ha2), (after_trans 0 _ _ _ _ Ha3), (after_trans 0 _ _ _ _ Ha4).
Qed.

(** ** The other goroutines *)

Definition good_order (order : list cptr) (h : hub.Hub) : Prop :=
  forall e ch, recv (hub.emit h) = Received e ch ->
    list_to_set order = hub.collectTargets h e /\ NoDup order.

Lemma hub_step_ok order st : safe st -> good_order order (st_hub st) ->
  st_sends st + len order < limit ->
  exists st', hub_step order st = Some st' /\ after (len order) st st'.
Proof.
  intros Hs Ho Hb. pose proof (len_nonneg order) as Hlen.
  assert (after (len order) st st) as Hrefl by (eapply after_weaken; [by apply after_refl|lia]).
  unfold hub_step. destruct (recv (hub.emit (st_hub st))) as [e ch| |] eqn:Hr; [|by eexists..].
  unfold hub.emitToTargets. rewrite decide_True by (by apply Ho with ch).
  destruct Hs as [Hw Hj].
  assert (event_frame (hub.Data e) /\ Forall (fun e => event_frame (hub.Data e)) (ch_buf ch)) as [He Hch].
  { unfold jobs_ok, recv in *. destruct (ch_buf (hub.emit (st_hub st))) as [|e' l] eqn:Hbuf.
    - by destruct (ch_closed _).
    - injection Hr as -> <-. by apply Forall_cons in Hj. }
  destruct (deliver_all_ok e order _ _ He Hw Hb) as (w' & slow & E & Hw' & Hk).
  cbn [st_world set_hub]. rewrite E. cbn [mbind option_bind]. eexists. split; [done|].
  split; [by constructor|]. cbn. split; [lia|done].
Qed.

Lemma slow_step_ok st : safe st -> st_sends st < limit ->
  exists st', slow_step st = Some st' /\ after 0 st st'.
Proof.
  intros Hs Hb. unfold slow_step. destruct (st_slow st) as [|c l].
  - exists st. split; [done|by apply after_refl].
  - assert (after 0 st (set_slow st l)) as Ha by by apply after_same.
    pose proof Ha as (Hs1 & _). destruct (quiet_wop (OClose c false) _ Hs1 eq_refl I Hb) as (st' & -> & Ha').
    exists st'. split; [done|]. by apply (after_trans 0 0 _ _ _ Ha).
Qed.

Lemma write_step_ok now c st : may c -> safe st -> st_sends st < limit ->
  exists st', write_step now c st = Some st' /\ after 0 st st'.
Proof.
  intros Hmay Hs Hb. unfold write_step. destruct (next_frame _) as [[f cl]|].
  - destruct (quiet_wop (OPump c) st Hs eq_refl Hmay Hb) as (st1 & -> & Ha1). cbn [mbind option_bind].
    pose proof Ha1 as (Hs1 & Hn1 & _).
    destruct (quiet_wop (ONote c (NSent (len f) now)) st1 Hs1 eq_refl I) as (st2 & -> & Ha2); [lia|].
    exists st2. split; [done|]. by apply (after_trans 0 0 _ _ _ Ha1).
  - exists st. split; [done|by apply after_refl].
Qed.

Lemma sweep_step_ok now st : safe st -> st_sends st < limit ->
  exists st', sweep_step now st = Some st' /\ after 0 st st'.
Proof.
  intros Hs Hb. unfold sweep_step.
  destruct (quiet_wop (OSweep now) st Hs eq_refl I Hb) as (st1 & Hw & Ha1).
  assert (exists w' rel, Sweep (st_world st) now = Some (w', rel)) as (w' & rel & ->).
  { unfold wop in Hw. cbn [exec] in Hw. destruct (Sweep _ _) as [[? ?]|]; [by eexists _, _|done]. }
  cbn [mbind option_bind]. rewrite Hw. cbn [mbind option_bind]. pose proof Ha1 as (Hs1 & _ & _).
  eexists. split; [done|]. apply (after_trans 0 0 _ _ _ Ha1). by apply releases_ok.
Qed.

Lemma set_closed_ok st : safe st -> after 0 st (set_closed st).
Proof. intros Hs. by apply after_same. Qed.

Lemma Shutdown_ok st : safe st -> st_sends st < limit ->
  exists st', Shutdown st = Some st' /\ after 0 st st'.
Proof.
  intros [Hw Hj] Hb. unfold Shutdown. cbn [st_hub set_closed]. destruct (hub.closed (st_hub st)).
  { eexists. split; [done|]. by apply set_closed_ok. }
  unfold hub.drainAndCloseAll.
  destruct (shutdown_all_ok (elements (hub.clients (st_hub st))) _ _ Hw Hb) as (w' & E & Hw' & Hk).
  cbn [st_world set_closed]. rewrite E. cbn [mbind option_bind]. eexists. split; [done|].
  split; [constructor; [|done]|]; cbn [st_world st_sends set_hub set_world set_closed].
  - by rewrite Z.add_0_r.
  - split; [lia|done].
Qed.

Lemma announce_ok ev data st : safe st -> after 0 st (announce ev data st).
Proof.
  intros Hs. unfold announce. pose proof (set_closed_ok st Hs) as Ha. pose proof Ha as (Hs1 & _).
  destruct data as [v|]; [|done]. apply (after_trans 0 0 _ _ _ Ha).
  apply Emit_follows; [done|apply Marshal_event].
Qed.

(** ** Runs *)

(** What the code outside the model provides: a fresh object and fresh random
    names, and a map iteration that visits every key once. *)
Definition event_ok (e : event) (st : state) : Prop :=
  match e with
  | EvConnect _ c _ _ newID =>
      w_clients (st_world st) !! c = None /\ sessions (w_store (st_world st)) !! newID = None
  | EvHub order => good_order order (st_hub st)
  | _ => True
  end.

(** The frames an event can hand to clients when programs call at most [N]
    methods. *)
Definition event_cost (N : nat) (e : event) : Z :=
  match e with
  | EvConnect _ _ _ _ _ => connect_cost N
  | EvMessage _ _ _ => share N (middlewares a) + Z.of_nat N
  | EvReadEnd _ _ _ => end_cost N
  | EvHub order => len order
  | _ => 0
  end.

Lemma event_cost_nonneg N e : 0 <= event_cost N e.
Proof.
  pose proof (share_nonneg N (middlewares a)). pose proof (share_nonneg N (onConnect a)).
  pose proof (share_nonneg N (onDisconnect a)). pose proof (share_nonneg N (onHeartbeatTimeout a)).
  destruct e; cbn [event_cost]; unfold connect_cost, end_cost; try lia. apply len_nonneg.
Qed.

Lemma step_ok N e st : bounded N -> (forall now c, e = EvWrite now c -> may c) -> safe st -> event_ok e st ->
  st_sends st + event_cost N e < limit ->
  exists st', step a e st = Some st' /\ after (event_cost N e) st st'.
Proof.
  intros HN Hmay Hs Hok Hb. pose proof (event_cost_nonneg N e).
  destruct e as [| |now c id r newID|now c raw|now c z|now c|order| |now|c|c|ev data|];
    cbn [step event_cost event_ok] in *.
  - eexists. split; [done|]. unfold welcome. destruct (st_closed st); [by apply after_refl|].
    destruct (_ <=? _); [by apply after_refl|by apply after_same].
  - eexists. split; [done|]. by apply after_same.
  - unfold attach. destruct (st_admitted st) as [|n];
      [exists st; split; [done|]; eapply after_weaken; [by apply after_refl|lia]|].
    assert (after 0 st (set_admitted st n)) as Ha0 by by apply after_same.
    pose proof Ha0 as (Hs0 & Hn0 & _). destruct Hok as [Hc Hn].
    destruct (serveTransport_ok now N c id r newID _ HN Hs0 Hc Hn) as (st' & -> & Ha); [lia|].
    exists st'. split; [done|]. by apply (after_trans 0 _ _ _ _ Ha0).
  - pose proof (share_nonneg N (middlewares a)).
    destruct (quiet_wop (ONote c (NReceived (len raw) now)) st Hs eq_refl I) as (st1 & -> & Ha1); [lia|].
    cbn [mbind option_bind]. pose proof Ha1 as (Hs1 & Hn1 & _).
    destruct (dispatch_ok now N c raw st1 HN Hs1) as (st2 & d & -> & Ha2); [lia|].
    exists st2. split; [done|]. by apply (after_trans 0 _ _ _ _ Ha1).
  - by apply read_end_ok.
  - apply write_step_ok; [by eapply Hmay|done|lia].
  - by apply hub_step_ok.
  - apply slow_step_ok; [done|lia].
  - apply sweep_step_ok; [done|lia].
  - apply quiet_wop; [done..|lia].
  - apply quiet_wop; [done..|lia].
  - eexists. split; [done|by apply announce_ok].
  - apply Shutdown_ok; [done|lia].
Qed.

Fixpoint events_ok (l : list event) (st : state) : Prop :=
  match l with
  | [] => True
  | e :: l' => event_ok e st /\
      match step a e st with Some st' => st_crashed st' = true \/ events_ok l' st' | None => True end
  end.

Fixpoint total_cost (N : nat) (l : list event) : Z :=
  match l with [] => 0 | e :: l' => event_cost N e + total_cost N l' end.

Lemma total_cost_nonneg N l : 0 <= total_cost N l.
Proof.
  induction l as [|e l IH]; cbn [total_cost]; [lia|]. pose proof (event_cost_nonneg N e). lia.
Qed.

Lemma run_ok N l st : (forall c, may c) -> bounded N -> safe st -> events_ok l st -> st_sends st + total_cost N l < limit ->
  exists st', run a l st = Some st' /\ after (total_cost N l) st st'.
Proof.
  intros Hmay HN. revert st. induction l as [|e l IH]; intros st Hs Hok Hb; cbn [run total_cost events_ok] in *.
  { exists st. split; [done|by apply after_refl]. }
  pose proof (total_cost_nonneg N l). destruct Hok as [He Hok].
  destruct (step_ok N e st HN (fun _ c _ => Hmay c) Hs He) as (st1 & E & Ha1); [lia|]. rewrite E in Hok |- *.
  cbn [mbind option_bind]. pose proof Ha1 as (Hs1 & Hn1 & _). destruct (st_crashed st1).
  - exists st1. split; [done|]. eapply after_weaken; [done|lia].
  - destruct Hok as [|Hok]; [done|]. destruct (IH st1 Hs1 Hok) as (st2 & -> & Ha2); [lia|].
    exists st2. split; [done|]. by eapply after_trans.
Qed.

End server.

(** A state whose world the registry can reach. *)
Abbreviation safe a := (safe_for (Inv := wreach (recovery_options (a_cfg a)))).

Lemma safe_step_ok a N e st : bounded a N -> safe a st -> event_ok e st -> st_sends st + event_cost a N e < limit ->
  exists st', step a e st = Some st' /\ safe a st' /\ st_sends st' <= st_sends st + event_cost a N e /\
    sess_kept (st_world st) (st_world st').
Proof. intros HN. by apply step_ok. Qed.

Lemma safe_run_ok a N l st : bounded a N -> safe a st -> events_ok a l st -> st_sends st + total_cost a N l < limit ->
  exists st', run a l st = Some st' /\ safe a st' /\ st_sends st' <= st_sends st + total_cost a N l /\
    sess_kept (st_world st) (st_world st').
Proof. by apply run_ok. Qed.

Lemma New_safe a : safe a (New a).
Proof.
  split; [|constructor]. split; [apply wreach_init|done|]. intros p s Hp. cbn in Hp.
  by rewrite lookup_empty in Hp.
Qed.

End serverinv.
