(* ===== verification/ServerSpec.v ===== *)
(** * What the server promises

    Two theorems about [Server.v]: any sequence of events is handled within the
    contracts of the registry, and a message is handled once per idempotency
    key. *)
From S2P Require Import Prelude.
From S2P Require Import GoStd.
From S2P Require Import Json.
From S2P Require Import Replay.
From S2P Require Import Client.
From S2P Require Import Session.
From S2P Require Import SessionStore.
From S2P Require Import SessionInv.
From S2P Require Import Registry.
From S2P Require Import Recovery.
From S2P Require Import Hub.
From S2P Require Import Config.
From S2P Require Import Server.
From S2P Require Import Frame.
From S2P Require Import ServerTables.
From S2P Require Import ServerInv.

Module serverspec.
Import client session store inv registry recovery config server frame tables serverinv.

(** ** Idempotency keys *)

Definition has_key (st : state) (p : sptr) (key : string) : Prop :=
  exists s, w_sess (st_world st) !! p = Some s /\ 0 < keys.k_max (s_keys s) /\
    stored_key key ∈ keys.window (s_keys s).

(** The same application without its handlers. *)
Definition without_handlers (a : app) : app :=
  mkApp (a_cfg a) (a_owner a) (middlewares a) (fun _ => None) (onConnect a) (onDisconnect a)
    (onHeartbeatTimeout a).

Section server.
Variable a : app.

Lemma calm_has_key st st' p key : calm st st' -> has_key st p key -> has_key st' p key.
Proof.
  intros Hc (s & Hp & Hm & Hk). destruct (cm_keys _ _ Hc p s Hp) as (s' & Hp' & E).
  exists s'. by rewrite E.
Qed.

(** Claiming a key leaves it in the window, and succeeds unless it was there. *)
Lemma claim_key_spec s key : keys.wf (s_keys s) -> 0 < keys.k_max (s_keys s) ->
  exists s', ClaimKey s key
      = Some (s', negb (bool_decide (stored_key key ∈ keys.window (s_keys s)))) /\
    0 < keys.k_max (s_keys s') /\ stored_key key ∈ keys.window (s_keys s').
Proof.
  intros Hwf Hm. unfold ClaimKey. destruct (keys.claim_abs (s_keys s) (stored_key key) Hwf)
    as (k' & -> & _ & Em & Ew). cbn [mbind option_bind]. exists (set_keys s k'). cbn [s_keys set_keys].
  rewrite Em, Ew. unfold keys.spec_claim. destruct (Z.leb_spec (keys.k_max (s_keys s)) 0); [lia|].
  split; [by case_bool_decide|]. split; [done|]. case_bool_decide; [done|]. cbn [snd].
  destruct (_ <? _) eqn:E; [|apply elem_of_app; right; by apply list_elem_of_singleton].
  destruct (keys.window (s_keys s)) as [|x l].
  - change (len ([] ++ [stored_key key])) with 1 in E. lia.
  - cbn. apply elem_of_app. right. by apply list_elem_of_singleton.
Qed.

Lemma wop_claim st p key s s' ok : w_sess (st_world st) !! p = Some s ->
  ClaimKey s key = Some (s', ok) ->
  exists st', wop (OClaim p key) st = Some st' /\ w_sess (st_world st') !! p = Some s'.
Proof.
  intros Hp Hc. unfold wop. cbn [exec]. rewrite (lookup_total_correct _ _ _ Hp), Hc.
  eexists. split; [done|]. cbn. by rewrite lookup_insert_eq.
Qed.

Lemma safe_keys st p s : safe a st -> w_sess (st_world st) !! p = Some s -> keys.wf (s_keys s).
Proof.
  intros [Hw _] Hp. apply wsafe_good in Hw. by apply so_keys, (iv_sess _ (proj1 (g_inv _ Hw)) p).
Qed.

(** A key that is in the window stops the message before its handler. *)
Lemma dispatch_event_seen now p msg x st : safe a st -> has_key st p (IdempotencyKey msg) ->
  IdempotencyKey msg <> ""%string ->
  dispatch_event a now (Some p) msg x st = dispatch_event (without_handlers a) now (Some p) msg x st.
Proof.
  intros Hs (s & Hp & Hm & Hk) Hne. unfold dispatch_event.
  destruct (bool_decide (Event msg = ""%string)); [done|]. rewrite bool_decide_eq_false_2 by done.
  destruct (claim_key_spec s (IdempotencyKey msg) (safe_keys st p s Hs Hp) Hm) as (s' & Hc & _).
  rewrite (lookup_total_correct _ _ _ Hp), Hc, bool_decide_eq_true_2 by done.
  cbn [mbind option_bind negb]. by destruct (wop _ st).
Qed.

(** A message that reached its handler has its key in the window. *)
Lemma dispatch_event_claims now N p msg x st st' d : bounded a N -> safe a st ->
  st_sends st + Z.of_nat N < limit ->
  (exists s, w_sess (st_world st) !! p = Some s /\ 0 < keys.k_max (s_keys s)) ->
  IdempotencyKey msg <> ""%string -> Event msg <> ""%string ->
  dispatch_event a now (Some p) msg x st = Some (st', d) -> has_key st' p (IdempotencyKey msg).
Proof.
  intros HN Hs Hb (s & Hp & Hm) Hne Hev. unfold dispatch_event. rewrite !bool_decide_eq_false_2 by done.
  destruct (claim_key_spec s (IdempotencyKey msg) (safe_keys st p s Hs Hp) Hm) as (s' & Hc & Hm' & Hk').
  rewrite (lookup_total_correct _ _ _ Hp), Hc. cbn [mbind option_bind].
  destruct (quiet_wop (OClaim p (IdempotencyKey msg)) st Hs eq_refl) as (st1 & Hw & (Hs1 & Hn1 & _));
    [by exists s|lia|].
  destruct (wop_claim st p (IdempotencyKey msg) s s' _ Hp Hc) as (st1' & Hw' & Hp1).
  rewrite Hw in Hw'. injection Hw' as <-. rewrite Hw. cbn [mbind option_bind].
  assert (has_key st1 p (IdempotencyKey msg)) as H1 by by exists s'.
  destruct (negb _).
  - destruct (handlers a (Event msg)) as [h|] eqn:Hh; [|by intros [= <- _]].
    destruct (run_prog_ok a now N (h x) x st1 (bd_handlers a N HN _ h Hh x) Hs1) as (x2 & st2 & r & -> & [_ Hcm]);
      [lia|]. cbn [mbind option_bind]. intros [= <- _]. by apply (calm_has_key st1).
  - destruct (wop ODuplicate st1) as [st2|] eqn:E2; [|done]. intros [= <- _].
    unfold wop in E2. cbn [exec mbind option_bind] in E2. by injection E2 as <-.
Qed.

(** [dispatch] of a message that is not an acknowledgement. *)
Lemma dispatch_after_middlewares b now c raw msg p st :
  Unmarshal raw = Some msg -> client.session (w_clients (st_world st) !!! c) = Some p ->
  Event msg <> EventAck ->
  dispatch b now c raw st = process b now c (Some p) msg st.
Proof. intros Hm Hp He. rewrite dispatch_eq, Hm, Hp. by rewrite bool_decide_eq_false_2. Qed.

(** The message got past the middleware, or was recognised: its handler
    returned, panicked, or was not called. *)
Definition passed (d : dispatched) : Prop :=
  match d with Handled | NoHandler | Duplicate | Panicked => True | _ => False end.

(** Recovering a panic, or dying of it, leaves the sessions alone. *)
Lemma recovered_sess c st d st' d' :
  match d with
  | Panicked | MiddlewarePanicked =>
      if hasRecover a then st ← wop (OClose c true) st; Some (st, d) else Some (crash st, d)
  | _ => Some (st, d)
  end = Some (st', d') -> w_sess (st_world st') = w_sess (st_world st) /\ d' = d.
Proof.
  assert ((if hasRecover a then st ← wop (OClose c true) st; Some (st, d) else Some (crash st, d))
    = Some (st', d') -> w_sess (st_world st') = w_sess (st_world st) /\ d' = d) as Hp.
  { destruct (hasRecover a); [|by intros [= <- <-]]. unfold wop. cbn [exec].
    destruct (shutdown_call _ _); [|done]. by intros [= <- <-]. }
  destruct d; try exact Hp; by intros [= <- <-].
Qed.

Lemma dispatch_seen now N c raw msg p st : bounded a N -> safe a st ->
  st_sends st + (share N (middlewares a) + Z.of_nat N) < limit ->
  Unmarshal raw = Some msg -> client.session (w_clients (st_world st) !!! c) = Some p ->
  Event msg <> EventAck -> IdempotencyKey msg <> ""%string -> has_key st p (IdempotencyKey msg) ->
  dispatch a now c raw st = dispatch (without_handlers a) now c raw st.
Proof.
  intros HN Hs Hb Hm Hp He Hne Hk.
  rewrite (dispatch_after_middlewares a now c raw msg p st Hm Hp He).
  rewrite (dispatch_after_middlewares (without_handlers a) now c raw msg p st Hm Hp He).
  unfold process, runMiddlewares. cbn [middlewares without_handlers].
  change (runMiddlewares_loop (without_handlers a)) with (runMiddlewares_loop a).
  set (x0 := newContext _ _ _ _ _). set (st0 := set_counts _ _ _ _).
  destruct (after_counts st (i64 (st_total st + 1)) (st_ever st) (st_byID st) Hs) as (Hs0 & Hn0 & _).
  destruct (runMiddlewares_loop_ok a now N (middlewares a) x0 st0 (bd_middlewares a N HN) Hs0)
    as (x1 & st1 & r & -> & [(Hs1 & _) Hc1]); [subst st0; lia|]. cbn [mbind option_bind].
  destruct r; [|done..].
  rewrite (dispatch_event_seen now p msg x1 st1); [done|done| |done]. by apply (calm_has_key st0).
Qed.

Lemma dispatch_claims now N c raw msg p st st' d : bounded a N -> safe a st ->
  st_sends st + (share N (middlewares a) + Z.of_nat N) < limit ->
  Unmarshal raw = Some msg -> client.session (w_clients (st_world st) !!! c) = Some p ->
  Event msg <> EventAck -> IdempotencyKey msg <> ""%string ->
  (exists s, w_sess (st_world st) !! p = Some s /\ 0 < keys.k_max (s_keys s)) ->
  dispatch a now c raw st = Some (st', d) -> passed d -> has_key st' p (IdempotencyKey msg).
Proof.
  intros HN Hs Hb Hm Hp He Hne (s & Hps & Hmax).
  rewrite (dispatch_after_middlewares a now c raw msg p st Hm Hp He).
  unfold process, runMiddlewares. set (x0 := newContext _ _ _ _ _). set (st0 := set_counts _ _ _ _).
  destruct (after_counts st (i64 (st_total st + 1)) (st_ever st) (st_byID st) Hs) as (Hs0 & Hn0 & _).
  pose proof (share_nonneg N (middlewares a)).
  destruct (runMiddlewares_loop_ok a now N (middlewares a) x0 st0 (bd_middlewares a N HN) Hs0)
    as (x1 & st1 & r & -> & [(Hs1 & Hn1 & _) Hc1]); [subst st0; lia|]. cbn [mbind option_bind].
  destruct (match r with Returns => _ | _ => _ end) as [[st2 d2]|] eqn:E; [|done].
  cbn [mbind option_bind]. intros [Hsess ->]%recovered_sess Hpass.
  destruct r; [|injection E as _ <-; done..].
  enough (has_key st2 p (IdempotencyKey msg)) as H2 by (unfold has_key in *; by rewrite Hsess).
  destruct (decide (Event msg = ""%string)) as [Hev|Hev].
  { unfold dispatch_event in E. rewrite bool_decide_eq_true_2 in E by done. by injection E as _ <-. }
  eapply (dispatch_event_claims now N p msg x1 st1); try done; [subst st0; lia|].
  destruct (cm_keys _ _ Hc1 p s Hps) as (s1 & Hp1 & E1). exists s1. by rewrite E1.
Qed.

End server.

(** ** The concrete application of [ServerTables.v] *)

Definition event_okb (e : event) (st : state) : bool :=
  match e with
  | EvConnect _ c _ _ newID =>
      bool_decide (w_clients (st_world st) !! c = None) &&
      bool_decide (sessions (w_store (st_world st)) !! newID = None)
  | EvHub order =>
      match recv (hub.emit (st_hub st)) with
      | Received e _ => bool_decide (list_to_set order = hub.collectTargets (st_hub st) e /\ NoDup order)
      | _ => true
      end
  | _ => true
  end.

Fixpoint events_okb (a : app) (l : list event) (st : state) : bool :=
  match l with
  | [] => true
  | e :: l' => event_okb e st &&
      match step a e st with Some st' => st_crashed st' || events_okb a l' st' | None => true end
  end.

Lemma event_okb_sound e st : event_okb e st = true -> event_ok e st.
Proof.
  destruct e; try done; cbn [event_okb event_ok].
  - by intros [H1%bool_decide_eq_true H2%bool_decide_eq_true]%andb_prop.
  - intros H e ch Hr. rewrite Hr in H. by apply bool_decide_eq_true in H.
Qed.

Lemma events_okb_sound a l st : events_okb a l st = true -> events_ok a l st.
Proof.
  revert st. induction l as [|e l IH]; intros st; cbn [events_okb events_ok]; [done|].
  intros [He%event_okb_sound H]%andb_prop. split; [done|]. destruct (step a e st) as [st'|]; [|done].
  apply orb_prop in H as [H|H]; [by left|right; by apply IH].
Qed.

Lemma demo_bounded : bounded demo_app 3.
Proof.
  constructor; cbn [demo_app middlewares handlers onConnect onDisconnect onHeartbeatTimeout].
  - by repeat constructor.
  - intros ev h. case_bool_decide; [|done]. by intros [= <-].
  - by repeat constructor.
  - by repeat constructor.
  - constructor.
Qed.

(** ** The theorems *)

(** C8: any sequence of connections, messages, disconnections, hub jobs,
    sweeps and shutdowns, with any application code whose middleware, handlers
    and callbacks make at most [N] calls each, is handled: no handler reaches a
    state the code could not go on from, every registry operation the server makes is one the
    registry's theorems cover, so that sessions are in a state those theorems
    describe, and every queued job carries a frame that can be numbered. The
    bound is that fewer than 2^64-2 frames are sent. *)
Theorem server_refines a N l :
  bounded a N -> events_ok a l (New a) -> total_cost a N l < limit ->
  exists st, run a l (New a) = Some st /\ wreach (recovery_options (a_cfg a)) (st_world st) /\
    good (st_world st) /\ safe a st /\ st_sends st <= total_cost a N l.
Proof.
  intros HN Hok Hb. destruct (safe_run_ok a N l (New a) HN (New_safe a) Hok) as (st & Hr & Hs & Hn & _).
  { by change (st_sends (New a)) with 0. }
  exists st. split; [done|]. pose proof (sf_world _ Hs) as Hw. split; [exact (ws_inv _ _ Hw)|].
  split; [exact (wsafe_good _ _ Hw)|]. split; [done|]. by change (st_sends (New a)) with 0 in Hn.
Qed.

Lemma server_refines_witness :
  exists st, run demo_app demo_events (New demo_app) = Some st /\
    wreach (recovery_options demo_cfg) (st_world st) /\
    good (st_world st) /\ safe demo_app st /\ st_sends st <= total_cost demo_app 3 demo_events.
Proof.
  apply (server_refines demo_app 3 demo_events); [exact demo_bounded| |vm_compute; reflexivity].
  apply events_okb_sound. vm_compute. reflexivity.
Defined.

(** C9: a message with an idempotency key is handled once, for a client with a
    session that keeps a window of keys: when the key is in the window of the
    session, [dispatch] does the same as if no handler were registered; and
    once a message with that key has got past the middleware, whether its
    handler then returned or panicked (recovered or not), there was none, or
    the message was recognised as a duplicate, the key is in the window. The
    bounds are that programs call at most [N] methods and fewer than 2^64-2
    frames are sent. *)
Theorem handled_once a N now c raw msg p st :
  bounded a N -> safe a st -> st_sends st + (share N (middlewares a) + Z.of_nat N) < limit ->
  Unmarshal raw = Some msg -> client.session (w_clients (st_world st) !!! c) = Some p ->
  Event msg <> EventAck -> IdempotencyKey msg <> ""%string ->
  (exists s, w_sess (st_world st) !! p = Some s /\ 0 < keys.k_max (s_keys s)) ->
  (has_key st p (IdempotencyKey msg) ->
     dispatch a now c raw st = dispatch (without_handlers a) now c raw st) /\
  exists st' d, dispatch a now c raw st = Some (st', d) /\ safe a st' /\
    (passed d -> has_key st' p (IdempotencyKey msg)).
Proof.
  intros HN Hs Hb Hm Hp He Hne Hk. split; [by apply (dispatch_seen a now N c raw msg p)|].
  destruct (dispatch_ok a now N c raw st HN Hs Hb) as (st' & d & E & (Hs' & _)). exists st', d.
  split; [done|]. split; [done|]. intros Hd.
  exact (dispatch_claims a now N c raw msg p st st' d HN Hs Hb Hm Hp He Hne Hk E Hd).
Qed.

(** Until the first message was handled. *)
Definition demo_start (l : list event) : list event := take 5 l.
Definition demo_state : state := default (New demo_app) (run demo_app (demo_start demo_events) (New demo_app)).

Lemma demo_safe : safe demo_app demo_state.
Proof.
  destruct (safe_run_ok demo_app 3 (demo_start demo_events) (New demo_app) demo_bounded (New_safe demo_app))
    as (st & Hr & Hs & _); [apply events_okb_sound; by vm_compute|by vm_compute|].
  unfold demo_state. by rewrite Hr.
Qed.

Lemma handled_once_witness :
  dispatch demo_app 20 0%nat demo_frame demo_state
    = dispatch (without_handlers demo_app) 20 0%nat demo_frame demo_state.
Proof.
  apply (handled_once demo_app 3 20 0%nat demo_frame demo_message 0%nat);
    [exact demo_bounded|exact demo_safe|vm_compute; reflexivity|vm_compute; reflexivity
    |vm_compute; reflexivity|discriminate|discriminate|..].
  - eexists. split; [vm_compute; reflexivity|vm_compute; reflexivity].
  - eexists. split; [vm_compute; reflexivity|]. split; [vm_compute; reflexivity|].
    apply (bool_decide_unpack _). vm_compute. exact I.
Defined.

End serverspec.
