(* ===== verification/Links.v ===== *)
(** * Who the hub still knows

    The hub holds a client from [Register] until [Unregister] or [Transfer],
    which different parts of the server call: a refused connection, the end of
    a read pump, a resume, the release of a session. Together they forget every
    client in time: whoever the hub holds is a connection in the table, or the
    member of a session that is parked and may come back. *)
From S2P Require Import Prelude.
From S2P Require Import GoStd.
From S2P Require Import Json.
From S2P Require Import Replay.
From S2P Require Import Client.
From S2P Require Import Session.
From S2P Require Import SessionStore.
From S2P Require Import SessionInv.
From S2P Require Import Registry.
From S2P Require Import Recovery.
From S2P Require Import Hub.
From S2P Require Import Config.
From S2P Require Import Server.
From S2P Require Import Frame.
From S2P Require Import ServerTables.
From S2P Require Import ServerInv.
From S2P Require Import ServerSpec.

Module links.
Import client session store inv registry recovery config server frame tables serverinv serverspec.

(** ** Bindings *)

(** The session a client is bound to, and the clients a session knows. *)
Definition bound_to (cs : gmap cptr Client) (c : cptr) : option sptr := client.session (cs !!! c).
Definition bond (s : Session) : sessionState * option cptr * option cptr :=
  (s_state s, s_live s, s_member s).
Definition bond_at (ss : gmap sptr Session) (p : sptr) := bond (ss !!! p).

Definition same_bound (cs cs' : gmap cptr Client) : Prop := forall c, bound_to cs' c = bound_to cs c.
Definition same_bonds (ss ss' : gmap sptr Session) : Prop := forall p, bond_at ss' p = bond_at ss p.

#[export] Instance same_bound_equiv : Equivalence same_bound.
Proof. split; [by intros cs c|by intros cs cs' E c|by intros c1 c2 c3 E1 E2 c; rewrite (E2 c)]. Qed.
#[export] Instance same_bonds_equiv : Equivalence same_bonds.
Proof. split; [by intros ss p|by intros ss ss' E p|by intros s1 s2 s3 E1 E2 p; rewrite (E2 p)]. Qed.
#[export] Instance bound_to_proper : Proper (same_bound ==> eq ==> eq) bound_to.
Proof. by intros cs cs' E c _ <-. Qed.
#[export] Instance bond_at_proper : Proper (same_bonds ==> eq ==> eq) bond_at.
Proof. by intros ss ss' E p _ <-. Qed.

Lemma bound_to_insert cs c cl c' : bound_to (<[c := cl]> cs) c'
  = if decide (c = c') then client.session cl else bound_to cs c'.
Proof.
  unfold bound_to. destruct (decide (c = c')) as [<-|Hne].
  - by rewrite lookup_total_insert_eq.
  - by rewrite lookup_total_insert_ne.
Qed.
Lemma same_bound_insert cs c cl : client.session cl = client.session (cs !!! c) ->
  same_bound cs (<[c := cl]> cs).
Proof. intros E c'. rewrite bound_to_insert. by destruct (decide _) as [<-|]. Qed.

Lemma bond_at_insert ss p s q : bond_at (<[p := s]> ss) q = if decide (p = q) then bond s else bond_at ss q.
Proof.
  unfold bond_at. destruct (decide (p = q)) as [<-|Hne].
  - by rewrite lookup_total_insert_eq.
  - by rewrite lookup_total_insert_ne.
Qed.
Lemma same_bonds_insert ss p s : bond s = bond (ss !!! p) -> same_bonds ss (<[p := s]> ss).
Proof. intros E q. rewrite bond_at_insert. by destruct (decide _) as [<-|]. Qed.

(** ** What leaves the bindings alone *)

Lemma enqueue_bound cl d cl' r : enqueue cl d = (cl', r) -> client.session cl' = client.session cl.
Proof. unfold enqueue. by destruct (try_send _ _); intros [= <- _]. Qed.
Lemma closeRaw_bound cl cl' : closeRaw cl = Some cl' -> client.session cl' = client.session cl.
Proof.
  unfold closeRaw. destruct (shutdownDone cl); [by intros [= <-]|].
  destruct (close_chan _); [|done]. by intros [= <-].
Qed.
Lemma next_frame_bound cl f cl' : next_frame cl = Some (f, cl') -> client.session cl' = client.session cl.
Proof.
  unfold next_frame. destruct (client.replay cl); [|by intros [= _ <-]].
  destruct (recv _); by intros [= _ <-].
Qed.
Lemma noted_bound w cl n : client.session (noted w cl n) = client.session cl.
Proof.
  destruct n; try done. cbn [noted]. unfold AllowEvent. destruct (_ <=? 0); [done|].
  destruct (lastEvent cl); [|done]. by destruct (_ <? _).
Qed.

Lemma commit_bond s n d s' : commit s n d = Some s' -> bond s' = bond s.
Proof. unfold commit. destruct (replay.push _ _ _); [|done]. by intros [= <-]. Qed.

Lemma deliver_links cs s d pol cs' s' ok : deliver cs s d pol = Some (cs', s', ok) ->
  same_bound cs cs' /\ bond s' = bond s.
Proof.
  unfold deliver, upd_client. destruct (decide _); [by intros [= <- <- _]|].
  destruct (s_live s) as [c|] eqn:Hl, (s_stalled s).
  2: {
    destruct (decide (pol = PolicyVolatile)).
    - destruct (enqueue _ _) as [cl r] eqn:E. apply enqueue_bound in E.
      destruct r; intros [= <- <- _]; (split; [by apply same_bound_insert|done]).
    - destruct (enqueue _ _) as [cl r] eqn:E. apply enqueue_bound in E.
      destruct r; [|destruct (decide (pol = PolicyDrop))|];
        try (destruct (commit _ _ _) as [s1|] eqn:Ec; [apply commit_bond in Ec|done]); intros [= <- <- _];
        (split; [by apply same_bound_insert|done]). }
  all: destruct (decide (pol = PolicyVolatile)); [|destruct (commit _ _ _) as [s1|] eqn:Ec; [apply commit_bond in Ec|done]];
    by intros [= <- <- _].
Qed.

Definition same_links (w w' : world) : Prop :=
  same_bound (w_clients w) (w_clients w') /\ same_bonds (w_sess w) (w_sess w').
#[export] Instance same_links_equiv : Equivalence same_links.
Proof.
  split; [by split|by intros w w' [E1 E2]; split; symmetry|]. intros w1 w2 w3 [A1 A2] [B1 B2]. by split; etrans.
Qed.

Lemma TrySendPolicy_links cs ss c d pol cs' ss' ok : TrySendPolicy cs ss c d pol = Some (cs', ss', ok) ->
  same_bound cs cs' /\ same_bonds ss ss'.
Proof.
  unfold TrySendPolicy. destruct (client.session (cs !!! c)) as [p|].
  - destruct (deliver _ _ _ _) as [[[cs1 s1] ok1]|] eqn:E; [|done]. apply deliver_links in E as [E1 E2].
    intros [= <- <- _]. split; [done|by apply same_bonds_insert].
  - unfold upd_client. destruct (enqueue _ _) as [cl r] eqn:E. apply enqueue_bound in E.
    destruct r; [|destruct (decide _)|]; intros [= <- <- _]; (split; [by apply same_bound_insert|done]).
Qed.

Lemma exec_links w i w' : frame.app_op i = true -> exec w i = Some w' -> same_links w w'.
Proof.
  intros Hi He. destruct i as [c o now|c req now newID|c data pol|q n|q key|c|c tm|q c now|now|c n|]; try discriminate Hi;
    cbn [exec] in He.
  - destruct (TrySendPolicy _ _ _ _ _) as [[[cs ss] ok]|] eqn:E; [|done]. injection He as <-.
    by apply TrySendPolicy_links in E.
  - destruct (Ack _ _) as [s|] eqn:E; [|done]. injection He as <-. split; [done|]. apply same_bonds_insert.
    unfold Ack in E. destruct (_ <? _); [|by injection E as <-]. destruct (replay.ackUpTo _ _); [|done].
    by injection E as <-.
  - destruct (ClaimKey _ _) as [[s ok]|] eqn:E; [|done]. injection He as <-. split; [done|].
    apply same_bonds_insert. unfold ClaimKey in E. destruct (keys.claim _ _) as [[? ?]|]; [|done].
    by injection E as <- _.
  - destruct (next_frame _) as [[f cl]|] eqn:E; injection He as <-; [|done]. split; [|done].
    apply same_bound_insert. by eapply next_frame_bound.
  - destruct (shutdown_call _ _) as [cl|] eqn:E; [|done]. injection He as <-. split; [|done].
    apply same_bound_insert. by destruct tm; apply closeRaw_bound in E.
  - injection He as <-. split; [|done]. apply same_bound_insert, noted_bound.
  - by injection He as <-.
Qed.

Lemma deliver_all_links w e l w' slow : hub.deliver_all w e l = Some (w', slow) -> same_links w w'.
Proof.
  revert w slow. induction l as [|c l IH]; intros w slow; cbn [hub.deliver_all]; [by intros [= <- _]|].
  destruct (TrySendPolicy _ _ _ _ _) as [[[cs ss] ok]|] eqn:E; [|done]. cbn [mbind option_bind].
  destruct (hub.deliver_all _ _ _) as [[w1 sl]|] eqn:E1; [|done]. intros [= <- _]. apply IH in E1.
  etrans; [|exact E1]. by apply TrySendPolicy_links in E.
Qed.

Lemma shutdown_all_links w l w' : hub.shutdown_all w l = Some w' -> same_links w w'.
Proof.
  revert w. induction l as [|c l IH]; intros w; cbn [hub.shutdown_all]; [by intros [= <-]|].
  destruct (client.Shutdown _) as [cl|] eqn:E; [|done]. cbn [mbind option_bind]. intros H%IH.
  etrans; [|exact H]. split; [|done]. apply same_bound_insert. by apply closeRaw_bound in E.
Qed.

(** ** Who is known *)

Definition listed (st : state) (c : cptr) : Prop := exists id, st_byID st !! id = Some c.
Definition parked_member (w : world) (c : cptr) : Prop :=
  exists p live, bound_to (w_clients w) c = Some p /\ bond_at (w_sess w) p = (stateParked, live, Some c).

#[export] Instance parked_member_proper : Proper (same_links ==> eq ==> iff) parked_member.
Proof.
  intros w w' [E1 E2] c _ <-. unfold parked_member.
  split; intros (p & live & H1 & H2); exists p, live; (split; [by rewrite <- H1, E1|by rewrite <- H2, E2]).
Qed.

(** [E] is the client the server is busy with, if any. *)
Record linked (E : option cptr) (st : state) : Prop := {
  lk_closed : hub.closed (st_hub st) = true -> hub.clients (st_hub st) = ∅;
  lk_known c : c ∈ hub.clients (st_hub st) -> Some c <> E -> listed st c \/ parked_member (st_world st) c;
  lk_member c p b : c ∈ hub.clients (st_hub st) -> bound_to (w_clients (st_world st)) c = Some p ->
    bond_at (w_sess (st_world st)) p = b -> b.1.1 <> stateClosed -> b.2 = Some c;
  lk_live p live m : bond_at (w_sess (st_world st)) p = (stateAttached, live, m) -> m = live;
  lk_listed c p live : listed st c -> Some c <> E -> bound_to (w_clients (st_world st)) c = Some p ->
    bond_at (w_sess (st_world st)) p <> (stateParked, live, Some c)
}.

(** A step that changes neither the bindings nor the tables. *)
Record tame (st st' : state) : Prop := {
  tm_links : same_links (st_world st) (st_world st');
  tm_clients : hub.clients (st_hub st') = hub.clients (st_hub st);
  tm_closed : hub.closed (st_hub st') = hub.closed (st_hub st);
  tm_byID : st_byID st' = st_byID st
}.

Lemma tame_refl st : tame st st. Proof. by split. Qed.
Lemma tame_trans st1 st2 st3 : tame st1 st2 -> tame st2 st3 -> tame st1 st3.
Proof.
  intros [A1 A2 A3 A4] [B1 B2 B3 B4]. split; [by etrans|congruence..].
Qed.

Lemma tame_same st st' : st_world st' = st_world st -> st_hub st' = st_hub st -> st_byID st' = st_byID st ->
  tame st st'.
Proof. intros E1 E2 E3. by split; rewrite ?E1, ?E2. Qed.

Lemma tame_wop i st st' : frame.app_op i = true -> wop i st = Some st' -> tame st st'.
Proof.
  intros Hi. unfold wop. destruct (exec _ _) as [w|] eqn:E; [|done]. intros [= <-].
  split; try done. by eapply exec_links.
Qed.

Lemma tame_linked E st st' : tame st st' -> linked E st -> linked E st'.
Proof.
  intros [T T2 T3 T4] [H1 H2 H3 H4 H5]. pose proof T as [T1 T1'].
  assert (forall c, listed st' c <-> listed st c) as Hl by (intros c; unfold listed; by rewrite T4).
  constructor; rewrite ?T2, ?T3.
  - done.
  - intros c. rewrite Hl, <- T. apply H2.
  - intros c p b. rewrite <- T1, <- T1'. apply H3.
  - intros p live m. rewrite <- T1'. apply H4.
  - intros c p live. rewrite Hl, <- T1, <- T1'. apply H5.
Qed.

#[export] Instance tame_frame : Frame tame.
Proof.
  split.
  - split; [exact tame_refl|exact tame_trans].
  - exact tame_wop.
  - intros now c room st. unfold hub.Join. destruct (bool_decide _); [apply tame_refl|].
    unfold hub.offer. destruct (hub.closed _) eqn:Hc; [apply tame_refl|]. cbn [hub_do hub.serve].
    unfold hub.joinRoom. by destruct (_ !! room).
  - intros now c room st. unfold hub.Leave. destruct (bool_decide _); [apply tame_refl|].
    unfold hub.offer. destruct (hub.closed _) eqn:Hc; [apply tame_refl|]. cbn [hub_do hub.serve].
    unfold hub.leaveRoom. destruct (_ !! room) as [m|]; [|by split]. by destruct (decide _).
  - intros job st. unfold hub.Emit. destruct (hub.closed _) eqn:Hc; [by split|]. by destruct (try_send _ _).
  - by split.
  - by split.
Qed.

(** ** The hub *)

Definition hub_ok (st : state) : Prop := hub.closed (st_hub st) = true -> hub.clients (st_hub st) = ∅.

(** A request that only changes who the hub knows. *)
Definition rehub (st st' : state) (P : cptr -> Prop) : Prop :=
  st_world st' = st_world st /\ st_byID st' = st_byID st /\
  hub.closed (st_hub st') = hub.closed (st_hub st) /\ hub_ok st' /\
  forall c, c ∈ hub.clients (st_hub st') -> P c.

Lemma rehub_same st (P : cptr -> Prop) : hub_ok st -> (forall c, c ∈ hub.clients (st_hub st) -> P c) ->
  rehub st st P.
Proof. intros Hc HP. unfold rehub. tauto. Qed.

Lemma serve_rehub now r st (P : cptr -> Prop) : hub_ok st ->
  (forall c, c ∈ hub.clients (hub.serve (st_hub st) r now) -> P c) ->
  hub.closed (hub.serve (st_hub st) r now) = hub.closed (st_hub st) ->
  rehub st (hub_do now (hub.offer (st_hub st) r) st) P.
Proof.
  intros Hc Hs Hcl. unfold hub.offer. destruct (hub.closed (st_hub st)) eqn:E; cbn [hub_do].
  - apply rehub_same; [done|]. intros c Hin. specialize (Hc E). rewrite Hc in Hin. set_solver.
  - unfold rehub, hub_ok. cbn [st_hub set_hub st_world st_byID]. split; [done|]. split; [done|].
    split; [congruence|]. split; [congruence|done].
Qed.

Lemma unregister_hub now m st : hub_ok st ->
  rehub st (hub_do now (hub.Unregister (st_hub st) m) st) (fun c => c ∈ hub.clients (st_hub st) /\ c <> m).
Proof. intros Hc. apply serve_rehub; [done| |done]. intros x. cbn. set_solver. Qed.

Lemma register_hub now m st : hub_ok st ->
  rehub st (hub_do now (hub.Register (st_hub st) m) st) (fun c => c ∈ hub.clients (st_hub st) \/ c = m).
Proof. intros Hc. apply serve_rehub; [done| |done]. intros x. cbn. set_solver. Qed.

Lemma transfer_hub now m c st : hub_ok st ->
  rehub st (hub_do now (hub.Transfer (st_hub st) (Some m) (Some c)) st)
    (fun c' => c' ∈ hub.clients (st_hub st) /\ (c' = m -> m = c)).
Proof.
  intros Hc. unfold hub.Transfer. destruct (decide (m = c)) as [->|Hne]; [by apply rehub_same|].
  apply serve_rehub; [done| |done]. intros x. cbn. set_solver.
Qed.

(** The members of the sessions that are released are forgotten. *)
Lemma releases_hub now l st : hub_ok st ->
  rehub st (releases now l st) (fun c => c ∈ hub.clients (st_hub st) /\
    forall p why, (p, why) ∈ l -> (bond_at (w_sess (st_world st)) p).2 <> Some c).
Proof.
  unfold releases. revert st. induction l as [|[p why] l IH]; intros st Hc; cbn [fold_left].
  { repeat split; try done. intros p why []%elem_of_nil. }
  assert (rehub st (releaseSession now (p, why) st) (fun c => c ∈ hub.clients (st_hub st) /\
    (bond_at (w_sess (st_world st)) p).2 <> Some c)) as (E1 & E2 & E3 & E4 & E5).
  { unfold releaseSession. change ((bond_at (w_sess (st_world st)) p).2)
      with (s_member (w_sess (st_world st) !!! p)).
    set (m := s_member _). assert (rehub st (match m with
      | Some m => hub_do now (hub.Unregister (st_hub st) m) st | None => st end)
      (fun c => c ∈ hub.clients (st_hub st) /\ m <> Some c)) as H.
    { destruct m as [m|]; [|by repeat split].
      destruct (unregister_hub now m st Hc) as (A1 & A2 & A3 & A4 & A5).
      repeat split; try done; [by apply A5|]. intros [= ->]. by eapply A5. }
    by destruct why. }
  destruct (IH _ E4) as (F1 & F2 & F3 & F4 & F5). split; [congruence|]. split; [congruence|].
  split; [congruence|]. split; [done|]. intros c Hin. destruct (F5 c Hin) as [Hin' Hl].
  destruct (E5 c Hin') as [Hin0 Hp]. split; [done|]. intros q w [[= -> ->]|Hq]%elem_of_cons; [done|].
  rewrite <- E1. by eapply Hl.
Qed.

(** ** What changes the bindings *)

Record closes (w w' : world) (vs : list sptr) : Prop := {
  cs_bound : same_bound (w_clients w) (w_clients w');
  cs_others p : p ∉ vs -> bond_at (w_sess w') p = bond_at (w_sess w) p;
  cs_closed p : p ∈ vs -> exists live, bond_at (w_sess w') p = (stateClosed, live, (bond_at (w_sess w) p).2)
}.

(** Sessions are closed, and the hub forgets their members. *)
Lemma close_linked E st st' vs : linked E st -> closes (st_world st) (st_world st') vs ->
  st_byID st' = st_byID st -> hub_ok st' ->
  (forall c, c ∈ hub.clients (st_hub st') -> c ∈ hub.clients (st_hub st) /\
     forall p, p ∈ vs -> (bond_at (w_sess (st_world st)) p).2 <> Some c) ->
  linked E st'.
Proof.
  intros [H1 H2 H3 H4 H5] [C1 C2 C3] Hid Hok Hcl.
  assert (forall c, listed st' c <-> listed st c) as Hl by (intros c; unfold listed; by rewrite Hid).
  assert (forall p b, bond_at (w_sess (st_world st')) p = b -> b.1.1 <> stateClosed ->
    p ∉ vs /\ bond_at (w_sess (st_world st)) p = b) as Hopen.
  { intros p b Hb Hne. destruct (decide (p ∈ vs)) as [Hin|Hin].
    - destruct (C3 p Hin) as [live E']. rewrite E' in Hb. by subst b.
    - by rewrite <- C2. }
  constructor.
  - done.
  - intros c Hin Hne. destruct (Hcl c Hin) as [Hin0 Hm]. rewrite Hl.
    destruct (H2 c Hin0 Hne) as [?|(p & live & Hb & Hp)]; [by left|right]. exists p, live.
    split; [by rewrite <- C1|]. rewrite C2; [done|]. intros Hv. apply (Hm p Hv). by rewrite Hp.
  - intros c p b Hin Hb Hp Hne. destruct (Hcl c Hin) as [Hin0 _]. rewrite <- C1 in Hb.
    destruct (Hopen p b Hp Hne) as [_ Hp0]. by eapply H3.
  - intros p live m Hp. destruct (Hopen p _ Hp) as [_ Hp0]; [done|]. by eapply H4.
  - intros c p live. rewrite Hl, <- C1. intros Hc Hne Hb Hp. destruct (Hopen p _ Hp) as [_ Hp0]; [done|].
    by apply (H5 c p live).
Qed.

Lemma closes_nil w w' : same_links w w' -> closes w w' [].
Proof. intros [E1 E2]. split; [done|intros p _; by rewrite <- E2|intros p []%elem_of_nil]. Qed.

(** The hub forgets somebody, whom the server may have been busy with. *)
Lemma forget_linked E st st' : linked E st -> same_links (st_world st) (st_world st') ->
  st_byID st' = st_byID st -> hub_ok st' ->
  (forall c, c ∈ hub.clients (st_hub st') -> c ∈ hub.clients (st_hub st)) -> linked E st'.
Proof.
  intros Hl Hs Hid Hok Hc. apply (close_linked E st st' []); try done; [by apply closes_nil|].
  intros c Hin. split; [by apply Hc|]. intros p []%elem_of_nil.
Qed.

(** A client of the table is bound to a session nobody else the hub knows is
    bound to. *)
Lemma bind_linked E st st' p c : linked E st -> listed st c ->
  (forall c', c' <> c -> bound_to (w_clients (st_world st')) c' = bound_to (w_clients (st_world st)) c') ->
  bound_to (w_clients (st_world st')) c = Some p ->
  (forall q, q <> p -> bond_at (w_sess (st_world st')) q = bond_at (w_sess (st_world st)) q) ->
  bond_at (w_sess (st_world st')) p = (stateAttached, Some c, Some c) ->
  st_byID st' = st_byID st -> hub_ok st' ->
  (forall c', c' ∈ hub.clients (st_hub st') -> c' ∈ hub.clients (st_hub st) /\
     (c' <> c -> bound_to (w_clients (st_world st)) c' <> Some p)) ->
  linked E st'.
Proof.
  intros [H1 H2 H3 H4 H5] Hc Hb Hbc Hq Hbp Hid Hok Hcl.
  assert (forall c, listed st' c <-> listed st c) as Hl by (intros x; unfold listed; by rewrite Hid).
  constructor.
  - done.
  - intros x Hin Hne. destruct (Hcl x Hin) as [Hin0 Hx]. rewrite Hl.
    destruct (decide (x = c)) as [->|Hxc]; [by left|].
    destruct (H2 x Hin0 Hne) as [?|(q & live & Hbx & Hbq)]; [by left|right]. exists q, live.
    split; [by rewrite Hb|]. rewrite Hq; [done|]. intros ->. by apply Hx.
  - intros x q b Hin Hbx Hbq Hne. destruct (Hcl x Hin) as [Hin0 Hx]. destruct (decide (x = c)) as [->|Hxc].
    + assert (q = p) as -> by congruence. rewrite Hbp in Hbq. by subst b.
    + rewrite Hb in Hbx by done. rewrite Hq in Hbq; [by eapply H3|]. intros ->. by apply (Hx Hxc).
  - intros q live m Hbq. destruct (decide (q = p)) as [->|Hqp]; [rewrite Hbp in Hbq; by injection Hbq as <- <-|].
    rewrite Hq in Hbq by done. by eapply H4.
  - intros x q live Hx Hne Hbx Hbq. destruct (decide (q = p)) as [->|Hqp]; [by rewrite Hbp in Hbq|].
    destruct (decide (x = c)) as [->|Hxc]; [congruence|].
    rewrite Hb in Hbx by done. rewrite Hq in Hbq by done. apply Hl in Hx. by apply (H5 x q live).
Qed.

(** ** Sessions that end *)

Lemma bond_at_lookup ss ss' p : ss' !! p = ss !! p -> bond_at ss' p = bond_at ss p.
Proof. intros E. unfold bond_at, lookup_total, map_lookup_total. by rewrite E. Qed.
Lemma bond_at_Some ss p s : ss !! p = Some s -> bond_at ss p = bond s.
Proof. intros E. unfold bond_at. by rewrite (lookup_total_correct _ _ _ E). Qed.

Lemma front_closes w w' vs : closed_front w w' vs -> closes w w' vs.
Proof.
  intros [_ C2 _ _ C5 C6 _]. split.
  - by rewrite C2.
  - intros p Hp. apply bond_at_lookup. by apply C6.
  - intros p Hp. destruct (C5 p Hp) as (s & Hs & _ & Hs'). exists (s_live s).
    by rewrite (bond_at_Some _ _ _ Hs'), (bond_at_Some _ _ _ Hs).
Qed.

Lemma insert_closes w w' p s : w_clients w' = w_clients w -> w_sess w' = <[p := s]> (w_sess w) ->
  s_state s = stateClosed -> s_member s = s_member (w_sess w !!! p) -> closes w w' [p].
Proof.
  intros E1 E2 Hs Hm. split.
  - by rewrite E1.
  - intros q Hq. rewrite E2, bond_at_insert, decide_False; [done|]. intros <-. apply Hq. by left.
  - intros q ->%list_elem_of_singleton. exists (s_live s). rewrite E2, bond_at_insert, decide_True by done.
    unfold bond, bond_at. by rewrite Hs, Hm.
Qed.

(** Sessions are closed and released. *)
Lemma release_linked E now st st1 vs rel : linked E st -> closes (st_world st) (st_world st1) vs ->
  st_byID st1 = st_byID st -> st_hub st1 = st_hub st -> map fst rel = vs ->
  linked E (releases now rel st1) /\ st_world (releases now rel st1) = st_world st1 /\
  st_byID (releases now rel st1) = st_byID st /\
  forall c, c ∈ hub.clients (st_hub (releases now rel st1)) ->
    c ∈ hub.clients (st_hub st) /\ forall p, p ∈ vs -> (bond_at (w_sess (st_world st)) p).2 <> Some c.
Proof.
  intros Hl Hc Hid Hh <-. assert (hub_ok st1) as Hok by (unfold hub_ok; rewrite Hh; apply Hl).
  destruct (releases_hub now rel st1 Hok) as (R1 & R2 & _ & R4 & R5).
  assert (forall c, c ∈ hub.clients (st_hub (releases now rel st1)) ->
    c ∈ hub.clients (st_hub st) /\
    forall p, p ∈ map fst rel -> (bond_at (w_sess (st_world st)) p).2 <> Some c) as H.
  { intros c Hin. destruct (R5 c Hin) as [Hin' Hm]. rewrite Hh in Hin'. split; [done|].
    intros p Hp. destruct (cs_closed _ _ _ Hc p Hp) as [live Eb].
    apply list_elem_of_fmap in Hp as ([q why] & -> & Hq). specialize (Hm q why Hq). cbn [fst] in Eb |- *. by rewrite Eb in Hm. }
  split; [|split; [done|split; [congruence|done]]].
  apply (close_linked E st _ (map fst rel)); try done; [by rewrite R1|congruence].
Qed.

(** The session of a client is parked while the server is busy with it. *)
Lemma park_linked st st' p c m : linked None st -> bond_at (w_sess (st_world st)) p = (stateAttached, Some c, m) ->
  same_bound (w_clients (st_world st)) (w_clients (st_world st')) ->
  (forall q, q <> p -> bond_at (w_sess (st_world st')) q = bond_at (w_sess (st_world st)) q) ->
  bond_at (w_sess (st_world st')) p = (stateParked, None, m) ->
  st_byID st' = st_byID st -> st_hub st' = st_hub st -> linked (Some c) st'.
Proof.
  intros [H1 H2 H3 H4 H5] Hp Hb Hq Hp' Hid Hh.
  assert (forall c, listed st' c <-> listed st c) as Hl by (intros x; unfold listed; by rewrite Hid).
  constructor; rewrite ?Hh.
  - done.
  - intros x Hin Hne. rewrite Hl. destruct (H2 x Hin) as [?|(q & live & Hbx & Hbq)]; [done|by left|right].
    exists q, live. split; [by rewrite <- Hb|]. rewrite Hq; [done|]. intros ->. by rewrite Hp in Hbq.
  - intros x q b Hin Hbx Hbq Hne. rewrite <- Hb in Hbx. destruct (decide (q = p)) as [->|Hqp].
    + rewrite Hp' in Hbq. subst b. by specialize (H3 x p _ Hin Hbx Hp ltac:(done)).
    + rewrite Hq in Hbq by done. by eapply H3.
  - intros q live m' Hbq. destruct (decide (q = p)) as [->|Hqp]; [by rewrite Hp' in Hbq|].
    rewrite Hq in Hbq by done. by eapply H4.
  - intros x q live. rewrite Hl, <- Hb. intros Hx Hne Hbx Hbq. destruct (decide (q = p)) as [->|Hqp].
    + rewrite Hp' in Hbq. injection Hbq as _ ->. apply Hne. by rewrite (H4 _ _ _ Hp).
    + rewrite Hq in Hbq by done. by apply (H5 x q live).
Qed.

(** The server turns to a client, and back when the hub has forgotten it or its
    session is parked. *)
Lemma busy_linked st c : linked None st -> linked (Some c) st.
Proof.
  intros [H1 H2 H3 H4 H5]. constructor; [done| |done|done|].
  - intros x Hin _. by apply H2.
  - intros x p live Hx _. by apply (H5 x p live).
Qed.

Lemma unlist_linked st c id n k : linked (Some c) st ->
  (c ∈ hub.clients (st_hub st) -> parked_member (st_world st) c) ->
  st_byID st !! id = Some c -> (forall id', st_byID st !! id' = Some c -> id' = id) ->
  linked None (set_counts st n k (delete id (st_byID st))).
Proof.
  intros [H1 H2 H3 H4 H5] Hc Hid Huniq. constructor; cbn [st_hub st_world set_counts]; try done.
  - intros x Hin _. destruct (decide (x = c)) as [->|Hne]; [right; by apply Hc|].
    destruct (H2 x Hin) as [[id' Hx]|?]; [congruence| |by right]. left. exists id'.
    cbn [st_byID set_counts]. rewrite lookup_delete_ne; [done|]. intros <-. congruence.
  - intros x p live [id' Hx] _. cbn [st_byID set_counts] in Hx. apply lookup_delete_Some in Hx as [Hne Hx]. apply (H5 x p live); [by eexists|].
    intros [= ->]. apply Hne. symmetry. by apply Huniq.
Qed.

(** ** The events *)

Section server.
Variable a : app.
Abbreviation o := (recovery_options (a_cfg a)).

Lemma safe_core st : safe a st -> core (st_world st).
Proof. intros [Hs _]. by destruct (wsafe_good _ _ Hs) as [[? _] _]. Qed.

(** What is left to do for [c] when its session has been dealt with. *)
Definition retired (c : cptr) (st st' : state) : Prop :=
  linked (Some c) st' /\ st_byID st' = st_byID st /\
  (c ∈ hub.clients (st_hub st') -> parked_member (st_world st') c).

Lemma unregister_retired now c st st' : linked (Some c) st' -> st_byID st' = st_byID st ->
  retired c st (hub_do now (hub.Unregister (st_hub st') c) st').
Proof.
  intros Hl Hid. destruct (unregister_hub now c st' (lk_closed _ _ Hl)) as (E1 & E2 & _ & E4 & E5).
  split; [|split; [by rewrite E2|]].
  - apply (forget_linked _ st'); try done; [by rewrite E1|]. intros x Hx. by apply E5.
  - intros Hin. by destruct (E5 c Hin).
Qed.

(** The session was parked, and the sessions [vs] were evicted to make room. *)
Lemma parked_retired now c p m st st1 vs : linked None st ->
  bound_to (w_clients (st_world st)) c = Some p ->
  bond_at (w_sess (st_world st)) p = (stateAttached, Some c, m) ->
  closed_front (parked_world (st_world st) p c now) (st_world st1) vs ->
  st_byID st1 = st_byID st -> st_hub st1 = st_hub st ->
  retired c st (releases now (map (fun v => (v, ReleaseEvicted)) vs) st1).
Proof.
  intros Hl Hb Hbp Hcf Hid Hh. pose proof (lk_live _ _ Hl _ _ _ Hbp) as Hm.
  set (st2 := set_world st (parked_world (st_world st) p c now) 0).
  assert (bond_at (w_sess (st_world st2)) p = (stateParked, None, m)) as Hp2.
  { unfold st2. cbn [st_world set_world parked_world w_sess]. rewrite bond_at_insert, decide_True by done.
    unfold bond_at, bond in Hbp. injection Hbp as _ _ <-. done. }
  assert (same_bound (w_clients (st_world st)) (w_clients (st_world st2))) as Hsb by by apply same_bound_insert.
  assert (linked (Some c) st2) as Hl2.
  { apply (park_linked st st2 p c m); try done. intros q Hq. unfold st2.
    cbn [st_world set_world parked_world w_sess]. by rewrite bond_at_insert, decide_False. }
  destruct (release_linked (Some c) now st2 st1 vs (map (fun v => (v, ReleaseEvicted)) vs) Hl2)
    as (L1 & L2 & L3 & L4); [by apply front_closes|done|done|rewrite map_map; apply map_id|].
  split; [done|]. split; [done|]. intros Hin. destruct (L4 c Hin) as [_ Hnv].
  pose proof (front_closes _ _ _ Hcf) as [C1 C2 _]. exists p, None. rewrite L2. split.
  - etrans; [exact (C1 c)|]. etrans; [exact (Hsb c)|exact Hb].
  - rewrite C2; [etrans; [exact Hp2|by rewrite Hm]|]. intros Hv. apply (Hnv p Hv). by rewrite Hp2, Hm.
Qed.

Lemma retire_linked now c st st' : safe a st -> linked None st -> listed st c ->
  retire now c st = Some st' -> retired c st st'.
Proof.
  intros Hs Hl Hc. unfold retire. destruct (client.session (w_clients (st_world st) !!! c)) as [p|] eqn:Hb.
  2: { generalize (hub.Unregister (st_hub st) c) (unregister_retired now c st st (busy_linked st c Hl) eq_refl).
       by intros r Hr [= <-]. }
  destruct (bound_session st c p Hs Hb) as [s Hp]. pose proof (safe_core st Hs) as Hw.
  pose proof (bond_at_Some _ _ _ Hp) as Hbp. set (rs := negb _).
  destruct (Leave_effect (st_world st) p c s rs now Hw Hp) as (w' & res & rel & HL & Hlv).
  unfold wop. cbn [exec]. fold rs. rewrite HL. cbn [mbind option_bind].
  set (st1 := set_world st w' _).
  pose proof (busy_linked st c Hl) as Hl1.
  destruct Hlv as [Hst|Hst Hlv|w' Hst Hlv Hres Hw' E1 E2 E3 E4 E5|w' vs Hst Hlv Hres Hcf Hlen].
  - assert (linked (Some c) st1) as Hl2 by (eapply tame_linked; [by apply (tame_same st st1)|exact Hl1]).
    cbn [releases fold_left]. pose proof (unregister_retired now c st st1 Hl2 eq_refl) as Hr. revert Hr.
    generalize (hub.Unregister (st_hub st1) c). by intros r Hr [= <-].
  - intros [= <-]. cbn [releases fold_left].
    split; [eapply tame_linked; [by apply (tame_same st st1)|exact Hl1]|]. split; [done|].
    intros Hin. exfalso. pose proof (lk_member _ _ Hl c p _ Hin Hb Hbp Hst) as Hm.
    unfold bond in Hm, Hbp. cbn [snd] in Hm. destruct (s_state s) eqn:Es; [| |done].
    + rewrite (lk_live _ _ Hl p _ _ Hbp) in Hm. done.
    + rewrite Hm in Hbp. by apply (lk_listed _ _ Hl c p (s_live s) Hc).
  - cbn [releases fold_left].
    assert (closes (st_world st) w' [p]) as Hcl.
    { eapply insert_closes; [done|exact E3|done|]. by rewrite (lookup_total_correct _ _ _ Hp). }
    assert (s_member s = Some c) as Hm.
    { unfold bond in Hbp. rewrite Hst, Hlv in Hbp. exact (lk_live _ _ Hl _ _ _ Hbp). }
    destruct (unregister_hub now c st1) as (R1 & R2 & _ & R4 & R5); [exact (lk_closed _ _ Hl)|].
    assert (retired c st (hub_do now (hub.Unregister (st_hub st1) c) st1)) as Hr.
    { split; [|split; [by rewrite R2|intros Hin; by destruct (R5 c Hin)]].
      apply (close_linked _ st _ [p]); [done|by rewrite R1|by rewrite R2|done|].
      intros x Hx. destruct (R5 x Hx) as [Hin Hne]. split; [done|]. intros q ->%list_elem_of_singleton.
      rewrite Hbp. unfold bond. rewrite Hm. cbn [snd]. congruence. }
    revert Hr. generalize (hub.Unregister (st_hub st1) c). by intros r Hr [= <-].
  - intros [= <-]. unfold bond in Hbp. rewrite Hst, Hlv in Hbp.
    by apply (parked_retired now c p (s_member s) st st1 vs).
Qed.

Lemma read_end_linked N M now c zombie st st' : bounded a N -> safe a st ->
  st_sends st + share N (onHeartbeatTimeout a) < limit -> linked None st -> counted a M st -> listed st c ->
  read_end a now c zombie st = Some st' -> linked None st'.
Proof.
  intros HN Hs Hb Hl Hct [id Hid]. unfold read_end.
  destruct (heartbeat_ok a now N c zombie st HN Hs Hb) as (st1 & E1 & (Hs1 & _) & Hcalm). rewrite E1.
  cbn [mbind option_bind]. pose proof (heartbeat_frame (R := tame) a now c zombie st st1 E1) as T1.
  pose proof (tame_linked _ _ _ T1 Hl) as Hl1. destruct T1 as [_ _ _ Eid].
  assert (listed st1 c) as Hc1 by (exists id; by rewrite Eid).
  destruct (retire now c st1) as [st2|] eqn:E2; [|done]. cbn [mbind option_bind].
  destruct (retire_linked now c st1 st2 Hs1 Hl1 Hc1 E2) as (Hl2 & Eid2 & Hp2).
  destruct (wop (OClose c false) st2) as [st3|] eqn:E3; [|done]. cbn [mbind option_bind].
  destruct (ended_kept a now c zombie st st1 st2 st3 E1 E2 E3) as [_ Ek _ _ _ Eids].
  apply tame_wop in E3; [|done]. set (st4 := set_conns st3 _).
  assert (tame st2 st4) as T4 by (eapply tame_trans; [exact E3|by apply tame_same]).
  rewrite Eids, (ct_ids _ _ _ Hct id c Hid). intros E4. apply (fireDisconnect_frame (R := tame)) in E4.
  eapply tame_linked; [exact E4|]. apply (unlist_linked st4 c); [by eapply tame_linked| | |].
  - intros Hin. rewrite <- (tm_links _ _ T4). apply Hp2. by rewrite <- (tm_clients _ _ T4).
  - cbn [st4 st_byID set_conns]. by rewrite Ek.
  - cbn [st4 st_byID set_conns]. rewrite Ek. intros id' Hid'. rewrite <- (ct_ids _ _ _ Hct id c Hid).
    symmetry. by apply (ct_ids _ _ _ Hct).
Qed.

(** ** Opening a session *)

Lemma refused_closes w req now w1 reason rel : core w -> refused_world w req now w1 reason rel ->
  closes w w1 (map fst rel) /\ forall p, p ∈ map fst rel -> is_Some (w_sess w !! p).
Proof.
  intros Hw [| | | |p s w1' rs Hn Ho Hrs ->];
    try (cbn [map]; split; [apply closes_nil; reflexivity|intros q []%elem_of_nil]).
  destruct (named_open w req p s Hw Hn) as [Hst _]. destruct Hn as (_ & _ & _ & Hp).
  destruct (close_core w p s (set_state s stateClosed) Hw Hp Hst) as (_ & H2 & H3 & _);
    try done; [by left|by apply sess_ok_kill, (iv_sess w Hw p)|].
  split; [|intros q ->%list_elem_of_singleton; by eexists].
  eapply insert_closes; [done|exact H2|done|]. by rewrite (lookup_total_correct _ _ _ Hp).
Qed.

Lemma closes_insert w w1 wb w2 vs p s : closes w w1 vs -> p ∉ vs -> w_clients wb = w_clients w2 ->
  w_sess wb = <[p := s]> (w_sess w) -> w_sess w2 = <[p := s]> (w_sess w1) -> closes wb w2 vs.
Proof.
  intros [_ C2 C3] Hp Ec Eb E2. split.
  - by rewrite Ec.
  - intros q Hq. rewrite Eb, E2, !bond_at_insert. destruct (decide (p = q)); [done|by apply C2].
  - intros q Hq. destruct (C3 q Hq) as [live E]. exists live. rewrite Eb, E2, !bond_at_insert.
    by rewrite !decide_False by (intros <-; done).
Qed.

(** What [openSession] does after the registry has answered. *)
Lemma opened_tame now c res st st' : introduce now c res st = Some st' ->
  exists st1, tame st st1 /\
    tame (match r_Prev res with
          | Some prev => hub_do now (hub.Transfer (st_hub st1) (Some prev) (Some c)) st1
          | None => st1
          end) st'.
Proof.
  unfold introduce. assert (forall s, match r_Displaced res with Some d => wop (OClose d false) s | None => Some s end = Some st' ->
    tame s st') as Hd.
  { intros s. destruct (r_Displaced res); [by apply tame_wop|intros [= <-]; apply tame_refl]. }
  destruct (wop _ st) as [st1|] eqn:E1; [|done]. apply tame_wop in E1; [|done]. cbn [mbind option_bind].
  destruct (r_Prev res) as [prev|]; [|intros H%Hd; by exists st1].
  destruct (wop _ st1) as [st2|] eqn:E2; [|done]. apply tame_wop in E2; [|done]. cbn [mbind option_bind].
  intros H%Hd. exists st2. split; [by eapply tame_trans|done].
Qed.

(** A resume: [st1] is the state when the registry has answered. *)
Lemma resumed_linked now c p s st st1 st2 : linked None st -> listed st c ->
  w_sess (st_world st) !! p = Some s -> s_state s <> stateClosed ->
  (forall x, bound_to (w_clients (st_world st1)) x =
     if decide (c = x) then Some p else bound_to (w_clients (st_world st)) x) ->
  (forall q, bond_at (w_sess (st_world st1)) q =
     if decide (p = q) then (stateAttached, Some c, Some c) else bond_at (w_sess (st_world st)) q) ->
  st_byID st1 = st_byID st -> st_hub st1 = st_hub st -> tame st1 st2 ->
  linked None (match s_member s with
               | Some m => hub_do now (hub.Transfer (st_hub st2) (Some m) (Some c)) st2
               | None => st2
               end).
Proof.
  intros Hl Hc Hp Hst Hb Hbond Hid Hh T. pose proof T as [[B1 B2] T2 T3 T4].
  set (f := match s_member s with Some _ => _ | None => _ end).
  assert (rehub st2 f (fun x => x ∈ hub.clients (st_hub st2) /\ forall m, s_member s = Some m -> x = m -> m = c))
    as (F1 & F2 & _ & F4 & F5).
  { assert (hub_ok st2) as Hok by (unfold hub_ok; rewrite T2, T3, Hh; apply Hl).
    unfold f. destruct (s_member s) as [m|]; [|by apply rehub_same].
    destruct (transfer_hub now m c st2 Hok) as (R1 & R2 & R3 & R4 & R5). split_and!; try done.
    intros x Hx. destruct (R5 x Hx) as [? R]. split; [done|]. by intros ? [= <-]. }
  apply (bind_linked None st f p c Hl Hc).
  - intros x Hx. by rewrite F1, (B1 x), Hb, decide_False.
  - by rewrite F1, (B1 c), Hb, decide_True.
  - intros q Hqp. by rewrite F1, (B2 q), Hbond, decide_False.
  - by rewrite F1, (B2 p), Hbond, decide_True.
  - congruence.
  - done.
  - intros x Hx. destruct (F5 x Hx) as [Hin Hm]. rewrite T2, Hh in Hin. split; [done|].
    intros Hne Hbx. pose proof (lk_member _ _ Hl x p _ Hin Hbx (bond_at_Some _ _ _ Hp) Hst) as Hsm.
    apply Hne. by rewrite <- (Hm x Hsm eq_refl).
Qed.

(** A resume that is refused, or none: the client gets a fresh session. *)
Lemma refused_linked now c req newID st st1 w1 reason rel : safe a st -> linked None st -> listed st c ->
  bound_to (w_clients (st_world st)) c = None -> sessions (w_store (st_world st)) !! newID = None ->
  refused_world (st_world st) req now w1 reason rel ->
  st_world st1 = (open_fresh w1 c (Owner req) newID reason).1 -> st_byID st1 = st_byID st ->
  st_hub st1 = st_hub st -> linked None (releases now rel st1).
Proof.
  intros Hs Hl Hc Hun Hnew Hrw Ew Eid Eh. pose proof (safe_core st Hs) as Hw.
  pose proof (core_unbound _ c Hw Hun) as Hub.
  destruct (refused_closes _ _ _ _ _ _ Hw Hrw) as [Hcl Hex]. pose proof (refused_next _ _ _ _ _ _ Hrw) as Enext.
  destruct (refused_core _ _ _ _ _ _ Hw Hrw) as (Hw1 & Ecl & _ & _ & Hnone & Hlive).
  destruct (decide (newID = ""%string)) as [->|Hid].
  { apply (release_linked None now st st1 (map fst rel) rel Hl); try done. by rewrite Ew. }
  destruct (open_fresh_core w1 c (Owner req) newID reason) as (_ & Hfr & _ & E1 & E2 & _);
    [done| |done|by apply Hnone|].
  { intros q t Ht. destruct (Hlive q t Ht) as (t0 & Ht0 & ->). by eapply Hub. }
  rewrite <- Ew, Ecl in E2. rewrite <- Ew in E1. set (s := fresh_session _ _ _ _) in E1.
  rewrite Enext in E1, E2. set (p := w_nextSess (st_world st)) in *.
  assert (w_sess (st_world st) !! p = None) as Hfresh.
  { destruct (_ !! p) eqn:E; [|done]. apply (iv_alloc _ Hw) in E. lia. }
  set (stb := set_world st (mkWorld (w_clients (st_world st1)) (<[p := s]> (w_sess (st_world st))) 0%nat
    (w_store (st_world st1))) 0).
  assert (linked None stb) as Hlb.
  { apply (bind_linked None st stb p c Hl Hc); cbn [stb st_world set_world w_clients w_sess].
    - intros x Hx. by rewrite E2, bound_to_insert, decide_False.
    - by rewrite E2, bound_to_insert, decide_True.
    - intros q Hqp. by rewrite bond_at_insert, decide_False.
    - by rewrite bond_at_insert, decide_True.
    - done.
    - exact (lk_closed _ _ Hl).
    - intros x Hx. split; [done|]. intros _ Hb. destruct (bound_session st x p Hs Hb) as [? Hs'].
      by rewrite Hfresh in Hs'. }
  apply (release_linked None now stb st1 (map fst rel) rel Hlb); try done.
  eapply (closes_insert (st_world st) w1); [done| |done|done|exact E1].
  intros Hin. destruct (Hex p Hin) as [? Hs']. by rewrite Hfresh in Hs'.
Qed.

Lemma openSession_linked now c r newID st st' o : safe a st -> linked None st -> listed st c ->
  bound_to (w_clients (st_world st)) c = None -> sessions (w_store (st_world st)) !! newID = None ->
  openSession a now c r newID st = Some (st', o) -> linked None st'.
Proof.
  intros Hs Hl Hc Hun Hnew. pose proof (safe_core st Hs) as Hw. pose proof (core_unbound _ c Hw Hun) as Hub.
  rewrite openSession_eq. destruct (resumeRequest _ _) as [req|] eqn:Hreq; [|by intros [= <- _]].
  assert (0 <= LastSeq req) as Hq by by eapply resumeRequest_seq. clear Hreq.
  destruct (Open (st_world st) c req now newID) as [[[w' res] rel]|] eqn:HO; [|done].
  cbn [mbind option_bind]. set (st1 := set_world st w' 0).
  assert (wop (OOpen c req now newID) st = Some st1) as -> by (unfold wop; cbn [exec]; by rewrite HO).
  cbn [mbind option_bind]. destruct (introduce now c res _) as [st3|] eqn:Hin; [|done].
  cbn [mbind option_bind]. intros [= <- _]. destruct (opened_tame _ _ _ _ _ Hin) as (st2 & T1 & T2).
  eapply tame_linked; [exact T2|]. clear T2 Hin st3.
  destruct (resumable_dec_named (st_world st) req now (TTL (opt (w_store (st_world st)))) Hw Hq)
    as [(p & s & log & Hn & Hlog & Hr)|Hno].
  - destruct (Open_resume _ c req now newID p s log Hw Hub Hn Hlog Hq Hr) as (w2 & b & HO' & _ & _ & E1 & E2 & _).
    rewrite HO in HO'. injection HO' as -> -> ->. cbn [releases fold_left r_Prev] in *.
    destruct (named_open _ req p s Hw Hn) as [Hst _]. destruct Hn as (_ & _ & _ & Hp).
    apply (resumed_linked now c p s st st1 st2); try done.
    + intros x. cbn [st1 st_world set_world]. by rewrite E2, bound_to_insert.
    + intros q. cbn [st1 st_world set_world]. by rewrite E1, bond_at_insert.
  - destruct (Open_refuse _ c req now newID Hw Hno Hq) as (w1 & reason & rel' & Hrw & HO').
    rewrite HO in HO'. injection HO' as -> -> ->.
    assert (r_Prev (open_fresh w1 c (Owner req) newID reason).2 = None) as ->.
    { unfold open_fresh. by destruct (bool_decide _). }
    eapply tame_linked; [exact T1|]. by apply (refused_linked now c req newID st st1 w1 reason rel').
Qed.

(** ** Connections *)

Lemma register_linked now c st : linked None st -> bound_to (w_clients (st_world st)) c = None ->
  linked (Some c) (hub_do now (hub.Register (st_hub st) c) st).
Proof.
  intros [H1 H2 H3 H4 H5] Hun. destruct (register_hub now c st H1) as (R1 & R2 & _ & R4 & R5).
  assert (forall x, listed (hub_do now (hub.Register (st_hub st) c) st) x <-> listed st x) as Hli
    by (intros x; unfold listed; by rewrite R2).
  constructor; rewrite ?R1.
  - exact R4.
  - intros x Hin Hne. rewrite Hli. apply H2; [|done]. destruct (R5 x Hin) as [?| ->]; [done|by destruct Hne].
  - intros x p b Hin Hb. destruct (R5 x Hin) as [?| ->]; [by apply H3|congruence].
  - exact H4.
  - intros x p live. rewrite Hli. intros Hx _. by apply (H5 x p live).
Qed.

(** The server is done with a client that is in the table, or that the hub has
    forgotten. *)
Lemma idle_linked st c : linked (Some c) st -> (c ∈ hub.clients (st_hub st) -> listed st c) ->
  (listed st c -> bound_to (w_clients (st_world st)) c = None) -> linked None st.
Proof.
  intros [H1 H2 H3 H4 H5] Hc Hb. constructor; [done| |done|done|].
  - intros x Hin _. destruct (decide (x = c)) as [->|Hne]; [left; by apply Hc|]. apply H2; [done|congruence].
  - intros x p live Hx _ Hbx. destruct (decide (x = c)) as [->|Hne]; [rewrite Hb in Hbx; [done|done]|].
    apply (H5 x p live); [done|congruence|done].
Qed.

(** A new entry of the table. *)
Lemma list_linked st c id n k : linked (Some c) st -> st_byID st !! id = None ->
  bound_to (w_clients (st_world st)) c = None -> linked None (set_counts st n k (<[id := c]> (st_byID st))).
Proof.
  intros [H1 H2 H3 H4 H5] Hid Hb. set (st' := set_counts _ _ _ _).
  assert (forall x, listed st x -> listed st' x) as Hup.
  { intros x [id' Hx]. exists id'. cbn [st' st_byID set_counts]. rewrite lookup_insert_ne; [done|congruence]. }
  apply (idle_linked st' c); [|intros _; exists id; apply lookup_insert_eq|done].
  constructor; try done.
  - intros x Hin Hne. destruct (H2 x Hin Hne); [left; by apply Hup|by right].
  - intros x p live [id' Hx] Hne. cbn [st' st_byID set_counts] in Hx.
    apply lookup_insert_Some in Hx as [[_ ->]|[_ Hx]]; [done|]. apply (H5 x p live); [by eexists|done].
Qed.

Lemma serveTransport_linked N now c id r newID st st' : bounded a N -> safe a st ->
  w_clients (st_world st) !! c = None -> sessions (w_store (st_world st)) !! newID = None ->
  st_sends st + connect_cost a N < limit -> linked None st ->
  st_byID st !! id = None -> (forall id', st_byID st !! id' <> Some c) ->
  serveTransport a now c id r newID st = Some st' -> st_crashed st' = true \/ linked None st'.
Proof.
  intros HN Hs Hc Hn Hb Hl Hid Hfresh. unfold connect_cost in Hb. pose proof (share_nonneg N (onConnect a)).
  unfold serveTransport.
  destruct (attaching_ok a now N c id st HN Hs Hc) as (st1 & x & st2 & q & Ew & Er & (Hs2 & _) & Hun & Est); [lia|].
  rewrite Ew. cbn [mbind option_bind]. rewrite Er. cbn [mbind option_bind].
  assert (tame st st1) as T1.
  { unfold wop in Ew. cbn [exec mbind option_bind] in Ew. injection Ew as <-. split; try done. split; [|done].
    apply same_bound_insert. unfold lookup_total, map_lookup_total. by rewrite Hc. }
  assert (bound_to (w_clients (st_world st1)) c = None) as Hun1.
  { unfold wop in Ew. cbn [exec mbind option_bind] in Ew. injection Ew as <-.
    cbn [st_world set_world set_client set_clients w_clients]. by rewrite bound_to_insert, decide_True. }
  pose proof (register_linked now c st1 (tame_linked _ _ _ T1 Hl) Hun1) as Hl1.
  assert (st_byID (hub_do now (hub.Register (st_hub st1) c) st1) = st_byID st1) as Eid1
    by by destruct (hub.Register (st_hub st1) c).
  apply (runMiddlewares_loop_frame (R := tame)) in Er. pose proof (tame_linked _ _ _ Er Hl1) as Hl2.
  assert (st_byID st2 = st_byID st) as Eid by (rewrite (tm_byID _ _ Er), Eid1; apply T1).
  destruct (withRecover a q).
  - set (st3 := set_counts _ _ _ _).
    assert (linked None st3) as Hl3 by (apply list_linked; [done|by rewrite Eid|done]).
    destruct (if recovery_on a then _ else _) as [[st4 o4]|] eqn:E4; [|done]. cbn [mbind option_bind].
    assert (linked None st4) as Hl4.
    { destruct (recovery_on a); [|by injection E4 as <- _].
      apply (openSession_linked now c r newID st3 st4 o4); try done.
      - by apply (after_same st2 st3).
      - exists id. apply lookup_insert_eq.
      - cbn [st3 st_world set_counts]. by rewrite Est. }
    destruct o4; [| |intros [= <-]; by left];
      (destruct (run_callbacks _ _ _ _ _) as [[x5 st5]|] eqn:E5; [|done]); intros [= <-];
      (apply (run_callbacks_frame (R := tame)) in E5 as [T5|(st6 & _ & ->)]; [right|by left]);
      by eapply tame_linked.
  - set (st3 := set_conns _ _). intros E. right. apply tame_wop in E; [|done].
    eapply tame_linked; [exact E|]. destruct (unregister_hub now c st3) as (R1 & R2 & _ & R4 & R5);
      [exact (lk_closed _ _ Hl2)|].
    apply (idle_linked _ c).
    + apply (forget_linked _ st2); [done|by rewrite R1|by rewrite R2|done|]. intros y Hy. by apply R5.
    + intros Hin. by destruct (R5 c Hin).
    + intros [id' Hid']. rewrite R2 in Hid'. cbn [st3 st_byID set_conns] in Hid'. rewrite Eid in Hid'.
      by apply Hfresh in Hid'.
  - intros [= <-]. by left.
Qed.

(** ** The other events *)

Lemma hub_step_tame order st st' : hub_step order st = Some st' -> tame st st'.
Proof.
  unfold hub_step. destruct (recv _) as [e ch| |]; [|intros [= <-]; apply tame_refl..].
  destruct (hub.emitToTargets _ _ _ _) as [[w sl]|] eqn:E; [|done]. intros [= <-].
  unfold hub.emitToTargets in E. destruct (decide _); [|done]. apply deliver_all_links in E. by split.
Qed.

Lemma sweep_step_linked now st st' : safe a st -> linked None st -> sweep_step now st = Some st' ->
  linked None st'.
Proof.
  intros Hs Hl. pose proof (safe_core st Hs) as Hw. unfold sweep_step, wop. cbn [exec].
  destruct (sweep_loop_effect (length (parked (w_store (st_world st)))) (st_world st) now [] Hw)
    as (w' & vs & E & Hcf & _); [done|]. unfold Sweep. rewrite E. cbn [mbind option_bind]. intros [= <-].
  eapply (release_linked None now st _ vs); [done|by apply front_closes|done|done|].
  rewrite map_map. apply map_id.
Qed.

Lemma Shutdown_linked st st' : linked None st -> Shutdown st = Some st' -> linked None st'.
Proof.
  intros Hl. unfold Shutdown. cbn [st_hub set_closed]. destruct (hub.closed (st_hub st)).
  { intros [= <-]. by apply (tame_linked _ st); [apply tame_same|]. }
  destruct (hub.drainAndCloseAll _ _) as [[w h]|] eqn:E; [|done]. intros [= <-].
  unfold hub.drainAndCloseAll in E. destruct (hub.shutdown_all _ _) as [w1|] eqn:E1; [|done].
  injection E as <- <-. apply shutdown_all_links in E1. by apply (forget_linked _ st).
Qed.

Lemma announce_tame ev data st : tame st (announce ev data st).
Proof.
  unfold announce. destruct data; [|by apply tame_same].
  eapply tame_trans; [by apply (tame_same st (set_closed st))|apply fr_emit].
Qed.

Lemma step_linked N M e st st' : bounded a N -> safe a st -> event_ok e st -> conn_ok M e st ->
  st_sends st + event_cost a N e < limit -> counted a M st -> linked None st -> step a e st = Some st' ->
  st_crashed st' = true \/ linked None st'.
Proof.
  intros HN Hs He Hc Hb Hct Hl. pose proof (event_cost_nonneg a N e) as Hcost.
  assert (forall i, frame.app_op i = true -> wop i st = Some st' -> linked None st') as Hop.
  { intros i Hi E. eapply tame_linked; [by eapply tame_wop|done]. }
  assert (forall n, linked None (set_admitted st n)) as Hadm
    by (intros n; by apply (tame_linked _ st); [apply tame_same|]).
  destruct e as [| |now c id r newID|now c raw|now c z|now c|order| |now|c|c|ev data|];
    cbn [step event_cost event_ok conn_ok] in *.
  - intros [= <-]. right. unfold welcome. destruct (st_closed st); [done|]. by destruct (_ <=? _).
  - intros [= <-]. right. apply Hadm.
  - unfold attach. destruct (st_admitted st) as [|n]; [intros [= <-]; by right|]. intros E.
    eapply (serveTransport_linked N now c id r newID (set_admitted st n)); try apply He; try apply Hc; try done.
    by apply (after_same st).
  - destruct (wop _ st) as [st1|] eqn:E1; [|done]. cbn [mbind option_bind].
    apply tame_wop in E1 as T1; [|done].
    destruct (dispatch _ _ _ _ _) as [[st2 d]|] eqn:E2; [|done]. intros [= <-].
    apply (dispatch_frame (R := tame)) in E2 as [T2|(_ & st3 & _ & ->)]; [right|by left].
    eapply tame_linked; [exact T2|]. by eapply tame_linked; [exact T1|].
  - intros E. right. eapply (read_end_linked N M now c z st); try done.
    unfold end_cost in Hb. pose proof (share_nonneg N (middlewares a)). pose proof (share_nonneg N (onDisconnect a)).
    lia.
  - intros E. right. eapply tame_linked; [by eapply (write_step_frame (R := tame))|done].
  - intros E. right. eapply tame_linked; [by eapply hub_step_tame|done].
  - intros E. right. eapply tame_linked; [by eapply (slow_step_frame (R := tame))|done].
  - intros E. right. by eapply sweep_step_linked.
  - intros E. right. by eapply Hop; [|exact E].
  - intros E. right. by eapply Hop; [|exact E].
  - intros [= <-]. right. by eapply tame_linked; [apply announce_tame|].
  - intros E. right. by eapply Shutdown_linked.
Qed.

Lemma New_linked : linked None (New a).
Proof.
  constructor.
  - done.
  - intros c Hin. cbn in Hin. set_solver.
  - intros c p b Hin. cbn in Hin. set_solver.
  - by intros p live m [=].
  - intros c p live [id Hid]. cbn in Hid. by rewrite lookup_empty in Hid.
Qed.

Context (M : nat) (Hmax : MaxConnections (a_cfg a) + Z.of_nat M < 2 ^ 63).

Lemma run_linked N l st st' : bounded a N -> safe a st -> events_ok a l st -> conns_ok a M l st ->
  st_sends st + total_cost a N l < limit -> counted a M st -> linked None st -> run a l st = Some st' ->
  st_crashed st' = true \/ safe a st' /\ counted a M st' /\ linked None st'.
Proof.
  intros HN. revert st. induction l as [|e l IH]; intros st Hs Hok Hconn Hb Hct Hl;
    cbn [run events_ok conns_ok total_cost] in *; [intros [= <-]; by right|].
  pose proof (total_cost_nonneg a N l) as Htc. destruct Hok as [He Hok], Hconn as [Hc Hconn].
  destruct (safe_step_ok a N e st HN Hs He) as (st1 & E & (Hs1 & Hn1 & _)); [lia|]. rewrite E in Hok, Hconn |- *.
  cbn [mbind option_bind]. pose proof (step_counted a M Hmax e st st1 Hct Hc E) as Hct1.
  assert (st_crashed st1 = true \/ linked None st1) as Hl1 by (apply (step_linked N M e st); try done; lia).
  destruct (st_crashed st1) eqn:Hcr; [intros [= <-]; by left|].
  destruct Hct1 as [|Hct1]; [done|]. destruct Hl1 as [|Hl1]; [done|]. destruct Hok as [|Hok]; [done|].
  destruct Hconn as [|Hconn]; [done|]. apply IH; try done. lia.
Qed.

End server.

(** ** The theorem *)

Lemma length_omap_le {A B} (f : A -> option B) l : (length (omap (M := list) f l) <= length l)%nat.
Proof. induction l as [|x l IH]; cbn; [done|]. destruct (f x); cbn; lia. Qed.

Lemma size_le_length (X : gset cptr) l : (forall x, x ∈ X -> x ∈ l) -> (size X <= length l)%nat.
Proof.
  intros H. unfold size, set_size. cbn. apply submseteq_length, NoDup_submseteq; [apply NoDup_elements|].
  intros x Hx%elem_of_elements. by apply H.
Qed.

(** The clients the hub may hold. *)
Definition held (st : state) : list cptr :=
  map snd (map_to_list (st_byID st)) ++
  omap (M := list) (fun p => s_member (w_sess (st_world st) !!! p)) (map snd (parked (w_store (st_world st)))).

Lemma linked_held a st c : safe a st -> linked None st -> c ∈ hub.clients (st_hub st) -> c ∈ held st.
Proof.
  intros Hs Hl Hin. unfold held. apply elem_of_app.
  destruct (lk_known _ _ Hl c Hin) as [[id Hid]|(p & live & Hb & Hp)]; [done|left|right].
  - apply list_elem_of_fmap. exists (id, c). split; [done|]. by apply elem_of_map_to_list.
  - destruct (bound_session st c p Hs Hb) as [s Hps]. rewrite (bond_at_Some _ _ _ Hps) in Hp.
    injection Hp as Hst _ Hm. pose proof (safe_core a st Hs) as Hw. apply list_elem_of_omap. exists p. split.
    + destruct (proj1 (so_elem s (iv_sess _ Hw p s Hps)) Hst) as [e Ee].
      apply list_elem_of_fmap. exists (e, p). split; [done|]. apply (iv_list _ Hw). by exists s.
    + by rewrite (lookup_total_correct _ _ _ Hps).
Qed.


(** The concrete server when its first client has left and its session is
    parked. *)
Definition parked_events : list event := take 11 demo_events.
Definition parked_state : state := default (New demo_app) (run demo_app parked_events (New demo_app)).

Lemma parked_state_run : run demo_app parked_events (New demo_app) = Some parked_state.
Proof. vm_compute. reflexivity. Qed.


End links.
