(* ===== verification/Served.v ===== *)
(** * What a peer of the server observes

    The server of [Server.v] with any application code, together with one peer
    that follows the protocol of docs/RECOVERY.md: it connects, handles the
    frames of its connection in order, may lose the connection at any moment and
    reconnects with the number of the last frame it has. Every step of the two is
    simulated by steps of [Recovery.v], so what is proved there of the registry
    holds of the server. *)
From stdpp Require Import relations.
From S2P Require Import Prelude.
From S2P Require Import GoStd.
From S2P Require Import Json.
From S2P Require Import Replay.
From S2P Require Import Client.
From S2P Require Import Session.
From S2P Require Import SessionStore.
From S2P Require Import SessionInv.
From S2P Require Import Registry.
From S2P Require Import Recovery.
From S2P Require Import Hub.
From S2P Require Import Config.
From S2P Require Import Server.
From S2P Require Import Frame.
From S2P Require Import ServerTables.
From S2P Require Import ServerInv.
From S2P Require Import ServerSpec.
From S2P Require Import Links.

Module served.
Import client session store inv registry recovery config server frame tables serverinv serverspec links.

(** ** The server and the peer *)

Record net := mkNet { n_st : state; n_peer : peer }.

Definition sys_of (y : net) (log : list bytes) : sys := mkSys (st_world (n_st y)) log (n_peer y).

Section served.
Variable a : app.
Variable N : nat.
Variable p : sptr.
Abbreviation o := (recovery_options (a_cfg a)).

(** The peer reconnects with the number of the last frame it has; it goes on
    when it is told that its session was resumed. *)
Definition reconnected (pr : peer) (st : state) (c : cptr) : peer :=
  mkPeer (if decide (client.session (w_clients (st_world st) !!! c) = Some p) then Some c else None) []
    (p_got pr) (p_last pr).

(** An event that is none of the peer's own. *)
Definition foreign (e : event) (pr : peer) : Prop := forall now c, e = EvWrite now c -> p_conn pr <> Some c.

Inductive nstep : net -> net -> Prop :=
  | ns_event st pr e st' :
      event_ok e st -> st_sends st + event_cost a N e < limit -> foreign e pr -> step a e st = Some st' ->
      nstep (mkNet st pr) (mkNet st' pr)
  | ns_write st pr now c f cl st' :
      p_conn pr = Some c -> next_frame (w_clients (st_world st) !!! c) = Some (f, cl) ->
      st_sends st < limit -> step a (EvWrite now c) st = Some st' ->
      nstep (mkNet st pr) (mkNet st' (mkPeer (Some c) (p_wire pr ++ [f]) (p_got pr) (p_last pr)))
  | ns_read st pr f wire :
      p_wire pr = f :: wire -> nstep (mkNet st pr) (mkNet st (receive pr f wire))
  | ns_cut st pr : nstep (mkNet st pr) (mkNet st (mkPeer None [] (p_got pr) (p_last pr)))
  | ns_resume st pr now c id r newID st' token owner :
      let e := EvConnect now c id r newID in
      resumeRequest (a_owner a) r = Some (mkRequest true false token (p_last pr) owner) ->
      event_ok e st -> st_sends st + event_cost a N e < limit -> step a e st = Some st' ->
      nstep (mkNet st pr) (mkNet st' (reconnected pr st' c)).

(** The first connection of the peer asks for no session and gets [p]. *)
Inductive nreach : net -> Prop :=
  | nreach_start l st now c id r newID st' req :
      let e := EvConnect now c id r newID in
      events_ok a l (New a) -> run a l (New a) = Some st -> total_cost a N l < limit ->
      resumeRequest (a_owner a) r = Some req -> Requested req = false ->
      event_ok e st -> st_sends st + event_cost a N e < limit -> step a e st = Some st' ->
      client.session (w_clients (st_world st') !!! c) = Some p ->
      nreach (mkNet st' (mkPeer (Some c) [] [] 0))
  | nreach_step y y' : nreach y -> nstep y y' -> nreach y'.

(** ** Worlds that follow the peer *)

Definition follows_from (y0 : sys) (pr : peer) (w : world) : Prop :=
  sreach o p y0 /\ exists log, rtc (sstep p) y0 (mkSys w log pr).

Lemma follows_good y0 pr w : follows_from y0 pr w -> good w.
Proof.
  intros [Hr (log & Hl)]. pose proof (sreach_rtc _ _ _ _ Hr Hl) as Hs. exact (si_good _ _ (sreach_inv _ _ _ Hs)).
Qed.

Lemma follows_sstep y0 pr w pr' w' : follows_from y0 pr w ->
  (forall log, exists log', sstep p (mkSys w log pr) (mkSys w' log' pr')) -> follows_from y0 pr' w'.
Proof.
  intros [Hr (l & Hl)] Hs. split; [done|]. destruct (Hs l) as [l' Hs']. exists l'. by eapply rtc_r.
Qed.

#[local] Instance follows_tracked y0 pr : Tracked (follows_from y0 pr) (fun c => p_conn pr <> Some c).
Proof.
  split; [apply follows_good|]. intros w i w' Hf Hmay Hv He. eapply (follows_sstep y0 pr w); [done|].
  intros log. exists (log_after p w w' i log). by apply ss_op.
Qed.

(** The same state, known for something else. *)
Lemma safe_swap (I1 I2 : world -> Prop) st : safe_for (Inv := I1) st ->
  (I1 (st_world st) -> I2 (st_world st)) -> safe_for (Inv := I2) st.
Proof. intros [[H1 H2 H3] Hj] H. split; [split; [by apply H|done|done]|done]. Qed.

(** ** Opening a session binds the client to it *)

Lemma open_binds w c req now newID w' res rel : good w -> valid w (OOpen c req now newID) ->
  Open w c req now newID = Some (w', res, rel) ->
  client.session (w_clients w' !!! c) = r_Session res /\ (Requested req = false -> r_Resumed res = false).
Proof.
  intros [[Hw _] _] (Hun & Hq & Hnew) HO. pose proof (core_unbound w c Hw Hun) as Hc.
  destruct (resumable_dec_named w req now (TTL (opt (w_store w))) Hw Hq)
    as [(q & s & log & Hn & Hl & Hr)|Hno].
  - destruct (Open_resume w c req now newID q s log Hw Hc Hn Hl Hq Hr)
      as (w2 & b & HO' & _ & _ & _ & E2 & _). rewrite HO in HO'. injection HO' as -> -> ->.
    rewrite E2, lookup_total_insert_eq. split; [done|]. destruct Hn as (_ & -> & _). done.
  - destruct (Open_refuse w c req now newID Hw Hno Hq) as (w1 & reason & rel' & Hrw & HO').
    rewrite HO in HO'. injection HO' as -> -> _.
    destruct (refused_core _ _ _ _ _ _ Hw Hrw) as (Hw1 & Ecl & _ & _ & Hnone & Hlive).
    destruct (decide (newID = ""%string)) as [->|Hid].
    { unfold open_fresh. rewrite bool_decide_eq_true_2 by done. cbn [fst snd r_Session r_Resumed refused].
      by rewrite Ecl. }
    destruct (open_fresh_core w1 c (Owner req) newID reason) as (_ & _ & -> & _ & E2 & _);
      [done| |done|by apply Hnone|].
    { intros q t Ht. destruct (Hlive q t Ht) as (t0 & Ht0 & ->). by eapply Hc. }
    by rewrite E2, lookup_total_insert_eq.
Qed.

(** What follows the registry's answer leaves the bindings alone. *)
Lemma releases_world now l st : st_world (releases now l st) = st_world st.
Proof.
  unfold releases. revert st. induction l as [|[q why] l IH]; intros st; cbn [fold_left]; [done|].
  rewrite IH. unfold releaseSession. destruct (s_member _) as [m|];
    [destruct (hub.Unregister (st_hub st) m)|]; by destruct why.
Qed.

Lemma introduce_bound now c res st st' : introduce now c res st = Some st' ->
  same_bound (w_clients (st_world st)) (w_clients (st_world st')).
Proof.
  intros (st1 & T1 & T2)%opened_tame. transitivity (w_clients (st_world st1)); [apply T1|].
  destruct (r_Prev res) as [prev|]; [|apply T2]. destruct T2 as [[T2 _] _ _ _]. intros x. rewrite (T2 x).
  by destruct (hub.Transfer (st_hub st1) (Some prev) (Some c)).
Qed.

Lemma callbacks_bound now l x st x' st' : run_callbacks a now l x st = Some (x', st') ->
  same_bound (w_clients (st_world st)) (w_clients (st_world st')).
Proof. intros [T|(st1 & T & ->)]%(run_callbacks_frame (R := tame)); apply T. Qed.

(** ** A connection that opens the session *)

Section through.
Context (I1 I2 : world -> Prop) {may1 may2 : cptr -> Prop} `{Tracked I1 may1, Tracked I2 may2}.
Context (now : Z) (c : cptr) (id : string) (r : option HttpRequest) (newID : string).
Context (req : ResumeRequest) (Hreq : resumeRequest (a_owner a) r = Some req).
Abbreviation e := (EvConnect now c id r newID).

(** What is known of the worlds changes when the registry opens the session for
    the new client. *)
Context (Hopen : forall w w' res rel, I1 w -> valid w (OOpen c req now newID) ->
  Open w c req now newID = Some (w', res, rel) -> r_Session res = Some p -> I2 w').

Lemma openSession_through st st' : safe_for (Inv := I1) st -> st_sends st < limit ->
  client.session (w_clients (st_world st) !!! c) = None -> sessions (w_store (st_world st)) !! newID = None ->
  openSession a now c r newID st = Some (st', Returns) ->
  client.session (w_clients (st_world st') !!! c) = Some p ->
  safe_for (Inv := I2) st' /\ st_sends st' <= st_sends st.
Proof.
  intros Hs Hb Hun Hnew E Hbound. rewrite openSession_eq, Hreq in E.
  assert (valid (st_world st) (OOpen c req now newID)) as Hv.
  { split; [done|]. split; [by eapply resumeRequest_seq|done]. }
  destruct (Open _ _ _ _ _) as [[[w' res] rel]|] eqn:HO; [|done]. cbn [mbind option_bind] in E.
  destruct (quiet_wop (OOpen c req now newID) st Hs eq_refl Hv Hb) as (st1 & Ew & (Hs1 & Hn1 & _)).
  rewrite Ew in E. cbn [mbind option_bind] in E.
  assert (st_world st1 = w') as Hw1.
  { unfold wop in Ew. cbn [exec] in Ew. rewrite HO in Ew. by injection Ew as <-. }
  destruct (introduce now c res _) as [st3'|] eqn:Ei; [|done]. injection E as ->.
  pose proof (introduce_bound _ _ _ _ _ Ei) as B. rewrite releases_world, Hw1 in B.
  destruct (open_binds _ _ _ _ _ _ _ _ (wsafe_good _ _ (sf_world _ Hs)) Hv HO) as [Hb1 _].
  assert (r_Session res = Some p) as Hres by (rewrite <- Hb1, <- Hbound; symmetry; exact (B c)).
  assert (safe_for (Inv := I2) st1) as Hs1'.
  { apply (safe_swap I1 I2 st1 Hs1). intros _. rewrite Hw1. eapply Hopen; [|exact Hv|exact HO|exact Hres].
    apply (ws_inv _ _ (sf_world _ Hs)). }
  destruct (releases_ok now rel st1 Hs1') as [(Hs2 & Hn2 & _) _].
  destruct (introduce_ok now c res _ Hs2) as (st3 & E3 & (Hs3 & Hn3 & _)); [lia|].
  rewrite Ei in E3. injection E3 as <-. split; [done|lia].
Qed.

Lemma connect_through st st' : bounded a N -> safe_for (Inv := I1) st -> event_ok e st ->
  st_sends st + event_cost a N e < limit -> step a e st = Some st' ->
  client.session (w_clients (st_world st') !!! c) = Some p -> safe_for (Inv := I2) st'.
Proof.
  intros HN Hs [Hc Hn] Hb E Hbound. cbn [step event_cost] in E, Hb. unfold connect_cost in Hb.
  pose proof (share_nonneg N (onConnect a)). pose proof (share_nonneg N (middlewares a)).
  assert (client.session (w_clients (st_world st) !!! c) = None) as Hnone.
  { unfold lookup_total, map_lookup_total. by rewrite Hc. }
  unfold attach in E. destruct (st_admitted st) as [|k]; [injection E as <-; congruence|].
  assert (after (Inv := I1) 0 st (set_admitted st k)) as (Hs0 & Hn0 & _) by by apply after_same.
  change (st_world st) with (st_world (set_admitted st k)) in Hc, Hn, Hnone. rename E into Es.
  set (st0 := set_admitted st k) in *. unfold serveTransport in Es.
  destruct (attaching_ok a now N c id st0 HN Hs0 Hc) as (st1 & x & st2 & q & Ew & Er & (Hs2 & Hn2 & _) & Hun & Est); [lia|].
  rewrite Ew in Es. cbn [mbind option_bind] in Es. rewrite Er in Es. cbn [mbind option_bind] in Es.
  destruct (withRecover a q).
  2: { apply tame_wop in Es as [[T _] _ _ _]; [|done]. exfalso. specialize (T c).
       unfold bound_to in T. rewrite Hbound in T. revert T.
       destruct (hub.Unregister _ c); cbn [hub_do st_world set_hub set_conns]; congruence. }
  2: { injection Es as <-. cbn [st_world crash] in Hbound. congruence. }
  set (st3 := set_counts _ _ _ _) in Es. assert (safe_for (Inv := I1) st3) as Hs3 by by apply (after_same st2 st3).
  assert (st_sends st3 = st_sends st2) as En3 by done.
  destruct (if recovery_on a then _ else _) as [[st4 o4]|] eqn:E4; [|done]. cbn [mbind option_bind] in Es.
  assert (o4 = Returns) as ->.
  { destruct (recovery_on a); [|by injection E4]. apply openSession_outcome in E4. by rewrite Hreq in E4. }
  destruct (run_callbacks _ _ _ _ _) as [[x5 st5]|] eqn:E5; [|done]. injection Es as ->.
  pose proof (callbacks_bound _ _ _ _ _ _ E5 c) as B5. unfold bound_to in B5. rewrite Hbound in B5. symmetry in B5.
  destruct (recovery_on a); [|injection E4 as <-; cbn [st3 st_world set_counts] in B5; congruence].
  destruct (openSession_through st3 st4 Hs3) as [Hs4 Hn4]; [lia|done| |done|done|].
  { cbn [st3 st_world set_counts]. by rewrite Est. }
  destruct (run_callbacks_ok a now N (onConnect a) x st4 (bd_onConnect a N HN) Hs4) as (x9 & st9 & E9 & (Hs9 & _) & _);
    [lia|].
  rewrite E5 in E9. by injection E9 as _ <-.
Qed.
End through.

(** ** The simulation *)

Lemma net_simulated y0 y y' : bounded a N -> safe_for (Inv := follows_from y0 (n_peer y)) (n_st y) ->
  nstep y y' -> safe_for (Inv := follows_from y0 (n_peer y')) (n_st y').
Proof.
  intros HN Hs Hstep.
  destruct Hstep as [st pr e st' He Hb Hfor E|st pr now c f cl st' Hconn Hf Hb E|st pr f wire Hw|st pr
    |st pr now c id r newID st' token owner e Hreq He Hb E]; cbn [n_st n_peer] in *.
  - destruct (step_ok a N e st HN Hfor Hs He Hb) as (st1 & E1 & (Hs1 & _)). rewrite E in E1. by injection E1 as <-.
  - cbn [step] in E. unfold write_step in E. rewrite Hf in E.
    set (st1 := set_world st (set_client (st_world st) c cl) 0).
    assert (wop (OPump c) st = Some st1) as Ew by (unfold wop; cbn [exec]; by rewrite Hf).
    rewrite Ew in E. cbn [mbind option_bind] in E. set (pr' := mkPeer _ _ _ _).
    assert (safe_for (Inv := follows_from y0 pr') st1) as Hs1.
    { destruct Hs as [[H1 H2 H3] Hj]. split; [split|done]; cbn [st1 st_world st_sends set_world];
        [|lia|by rewrite Z.add_0_r].
      eapply (follows_sstep _ _ _ _ _ H1). intros l. exists l. by apply ss_write. }
    destruct (quiet_wop (ONote c (NSent (len f) now)) st1 Hs1 eq_refl I) as (st2 & E2 & (Hs2 & _)); [cbn; lia|].
    rewrite E in E2. by injection E2 as <-.
  - apply (safe_swap _ _ _ Hs). intros Hf. eapply (follows_sstep _ _ _ _ _ Hf). intros l. exists l. by apply ss_read.
  - apply (safe_swap _ _ _ Hs). intros Hf. eapply (follows_sstep _ _ _ _ _ Hf). intros l. exists l. by apply ss_cut.
  - unfold reconnected. destruct (decide _) as [Hb'|Hb'].
    + refine (connect_through _ _ now c id r newID _ Hreq _ st st' HN Hs He Hb E Hb').
      intros w w' res rel Hf Hv HO Hres. eapply (follows_sstep _ _ _ _ _ Hf). intros l. exists l.
      pose proof (ss_resume p w l pr c token owner now newID w' res rel Hv HO) as Hst.
      by rewrite decide_True in Hst.
    + destruct (step_ok a N e st HN (fun n x (H : e = EvWrite n x) => ltac:(by discriminate H)) Hs He Hb)
        as (st1 & E1 & (Hs1 & _)). rewrite E in E1. injection E1 as <-.
      apply (safe_swap _ _ _ Hs1). intros Hf. eapply (follows_sstep _ _ _ _ _ Hf). intros l. exists l. by apply ss_cut.
Qed.

Lemma net_simulated_rtc y0 y y' : bounded a N -> safe_for (Inv := follows_from y0 (n_peer y)) (n_st y) ->
  rtc nstep y y' -> safe_for (Inv := follows_from y0 (n_peer y')) (n_st y').
Proof. intros HN Hs. induction 1 as [|y y1 y2 Hstep _ IH]; [done|]. by eapply IH, net_simulated. Qed.

Lemma follows_here y log : sreach o p (sys_of y log) ->
  follows_from (sys_of y log) (n_peer y) (st_world (n_st y)).
Proof. intros Hr. split; [done|]. by exists log. Qed.

(** The peer's first connection. *)
Definition started (pr : peer) (w : world) : Prop := exists log, sreach o p (mkSys w log pr).

#[local] Instance started_tracked pr : Tracked (started pr) (fun c => p_conn pr <> Some c).
Proof.
  split.
  - intros w (log & Hr). exact (si_good _ _ (sreach_inv _ _ _ Hr)).
  - intros w i w' (log & Hr) Hmay Hv He. exists (log_after p w w' i log). eapply sreach_step; [exact Hr|].
    by apply ss_op.
Qed.

Lemma nreach_inv y : bounded a N -> nreach y -> exists log, sreach o p (sys_of y log) /\
  safe_for (Inv := follows_from (sys_of y log) (n_peer y)) (n_st y).
Proof.
  intros HN. induction 1 as [l st now c id r newID st' req e Hl Hr Hb Hreq Hnr0 He Hbe E Hbound|y y' _ (log & Hr & Hs) Hstep].
  - destruct (safe_run_ok a N l (New a) HN (New_safe a) Hl) as (st1 & Hr1 & Hs1 & _); [exact Hb|].
    rewrite Hr in Hr1. injection Hr1 as <-.
    assert (safe_for (Inv := started (mkPeer (Some c) [] [] 0)) st') as Hs.
    { refine (connect_through _ _ now c id r newID _ Hreq _ st st' HN Hs1 He Hbe E Hbound).
      intros w w' res rel Hw Hv HO Hres. exists [].
      destruct (open_binds _ _ _ _ _ _ _ _ (proj1 (wreach_inv _ _ Hw)) Hv HO) as [_ Hnr].
      eapply sreach_start; [exact Hw|exact Hv|exact HO|exact Hres|by apply Hnr]. }
    destruct (ws_inv _ _ (sf_world _ Hs)) as (log & Hlog). exists log. split; [done|].
    apply (safe_swap _ _ _ Hs). intros _. by apply (follows_here (mkNet st' _) log).
  - pose proof (net_simulated _ y y' HN Hs Hstep) as Hs'.
    destruct (ws_inv _ _ (sf_world _ Hs')) as [_ (log' & Hl')].
    assert (sreach o p (sys_of y' log')) as Hr' by by eapply sreach_rtc.
    exists log'. split; [done|]. apply (safe_swap _ _ _ Hs'). intros _. by apply follows_here.
Qed.

Lemma sstep_log y y' : sstep p y y' -> exists rest, y_log y' = y_log y ++ rest.
Proof.
  assert (forall l : list bytes, exists rest, l = l ++ rest) as Hnil by (intros l; exists []; by rewrite app_nil_r).
  intros []; cbn [y_log]; try apply Hnil. unfold log_after. destruct i as [| |c d pol| | | | | | | |]; try apply Hnil.
  destruct (_ =? _); [apply Hnil|by exists [d]].
Qed.

Lemma rtc_log y y' : rtc (sstep p) y y' -> exists rest, y_log y' = y_log y ++ rest.
Proof.
  induction 1 as [y|y y1 y2 H1%sstep_log _ [l2 IH]]; [exists []; by rewrite app_nil_r|].
  destruct H1 as [l1 E1]. exists (l1 ++ l2). by rewrite IH, E1, app_assoc.
Qed.

(** C3: recovery holds of the whole server: whatever connects, is sent, broadcast,
    acknowledged, resumed, swept or shut down in between, and whatever
    middleware, handlers and callbacks do (each making at most [N] calls), the
    events the peer has handled are a prefix of those its session has numbered,
    each once and in order, and all of them when nothing is on its way while its
    session is online; and every further step of the server or the peer is
    simulated by steps of the recovery protocol, which only add to the events. *)
Theorem server_exactly_once y : bounded a N -> nreach y ->
  exists log, sreach o p (sys_of y log) /\
    (exists rest, log = p_got (n_peer y) ++ rest) /\ p_last (n_peer y) = len (p_got (n_peer y)) /\
    (forall c s, p_conn (n_peer y) = Some c -> w_sess (st_world (n_st y)) !! p = Some s -> online s c ->
       p_wire (n_peer y) = [] -> unwritten (w_clients (st_world (n_st y)) !!! c) = [] ->
       p_got (n_peer y) = log) /\
    (forall y', nstep y y' -> exists rest, rtc (sstep p) (sys_of y log) (sys_of y' (log ++ rest))).
Proof.
  intros HN Hy. destruct (nreach_inv y HN Hy) as (log & Hr & Hs). exists log. split; [done|].
  pose proof (sreach_inv _ _ _ Hr) as Hi. destruct (si_got _ _ Hi) as [H1 H2].
  split; [done|]. split; [done|]. split.
  - intros c s Hc Hp Hon Hw Hu. by apply (drained_all p (sys_of y log) c s Hi).
  - intros y' Hstep. pose proof (net_simulated _ y y' HN Hs Hstep) as Hs'.
    destruct (ws_inv _ _ (sf_world _ Hs')) as [_ (log' & Hl')]. destruct (rtc_log _ _ Hl') as [rest E].
    exists rest. cbn [y_log sys_of] in E. by rewrite <- E.
Qed.

(** ** Catching up *)

(** The write pump of the peer's connection takes the next frame. *)
Lemma write_step_taken now c st f cl : next_frame (w_clients (st_world st) !!! c) = Some (f, cl) ->
  exists st', step a (EvWrite now c) st = Some st' /\ st_sends st' = st_sends st /\
    w_sess (st_world st') = w_sess (st_world st) /\ unwritten (w_clients (st_world st') !!! c) = unwritten cl.
Proof.
  intros Hn. cbn [step]. unfold write_step. rewrite Hn.
  unfold wop. cbn [exec]. rewrite Hn. cbn [mbind option_bind].
  eexists. split; [done|]. cbn [st_world st_sends set_world set_client set_clients w_clients w_sess].
  split; [cbn; lia|]. split; [done|]. rewrite !lookup_total_insert_eq.
  destruct (noted_same (set_client (st_world st) c cl) cl (NSent (len f) now)) as (E1 & E2 & _).
  unfold unwritten. by rewrite E1, E2.
Qed.

Lemma net_drain n st pr c : p_conn pr = Some c -> st_sends st < limit ->
  (2 * length (unwritten (w_clients (st_world st) !!! c)) + length (p_wire pr) <= n)%nat ->
  exists st' pr', rtc nstep (mkNet st pr) (mkNet st' pr') /\ p_conn pr' = Some c /\ p_wire pr' = [] /\
    unwritten (w_clients (st_world st') !!! c) = [] /\ w_sess (st_world st') = w_sess (st_world st).
Proof.
  revert st pr. induction n as [|n IH]; intros st pr Hc Hb Hn.
  - exists st, pr. split; [done|]. split; [done|].
    destruct (p_wire pr), (unwritten (w_clients (st_world st) !!! c)); cbn in Hn; [done|lia..].
  - destruct (p_wire pr) as [|f wire] eqn:Hw.
    + destruct (unwritten (w_clients (st_world st) !!! c)) as [|f l] eqn:Hu; [by exists st, pr|].
      destruct (next_frame_some (w_clients (st_world st) !!! c)) as (g & cl & Hnf); [by rewrite Hu|].
      pose proof (next_frame_unwritten _ _ _ Hnf) as [Hu' _]. rewrite Hu in Hu'. injection Hu' as -> ->.
      destruct (write_step_taken 0 c st g cl Hnf) as (st1 & E & Es & Ess & Eu).
      destruct (IH st1 (mkPeer (Some c) (p_wire pr ++ [g]) (p_got pr) (p_last pr)))
        as (st' & pr' & Hr & H1 & H2 & H3 & H4); [done|lia| |].
      { rewrite Eu. cbn [p_wire]. rewrite Hw. cbn in Hn |- *. lia. }
      exists st', pr'. split; [eapply rtc_l; [by eapply ns_write|done]|]. by rewrite H4, Ess.
    + destruct (IH st (receive pr f wire)) as (st' & pr' & Hr & H).
      { unfold receive. by destruct (unstamp f) as [[? ?]|]. } { done. }
      { replace (p_wire (receive pr f wire)) with wire
          by (unfold receive; by destruct (unstamp f) as [[? ?]|]). cbn in Hn. lia. }
      exists st', pr'. split; [|done]. eapply rtc_l; [by apply ns_read|done].
Qed.

(** C4: a peer that is connected catches up: while its session is online on its
    connection, the write pump and the peer can go on, whatever the server was
    doing, until the peer has handled every event numbered so far, none of which
    is lost or changed. *)
Theorem server_catches_up y c s : bounded a N -> nreach y -> st_sends (n_st y) < limit ->
  p_conn (n_peer y) = Some c -> w_sess (st_world (n_st y)) !! p = Some s -> online s c ->
  exists log y', sreach o p (sys_of y log) /\ rtc nstep y y' /\ p_got (n_peer y') = log /\
    p_last (n_peer y') + 1 = s_next s.
Proof.
  intros HN Hy Hb Hc Hp Hon. destruct (nreach_inv y HN Hy) as (log & Hr & Hs). destruct y as [st pr].
  cbn [n_st n_peer] in *.
  destruct (net_drain _ st pr c Hc Hb (le_n _)) as (st' & pr' & Hrtc & H1 & H2 & H3 & H4).
  exists log, (mkNet st' pr'). split; [done|]. split; [done|].
  destruct (net_simulated_rtc _ (mkNet st pr) _ HN Hs Hrtc) as [[[_ (log' & Hl')] _ _] _].
  pose proof (sreach_inv _ _ _ (sreach_rtc _ _ _ _ Hr Hl')) as Hi.
  pose proof (sreach_inv _ _ _ Hr) as Hi0. cbn [n_st n_peer] in *.
  assert (p_got pr' = log') as Hgot.
  { apply (drained_all p (mkSys (st_world st') log' pr') c s Hi); try done. cbn [y_w]. by rewrite H4. }
  destruct (si_sess _ _ Hi) as (s1 & Hs1 & Hlog1 & _), (si_sess _ _ Hi0) as (s0 & Hs0 & Hlog0 & _).
  cbn [y_w y_log sys_of n_st] in *. rewrite H4 in Hs1. assert (s1 = s) as -> by congruence.
  assert (s0 = s) as -> by congruence. pose proof (lg_next _ _ Hlog1) as E1. pose proof (lg_next _ _ Hlog0) as E0.
  destruct (rtc_log _ _ Hl') as [rest Erest]. cbn [y_log sys_of] in Erest.
  assert (rest = []) as -> by (apply len_zero_nil; rewrite Erest, len_app in E1; lia).
  rewrite app_nil_r in Erest. split; [by rewrite Hgot|].
  destruct (si_got _ _ Hi) as [Hlast _]. cbn [y_peer] in Hlast. rewrite Hlast, Hgot. lia.
Qed.

End served.

(** ** A concrete run *)

Inductive nop :=
  | NEvent (e : event) | NWrite (now : Z) | NRead | NCut
  | NResume (now : Z) (c : cptr) (id : string) (r : option HttpRequest) (newID : string).

Definition foreignb (e : event) (pr : peer) : bool :=
  match e with EvWrite _ c => negb (bool_decide (p_conn pr = Some c)) | _ => true end.

Definition nexec (a : app) (N : nat) (p : sptr) (y : net) (i : nop) : option net :=
  let '(mkNet st pr) := y in
  let allowed e := event_okb e st && (st_sends st + event_cost a N e <? limit) in
  match i with
  | NEvent e => if allowed e && foreignb e pr then st ← step a e st; Some (mkNet st pr) else None
  | NWrite now =>
      c ← p_conn pr; '(f, _) ← next_frame (w_clients (st_world st) !!! c);
      if st_sends st <? limit then
        st ← step a (EvWrite now c) st;
        Some (mkNet st (mkPeer (Some c) (p_wire pr ++ [f]) (p_got pr) (p_last pr)))
      else None
  | NRead => match p_wire pr with f :: wire => Some (mkNet st (receive pr f wire)) | [] => None end
  | NCut => Some (mkNet st (mkPeer None [] (p_got pr) (p_last pr)))
  | NResume now c id r newID =>
      let e := EvConnect now c id r newID in
      req ← resumeRequest (a_owner a) r;
      if allowed e && Requested req && negb (Invalid req) && (LastSeq req =? p_last pr)
      then st ← step a e st; Some (mkNet st (reconnected p pr st c)) else None
  end.

Fixpoint nrun (a : app) (N : nat) (p : sptr) (y : net) (l : list nop) : option net :=
  match l with [] => Some y | i :: l' => y' ← nexec a N p y i; nrun a N p y' l' end.

Lemma nexec_sound a N p y i y' : nexec a N p y i = Some y' -> nstep a N p y y'.
Proof.
  destruct y as [st pr], i as [e|now| | |now c id r newID]; cbn [nexec].
  - destruct (_ && _) eqn:Hv; [|done]. apply andb_prop in Hv as [[He%event_okb_sound Hb%Z.ltb_lt]%andb_prop Hf].
    destruct (step a e st) as [st'|] eqn:E; [|done]. intros [= <-]. apply (ns_event a N p st pr e); try done.
    intros n c ->. cbn [foreignb] in Hf. by apply negb_true_iff, bool_decide_eq_false in Hf.
  - destruct (p_conn pr) as [c|] eqn:Hc; [|done]. cbn [mbind option_bind].
    destruct (next_frame _) as [[f cl]|] eqn:Hn; [|done]. cbn [mbind option_bind].
    destruct (Z.ltb_spec (st_sends st) limit); [|done].
    destruct (step a (EvWrite now c) st) as [st'|] eqn:E; [|done]. intros [= <-]. by eapply ns_write.
  - destruct (p_wire pr) as [|f wire] eqn:Hw; [done|]. intros [= <-]. by apply ns_read.
  - intros [= <-]. apply ns_cut.
  - destruct (resumeRequest (a_owner a) r) as [[rq iv sid q own]|] eqn:Hreq; [|done]. cbn [mbind option_bind].
    destruct (_ && _) eqn:Hv; [|done]. cbn [Requested Invalid LastSeq] in Hv.
    apply andb_prop in Hv as [[[[He%event_okb_sound Hb%Z.ltb_lt]%andb_prop Hr]%andb_prop Hi%negb_true_iff]%andb_prop
      Hl%Z.eqb_eq].
    destruct (step a _ st) as [st'|] eqn:E; [|done]. intros [= <-].
    apply (ns_resume a N p st pr now c id r newID st' sid own); [|done..]. congruence.
Qed.

Lemma nrun_sound a N p y l y' : nreach a N p y -> nrun a N p y l = Some y' -> nreach a N p y'.
Proof.
  revert y. induction l as [|i l IH]; intros y Hy; cbn [nrun]; [by intros [= <-]|].
  destruct (nexec a N p y i) as [y1|] eqn:E; [|done]. cbn [mbind option_bind]. apply IH.
  eapply nreach_step; [done|by eapply nexec_sound].
Qed.

(** The peer opens session 0, is answered, reads one of two events, loses its
    connection and resumes. *)
Definition demo_hello : net :=
  mkNet (default (New demo_app) (run demo_app [EvAdmit; EvConnect 0 0%nat "c0" None "s0"] (New demo_app)))
    (mkPeer (Some 0%nat) [] [] 0).
Definition demo_story : list nop :=
  [NWrite 1; NRead; NEvent (EvMessage 10 0%nat demo_frame); NEvent (EvHub [0%nat]); NWrite 11; NRead; NWrite 12;
   NCut; NEvent (EvReadEnd 30 0%nat true); NEvent EvAdmit; NResume 40 1%nat "c1" (Some demo_request) "s1";
   NWrite 41; NRead; NWrite 42; NRead].
Definition demo_net : net := default demo_hello (nrun demo_app 3 0%nat demo_hello demo_story).

Lemma demo_net_run : nrun demo_app 3 0%nat demo_hello demo_story = Some demo_net.
Proof. vm_compute. reflexivity. Qed.

Lemma demo_hello_reach : nreach demo_app 3 0%nat demo_hello.
Proof.
  apply (nreach_start demo_app 3 0%nat [EvAdmit] (set_admitted (New demo_app) 1)
    0 0%nat "c0" None "s0" _ (mkRequest false false "" 0 "")).
  - split; [exact I|by right].
  - reflexivity.
  - reflexivity.
  - reflexivity.
  - reflexivity.
  - by split.
  - vm_compute. reflexivity.
  - vm_compute. reflexivity.
  - vm_compute. reflexivity.
Qed.

Lemma demo_net_reach : nreach demo_app 3 0%nat demo_net.
Proof. exact (nrun_sound _ _ _ _ _ _ demo_hello_reach demo_net_run). Qed.

Lemma server_exactly_once_witness :
  exists log, sreach (recovery_options demo_cfg) 0%nat (sys_of demo_net log) /\ len log = 2 /\
    p_got (n_peer demo_net) = log.
Proof.
  destruct (server_exactly_once demo_app 3 0%nat demo_net demo_bounded demo_net_reach)
    as (log & Hr & _ & _ & Hall & _).
  assert (p_got (n_peer demo_net) = log) as E.
  { apply (Hall 1%nat (w_sess (st_world (n_st demo_net)) !!! 0%nat)); [vm_compute; reflexivity..| |
      vm_compute; reflexivity|vm_compute; reflexivity].
    split; [vm_compute; discriminate|]. split; vm_compute; reflexivity. }
  exists log. split; [exact Hr|]. split; [rewrite <- E; vm_compute; reflexivity|exact E].
Defined.

(** The same run when the peer has just resumed. *)
Definition demo_back : net := default demo_hello (nrun demo_app 3 0%nat demo_hello (take 11 demo_story)).

Lemma demo_back_run : nrun demo_app 3 0%nat demo_hello (take 11 demo_story) = Some demo_back.
Proof. vm_compute. reflexivity. Qed.

Lemma server_catches_up_witness :
  len (p_got (n_peer demo_back)) = 1 /\
  exists log y', sreach (recovery_options demo_cfg) 0%nat (sys_of demo_back log) /\
    rtc (nstep demo_app 3 0%nat) demo_back y' /\ p_got (n_peer y') = log /\ p_last (n_peer y') + 1 = 3.
Proof.
  split; [vm_compute; reflexivity|].
  destruct (server_catches_up demo_app 3 0%nat demo_back 1%nat (w_sess (st_world (n_st demo_back)) !!! 0%nat))
    as (log & y' & H1 & H2 & H3 & H4);
    [exact demo_bounded|exact (nrun_sound _ _ _ _ _ _ demo_hello_reach demo_back_run)|vm_compute; reflexivity..| |].
  - split; [vm_compute; discriminate|]. split; vm_compute; reflexivity.
  - exists log, y'. split; [exact H1|]. split; [exact H2|]. split; [exact H3|]. rewrite H4. vm_compute. reflexivity.
Defined.

End served.
