(* ===== verification/Dispatch.v ===== *)
(** * From the wire to a handler

    What a frame of a client does once it is read ([dispatch] of [server.go],
    [handleAck] of [recovery.go], the context of [context.go]), from the bytes
    on: a marshalled acknowledgement reaches the replay buffer and nothing
    else, a marshalled message reaches its handler with the fields it was
    marshalled from, and the id it asks to be answered under travels on the
    first emission only. *)
From S2P Require Import Prelude.
From S2P Require Import GoStd.
From S2P Require Import Json.
From S2P Require Import JsonDecode.
From S2P Require Import JsonCodec.
From S2P Require Import Replay.
From S2P Require Import Client.
From S2P Require Import Session.
From S2P Require Import SessionStore.
From S2P Require Import SessionInv.
From S2P Require Import Registry.
From S2P Require Import Recovery.
From S2P Require Import Hub.
From S2P Require Import Config.
From S2P Require Import Server.
From S2P Require Import Frame.
From S2P Require Import ServerTables.
From S2P Require Import ServerInv.
From S2P Require Import ServerSpec.

Module dispatching.
Import codec client session store inv registry recovery config server frame tables serverinv serverspec.

(** ** Contexts *)

(** The context of a message of the client [c]. *)
Record context_of (c : cptr) (m : ClientWireMessage) (x : Context) : Prop := {
  co_client : ctx_client x = Some c;
  co_event : ctx_event x = Event m;
  co_room : ctx_room x = Room m;
  co_payload : ctx_payload x = Payload m;
  co_ack : pendingAck x = ID m
}.

Lemma consumeAck_context c m x : context_of c m x -> context_of c m (consumeAck x).1.
Proof. intros []. unfold consumeAck. destruct (_ || _); by constructor. Qed.

(** The same context with no answer pending. *)
Definition forget (x : Context) : Context :=
  mkContext (ctx_client x) (ctx_event x) (ctx_room x) (ctx_payload x) "" false.

(** Two contexts that emit alike: the answer is used up, or there was none. *)
Definition settled (x : Context) : Prop := ackUsed x = true \/ pendingAck x = ""%string.

Lemma consumeAck_settled x : settled x -> consumeAck x = (x, ""%string).
Proof.
  intros [E|E]; unfold consumeAck; [by rewrite E, orb_true_r|by rewrite (bool_decide_eq_true_2 _ E)].
Qed.

(** The id an emission carries, if any is left. *)
Definition ack_left (x : Context) : string := if ackUsed x then ""%string else pendingAck x.

Lemma consumeAck_left x : exists x', consumeAck x = (x', ack_left x) /\ settled x' /\
  ctx_client x' = ctx_client x.
Proof.
  unfold consumeAck, ack_left. destruct (ackUsed x) eqn:Hu; rewrite ?orb_true_r.
  - exists x. split; [done|]. split; [by left|done].
  - case_bool_decide as Hp; cbn [orb].
    + exists x. rewrite Hp. split; [done|]. split; [by right|done].
    + eexists. split; [done|]. split; [by left|done].
Qed.

Section app.
Variable a : app.

Lemma on_client_same (x y : Context) st f nobody : ctx_client x = ctx_client y ->
  on_client x st f nobody = on_client y st f nobody.
Proof. unfold on_client. by intros ->. Qed.

Lemma run_action_context now act c m x st x' st' r : context_of c m x ->
  run_action a now act x st = Some (x', st', r) -> context_of c m x'.
Proof.
  intros Hx. pose proof (consumeAck_context c m x Hx) as Hc. unfold run_action.
  destruct act; try (destruct (consumeAck x) as [x1 ack]).
  1: destruct (emitOne _ _ _ _ _ _ _) as [[? ?]|]; [|done].
  2,3: destruct (emitRoom _ _ _ _ _ _ _ _) as [? ?].
  1-3: by intros [= <- _ _].
  all: destruct (on_client _ _ _ _) as [[? ?]|]; [|done]; by intros [= <- _ _].
Qed.

Lemma run_prog_context now p c m x st x' st' r : context_of c m x ->
  run_prog a now p x st = Some (x', st', r) -> context_of c m x'.
Proof.
  revert x st. induction p as [r0|act k IH]; intros x st Hx; cbn [run_prog]; [by intros [= <- _ _]|].
  destruct (run_action a now act x st) as [[[x1 st1] r1]|] eqn:E; [|done]. cbn [mbind option_bind].
  apply IH. by apply (run_action_context now act c m x st x1 st1 r1).
Qed.

Lemma RunMiddleware_context now mw c m x st x' st' r : context_of c m x ->
  RunMiddleware a now mw x st = Some (x', st', r) -> context_of c m x'.
Proof.
  intros Hx. destruct mw; cbn [RunMiddleware]; [by intros [= <- _ _]| |by apply run_prog_context].
  rewrite (co_client _ _ _ Hx). destruct (_ <=? _); [by intros [= <- _ _]|].
  destruct (bool_decide _); [by intros [= <- _ _]|]. destruct (wop _ _); [|done]. by intros [= <- _ _].
Qed.

Lemma runMiddlewares_context now l c m x st x' st' r : context_of c m x ->
  runMiddlewares_loop a now l x st = Some (x', st', r) -> context_of c m x'.
Proof.
  revert x st. induction l as [|mw l IH]; intros x st Hx; cbn [runMiddlewares_loop]; [by intros [= <- _ _]|].
  destruct (isRecoverMiddleware mw); [by apply IH|].
  destruct (RunMiddleware a now mw x st) as [[[x1 st1] r1]|] eqn:E; [|done]. cbn [mbind option_bind].
  apply (RunMiddleware_context now mw c m x st) in E; [|done].
  destruct r1; [by apply IH|..]; by intros [= <- _ _].
Qed.

(** What a program does, without the context it leaves. *)
Definition effect (r : option (Context * state * outcome)) : option (state * outcome) :=
  '(_, st, o) ← r; Some (st, o).

(** A context whose answer is settled is as good as one without. *)
Lemma run_prog_settled now p x y st : settled x -> settled y -> ctx_client x = ctx_client y ->
  effect (run_prog a now p x st) = effect (run_prog a now p y st).
Proof.
  revert st. induction p as [r0|act k IH]; intros st Hx Hy Hc; cbn [run_prog]; [done|].
  destruct act; cbn [run_action]; rewrite ?(consumeAck_settled x Hx), ?(consumeAck_settled y Hy), <- ?Hc.
  1: destruct (emitOne _ _ _ _ _ _ _) as [[? ?]|]; [by apply IH|done].
  1,2: destruct (emitRoom _ _ _ _ _ _ _ _) as [? ?]; by apply IH.
  all: rewrite (on_client_same x y _ _ _ Hc); destruct (on_client _ _ _ _) as [[? ?]|]; [by apply IH|done].
Qed.

(** The methods that emit, and what they do under the id [ack]. *)
Definition emission (act : action) : bool :=
  match act with EmitWith _ _ _ | EmitToRoomWith _ _ _ _ | BroadcastToRoomWith _ _ _ _ => true | _ => false end.

Definition emit_under (ack : string) (act : action) (x : Context) (st : state) : option (state * bool) :=
  match act with
  | EmitWith ev data opts => emitOne a (ctx_client x) ev data ack opts st
  | EmitToRoomWith room ev data opts => Some (emitRoom a room ev data ack None opts st)
  | BroadcastToRoomWith room ev data opts => Some (emitRoom a room ev data ack (ctx_client x) opts st)
  | _ => None
  end.

End app.

Definition fields_text (m : ClientWireMessage) : Prop :=
  utf8 (Event m) /\ utf8 (Room m) /\ utf8 (ID m) /\ utf8 (IdempotencyKey m) /\
  json.value_text 1 (Payload m).

Lemma understood m : fields_text m -> Unmarshal (MarshalClient m) = Some m.
Proof. intros (?&?&?&?&?). by apply client_message_decoded. Qed.

(** The claim of a key that is not in the window succeeds. *)
Definition fresh_key (st : state) (p : sptr) (key : string) : Prop :=
  exists s, w_sess (st_world st) !! p = Some s /\ stored_key key ∉ keys.window (s_keys s).

Lemma ClaimKey_fresh s key : keys.wf (s_keys s) -> stored_key key ∉ keys.window (s_keys s) ->
  exists s', ClaimKey s key = Some (s', true).
Proof.
  intros Hwf Hn. unfold ClaimKey. destruct (keys.claim_abs (s_keys s) (stored_key key) Hwf) as (k' & -> & _).
  cbn [mbind option_bind]. eexists. unfold keys.spec_claim. destruct (_ <=? 0); [done|].
  by rewrite (bool_decide_eq_false_2 _ Hn).
Qed.

(** What lies between the middleware and the handler: the claim of the key, when
    there is a session to claim it in. *)
Definition claimed (sess : option sptr) (key : string) (st st' : state) : Prop :=
  match sess with
  | Some p => if bool_decide (key = ""%string) then st' = st else wop (OClaim p key) st = Some st'
  | None => st' = st
  end.

Definition claimable (st : state) (sess : option sptr) (key : string) : Prop :=
  match sess with Some p => key = ""%string \/ fresh_key st p key | None => True end.

(** A message that is not a duplicate runs its handler. *)
Lemma dispatch_event_handles a N now sess m h x st : bounded a N -> safe a st ->
  st_sends st + Z.of_nat N < limit -> handlers a (Event m) = Some h -> Event m <> ""%string ->
  (forall p, sess = Some p -> is_Some (w_sess (st_world st) !! p)) ->
  claimable st sess (IdempotencyKey m) ->
  exists st1 x2 st2 o, run_prog a now (h x) x st1 = Some (x2, st2, o) /\
    claimed sess (IdempotencyKey m) st st1 /\
    dispatch_event a now sess m x st
      = Some (st2, match o with Panics => Panicked | _ => Handled end).
Proof.
  intros HN Hs Hb Hh Hev Hp Hk. unfold dispatch_event. rewrite (bool_decide_eq_false_2 _ Hev), Hh.
  pose proof (bd_handlers a N HN _ h Hh x) as Hsh.
  destruct (run_prog_ok a now N (h x) x st Hsh Hs Hb) as (x2 & st2 & o & Hr & _).
  destruct sess as [p|]; cbn [claimed claimable] in *; [|exists st, x2, st2, o; by rewrite Hr].
  destruct (bool_decide (IdempotencyKey m = _)) eqn:E; [exists st, x2, st2, o; by rewrite Hr|].
  apply bool_decide_eq_false in E. destruct Hk as [|(s & Hps & Hf)]; [done|]. specialize (Hp p eq_refl).
  destruct (ClaimKey_fresh s (IdempotencyKey m) (safe_keys a st p s Hs Hps) Hf) as (s' & Hc).
  rewrite (lookup_total_correct _ _ _ Hps), Hc. cbn [mbind option_bind].
  destruct (quiet_wop (OClaim p (IdempotencyKey m)) st Hs eq_refl Hp) as (st1 & Hw & (Hs1 & Hn1 & _)); [lia|].
  rewrite Hw. cbn [mbind option_bind].
  destruct (run_prog_ok a now N (h x) x st1 Hsh Hs1) as (x3 & st3 & o3 & Hr3 & _); [lia|].
  exists st1, x3, st3, o3. by rewrite Hr3.
Qed.

(** An acknowledgement trims the replay buffer. *)
Lemma Ack_exact s log n : logged log s ->
  exists s', Ack s n = Some s' /\ s' = set_next_buf s (s_next s) (s_buf s') /\
    replay.abs (s_buf s') = if n <? s_next s then List.filter (fun e => n <? replay.seq e) (replay.abs (s_buf s))
                            else replay.abs (s_buf s).
Proof.
  intros Hl. destruct (lg_suffix _ _ Hl) as (k & Hk & Ha). unfold Ack. destruct (n <? s_next s).
  - destruct (replay.ackUpTo_abs (s_buf s) n (lg_wf _ _ Hl)) as (b' & -> & _ & _ & Ha').
    cbn [mbind option_bind]. eexists. split; [done|]. split; [done|]. cbn [s_buf set_next_buf].
    rewrite Ha', (replay.run_after (Z.of_nat k + 1)); [done|]. rewrite Ha. apply numbered_run.
  - exists s. split; [done|]. by destruct s.
Qed.

(** ** The theorems *)

(** C18: an acknowledgement does one thing: the bytes with which a client says it
    has seen the frames up to [n] make its session forget exactly the frames
    numbered up to [n], and nothing when it names a frame that was never sent.
    No application code runs, and nothing else of the server changes. *)
Theorem ack_dispatched a now c p n st :
  safe a st -> 0 <= n < 2 ^ 64 -> client.session (w_clients (st_world st) !!! c) = Some p ->
  exists s s',
    w_sess (st_world st) !! p = Some s /\
    dispatch a now c (MarshalClient (mkClientMessage EventAck "" (ack_payload n) "" "")) st
      = Some (set_world st (set_session (st_world st) p s') 0, Acked) /\
    s' = set_next_buf s (s_next s) (s_buf s') /\
    replay.abs (s_buf s') = if n <? s_next s then List.filter (fun e => n <? replay.seq e) (replay.abs (s_buf s))
                            else replay.abs (s_buf s).
Proof.
  intros Hs Hn Hp. destruct (bound_session st c p Hs Hp) as [s Hps].
  pose proof (sf_world _ Hs) as Hw. apply wsafe_good in Hw.
  destruct (so_log s (iv_sess _ (proj1 (g_inv _ Hw)) p s Hps)) as [log Hl].
  destruct (Ack_exact s log n Hl) as (s' & Ha & Es & Hb). exists s, s'. split; [done|].
  split; [|by split]. unfold dispatch. rewrite understood.
  2: { split_and!; [by vm_compute..|]. by apply ack_payload_text. }
  rewrite Hp, (bool_decide_eq_true_2 (Event _ = EventAck)) by done. unfold handleAck. cbn [Payload].
  rewrite UnmarshalSeq_ack by done. unfold wop. cbn [exec mbind option_bind].
  rewrite (lookup_total_correct _ _ _ Hps), Ha. done.
Qed.

Lemma ack_dispatched_witness :
  exists s s', w_sess (st_world demo_state) !! 0%nat = Some s /\
    dispatch demo_app 20 0%nat (MarshalClient (mkClientMessage EventAck "" (ack_payload 1) "" "")) demo_state
      = Some (set_world demo_state (set_session (st_world demo_state) 0%nat s') 0, Acked).
Proof.
  destruct (ack_dispatched demo_app 20 0%nat 0%nat 1 demo_state) as (s & s' & Hs & Hd & _);
    [exact demo_safe|lia|vm_compute; reflexivity|]. exists s, s'. exact (conj Hs Hd).
Defined.

(** A message under a key of its own. *)
Definition new_message : ClientWireMessage := mkClientMessage "chat" "" (bs "[1]") "7" "k2".

Lemma new_message_fields : fields_text new_message.
Proof.
  split_and!; [by vm_compute..|]. apply (print_text (JArr [JInt 1]) 1).
  split; [by apply Nat.ltb_lt|]. by vm_compute.
Qed.

(** What becomes of a panic: with the [Recover] middleware the client is
    disconnected, without it the process dies. *)
Definition after_panic (a : app) (c : cptr) (st : state) : option state :=
  if hasRecover a then wop (OClose c true) st else Some (crash st).

(** C10: a message reaches its handler as it was sent, with session recovery on
    or off: whatever text its fields hold and whatever JSON value its payload
    is, the middleware runs on a context with exactly its fields; a middleware
    that refuses it ends it there, and so does one that panics; otherwise the
    handler registered for its event runs once, on a context with the same
    fields and, when the client has a session and the message a key, after the
    key was claimed. A panic disconnects the client, or kills the process when
    no [Recover] middleware is installed. That is for a message with an event
    that has a handler, that is not an acknowledgement for a session, and
    whose key, if it has one, was not seen before in its session. *)
Theorem message_handled a N now c m h st :
  let sess := client.session (w_clients (st_world st) !!! c) in
  bounded a N -> safe a st -> st_sends st + (share N (middlewares a) + Z.of_nat N) < limit ->
  fields_text m -> sess = None \/ Event m <> EventAck ->
  Event m <> ""%string -> handlers a (Event m) = Some h -> claimable st sess (IdempotencyKey m) ->
  exists x st1 r,
    runMiddlewares a now (newContext (Some c) (Event m) (Payload m) (Room m) (ID m))
      (set_counts st (i64 (st_total st + 1)) (st_ever st) (st_byID st)) = Some (x, st1, r) /\
    context_of c m x /\
    match r with
    | Fails => dispatch a now c (MarshalClient m) st = Some (st1, Rejected)
    | Panics => exists st2, after_panic a c st1 = Some st2 /\
        dispatch a now c (MarshalClient m) st = Some (st2, MiddlewarePanicked)
    | Returns => exists st2 x3 st3 o,
        claimed sess (IdempotencyKey m) st1 st2 /\
        run_prog a now (h x) x st2 = Some (x3, st3, o) /\
        match o with
        | Panics => exists st4, after_panic a c st3 = Some st4 /\
            dispatch a now c (MarshalClient m) st = Some (st4, Panicked)
        | _ => dispatch a now c (MarshalClient m) st = Some (st3, Handled)
        end
    end.
Proof.
  intros sess HN Hs Hb Hm He Hne Hh Hk.
  assert (dispatch a now c (MarshalClient m) st = process a now c sess m st) as Hd.
  { rewrite dispatch_eq, (understood m Hm). cbv zeta. fold sess. destruct sess as [p|]; [|done].
    destruct He as [|He]; [done|]. by rewrite (bool_decide_eq_false_2 _ He). }
  destruct (dispatch_ok a now N c (MarshalClient m) st HN Hs Hb) as (st' & d & Ed & _).
  rewrite Hd in *. clear Hd.
  unfold process, runMiddlewares in *. set (x0 := newContext _ _ _ _ _) in *. set (st0 := set_counts _ _ _ _) in *.
  assert (context_of c m x0) as Hx0 by by constructor.
  destruct (after_counts st (i64 (st_total st + 1)) (st_ever st) (st_byID st) Hs) as (Hs0 & Hn0 & Hk0).
  pose proof (share_nonneg N (middlewares a)).
  destruct (runMiddlewares_loop_ok a now N (middlewares a) x0 st0 (bd_middlewares a N HN) Hs0)
    as (x & st1 & r & E1 & [(Hs1 & Hn1 & Hk1) Hc1]); [subst st0; lia|].
  pose proof (runMiddlewares_context a now _ c m x0 st0 x st1 r Hx0 E1) as Hx.
  rewrite E1 in *. cbn [mbind option_bind] in *. exists x, st1, r. split; [done|]. split; [done|].
  assert (forall st2 d1, (if hasRecover a then st ← wop (OClose c true) st2; Some (st, d1) else Some (crash st2, d1))
    = Some (st', d) -> after_panic a c st2 = Some st' /\ d1 = d) as Hpanic.
  { intros st2 d1. unfold after_panic. destruct (hasRecover a); [|by intros [= <- ->]].
    destruct (wop _ _); [|done]. by intros [= <- ->]. }
  destruct r; cbn [mbind option_bind] in *; [|done|].
  2: { destruct (Hpanic _ _ Ed) as [Hp <-]. exists st'. split; [exact Hp|exact Ed]. }
  destruct (dispatch_event_handles a N now sess m h x st1 HN Hs1) as (st2 & x3 & st3 & o & Hr & Hcl & Hd);
    [subst st0; lia|done|done|by intros p Hp; apply Hk1, Hk0; eapply bound_session| |].
  { clearbody sess. destruct sess as [p|]; [|done]. destruct Hk as [|(t & Ht & Hf)]; [by left|right].
    destruct (cm_keys _ _ Hc1 p t Ht) as (s1 & Hp1 & Ek). exists s1. by rewrite Ek. }
  rewrite Hd in *. cbn [mbind option_bind] in *. exists st2, x3, st3, o. split; [done|]. split; [done|].
  destruct o; [done..|]. destruct (Hpanic _ _ Ed) as [Hp <-]. exists st'. split; [exact Hp|exact Ed].
Qed.

Lemma message_handled_witness :
  exists x st1 r,
    runMiddlewares demo_app 20 (newContext (Some 0%nat) "chat" (bs "[1]") "" "7")
      (set_counts demo_state (i64 (st_total demo_state + 1)) (st_ever demo_state) (st_byID demo_state))
      = Some (x, st1, r) /\ context_of 0%nat new_message x.
Proof.
  destruct (message_handled demo_app 3 20 0%nat new_message demo_handler demo_state) as (x & st1 & r & H1 & H2 & _);
    [exact demo_bounded|exact demo_safe|vm_compute; reflexivity|exact new_message_fields|right; discriminate
    |discriminate|reflexivity| |exists x, st1, r; split; [exact H1|exact H2]].
  match goal with |- claimable _ ?s _ => replace s with (Some 0%nat) by (vm_compute; reflexivity) end.
  right. eexists. split; [vm_compute; reflexivity|]. apply (bool_decide_unpack _). vm_compute. exact I.
Defined.



End dispatching.
