(* ===== verification/Stats.v ===== *)
(** * Statistics ([stats.go], [internal/stats.go], [server.go], [internal/client.go])

    The read-only views of a running server. Go iterates over its maps in an
    order of its own: [order] gives it, for the members of a room and for the
    rooms. A ratio is a [float32], computed here with the binary32 arithmetic of
    the Standard Library. The map [connStats], which only keeps the snapshots
    last returned, is never read and is left out. *)
From Stdlib Require Import Floats.SpecFloat.
From S2P Require Import Prelude.
From S2P Require Import GoStd.
From S2P Require Import Replay.
From S2P Require Import Client.
From S2P Require Import Session.
From S2P Require Import SessionStore.
From S2P Require Import SessionInv.
From S2P Require Import Registry.
From S2P Require Import Recovery.
From S2P Require Import Hub.
From S2P Require Import Config.
From S2P Require Import Server.
From S2P Require Import ServerTables.
From S2P Require Import ServerInv.
From S2P Require Import ServerSpec.

Module stats.
Import client session store inv registry config server tables serverinv serverspec.

(** ** Connections *)

Definition float32 : Type := spec_float.
Definition float32_of_int (n : Z) : float32 := binary_normalize 24 128 n 0 false.
Definition float32_div : float32 -> float32 -> float32 := SFdiv 24 128.

Record ClientStats := mkClientStats {
  c_BytesSent : Z; c_BytesReceived : Z; c_MessagesSent : Z; c_MessagesReceived : Z;
  c_MessagesDropped : Z; c_BufferUtilization : float32; c_ConnectedAt : Z; c_LastActivity : Z
}.

Definition GetStats (w : world) (c : cptr) : ClientStats :=
  let cl := w_clients w !!! c in
  let bufferLen := len (ch_buf (send cl)) in
  let bufferCap := Z.of_nat (ch_cap (send cl)) in
  let utilization := if 0 <? bufferCap then float32_div (float32_of_int bufferLen) (float32_of_int bufferCap)
                     else float32_of_int 0 in
  let dr := match client.session cl with
            | Some p => i64 (dropped cl + s_dropped (w_sess w !!! p))
            | None => dropped cl
            end in
  mkClientStats (bytesSent cl) (bytesReceived cl) (messagesSent cl) (messagesRcvd cl) dr utilization
    (connectedAt cl) (lastActivity cl).

Record ConnectionStats := mkConnectionStats {
  ClientID : string; BytesSent : Z; BytesReceived : Z; MessagesSent : Z; MessagesReceived : Z;
  MessagesDropped : Z; SessionID : string; BufferUtilization : float32; ConnectedAt : Z;
  LastActivity : Z; RoomCount : nat
}.

Definition buildConnectionStats (st : state) (c : cptr) : ConnectionStats :=
  let w := st_world st in
  let s := GetStats w c in
  let sid := match client.session (w_clients w !!! c) with
             | Some p => s_id (w_sess w !!! p)
             | None => ""%string
             end in
  mkConnectionStats (client.id (w_clients w !!! c)) (c_BytesSent s) (c_BytesReceived s) (c_MessagesSent s)
    (c_MessagesReceived s) (c_MessagesDropped s) sid (c_BufferUtilization s) (c_ConnectedAt s)
    (c_LastActivity s) (hub.ClientRoomCount (st_hub st) (Some c)).

Definition GetConnectionStats (st : state) (clientID : string) : option ConnectionStats :=
  c ← st_byID st !! clientID; Some (buildConnectionStats st c).

(** ** The server *)

Record ServerStats := mkServerStats {
  ActiveConnections : Z; TotalConnectionsEver : Z; TotalMessagesProcessed : Z; HubEmitsDropped : Z;
  Sessions : Z; SessionsParked : Z; SessionsResumed : Z; MessagesReplayed : Z;
  DuplicatesSuppressed : Z; UptimeSince : Z
}.

Definition GetServerStats (a : app) (serverStart : Z) (st : state) : ServerStats :=
  let ss := if recovery_on a then store.Stats (st_world st) else store.mkStats 0 0 0 0 0 in
  mkServerStats (st_conns st) (st_ever st) (st_total st) (hub.emitsDropped (st_hub st))
    (store.Sessions ss) (store.Parked ss) (store.Resumed ss) (store.Replayed ss)
    (store.Duplicates ss) serverStart.

(** ** Rooms *)

Record RoomStats := mkRoomStats {
  RoomID : string; MemberCount : Z; CreatedAt : Z; Members : list string
}.

Definition visits (order : list cptr) (cs : gset cptr) : Prop := list_to_set order = cs /\ NoDup order.
#[export] Instance visits_dec order cs : Decision (visits order cs).
Proof. unfold visits. apply _. Defined.

(** [hub.RoomClients]: the live members as the iteration visits them. *)
Definition room_clients (st : state) (room : string) (order : list cptr) : option (list cptr) :=
  if decide (visits order (hub.live_members (st_world st) (st_hub st) room)) then Some order else None.

Definition client_ids (st : state) (l : list cptr) : list string :=
  map (fun c => client.id (w_clients (st_world st) !!! c)) l.

(** The outer [option] is [None] for an [order] that is not one. *)
Definition GetRoomStats (st : state) (now : Z) (room : string) (order : list cptr)
  : option (option RoomStats) :=
  if bool_decide (room = ""%string) then Some None
  else
    clients ← room_clients st room order;
    if len clients =? 0 then Some None
    else
      let created := match hub.RoomCreatedAt (st_hub st) room with Some t => t | None => now end in
      Some (Some (mkRoomStats room (len clients) created (client_ids st clients))).

Fixpoint list_rooms (st : state) (now : Z) (rooms : list (string * list cptr)) : option (list RoomStats) :=
  match rooms with
  | [] => Some []
  | (room, order) :: rooms' =>
      r ← GetRoomStats st now room order;
      l ← list_rooms st now rooms';
      Some (match r with Some rs => rs :: l | None => l end)
  end.

(** [rooms] are the rooms as [AllRooms] lists them, with the order of each. *)
Definition ListAllRooms (st : state) (now : Z) (rooms : list (string * list cptr)) : option (list RoomStats) :=
  if decide (list_to_set (map fst rooms) = hub.AllRooms (st_hub st) /\ NoDup (map fst rooms))
  then list_rooms st now rooms else None.

Definition RoomSize (st : state) (room : string) : nat := hub.RoomSize (st_world st) (st_hub st) room.

Definition identity (key : string) (cl : Client) : option string :=
  if bool_decide (key = ""%string) then Some (client.id cl)
  else match MetaGet cl key with
       | Some (AnyString i) => if bool_decide (i = ""%string) then None else Some i
       | Some (AnyOther _) | None => None
       end.
Definition RoomIdentities (a : app) (st : state) (room : string) (order : list cptr) : option (list string) :=
  clients ← room_clients st room order;
  Some (omap (M := list) (fun c => identity (IdentityKey (a_cfg a)) (w_clients (st_world st) !!! c)) clients).

(** ** Counting sessions *)

Definition open_sessions (w : world) : gmap sptr Session :=
  filter (fun ps => s_state ps.2 <> stateClosed) (w_sess w).
Definition parked_sessions (w : world) : gmap sptr Session :=
  filter (fun ps => s_state ps.2 = stateParked) (w_sess w).

(** Two ways to list the same keys. *)
Lemma size_keys (m : gmap sptr Session) (l : list sptr) :
  NoDup l -> (forall p, p ∈ l <-> is_Some (m !! p)) -> len l = Z.of_nat (size m).
Proof.
  intros Hn Hl. unfold len. f_equal. rewrite <- size_dom. rewrite <- (size_list_to_set (C := gset sptr) l Hn).
  f_equal. apply set_eq. intros p. by rewrite elem_of_list_to_set, elem_of_dom.
Qed.

Lemma sessions_counted w : core w -> Z.of_nat (size (sessions (w_store w))) = Z.of_nat (size (open_sessions w)).
Proof.
  intros Hw. rewrite <- (size_keys (open_sessions w) (map snd (map_to_list (sessions (w_store w))))).
  - unfold len. by rewrite length_map, length_map_to_list.
  - apply NoDup_fmap_2_strong; [|apply NoDup_map_to_list].
    intros [i p] [j q] Hi Hj. cbn. intros <-. apply elem_of_map_to_list in Hi, Hj.
    destruct (iv_index w Hw i p Hi) as (s & Hs & <- & _). destruct (iv_index w Hw j p Hj) as (t & Ht & <- & _).
    congruence.
  - intros p. change (map snd ?l) with (snd <$> l). rewrite list_elem_of_fmap. split.
    + intros ([i q] & -> & Hi%elem_of_map_to_list). destruct (iv_index w Hw i q Hi) as (s & Hs & _ & Ho).
      exists s. by apply map_lookup_filter_Some.
    + intros [s [Hs Ho]%map_lookup_filter_Some]. exists (s_id s, p). split; [done|].
      apply elem_of_map_to_list. by apply (iv_open w Hw).
Qed.

Lemma parked_counted w : core w -> len (parked (w_store w)) = Z.of_nat (size (parked_sessions w)).
Proof.
  intros Hw. rewrite <- (size_keys (parked_sessions w) (map snd (parked (w_store w)))); [by rewrite len_map| |].
  - pose proof (iv_nodup w Hw) as Hn. apply NoDup_fmap_1 in Hn. apply NoDup_fmap_2_strong; [|done].
    intros [e p] [e' q] He He'. cbn. intros <-. apply (iv_list w Hw) in He as (s & Hs & Es), He' as (t & Ht & Et).
    congruence.
  - intros p. change (map snd ?l) with (snd <$> l). rewrite list_elem_of_fmap. split.
    + intros ([e q] & -> & (s & Hs & Es)%(iv_list w Hw)). exists s. apply map_lookup_filter_Some.
      split; [done|]. cbn. apply (so_elem s (iv_sess w Hw q s Hs)). by eexists.
    + intros [s [Hs Ho]%map_lookup_filter_Some]. cbn in Ho.
      apply (so_elem s (iv_sess w Hw p s Hs)) in Ho as [e Ee]. exists (e, p). split; [done|].
      apply (iv_list w Hw). by exists s.
Qed.

Lemma visits_size order cs : visits order cs -> len order = Z.of_nat (size cs).
Proof. intros [<- Hn]. unfold len. by rewrite (size_list_to_set (C := gset cptr)). Qed.

Lemma visits_elem order cs c : visits order cs -> c ∈ order <-> c ∈ cs.
Proof. intros [<- _]. by rewrite elem_of_list_to_set. Qed.

Lemma GetRoomStats_visits st now room order r : GetRoomStats st now room order = Some r ->
  (room = ""%string /\ r = None) \/
  (room <> ""%string /\ visits order (hub.live_members (st_world st) (st_hub st) room) /\
   match r with
   | None => RoomSize st room = 0%nat
   | Some rs => RoomID rs = room /\ MemberCount rs = Z.of_nat (RoomSize st room) /\ RoomSize st room <> 0%nat /\
       Members rs = client_ids st order /\
       (forall t, hub.RoomCreatedAt (st_hub st) room = Some t -> CreatedAt rs = t)
   end).
Proof.
  unfold GetRoomStats. case_bool_decide as Hr; [intros [= <-]; by left|]. unfold room_clients.
  destruct (decide (visits order _)) as [Hv|]; [|done]. cbn [mbind option_bind].
  pose proof (visits_size _ _ Hv) as Hsz. fold (hub.RoomSize (st_world st) (st_hub st) room) in Hsz.
  fold (RoomSize st room) in Hsz. destruct (Z.eqb_spec (len order) 0) as [Hz|Hz]; intros [= <-]; right.
  - split_and!; [done|done|lia].
  - split_and!; try done; try lia. intros t E. cbn. by rewrite E.
Qed.

Lemma room_listed st room : RoomSize st room <> 0%nat -> room ∈ hub.AllRooms (st_hub st).
Proof.
  unfold RoomSize, hub.RoomSize, hub.AllRooms. intros Hs. apply elem_of_dom.
  destruct (hub.rooms (st_hub st) !! room) as [m|] eqn:E; [by eexists|]. destruct Hs.
  assert (hub.live_members (st_world st) (st_hub st) room = ∅) as ->; [|by rewrite size_empty].
  apply set_eq. intros c. unfold hub.live_members. rewrite elem_of_filter.
  rewrite (hub.members_none _ _ E). set_solver.
Qed.

Lemma list_rooms_spec st now rooms l : list_rooms st now rooms = Some l -> NoDup (map fst rooms) ->
  (forall rs, rs ∈ l -> RoomID rs ∈ map fst rooms /\ RoomID rs <> ""%string /\
     MemberCount rs = Z.of_nat (RoomSize st (RoomID rs)) /\ RoomSize st (RoomID rs) <> 0%nat) /\
  (forall room, room ∈ map fst rooms -> room <> ""%string -> RoomSize st room <> 0%nat ->
     room ∈ map RoomID l) /\
  NoDup (map RoomID l).
Proof.
  revert l. induction rooms as [|[room order] rooms IH]; intros l; cbn [list_rooms map fst].
  { intros [= <-] _. split; [by intros rs ?%not_elem_of_nil|]. split; [by intros r ?%not_elem_of_nil|constructor]. }
  destruct (GetRoomStats st now room order) as [r|] eqn:Er; [|done]. cbn [mbind option_bind].
  destruct (list_rooms st now rooms) as [l'|]; [|done]. cbn [mbind option_bind]. intros [= <-].
  intros [Hni Hn]%NoDup_cons. destruct (IH l' eq_refl Hn) as (H1 & H2 & H3). apply GetRoomStats_visits in Er.
  assert (forall x, x ∈ map RoomID l' -> x ∈ map fst rooms) as Hsub.
  { intros x (rs & -> & Hin)%list_elem_of_fmap. by apply H1. }
  destruct Er as [[-> ->]|(Hne & Hv & Hr)].
  - split_and!; [|intros x [->|Hx]%elem_of_cons Hx'; [done|by apply H2]|done].
    intros rs Hin. destruct (H1 rs Hin) as (? & ? & ?). split; [by apply elem_of_cons; right|done].
  - destruct r as [rs|].
    + destruct Hr as (Hid & Hc & Hz & _ & _). split_and!.
      * intros rs' [->|Hin]%elem_of_cons; [rewrite Hid; split_and!; [apply elem_of_cons; by left|done..]|].
        destruct (H1 rs' Hin) as (? & ? & ?). split; [by apply elem_of_cons; right|done].
      * intros x [->|Hx]%elem_of_cons ? ?; cbn [map]; apply elem_of_cons; [by left|right; by apply H2].
      * cbn [map]. apply NoDup_cons. split; [rewrite Hid; by intros ?%Hsub|done].
    + split_and!; [|intros x [->|Hx]%elem_of_cons ? ?; [done|by apply H2]|done].
      intros rs Hin. destruct (H1 rs Hin) as (? & ? & ?). split; [by apply elem_of_cons; right|done].
Qed.

(** ** The theorems *)

(** C23: the aggregate numbers are the real ones: after any run from which no
    panic escaped, the active connections are the connections in the table;
    they exceed [MaxConnections] by less than the number [M] of connections
    that are admitted at the same moment, so not at all when they come one by
    one. With recovery on, the sessions are the open session objects, the
    parked ones are those in the parked state, and they respect their cap. *)
Theorem server_stats_exact a N M l st start :
  bounded a N -> events_ok a l (New a) -> total_cost a N l < limit -> conns_ok a M l (New a) ->
  0 <= MaxConnections (a_cfg a) -> (1 <= M)%nat -> MaxConnections (a_cfg a) + Z.of_nat M < 2 ^ 63 ->
  run a l (New a) = Some st -> st_crashed st = false ->
  let s := GetServerStats a start st in
  ActiveConnections s = Z.of_nat (size (st_byID st)) /\
  ActiveConnections s <= MaxConnections (a_cfg a) + (Z.of_nat M - 1) /\
  (recovery_on a = true ->
   Sessions s = Z.of_nat (size (open_sessions (st_world st))) /\
   SessionsParked s = Z.of_nat (size (parked_sessions (st_world st))) /\
   SessionsParked s <= MaxParked (opt (w_store (st_world st)))).
Proof.
  intros HN Hok Hb Hconn Hmin HM Hmax Hr Hcr s.
  destruct (safe_run_ok a N l (New a) HN (New_safe a) Hok) as (st' & Hr' & [Hw _] & _).
  { by change (st_sends (New a)) with 0. }
  rewrite Hr in Hr'. injection Hr' as <-. apply wsafe_good in Hw. destruct (g_inv _ Hw) as [Hcore Hcap].
  destruct (run_counted a M Hmax l (New a) st) as [|[H1 H2 _]]; [by apply New_counted|done|done|congruence|].
  split; [done|]. split; [unfold s; cbn [ActiveConnections GetServerStats]; lia|]. intros Hrec. unfold s, GetServerStats. rewrite Hrec.
  cbn [Sessions SessionsParked store.Stats store.Sessions store.Parked].
  split; [by apply sessions_counted|]. split; [by apply parked_counted|done].
Qed.

(** A run of the concrete application that ends without a crash. *)
Definition demo_end : state := default (New demo_app) (run demo_app demo_events (New demo_app)).

Lemma demo_end_run : run demo_app demo_events (New demo_app) = Some demo_end.
Proof. vm_compute. reflexivity. Qed.

Lemma server_stats_exact_witness :
  let s := GetServerStats demo_app 0 demo_end in
  ActiveConnections s <= MaxConnections demo_cfg + 1 /\
  SessionsParked s <= MaxParked (opt (w_store (st_world demo_end))).
Proof.
  destruct (server_stats_exact demo_app 3 2 demo_events demo_end 0) as (_ & H1 & H2);
    [exact demo_bounded|apply events_okb_sound; vm_compute; reflexivity|vm_compute; reflexivity
    |apply conns_okb_sound; vm_compute; reflexivity|vm_compute; congruence|lia|vm_compute; reflexivity|exact demo_end_run
    |vm_compute; reflexivity|].
  split; [exact H1|exact (proj2 (proj2 (H2 eq_refl)))].
Defined.

(** The concrete server while its client is in the room [r]. *)
Definition busy_state : state := default (New demo_app) (run demo_app (take 6 demo_events) (New demo_app)).

(** C38: the statistics of rooms are the members at that moment, in whatever
    order the maps are visited: a room is listed exactly when somebody who is
    not parked is in it, once, with the number of such members. *)
Theorem rooms_listed st now rooms l :
  ListAllRooms st now rooms = Some l ->
  NoDup (map RoomID l) /\
  (forall room, room <> ""%string -> room ∈ map RoomID l <-> RoomSize st room <> 0%nat) /\
  (forall rs, rs ∈ l -> MemberCount rs = Z.of_nat (RoomSize st (RoomID rs))).
Proof.
  unfold ListAllRooms. destruct (decide _) as [[Hall Hn]|]; [|done]. intros Hl.
  destruct (list_rooms_spec st now rooms l Hl Hn) as (H1 & H2 & H3). split; [done|]. split.
  - intros room Hne. split.
    + intros (rs & -> & Hin)%list_elem_of_fmap. by apply H1.
    + intros Hs. apply H2; [|done|done]. apply room_listed in Hs. rewrite <- Hall in Hs.
      by apply elem_of_list_to_set in Hs.
  - intros rs Hin. by apply H1.
Qed.

Lemma rooms_listed_witness :
  exists l, ListAllRooms busy_state 50 [("r"%string, [0%nat])] = Some l /\
    NoDup (map RoomID l) /\ "r"%string ∈ map RoomID l.
Proof.
  destruct (ListAllRooms busy_state 50 [("r"%string, [0%nat])]) as [l|] eqn:E; [|vm_compute in E; discriminate E].
  exists l. split; [done|]. destruct (rooms_listed busy_state 50 _ l E) as (H1 & H2 & _). split; [exact H1|].
  apply H2; [discriminate|vm_compute; discriminate].
Defined.

(** The identities of a room are those of its live members: with no identity
    key their names, otherwise the non-empty strings stored under the key. *)
Theorem identities_exact a st room order l i :
  RoomIdentities a st room order = Some l ->
  i ∈ l <-> exists c, c ∈ hub.live_members (st_world st) (st_hub st) room /\
    identity (IdentityKey (a_cfg a)) (w_clients (st_world st) !!! c) = Some i.
Proof.
  unfold RoomIdentities, room_clients. destruct (decide _) as [Hv|]; [|done]. cbn [mbind option_bind].
  intros [= <-]. rewrite list_elem_of_omap. split; intros (c & Hc & Hi); exists c; (split; [|done]).
  - by apply (visits_elem _ _ _ Hv).
  - by apply (visits_elem _ _ _ Hv).
Qed.

Lemma identities_exact_witness :
  exists l, RoomIdentities demo_app busy_state "r" [0%nat] = Some l /\ "c0"%string ∈ l.
Proof.
  destruct (RoomIdentities demo_app busy_state "r" [0%nat]) as [l|] eqn:E; [|vm_compute in E; discriminate E].
  exists l. split; [done|]. apply (identities_exact demo_app busy_state "r" [0%nat] l "c0" E).
  exists 0%nat. split; [apply (bool_decide_unpack _); vm_compute; exact I|vm_compute; reflexivity].
Defined.

(** The statistics of a connection that is in the table are those of the client
    of that name. *)
Lemma connection_stats_named a M st id cs : counted a M st -> GetConnectionStats st id = Some cs ->
  ClientID cs = id /\ is_Some (st_byID st !! id).
Proof.
  intros Hct. unfold GetConnectionStats. destruct (st_byID st !! id) as [c|] eqn:E; [|done].
  intros [= <-]. split; [|by eexists]. by apply (ct_ids a M st Hct).
Qed.

End stats.
