(* ===== verification/Anomalies.v ===== *)
(** * What the composed server does that its documentation does not say

    Concrete runs of the server of [Server.v] on the application of
    [ServerTables.v], where the behaviour of the code differs from what its
    comments promise. *)
From S2P Require Import Prelude.
From S2P Require Import GoStd.
From S2P Require Import Json.
From S2P Require Import Replay.
From S2P Require Import Client.
From S2P Require Import Session.
From S2P Require Import SessionStore.
From S2P Require Import Registry.
From S2P Require Import Hub.
From S2P Require Import Config.
From S2P Require Import Server.
From S2P Require Import ServerTables.

Module anomalies.
Import client session store registry config server tables.

(** A handshake that names a session and a sequence number. *)
Definition resume_of (token seq : string) : option HttpRequest :=
  Some (mkHttp (fun k => if bool_decide (k = HeaderSession) then token
                         else if bool_decide (k = HeaderSeq) then seq else ""%string) (fun _ => ""%string)).

Definition client_of (st : state) (c : cptr) : Client := w_clients (st_world st) !!! c.
Definition session_of (st : state) (p : sptr) : Session := w_sess (st_world st) !!! p.

(** A peer that asks to resume a session from a frame that was never sent
    closes it while its client is connected: that client is not shut down, no
    callback says the session is gone, and what is emitted to the client from
    then on is neither queued nor refused. *)
Theorem refused_resume_orphans :
  exists st st',
    run demo_app [EvAdmit; EvConnect 0 0%nat "c0" None "s0"; EvAdmit; EvConnect 10 1%nat "c1" (resume_of "s0" "99") "s1"]
      (New demo_app) = Some st /\
    shutdownDone (client_of st 0%nat) = false /\ st_byID st !! "c0"%string = Some 0%nat /\
    s_state (session_of st 0%nat) = stateClosed /\ st_expired st = [] /\
    emitOne demo_app (Some 0%nat) "lost" (Some JNull) "" no_options st = Some (st', false) /\
    send (client_of st' 0%nat) = send (client_of st 0%nat) /\ st_slow st' = st_slow st.
Proof.
  do 2 eexists. split; [vm_compute; reflexivity|]. split; [reflexivity|]. split; [reflexivity|].
  split; [reflexivity|]. split; [reflexivity|]. split; [vm_compute; reflexivity|]. by split.
Qed.

(** A parked session whose time has run out is reported as expired by a sweep,
    and not when a late resume finds it before the sweep. *)
Theorem expired_resume_unreported :
  exists parked swept resumed,
    run demo_app [EvAdmit; EvConnect 0 0%nat "c0" None "s0"; EvReadEnd 10 0%nat false] (New demo_app)
      = Some parked /\
    run demo_app [EvSweep 1000] parked = Some swept /\ length (st_expired swept) = 1%nat /\
    run demo_app [EvAdmit; EvConnect 1000 1%nat "c1" (resume_of "s0" "0") "s1"; EvSweep 1000] parked = Some resumed /\
    s_state (session_of resumed 0%nat) = stateClosed /\ st_expired resumed = [].
Proof.
  do 3 eexists. split; [vm_compute; reflexivity|]. split; [vm_compute; reflexivity|]. split; [reflexivity|].
  split; [vm_compute; reflexivity|]. by split.
Qed.

(** An emission that does not marshal uses the answer up: the message is never
    answered under its id, although the handler is told and may emit again. *)
Theorem failed_emit_burns_ack (a : app) now ev ev' opts v st c :
  let x := newContext (Some c) "chat" [] "" "7" in
  let retry := Act (EmitWith ev None opts) (fun _ => Act (EmitWith ev' (Some v) opts) (fun _ => Done Returns)) in
  run_prog a now retry x st =
    ('(st', failed) ← emitOne a (Some c) ev' (Some v) "" opts st;
     Some (mkContext (Some c) "chat" "" [] "7" true, st', Returns)).
Proof.
  intros x retry. unfold retry. cbn [run_prog run_action].
  set (used := mkContext (Some c) "chat" "" [] "7" true).
  rewrite (eq_refl : consumeAck x = (used, "7"%string)).
  rewrite (eq_refl : emitOne a (ctx_client used) ev None "7" opts st = Some (st, true)). cbn [mbind option_bind].
  rewrite (eq_refl : consumeAck used = (used, ""%string)). change (ctx_client used) with (Some c).
  by destruct (emitOne a (Some c) ev' (Some v) "" opts st) as [[? ?]|].
Qed.

(** Middleware runs for the end of a connection too, after the hub has forgotten
    the client. One that puts every client in a room puts it back: the client is
    counted in the room, listed and sent to, and nothing removes it. *)
Definition lobby_app : app :=
  mkApp (normalized (mkConfig "" 0 0 0 0 0 0 0 0 false (mkRecovery false 0 0 0 0 0) 0)) None
    [MiddlewareFunc (fun _ => Act (JoinRoom "lobby") (fun _ => Done Returns))] (fun _ => None) [] [] [].

Theorem disconnect_join_leaks :
  exists st, run lobby_app [EvAdmit; EvConnect 0 0%nat "c0" None ""; EvReadEnd 10 0%nat false] (New lobby_app)
      = Some st /\
    st_conns st = 0 /\ st_byID st = ∅ /\ hub.clients (st_hub st) = ∅ /\
    shutdownDone (client_of st 0%nat) = true /\ hub.RoomSize (st_world st) (st_hub st) "lobby" = 1%nat.
Proof. eexists. split; [vm_compute; reflexivity|]. by split_and!; vm_compute. Qed.

End anomalies.
